(* ===== verification/_CoqProject ===== *)
-Q . S2P
Prelude.v
F64.v
Json.v
Text.v
Store.v
Memory.v
StateModel.v
Durable.v
Restore.v
DurableProps.v
Governor.v
GovernorProps.v
Calendar.v
Amount.v
Spending.v
SpendingProps.v
Cron.v
CronProps.v
Breaker.v
Tasks.v
Timers.v
Failover.v
Workflow.v
Graph.v
GraphProps.v
Engine.v
EngineProps.v
Principals.v
Resolver.v
AccessProps.v
Chain.v
ChainProps.v
ChainCrash.v
ChainRecords.v
ChainLife.v
ChainOps.v
ChainOpen.v
ChainTheorems.v
Ssrf.v
Bytes.v
Base58.v
Ed25519.v
Sha256.v
Svm.v
SvmProps.v
PayLedger.v
PayLedgerProps.v
Webhooks.v
JsonSchema.v
JsonSchemaProps.v
Streams.v
StreamsProps.v
Events.v
EventsProps.v
PayPolicy.v
PayPolicyProps.v
Vault.v
VaultProps.v
Delegation.v
DelegationProps.v
