(* ===== verification/Prelude.v ===== *)
(** * agentd: a verification library of the supervisor's decision logic

    agentd runs workflows of agents under an operator's rules.  Its threads,
    sockets and processes carry out what a set of deciding components answer;
    those components are what is modelled here, each from its file under
    [src/crates/agentd/src/] (or [src/crates/net/src/]), with the theorems that
    make it correct.

    ** The parts, and where they are modelled

    - Foundations.  [Prelude]: results, the state-and-error monad, machine
      integers, maps in key order, lists.  [F64]: double precision.  [Json]:
      [serde_json::Value] and the codecs of serde derives.  [Text]: string
      operations.  [Bytes]: [b64.rs], [to_hex], [ct_eq], byte orders.
    - Durability.  [Store] ([store/mod.rs]) is the contract of four
      operations, a class [Store] with its laws [StoreOk]; [Memory]
      ([store/memory.rs]) an instance of both.  [StateModel], [Durable] and
      [Restore] ([state/mod.rs]) are the records, the single writer's facade
      and the restore over any store; [DurableProps] their theorems.
    - Runs.  [Workflow], [Graph], [GraphProps] ([engine/model.rs]): a
      definition, its checks, what an accepted one is.  [Engine],
      [EngineProps] ([engine/run.rs]): a run's record and the scheduler.
      [Tasks] ([a2a/tasks.rs]), [Timers] ([runtime/timers.rs]), [Cron],
      [CronProps] ([triggers/timer.rs]), [Breaker] ([runtime/breaker.rs]).
    - Events.  [Streams], [StreamsProps] ([runtime/streams.rs]): named streams
      in the durable store.  [Events], [EventsProps]
      ([runtime/mcp_events/]): occurrences that MCP servers deliver, appended
      to streams once.  [Webhooks] ([sec/stdwebhooks.rs], the listener half
      of [mcp_events/hook.rs]): which deliveries reach them.
    - Budgets.  [Governor], [GovernorProps] ([governor/mod.rs]): tokens and
      requests.  [Amount], [Calendar], [Spending], [SpendingProps]
      ([spending.rs]): allowances.  [Failover] ([intel/]): which model
      endpoint answers.
    - Payments.  [PayPolicy], [PayPolicyProps] ([payments/policy.rs] and the
      formats it reads): which entry of an offer is paid.  [PayLedger],
      [PayLedgerProps] ([payments/ledger.rs]): one record per payment.
      [Base58], [Ed25519], [Svm], [SvmProps] ([payments/svm.rs]): what is
      signed on Solana.
    - Access.  [Principals], [Resolver], [AccessProps] ([a2a/principals/],
      [runtime/surface/auth.rs]): who a caller is and what it may do.
      [Ssrf] ([net/src/ssrf.rs]): which addresses may be dialled.
      [JsonSchema], [JsonSchemaProps] ([jsonschema.rs]): what an argument
      may be.
    - Acting for people.  [Vault], [VaultProps] ([auth/seal.rs],
      [delegation/vault.rs]): the sealed grants and the register of revoked
      ones.  [Delegation], [DelegationProps] ([delegation/mod.rs],
      [unattended.rs]): whom a call acts for, and which calls are admitted.
    - The audit log.  [Sha256] ([sha.rs]).  [Chain] ([obs/chain.rs]): the
      hash-chained segments; [ChainProps], [ChainCrash], [ChainRecords],
      [ChainLife], [ChainOps], [ChainOpen] build up to [ChainTheorems].

    They meet at interfaces.  Every durable component ([Timers], [Spending],
    [PayLedger], [Streams], [Events], [Vault]) is a client of [Durable], and
    [Durable] of the class [Store]: its theorems hold of any store with the
    laws [StoreOk], which [Memory.memory_ok] discharges and every witness runs
    on.  [Events] appends through [Streams]; [PayPolicy] counts what
    [PayLedger] holds and asks [Spending]; [Engine] runs what [Graph]
    accepts; [Resolver] names the principals of [Principals].  [Vault] uses
    the audit chain through the class [AnchorLog] with its laws
    [AnchorLogOk], which [VaultProps.WorldLog.world_log_ok] discharges with
    the chain of [Chain].  The listener's sessions are the class
    [Delegation.SessionBook]; the addresses of [std::net] are the class of
    [Ssrf].

    ** How code is read

    A definition keeps the source's name; two uses of a name are told apart by
    their Module or file, and a keyword takes a trailing underscore.  A method
    with interior mutability is a function from the receiver to the receiver
    it leaves and its result ([stM]): what it changed before an error stays
    changed.  An error is a constructor with the values its text shows; texts
    of errors, log lines, metrics, test kill points and sleeps are left out.
    A method whose body is under one lock is one step.  A clock is either an
    argument [now], one reading per operation, or the class [Clock] of
    readings by tick, where an operation reads it more than once ([Durable]).
    Random draws, span and carrier fields are arguments.

    Integers are [Z] at their width: [+] and [*] wrap, as the release profile
    leaves overflow checks off; [saturating_] and [checked_] forms are written
    out.  A [BTreeMap] is a [gmap string], iterated in key order by [entries]
    and [vals]; a [Vec] is a list.  Text is the bytes of a [string]; white
    space and case beyond ASCII are not folded.  A serde derive is the pair
    [to_value], [from_value] on an object; an unknown field is ignored, a
    missing [Option] is [None].

    Code that is not in the repository is a parameter: the CEL evaluator
    ([Engine.Cel]), the text of JSON ([Chain.JsonText], with the laws
    [JsonTextOk] that printing is read back and has no line feed), its length
    ([JsonLen]), Keccak-256, AES-256-GCM ([Seal.Aead]), the external signer,
    the resolver of names and the connection of a socket, secret references,
    loopback tests, session and token checks.  SHA-256 is modelled and proved
    of its own in [Sha256]; a client that needs only that it is a function
    (or, where a theorem says so, that it has no collisions) takes it as a
    parameter ([Sha], [Sha256]).  The audit chain's disk is its files' bytes
    with what was flushed of the open one, under a list [io] of outcomes that
    lets any call fail or leave a part of its work.

    ** What the theorems show

    - Nothing durable is lost or done twice: a restore returns every live
      record ([DurableProps]); an event, a timer, a charge, a payment, an
      append that was answered is there in the next life, whatever the crash
      ([DurableProps], [Timers], [SpendingProps], [PayLedgerProps],
      [StreamsProps], [EventsProps]), under [on_error: halt] where a failed
      write would otherwise be reported as made; what is in a binding's dedup
      set is not appended again; a second writer stops; the audit chain
      recovers from every crash and shows every tampering ([ChainTheorems]);
      a revoked grant stays revoked though the store is put back
      ([VaultProps]).
    - Limits hold under every sequence of operations: tokens
      ([GovernorProps]), allowances ([SpendingProps]), caps
      ([PayPolicyProps]).
    - Who may do what: operators, gates, grants' keys ([AccessProps]),
      delegated calls ([DelegationProps]), deliveries ([Webhooks]), addresses
      ([Ssrf]).
    - Procedures decide what they are named for: the graph checks against
      [well_formed], the scheduler against the runnable steps, cron fields
      against the terms as they are written and a calendar counted day by day
      ([CronProps]), the cron search, the breaker against its state machine,
      the schema validator against validity, the point check against
      decompression, the address classifier against the documented prefixes.
    - Formats: civil dates, base58, Solana messages, accounts, sealed records
      read back.
    - What is found not to hold is a lemma beside the code it is about, and
      in the manifest's findings.

    ** Fuel and bounds

    Where the code loops under a condition, the model takes fuel and a lemma
    says that it is enough: the scheduler three rounds per step
    ([EngineProps.schedule_returns]), reachability one per edge, the
    dependency order one per step, the cron search its own horizon of four
    years of minutes, a cron field 65 fills of 64 bits, base58 32 halvings of
    a [u32] carry, a compact-u16 three bytes, field arithmetic its own fixed
    turns, SHA-256 its padding of at most 63 bytes.  The retry of a write (2),
    the probes of a stream's head (1024), the trims by age (8 an append) and
    the depth of a schema (64) are the program's own limits.

    ** What is not modelled

    The reactor, the step executor and the agent loop move messages and bytes
    between the components above; HTTP, MCP and A2A wire code, OAuth and OIDC
    exchanges, processes, signals, cgroups and confinement act on the system;
    metrics, traces, documents and help texts decide nothing.  The parsing of
    the configuration is modelled where a component reads a setting.  Of
    delegation, the requests to identity providers (the exchange of tokens,
    step-up, back-channel approval) and the pool of minted tokens are not
    modelled.  Payments are modelled up to the signature.  The manifest lists
    each part with its reason. *)

From Stdlib Require Export ZArith Lia ZifyBool.
From Stdlib Require Ascii.
Export (notations) Ascii.
From stdpp Require Export base tactics option list strings pretty gmap fin_maps sorting.

#[global] Set Default Goal Selector "!".

(** ** Notation scope *)

Declare Scope agentd_scope.
Delimit Scope agentd_scope with agentd.
Open Scope agentd_scope.

(** ** Results

    Rust's [Result<A, E>].  [Ok] and [Err] keep the source's names. *)

Inductive result (E A : Type) : Type :=
  | Ok (a : A)
  | Err (e : E).
Arguments Ok {E A} a.
Arguments Err {E A} e.

#[export] Instance result_eq_dec {E A} `{EqDecision E, EqDecision A} :
  EqDecision (result E A).
Proof. solve_decision. Defined.

Definition is_ok {E A} (r : result E A) : bool :=
  match r with Ok _ => true | Err _ => false end.

Definition ok {E A} (r : result E A) : option A :=
  match r with Ok a => Some a | Err _ => None end.

Definition map_err {E F A} (f : E -> F) (r : result E A) : result F A :=
  match r with Ok a => Ok a | Err e => Err (f e) end.

Definition ok_or {E A} (e : E) (o : option A) : result E A :=
  match o with Some a => Ok a | None => Err e end.

#[export] Instance result_ret E : MRet (result E) := fun A a => Ok a.
#[export] Instance result_bind E : MBind (result E) := fun A B f r =>
  match r with Ok a => f a | Err e => Err e end.

(** ** The state-and-error monad

    A method [fn f(&self, ..) -> Result<A, E>] whose receiver has interior
    mutability is a function from the receiver's state to the state it
    leaves and its result: an [Err] keeps the changes made before it, as
    Rust does. *)

Definition stM (S E A : Type) : Type := S -> S * result E A.

#[export] Instance stM_ret S E : MRet (stM S E) := fun A a s => (s, Ok a).
#[export] Instance stM_bind S E : MBind (stM S E) := fun A B f m s =>
  match m s with
  | (s', Ok a) => f a s'
  | (s', Err e) => (s', Err e)
  end.

Section monad_operations.
Context {S E : Type}.

Definition throw {A} (e : E) : stM S E A := fun s => (s, Err e).
(** A step written on the state itself. *)
Definition act {A} (f : S -> S * result E A) : stM S E A := f.
Definition gets {A} (f : S -> A) : stM S E A := fun s => (s, Ok (f s)).
Definition modify (f : S -> S) : stM S E unit := fun s => (f s, Ok tt).
(** [match m { .. }]: the result as a value, nothing propagated. *)
Definition attempt {A} (m : stM S E A) : stM S E (result E A) :=
  fun s => let '(s', r) := m s in (s', Ok r).
(** [r?] on a pure result. *)
Definition lift {A} (r : result E A) : stM S E A := fun s => (s, r).

(** A pre- and postcondition of a method, over its state and its result. *)
Definition hoare {A} (P : S -> Prop) (m : stM S E A)
    (Q : result E A -> S -> Prop) : Prop :=
  forall s, P s -> Q (m s).2 (m s).1.

Lemma hoare_conseq {A} (P P' : S -> Prop) (m : stM S E A) (Q Q' : result E A -> S -> Prop) :
  hoare P' m Q' -> (forall s, P s -> P' s) -> (forall r s, Q' r s -> Q r s) ->
  hoare P m Q.
Proof. unfold hoare. eauto. Qed.

Lemma hoare_ret {A} (a : A) (Q : result E A -> S -> Prop) :
  hoare (Q (Ok a)) (mret a) Q.
Proof. unfold hoare, mret, stM_ret. eauto. Qed.

Lemma hoare_throw {A} (e : E) (Q : result E A -> S -> Prop) :
  hoare (Q (Err e)) (throw e) Q.
Proof. unfold hoare, throw. eauto. Qed.

Lemma hoare_gets {A} (f : S -> A) (Q : result E A -> S -> Prop) :
  hoare (fun s => Q (Ok (f s)) s) (gets f) Q.
Proof. unfold hoare, gets. eauto. Qed.

Lemma hoare_modify (f : S -> S) (Q : result E unit -> S -> Prop) :
  hoare (fun s => Q (Ok tt) (f s)) (modify f) Q.
Proof. unfold hoare, modify. eauto. Qed.

Lemma hoare_bind {A B} (P : S -> Prop) (m : stM S E A) (f : A -> stM S E B)
    (R : result E A -> S -> Prop) (Q : result E B -> S -> Prop) :
  hoare P m R ->
  (forall a, hoare (R (Ok a)) (f a) Q) ->
  (forall e s, R (Err e) s -> Q (Err e) s) ->
  hoare P (m ≫= f) Q.
Proof.
  unfold hoare, mbind, stM_bind. intros Hm Hf He s HP.
  specialize (Hm s HP). destruct (m s) as [s' [a|e]]; simpl in *; [by apply Hf|by apply He].
Qed.

Lemma hoare_attempt {A} (P : S -> Prop) (m : stM S E A) (R : result E A -> S -> Prop)
    (Q : result E (result E A) -> S -> Prop) :
  hoare P m R -> (forall r s, R r s -> Q (Ok r) s) ->
  hoare P (attempt m) Q.
Proof.
  unfold hoare, attempt. intros Hm HQ s HP. specialize (Hm s HP).
  destruct (m s) as [s' r]; simpl in *; eauto.
Qed.

(** A method that keeps an invariant whatever it returns. *)
Definition preserves {A} (I : S -> Prop) (m : stM S E A) : Prop :=
  hoare I m (fun _ => I).

Lemma preserves_bind {A B} I (m : stM S E A) (f : A -> stM S E B) :
  preserves I m -> (forall a, preserves I (f a)) -> preserves I (m ≫= f).
Proof. intros Hm Hf. apply hoare_bind with (R := fun _ => I); auto. Qed.

Lemma preserves_ret {A} I (a : A) : preserves I (mret a : stM S E A).
Proof. unfold preserves, hoare, mret, stM_ret; auto. Qed.

Lemma preserves_throw {A} I e : preserves I (throw e : stM S E A).
Proof. unfold preserves, hoare, throw; auto. Qed.

Lemma preserves_gets {A} I (f : S -> A) : preserves I (gets f).
Proof. unfold preserves, hoare, gets; auto. Qed.

Lemma preserves_lift {A} I (r : result E A) : preserves I (lift r).
Proof. unfold preserves, hoare, lift; auto. Qed.

Lemma preserves_modify (I : S -> Prop) (f : S -> S) :
  (forall s, I s -> I (f s)) -> preserves I (modify f).
Proof. unfold preserves, hoare, modify; auto. Qed.

Lemma preserves_attempt {A} I (m : stM S E A) :
  preserves I m -> preserves I (attempt m).
Proof. intros Hm. eapply hoare_attempt; eauto. Qed.
End monad_operations.

(** [for x in l { .. }] threading [b]; an error leaves the loop. *)
Fixpoint for_each {S E A B} (f : B -> A -> stM S E B) (l : list A) (b : B) : stM S E B :=
  match l with
  | [] => mret b
  | x :: l' => b' ← f b x; for_each f l' b'
  end.

Lemma for_each_cons {S E A B} (f : B -> A -> stM S E B) x l b s :
  for_each f (x :: l) b s =
    match f b x s with (s', Ok b') => for_each f l b' s' | (s', Err e) => (s', Err e) end.
Proof. done. Qed.

(** The loop rule: [I] speaks of the elements done so far. *)
Lemma for_each_spec {S E A B} (f : B -> A -> stM S E B) (l : list A)
    (I : list A -> B -> S -> Prop) (b : B) (s : S) :
  I [] b s ->
  (forall xs x ys b s, l = xs ++ x :: ys -> I xs b s ->
    let '(s', r) := f b x s in
    match r with Ok b' => I (xs ++ [x]) b' s' | Err _ => True end) ->
  let '(s', r) := for_each f l b s in
  match r with Ok b' => I l b' s' | Err _ => True end.
Proof.
  intros H0 Hstep.
  assert (forall ys xs b s, l = xs ++ ys -> I xs b s ->
    let '(s', r) := for_each f ys b s in
    match r with Ok b' => I l b' s' | Err _ => True end) as Hgen.
  { intros ys. induction ys as [|y ys IH]; intros xs b' s' Hl HI; simpl.
    - rewrite app_nil_r in Hl. by subst.
    - unfold mbind, stM_bind. specialize (Hstep xs y ys b' s' Hl HI).
      destruct (f b' y s') as [s2 [b2|e]]; [|done].
      apply (IH (xs ++ [y])); [by rewrite <- app_assoc|done]. }
  by apply (Hgen l []).
Qed.

(** A sequence that succeeds, taken apart. *)
Lemma bind_Ok {S E A B} (m : stM S E A) (f : A -> stM S E B) s s' b :
  (m ≫= f) s = (s', Ok b) <-> exists s1 a, m s = (s1, Ok a) /\ f a s1 = (s', Ok b).
Proof.
  unfold mbind, stM_bind. destruct (m s) as [s1 [a|e]]; split.
  - intros E1. by exists s1, a.
  - by intros (? & ? & [= <- <-] & E1).
  - done.
  - by intros (? & ? & [=] & _).
Qed.

Lemma res_bind_Ok {E A B} (r : result E A) (f : A -> result E B) b :
  (r ≫= f) = Ok b <-> exists a, r = Ok a /\ f a = Ok b.
Proof.
  destruct r as [a|e]; cbn.
  - split; [by exists a|]. by intros (? & [= <-] & ?).
  - split; [done|]. by intros (? & [=] & _).
Qed.

Create HintDb preserves.
#[export] Hint Resolve preserves_ret preserves_throw preserves_gets preserves_lift : preserves.

(** An invariant through a method's body: its binds and branches one by one,
    the leaves by the database [preserves] and by [leaf]. *)
Ltac solve_preserves leaf :=
  repeat first
    [ solve [auto with preserves]
    | solve [leaf]
    | apply preserves_bind; [|intros ?]
    | apply preserves_attempt
    | progress cbv zeta
    | case_match ].

(** ** Machine integers

    An unsigned integer is a [Z] in its range; the release profile leaves
    overflow checks off, so [+] and [*] wrap.  The [saturating_] and
    [checked_] forms are written out. *)

Definition u32_max : Z := 2 ^ 32 - 1.
Definition u64_max : Z := 2 ^ 64 - 1.
Definition u128_max : Z := 2 ^ 128 - 1.

Definition is_u32 (x : Z) : Prop := (0 <= x <= u32_max)%Z.
Definition is_u64 (x : Z) : Prop := (0 <= x <= u64_max)%Z.
Definition is_u128 (x : Z) : Prop := (0 <= x <= u128_max)%Z.

Definition u32_wrap (x : Z) : Z := (x mod 2 ^ 32)%Z.
Definition u64_wrap (x : Z) : Z := (x mod 2 ^ 64)%Z.
Definition u64_add (a b : Z) : Z := u64_wrap (a + b).
Definition u64_mul (a b : Z) : Z := u64_wrap (a * b).
Definition u64_sat_add (a b : Z) : Z := Z.min (a + b) u64_max.
Definition u64_sat_sub (a b : Z) : Z := Z.max (a - b) 0.
Definition u32_sat_add (a b : Z) : Z := Z.min (a + b) u32_max.
Definition u128_sat_add (a b : Z) : Z := Z.min (a + b) u128_max.
Definition u128_sat_sub (a b : Z) : Z := Z.max (a - b) 0.
Definition u128_checked_add (a b : Z) : option Z :=
  if (a + b <=? u128_max)%Z then Some (a + b)%Z else None.
Definition u128_checked_mul (a b : Z) : option Z :=
  if (a * b <=? u128_max)%Z then Some (a * b)%Z else None.

Ltac unfold_u :=
  unfold is_u32, is_u64, is_u128, u64_add, u64_mul, u64_wrap, u32_wrap, u64_sat_add,
    u64_sat_sub, u32_sat_add, u128_sat_add, u128_sat_sub, u32_max, u64_max, u128_max in *.

Lemma u64_wrap_small (x : Z) : is_u64 x -> u64_wrap x = x.
Proof. unfold is_u64, u64_wrap, u64_max. intros. apply Z.mod_small. lia. Qed.

Lemma u64_add_small (a b : Z) : is_u64 (a + b) -> u64_add a b = (a + b)%Z.
Proof. apply u64_wrap_small. Qed.

Lemma u64_wrap_range (x : Z) : is_u64 (u64_wrap x).
Proof.
  unfold is_u64, u64_wrap, u64_max.
  pose proof (Z.mod_pos_bound x (2 ^ 64)). lia.
Qed.

(** ** Ordered maps

    A [BTreeMap<String, A>] is a [gmap string A]; what iterates over it in
    key order goes through [entries]. *)

Definition entry_le {A} (p q : string * A) : Prop := String.le p.1 q.1.

#[export] Instance entry_le_dec {A} (p q : string * A) : Decision (entry_le p q).
Proof. unfold entry_le. apply _. Defined.

Definition entries {A} (m : gmap string A) : list (string * A) :=
  merge_sort entry_le (map_to_list m).

Definition keys {A} (m : gmap string A) : list string := (entries m).*1.
Definition vals {A} (m : gmap string A) : list A := (entries m).*2.

Section entries.
Context {A : Type}.
Implicit Types (m : gmap string A).

Lemma entries_perm m : entries m ≡ₚ map_to_list m.
Proof. apply merge_sort_Permutation. Qed.

Lemma elem_of_entries m k x : (k, x) ∈ entries m <-> m !! k = Some x.
Proof. rewrite entries_perm. apply elem_of_map_to_list. Qed.

Lemma NoDup_keys m : NoDup (keys m).
Proof.
  unfold keys. rewrite entries_perm. apply NoDup_fst_map_to_list.
Qed.

Lemma elem_of_keys m k : k ∈ keys m <-> is_Some (m !! k).
Proof.
  unfold keys. rewrite list_elem_of_fmap. split.
  - intros [[k' x] [-> Hx]]. apply elem_of_entries in Hx. eauto.
  - intros [x Hx]. exists (k, x). by rewrite elem_of_entries.
Qed.

Lemma elem_of_vals m x : x ∈ vals m <-> exists k, m !! k = Some x.
Proof.
  unfold vals. rewrite list_elem_of_fmap. split.
  - intros [[k y] [-> Hy]]. exists k. by apply elem_of_entries.
  - intros [k Hk]. exists (k, x). by rewrite elem_of_entries.
Qed.

Lemma list_to_map_entries m : list_to_map (entries m) = m.
Proof.
  rewrite <- (list_to_map_to_list m) at 2.
  apply list_to_map_proper; [apply NoDup_keys|apply entries_perm].
Qed.

Lemma entries_empty : entries (∅ : gmap string A) = [].
Proof. apply Permutation_nil. by rewrite entries_perm, map_to_list_empty. Qed.
End entries.

(** ** Text *)

(** The empty text. *)
Abbreviation nil_str := EmptyString.

(** [str::strip_prefix]. *)
Fixpoint strip_prefix (p s : string) : option string :=
  match p, s with
  | EmptyString, _ => Some s
  | String a p', String b s' => if decide (a = b) then strip_prefix p' s' else None
  | String _ _, EmptyString => None
  end.

(** [str::starts_with]. *)
Definition starts_with (p s : string) : bool :=
  match strip_prefix p s with Some _ => true | None => false end.

(** [str::split_once] at the first [c]. *)
Fixpoint split_once (c : Ascii.ascii) (s : string) : option (string * string) :=
  match s with
  | EmptyString => None
  | String a s' =>
      if decide (a = c) then Some (EmptyString, s')
      else match split_once c s' with
           | Some (l, r) => Some (String a l, r)
           | None => None
           end
  end.

(** Whether [c] occurs in the text. *)
Fixpoint str_contains (c : Ascii.ascii) (s : string) : bool :=
  match s with
  | EmptyString => false
  | String a s' => bool_decide (a = c) || str_contains c s'
  end.

Lemma strip_prefix_app (p s : string) : strip_prefix p (p +:+ s) = Some s.
Proof. induction p as [|a p IH]; [done|]. simpl. by rewrite decide_True. Qed.

Lemma strip_prefix_Some (p s r : string) : strip_prefix p s = Some r <-> s = p +:+ r.
Proof.
  split; [|intros ->; apply strip_prefix_app].
  revert s. induction p as [|a p IH]; intros s H; simpl in *; [by simplify_eq|].
  destruct s as [|b s]; [done|]. case_decide; [|done]. subst.
  by rewrite (IH s H).
Qed.

Lemma split_once_app (c : Ascii.ascii) (l r : string) :
  str_contains c l = false -> split_once c (l +:+ String c r) = Some (l, r).
Proof.
  induction l as [|a l IH]; simpl.
  - intros _. by rewrite decide_True.
  - intros [Ha Hl]%orb_false_elim. apply bool_decide_eq_false in Ha.
    unfold String.append; fold String.append.
    simpl. rewrite decide_False by done. by rewrite (IH Hl).
Qed.

Lemma string_app_assoc (a b c : string) : (a +:+ b) +:+ c = a +:+ b +:+ c.
Proof.
  induction a as [|x a IH]; [done|].
  change (String x a +:+ b) with (String x (a +:+ b)).
  change (String x (a +:+ b) +:+ c) with (String x ((a +:+ b) +:+ c)).
  by rewrite IH.
Qed.

Lemma string_app_inj (p a b : string) : p +:+ a = p +:+ b -> a = b.
Proof. induction p as [|x p IH]; [done|]. intros H. injection H. apply IH. Qed.

(** ** Lists *)

(** The maximum of a list of integers, [Iterator::max]. *)
Definition list_max (l : list Z) : option Z :=
  foldr (fun x acc => Some (match acc with Some y => Z.max x y | None => x end)) None l.

Definition list_sum (l : list Z) : Z := foldr Z.add 0%Z l.

Lemma list_max_spec (l : list Z) (x : Z) :
  list_max l = Some x <-> x ∈ l /\ (forall y, y ∈ l -> (y <= x)%Z).
Proof.
  revert x. induction l as [|a l IH]; intros x; simpl; [set_solver|].
  destruct (list_max l) as [y|] eqn:E.
  - destruct (proj1 (IH y) eq_refl) as [Hy Hmax]. split.
    + intros [= <-]. split.
      * destruct (Z.max_spec a y) as [[_ ->]|[_ ->]]; set_solver.
      * intros z [->|Hz]%elem_of_cons; [lia|]. specialize (Hmax z Hz). lia.
    + intros [Hin Hub]. f_equal.
      apply elem_of_cons in Hin as [->|Hin].
      * assert (y <= a)%Z by (apply Hub; set_solver). lia.
      * specialize (Hmax x Hin). assert (a <= x)%Z by (apply Hub; set_solver).
        assert (y <= x)%Z by (apply Hub; set_solver). lia.
  - assert (l = []) as ->.
    { destruct l as [|b l]; [done|]. simpl in E. done. }
    split.
    + intros [= <-]. split; [set_solver|]. intros z Hz. apply list_elem_of_singleton in Hz. lia.
    + intros [Hin _]. apply list_elem_of_singleton in Hin. by subst.
Qed.

Lemma list_max_None (l : list Z) : list_max l = None <-> l = [].
Proof. destruct l; simpl; split; done. Qed.

Lemma bind_nil {A B} (f : A -> list B) (l : list A) :
  l ≫= f = [] <-> forall x, x ∈ l -> f x = [].
Proof.
  induction l as [|x l IH]; cbn; [split; [intros _ x Hx; by apply elem_of_nil in Hx|done]|].
  rewrite app_nil, IH. split.
  - intros [Hx Hl] y [->|Hy]%elem_of_cons; auto.
  - intros H. split; [apply H; by left|]. intros y Hy. apply H. by right.
Qed.


Lemma list_sum_app (l k : list Z) : list_sum (l ++ k) = (list_sum l + list_sum k)%Z.
Proof. induction l as [|x l IH]; simpl; lia. Qed.

Lemma list_sum_perm (l k : list Z) : l ≡ₚ k -> list_sum l = list_sum k.
Proof. unfold list_sum. induction 1; cbn; lia. Qed.

Lemma list_sum_nonneg (l : list Z) : Forall (fun x => 0 <= x)%Z l -> (0 <= list_sum l)%Z.
Proof. induction 1; simpl; lia. Qed.

(** ** Tactics *)

(** Split a conjunction of a method's run into its parts and substitute. *)
Ltac inv_pair :=
  repeat match goal with
  | H : (_, _) = (_, _) |- _ => injection H as ? ?; subst
  | H : Ok _ = Ok _ |- _ => injection H as ?; subst
  | H : Err _ = Err _ |- _ => injection H as ?; subst
  | H : Ok _ = Err _ |- _ => discriminate H
  | H : Err _ = Ok _ |- _ => discriminate H
  end.

(** Destruct every boolean comparison of integers in sight. *)
Ltac case_z :=
  repeat match goal with
  | |- context [(?a <? ?b)%Z] => destruct (Z.ltb_spec a b)
  | |- context [(?a <=? ?b)%Z] => destruct (Z.leb_spec a b)
  | |- context [(?a =? ?b)%Z] => destruct (Z.eqb_spec a b)
  | H : context [(?a <? ?b)%Z] |- _ => destruct (Z.ltb_spec a b)
  | H : context [(?a <=? ?b)%Z] |- _ => destruct (Z.leb_spec a b)
  | H : context [(?a =? ?b)%Z] |- _ => destruct (Z.eqb_spec a b)
  end.

(** Run the state-and-error monad symbolically. *)
Ltac run_st :=
  unfold mbind, stM_bind, mret, stM_ret, gets, modify, throw, attempt, lift, act in *;
  cbn beta iota zeta in *.
