(* ===== verification/F64.v ===== *)
(** * IEEE 754 double precision arithmetic

    Rust's [f64] as the Standard Library's executable specification of
    binary floating point (precision 53, maximal exponent 1024, rounding to
    nearest even), with the conversions and comparisons the program uses. *)

From S2P Require Export Prelude.
From Stdlib Require Export SpecFloat.

Definition f64 : Type := spec_float.
Definition f64_prec : Z := 53.
Definition f64_emax : Z := 1024.

#[export] Instance spec_float_eq_dec : EqDecision spec_float.
Proof. solve_decision. Defined.

(** [x as f64] from an integer: rounded to nearest even. *)
Definition f64_of_Z (x : Z) : f64 := binary_normalize f64_prec f64_emax x 0 false.
(** The decimal literal [num / den], rounded to nearest even. *)
Definition f64_ratio (num den : Z) : f64 :=
  SFdiv f64_prec f64_emax (f64_of_Z num) (f64_of_Z den).

Definition f64_add (a b : f64) : f64 := SFadd f64_prec f64_emax a b.
Definition f64_sub (a b : f64) : f64 := SFsub f64_prec f64_emax a b.
Definition f64_mul (a b : f64) : f64 := SFmul f64_prec f64_emax a b.
Definition f64_div (a b : f64) : f64 := SFdiv f64_prec f64_emax a b.
Definition f64_ltb (a b : f64) : bool := SFltb a b.
Definition f64_leb (a b : f64) : bool := SFleb a b.
Definition is_nan (a : f64) : bool := match a with S754_nan => true | _ => false end.

(** [f64::min]: the other operand when one is NaN. *)
Definition f64_min (a b : f64) : f64 :=
  if is_nan a then b else if is_nan b then a else if f64_ltb b a then b else a.

(** [f64::clamp]: NaN stays NaN. *)
Definition f64_clamp (x lo hi : f64) : f64 :=
  if f64_ltb x lo then lo else if f64_ltb hi x then hi else x.

(** [x as u64]: towards zero, saturating, NaN to 0. *)
Definition f64_to_u64 (x : f64) : Z :=
  match x with
  | S754_zero _ | S754_nan => 0
  | S754_infinity s => if s then 0 else u64_max
  | S754_finite true _ _ => 0
  | S754_finite false m e =>
      Z.min (if (0 <=? e)%Z then Zpos m * 2 ^ e else Zpos m / 2 ^ (- e)) u64_max
  end%Z.

Lemma f64_to_u64_range (x : f64) : is_u64 (f64_to_u64 x).
Proof.
  unfold is_u64, f64_to_u64, u64_max.
  destruct x as [s|s| |[] m e]; try lia; [destruct s; lia|].
  destruct (Z.leb_spec 0 e) as [He|He].
  - assert (0 <= Zpos m * 2 ^ e)%Z by (apply Z.mul_nonneg_nonneg; lia). lia.
  - assert (0 <= Zpos m / 2 ^ (- e))%Z by (apply Z.div_pos; lia). lia.
Qed.

Example f64_half : f64_to_u64 (f64_mul (f64_ratio 1 2) (f64_of_Z 100)) = 50%Z.
Proof. reflexivity. Qed.
Example f64_min_nan : f64_min S754_nan (f64_of_Z 1) = f64_of_Z 1.
Proof. reflexivity. Qed.
