(* ===== verification/Json.v ===== *)
(** * JSON values

    [serde_json::Value], its accessors, and the encoders and decoders that
    the [Serialize]/[Deserialize] derives of the modelled records amount to.
    An object is its fields in key order, as serde_json's map keeps them. *)

From S2P Require Export Prelude F64.

(** serde_json's three number forms. *)
Inductive number : Type :=
  | PosInt (n : Z)
  | NegInt (n : Z)
  | Float (f : f64).

#[export] Instance number_eq_dec : EqDecision number.
Proof. solve_decision. Defined.

#[warnings="-register-all"]
Inductive Value : Type :=
  | VNull
  | VBool (b : bool)
  | VNum (n : number)
  | VStr (s : string)
  | VArr (l : list Value)
  | VObj (o : list (string * Value)).

Fixpoint value_eq_dec (v w : Value) {struct v} : {v = w} + {v <> w}.
Proof.
  destruct v as [|b|n|s|l|o], w as [|b'|n'|s'|l'|o']; try (right; congruence); try (by left).
  - destruct (decide (b = b')); [left|right]; congruence.
  - destruct (decide (n = n')); [left|right]; congruence.
  - destruct (decide (s = s')); [left|right]; congruence.
  - destruct (List.list_eq_dec value_eq_dec l l'); [left|right]; congruence.
  - refine (match List.list_eq_dec _ o o' with left e => left _ | right e => right _ end).
    + intros [k x] [k' x']. destruct (decide (k = k')) as [Ek|Ek]; [|right; congruence].
      destruct (value_eq_dec x x') as [Ex|Ex]; [left|right]; congruence.
    + congruence.
    + congruence.
Defined.

#[export] Instance value_eq_decision : EqDecision Value := value_eq_dec.

(** ** Objects *)

Fixpoint obj_get (k : string) (o : list (string * Value)) : option Value :=
  match o with
  | [] => None
  | (k', v) :: o' => if decide (k = k') then Some v else obj_get k o'
  end.

(** [Map::insert]: in key order, replacing. *)
Fixpoint obj_insert (k : string) (v : Value) (o : list (string * Value)) :
    list (string * Value) :=
  match o with
  | [] => [(k, v)]
  | (k', v') :: o' =>
      if decide (k = k') then (k, v) :: o'
      else if String.leb k k' then (k, v) :: (k', v') :: o'
      else (k', v') :: obj_insert k v o'
  end.

(** [json!({..})]. *)
Definition jobj (fields : list (string * Value)) : Value :=
  VObj (foldr (fun p o => obj_insert p.1 p.2 o) [] fields).

Definition ju64 (n : Z) : Value := VNum (PosInt n).

(** [Value::get] by a key. *)
Definition get (k : string) (v : Value) : option Value :=
  match v with VObj o => obj_get k o | _ => None end.

(** [v[k]]: null when there is none. *)
Definition idx (k : string) (v : Value) : Value := default VNull (get k v).

Definition is_null (v : Value) : bool := match v with VNull => true | _ => false end.
Definition as_str (v : Value) : option string :=
  match v with VStr s => Some s | _ => None end.
Definition as_u64 (v : Value) : option Z :=
  match v with VNum (PosInt n) => Some n | _ => None end.
Definition as_array (v : Value) : option (list Value) :=
  match v with VArr l => Some l | _ => None end.
Definition as_object (v : Value) : option (list (string * Value)) :=
  match v with VObj o => Some o | _ => None end.
Definition as_f64 (v : Value) : option f64 :=
  match v with
  | VNum (PosInt n) | VNum (NegInt n) => Some (f64_of_Z n)
  | VNum (Float f) => Some f
  | _ => None
  end.

Lemma obj_get_insert_eq (k : string) (v : Value) o : obj_get k (obj_insert k v o) = Some v.
Proof.
  induction o as [|[k' v'] o IH]; simpl; [by rewrite decide_True|].
  case_decide as E; simpl; [by rewrite decide_True|].
  destruct (String.leb k k'); simpl; [by rewrite decide_True|].
  by rewrite decide_False.
Qed.

Lemma obj_get_insert_ne (k j : string) (v : Value) o :
  j <> k -> obj_get j (obj_insert k v o) = obj_get j o.
Proof.
  intros Hne. induction o as [|[k' v'] o IH]; simpl; [by rewrite decide_False|].
  case_decide as E; simpl.
  - subst. by rewrite !decide_False.
  - destruct (String.leb k k'); simpl; [by rewrite decide_False|].
    case_decide; [done|apply IH].
Qed.

(** A field of a literal object is the first one written with that key. *)
Lemma get_jobj (k : string) (fields : list (string * Value)) :
  get k (jobj fields) = obj_get k fields.
Proof.
  unfold jobj, get. induction fields as [|[k' v] fs IH]; simpl; [done|].
  case_decide as E; [subst; apply obj_get_insert_eq|].
  rewrite obj_get_insert_ne by done. apply IH.
Qed.

(** ** Codecs

    A record's derived serialisation: [to_value] writes it and [from_value]
    reads the object form back, or says it does not parse. *)

Class Codec (A : Type) := {
  to_value : A -> Value;
  from_value : Value -> option A;
}.

Class CodecOk (A : Type) `{Codec A} :=
  from_to_value : forall a : A, from_value (to_value a) = Some a.

(** An encoding that is never null, so that [Some] of it is told from [None]. *)
Class NonNull (A : Type) `{Codec A} := to_value_non_null : forall a : A, is_null (to_value a) = false.

#[export] Instance value_codec : Codec Value := {| to_value v := v; from_value := Some |}.
#[export] Instance value_codec_ok : CodecOk Value.
Proof. done. Qed.

#[export] Instance string_codec : Codec string :=
  {| to_value := VStr; from_value := as_str |}.
#[export] Instance string_codec_ok : CodecOk string.
Proof. done. Qed.

#[export] Instance string_non_null : NonNull string.
Proof. done. Qed.

(** A [u64] field. *)
#[export] Instance u64_codec : Codec Z := {| to_value := ju64; from_value := as_u64 |}.
#[export] Instance u64_codec_ok : CodecOk Z.
Proof. done. Qed.
#[export] Instance u64_non_null : NonNull Z.
Proof. done. Qed.

#[export] Instance option_codec {A} `{Codec A} : Codec (option A) := {|
  to_value o := match o with Some a => to_value a | None => VNull end;
  from_value v := match v with VNull => Some None | _ => Some <$> from_value v end;
|}.

#[export] Instance list_codec {A} `{Codec A} : Codec (list A) := {|
  to_value l := VArr (to_value <$> l);
  from_value v := match v with VArr l => mapM from_value l | _ => None end;
|}.

Lemma mapM_encoded {A B C} (f : A -> B) (g : B -> option C) (h : A -> C) (l : list A) :
  (forall a, g (f a) = Some (h a)) -> mapM g (f <$> l) = Some (h <$> l).
Proof.
  intros Hfg. induction l as [|a l IH]; [done|].
  rewrite fmap_cons. cbn. rewrite Hfg. cbn. by rewrite IH.
Qed.

#[export] Instance list_codec_ok {A} `{CodecOk A} : CodecOk (list A).
Proof.
  intros l. cbn. rewrite (mapM_encoded to_value from_value id) by apply from_to_value.
  by rewrite list_fmap_id.
Qed.

(** A [BTreeMap<String, A>] field. *)
#[export] Instance map_codec {A} `{Codec A} : Codec (gmap string A) := {|
  to_value m := VObj (prod_map id to_value <$> entries m);
  from_value v := match v with
    | VObj o => list_to_map <$> mapM (fun p => (fun a => (p.1, a)) <$> from_value p.2) o
    | _ => None
    end;
|}.

#[export] Instance map_codec_ok {A} `{CodecOk A} : CodecOk (gmap string A).
Proof.
  intros m. cbn.
  rewrite (mapM_encoded (prod_map id to_value) _ id).
  - cbn. by rewrite list_fmap_id, list_to_map_entries.
  - intros [k a]. cbn. by rewrite from_to_value.
Qed.

(** A field that must be there. *)
Definition field {A} `{Codec A} (k : string) (v : Value) : option A := get k v ≫= from_value.
(** A [#[serde(default)]] field: [d] when it is absent. *)
Definition field_or {A} `{Codec A} (k : string) (d : A) (v : Value) : option A :=
  match get k v with None => Some d | Some w => from_value w end.
(** An [Option] field: absent and null are both [None]. *)
Definition field_opt {A} `{Codec A} (k : string) (v : Value) : option (option A) :=
  match get k v with
  | None => Some None
  | Some w => if is_null w then Some None else Some <$> from_value w
  end.
(** A [u32] field. *)
Definition field_u32 (k : string) (v : Value) : option Z :=
  n ← field (A := Z) k v; if (n <=? u32_max)%Z then Some n else None.

(** A field that [skip_serializing_if] leaves out. *)
Definition opt_field {A} `{Codec A} (k : string) (o : option A) : list (string * Value) :=
  match o with Some a => [(k, to_value a)] | None => [] end.
Definition field_unless {A} `{Codec A} (k : string) (skip : bool) (a : A) :
    list (string * Value) :=
  if skip then [] else [(k, to_value a)].

(** The object serde reads a record from: the decoders read a [VObj] alone. *)
Definition object {A} (f : Value -> option A) (v : Value) : option A :=
  match v with VObj _ => f v | _ => None end.

#[global] Arguments object : simpl never.
#[global] Arguments jobj : simpl never.
#[global] Arguments get : simpl never.

Lemma object_jobj {A} (f : Value -> option A) fields : object f (jobj fields) = f (jobj fields).
Proof. done. Qed.

Lemma obj_get_app k o1 o2 :
  obj_get k (o1 ++ o2) = match obj_get k o1 with Some v => Some v | None => obj_get k o2 end.
Proof. induction o1 as [|[k' v] o1 IH]; simpl; [done|]. by case_decide. Qed.

Lemma obj_get_opt_field {A} `{Codec A} k j (o : option A) :
  obj_get j (opt_field k o) = if decide (j = k) then to_value <$> o else None.
Proof. destruct o; simpl; repeat case_decide; done. Qed.

Lemma obj_get_field_unless {A} `{Codec A} k j skip (a : A) :
  obj_get j (field_unless k skip a) =
    if decide (j = k) then (if skip then None else Some (to_value a)) else None.
Proof. destruct skip; simpl; repeat case_decide; done. Qed.

(** Read a field of a literal object whose other fields may be left out. *)
Ltac obj_simpl :=
  repeat first
    [ rewrite get_jobj
    | rewrite obj_get_app
    | rewrite obj_get_opt_field
    | rewrite obj_get_field_unless
    | rewrite decide_True by reflexivity
    | rewrite decide_False by discriminate
    | progress cbn [obj_get app] ].

(** Fields read back as they were written. *)
Lemma field_written {A} `{CodecOk A} k v (a : A) : get k v = Some (to_value a) -> field k v = Some a.
Proof. intros E. unfold field. rewrite E. apply from_to_value. Qed.
Lemma field_opt_written {A} `{CodecOk A} `{!NonNull A} k v (o : option A) :
  get k v = to_value <$> o -> field_opt k v = Some o.
Proof.
  intros E. unfold field_opt. rewrite E. destruct o as [a|]; [|done]. cbn [fmap option_fmap option_map].
  by rewrite to_value_non_null, from_to_value.
Qed.
Lemma field_or_written {A} `{CodecOk A} k (d : A) v (a : A) :
  get k v = Some (to_value a) -> field_or k d v = Some a.
Proof. intros E. unfold field_or. rewrite E. apply from_to_value. Qed.
Lemma field_u32_written k v (n : Z) :
  get k v = Some (to_value n) -> (n <= u32_max)%Z -> field_u32 k v = Some n.
Proof.
  intros E Hn. unfold field_u32, field. rewrite E. cbn [mbind option_bind]. rewrite from_to_value.
  cbn [mbind option_bind]. by rewrite (proj2 (Z.leb_le n u32_max) Hn).
Qed.

(** A map whose entries read back reads back. *)
Lemma map_written {A} `{Codec A} (m : gmap string A) :
  (forall k a, m !! k = Some a -> from_value (to_value a) = Some a) -> from_value (to_value m) = Some m.
Proof.
  intros Hm. cbn. assert (mapM (fun p : string * Value => (fun a : A => (p.1, a)) <$> from_value p.2)
    (prod_map id to_value <$> entries m) = Some (entries m)) as ->; [|cbn; by rewrite list_to_map_entries].
  assert (forall l, (forall p, p ∈ l -> m !! p.1 = Some p.2) ->
    mapM (fun p : string * Value => (fun a : A => (p.1, a)) <$> from_value p.2) (prod_map id to_value <$> l) = Some l) as Hl.
  { induction l as [|[k a] l IH]; intros Hp; [done|]. rewrite fmap_cons. cbn.
    rewrite (Hm k a) by (apply (Hp (k, a)); constructor). cbn. rewrite IH; [done|].
    intros p Hin. apply Hp. by constructor. }
  apply Hl. intros [k a] Hin. by apply elem_of_entries.
Qed.

(** The length of a value's JSON text, [serde_json::to_vec(v).len()]. *)
Class JsonLen := json_len : Value -> Z.
