(* ===== verification/Text.v ===== *)
(** * Text

    Rust's string operations on ASCII text, as the parsers of the program use
    them: [chars], [trim], [split], [parse] of an unsigned integer, and the
    decimal form [to_string] gives one.  A string is its bytes; white space
    beyond ASCII is not trimmed. *)

From S2P Require Export Prelude.

Abbreviation char := Ascii.ascii.

(** [str::chars] and [collect::<String>]. *)
Definition chars (s : string) : list char := String.list_ascii_of_string s.
Definition text (l : list char) : string := String.string_of_list_ascii l.

Lemma text_chars s : text (chars s) = s.
Proof. apply String.string_of_list_ascii_of_string. Qed.
Lemma chars_text l : chars (text l) = l.
Proof. apply String.list_ascii_of_string_of_list_ascii. Qed.
Lemma chars_inj s t : chars s = chars t -> s = t.
Proof. intros E. by rewrite <- (text_chars s), E, text_chars. Qed.

Lemma chars_app s t : chars (s +:+ t) = chars s ++ chars t.
Proof.
  induction s as [|a s IH]; [done|].
  change (a :: chars (s +:+ t) = a :: chars s ++ chars t). by rewrite IH.
Qed.

Definition code (a : char) : Z := Z.of_N (Ascii.N_of_ascii a).

(** [char::is_ascii_digit], and the digit's value. *)
Definition is_digit (a : char) : bool := (48 <=? code a)%Z && (code a <=? 57)%Z.
Definition digit_val (a : char) : Z := (code a - 48)%Z.
Definition digit_char (d : Z) : char := Ascii.ascii_of_N (Z.to_N (d + 48)).

Definition is_space (a : char) : bool :=
  ((9 <=? code a)%Z && (code a <=? 13)%Z) || (code a =? 32)%Z.

(** ** Trimming and splitting *)

Fixpoint drop_while {A} (f : A -> bool) (l : list A) : list A :=
  match l with
  | [] => []
  | a :: l' => if f a then drop_while f l' else l
  end.
(** [trim_start_matches], [trim_end_matches]. *)
Definition trim_start (f : char -> bool) (l : list char) : list char := drop_while f l.
Definition trim_end (f : char -> bool) (l : list char) : list char :=
  rev (drop_while f (rev l)).
Definition trim (l : list char) : list char := trim_end is_space (trim_start is_space l).

(** ASCII letters, and letters or digits. *)
Definition is_alpha (a : char) : bool :=
  ((65 <=? code a) && (code a <=? 90) || (97 <=? code a) && (code a <=? 122))%Z.
Definition is_alnum (a : char) : bool := is_alpha a || is_digit a.

(** [u8::to_ascii_lowercase], [u8::to_ascii_uppercase], [eq_ignore_ascii_case]. *)
Definition lower (a : char) : char :=
  if (65 <=? code a)%Z && (code a <=? 90)%Z then Ascii.ascii_of_N (Z.to_N (code a + 32)) else a.
Definition upper (a : char) : char :=
  if (97 <=? code a)%Z && (code a <=? 122)%Z then Ascii.ascii_of_N (Z.to_N (code a - 32)) else a.
Definition eq_ignore_case (s t : string) : bool := bool_decide (lower <$> chars s = lower <$> chars t).

(** [split_once] at a character. *)
Fixpoint cut (c : char) (l : list char) : option (list char * list char) :=
  match l with
  | [] => None
  | a :: l' =>
      if decide (a = c) then Some ([], l')
      else match cut c l' with
           | Some (x, y) => Some (a :: x, y)
           | None => None
           end
  end.

(** [split] at a character: at least one piece. *)
Fixpoint split_char (c : char) (l : list char) : list (list char) :=
  match l with
  | [] => [[]]
  | a :: l' =>
      if decide (a = c) then [] :: split_char c l'
      else match split_char c l' with
           | x :: xs => (a :: x) :: xs
           | [] => [[a]]
           end
  end.

(** [split_whitespace]: the non-empty pieces between white space. *)
Fixpoint split_ws (l : list char) (cur : list char) : list (list char) :=
  match l with
  | [] => match cur with [] => [] | _ => [rev cur] end
  | a :: l' =>
      if is_space a
      then match cur with [] => split_ws l' [] | _ => rev cur :: split_ws l' [] end
      else split_ws l' (a :: cur)
  end.
Definition split_whitespace (l : list char) : list (list char) := split_ws l [].

Lemma cut_app c l r : c ∉ l -> cut c (l ++ c :: r) = Some (l, r).
Proof.
  induction l as [|a l IH]; cbn; intros Hn; [by rewrite decide_True|].
  rewrite decide_False by set_solver. rewrite IH by set_solver. done.
Qed.

Lemma cut_None c l : cut c l = None <-> c ∉ l.
Proof.
  induction l as [|a l IH]; cbn; [set_solver|]. case_decide; [set_solver|].
  destruct (cut c l) as [[]|]; set_solver.
Qed.

Lemma cut_Some c l x y : cut c l = Some (x, y) -> l = x ++ c :: y /\ c ∉ x.
Proof.
  revert x. induction l as [|a l IH]; cbn; intros x E; [done|]. case_decide as Hc.
  - simplify_eq. split; [done|set_solver].
  - destruct (cut c l) as [[x' y']|]; [|done]. simplify_eq.
    destruct (IH x' eq_refl) as [-> Hx]. split; [done|set_solver].
Qed.

Lemma drop_while_none {A} (f : A -> bool) (l : list A) :
  (forall a, a ∈ l -> f a = false) -> drop_while f l = l.
Proof. destruct l as [|a l]; [done|]. intros H. cbn. by rewrite H by set_solver. Qed.

Lemma trim_none l : (forall a, a ∈ l -> is_space a = false) -> trim l = l.
Proof.
  intros H. unfold trim, trim_end, trim_start. rewrite (drop_while_none is_space l H).
  rewrite drop_while_none; [apply rev_involutive|].
  intros a Ha. apply H. apply list_elem_of_In. apply list_elem_of_In in Ha.
  by apply in_rev.
Qed.

(** ** Decimal *)

(** The value of a digit string read on from [v]. *)
Definition eval_from (v : Z) (l : list char) : Z :=
  fold_left (fun v a => v * 10 + digit_val a)%Z l v.
Definition eval (l : list char) : Z := eval_from 0 l.

(** [parse::<uN>]: an optional sign [+], at least one digit, at most [max]. *)
Definition parse_uint (max : Z) (l : list char) : option Z :=
  let ds := match l with a :: l' => if decide (a = "+"%char) then l' else l | [] => [] end in
  match ds with
  | [] => None
  | _ => if forallb is_digit ds && (eval ds <=? max)%Z then Some (eval ds) else None
  end.
Definition parse_u64 : list char -> option Z := parse_uint u64_max.

(** [to_string] of an unsigned integer. *)
Fixpoint decimal_go (fuel : nat) (n : Z) (acc : list char) : list char :=
  let acc := digit_char (n mod 10) :: acc in
  match fuel with
  | O => acc
  | S fuel' => if (n <? 10)%Z then acc else decimal_go fuel' (n / 10) acc
  end.
Definition decimal (n : Z) : list char := decimal_go (Z.to_nat (Z.log2 n)) n [].

Lemma code_inj a b : code a = code b -> a = b.
Proof.
  unfold code. intros E%N2Z.inj. rewrite <- (Ascii.ascii_N_embedding a), E.
  apply Ascii.ascii_N_embedding.
Qed.

Lemma code_range a : (0 <= code a < 256)%Z.
Proof. unfold code. pose proof (Ascii.N_ascii_bounded a). lia. Qed.

Lemma code_digit_char d : (0 <= d < 10)%Z -> code (digit_char d) = (d + 48)%Z.
Proof. intros H. unfold code, digit_char. rewrite Ascii.N_ascii_embedding; lia. Qed.

Lemma digit_val_char d : (0 <= d < 10)%Z -> digit_val (digit_char d) = d.
Proof. intros H. unfold digit_val. rewrite code_digit_char; lia. Qed.

Lemma is_digit_char d : (0 <= d < 10)%Z -> is_digit (digit_char d) = true.
Proof. intros H. unfold is_digit. rewrite code_digit_char by lia. lia. Qed.

Lemma is_digit_val a : is_digit a = true -> (0 <= digit_val a < 10)%Z.
Proof. unfold is_digit, digit_val. lia. Qed.

Lemma is_digit_not_space a : is_digit a = true -> is_space a = false.
Proof. unfold is_digit, is_space. lia. Qed.

Lemma eval_from_app v l k : eval_from v (l ++ k) = eval_from (eval_from v l) k.
Proof. apply fold_left_app. Qed.

Lemma eval_zeros k l : eval (replicate k "0"%char ++ l) = eval l.
Proof. induction k as [|k IH]; [done|]. cbn. by rewrite <- IH. Qed.

Lemma eval_from_val v l : eval_from v l = (v * 10 ^ Z.of_nat (length l) + eval l)%Z.
Proof.
  unfold eval. revert v. induction l as [|a l IH]; intros v; cbn [eval_from fold_left length].
  - change (eval_from 0 []) with 0%Z. lia.
  - change (eval_from (v * 10 + digit_val a) l =
      v * 10 ^ Z.of_nat (S (length l)) + eval_from (0 * 10 + digit_val a) l)%Z.
    rewrite (IH (v * 10 + digit_val a)%Z), (IH (0 * 10 + digit_val a)%Z).
    rewrite Nat2Z.inj_succ, Z.pow_succ_r by lia. lia.
Qed.

Lemma eval_bound l :
  Forall (fun a => is_digit a = true) l -> (0 <= eval l < 10 ^ Z.of_nat (length l))%Z.
Proof.
  induction 1 as [|a l Ha Hl IH]; [cbn; lia|].
  change (eval (a :: l)) with (eval_from (0 * 10 + digit_val a) l).
  rewrite eval_from_val. apply is_digit_val in Ha. cbn [length].
  rewrite Nat2Z.inj_succ, Z.pow_succ_r by lia. nia.
Qed.

Lemma decimal_go_spec fuel n acc :
  (0 <= n < 2 ^ Z.of_nat (S fuel))%Z ->
  exists l, decimal_go fuel n acc = l ++ acc /\ l <> [] /\
    Forall (fun a => is_digit a = true) l /\ eval l = n /\
    ((10 <= n)%Z -> exists a l', l = a :: l' /\ digit_val a <> 0%Z) /\
    ((n < 10)%Z -> length l = 1).
Proof.
  revert n acc. induction fuel as [|fuel IH]; intros n acc Hn.
  - cbn in Hn. exists [digit_char (n mod 10)]. cbn. rewrite Z.mod_small by lia.
    split_and!; try done; [by constructor; [apply is_digit_char; lia|]| |lia].
    unfold eval. cbn. rewrite digit_val_char by lia. lia.
  - cbn [decimal_go]. destruct (Z.ltb_spec n 10) as [Hlt|Hge].
    + exists [digit_char (n mod 10)]. rewrite Z.mod_small by lia.
      split_and!; try done; [by constructor; [apply is_digit_char; lia|]| |lia].
      unfold eval. cbn. rewrite digit_val_char by lia. lia.
    + destruct (IH (n / 10)%Z (digit_char (n mod 10) :: acc)) as (l & -> & Hne & Hd & He & Hz & Hs).
      { split; [apply Z.div_pos; lia|]. apply Z.div_lt_upper_bound; [lia|].
        rewrite Nat2Z.inj_succ, Z.pow_succ_r in Hn by lia. lia. }
      pose proof (Z.mod_pos_bound n 10 ltac:(lia)) as Hm.
      exists (l ++ [digit_char (n mod 10)]). split_and!.
      * by rewrite <- app_assoc.
      * by destruct l.
      * apply Forall_app. split; [done|]. constructor; [by apply is_digit_char|done].
      * unfold eval. rewrite eval_from_app. fold (eval l). rewrite He.
        cbn. rewrite digit_val_char by done. pose proof (Z.div_mod n 10). lia.
      * intros _. destruct (Z.ltb_spec (n / 10) 10) as [Hl|Hl].
        -- destruct l as [|a [|b l]]; [done| |by specialize (Hs Hl)].
           exists a, [digit_char (n mod 10)]. split; [done|].
           unfold eval in He. cbn in He. assert (1 <= n / 10)%Z by (apply Z.div_le_lower_bound; lia). lia.
        -- destruct (Hz Hl) as (a & l' & -> & Ha). by eexists a, _.
      * lia.
Qed.

(** The decimal form: digits of the value, one of them or no leading zero. *)
Lemma decimal_spec n :
  (0 <= n)%Z ->
  decimal n <> [] /\ Forall (fun a => is_digit a = true) (decimal n) /\ eval (decimal n) = n /\
  ((10 <= n)%Z -> exists a l, decimal n = a :: l /\ digit_val a <> 0%Z) /\
  ((n < 10)%Z -> length (decimal n) = 1).
Proof.
  intros Hn. unfold decimal. destruct (decimal_go_spec (Z.to_nat (Z.log2 n)) n []) as (l & -> & H).
  - split; [done|]. rewrite Nat2Z.inj_succ, Z2Nat.id by apply Z.log2_nonneg.
    destruct (Z.eq_dec n 0%Z) as [->|Hne]; [cbn; lia|].
    apply Z.log2_spec. lia.
  - by rewrite app_nil_r.
Qed.

Lemma digits_no_plus a l : Forall (fun a => is_digit a = true) (a :: l) -> a <> "+"%char.
Proof. intros H ->. apply Forall_inv in H. done. Qed.

Lemma parse_uint_decimal max n : (0 <= n <= max)%Z -> parse_uint max (decimal n) = Some n.
Proof.
  intros Hn. destruct (decimal_spec n) as (Hne & Hd & He & _); [lia|].
  unfold parse_uint. destruct (decimal n) as [|a l] eqn:E; [done|].
  rewrite decide_False by (by eapply digits_no_plus).
  assert (forallb is_digit (a :: l) = true) as ->.
  { apply forallb_forall. intros x Hx. rewrite Forall_forall in Hd. apply Hd.
    by apply list_elem_of_In. }
  rewrite He. cbn [andb]. assert (n <=? max = true)%Z as -> by lia. done.
Qed.

Lemma parse_uint_range max l n : parse_uint max l = Some n -> (0 <= n <= max)%Z.
Proof.
  unfold parse_uint. destruct (match l with [] => [] | _ => _ end) as [|a l'] eqn:E; [done|].
  destruct (forallb is_digit (a :: l') && _) eqn:Ed; [|done]. intros [= <-].
  apply andb_true_iff in Ed as [Hd Hm]. rewrite forallb_forall in Hd.
  assert (0 <= eval (a :: l'))%Z; [|lia]. apply eval_bound, Forall_forall.
  intros x Hx. by apply Hd, list_elem_of_In.
Qed.

#[global] Arguments eval_from : simpl never.
#[global] Arguments eval : simpl never.
