(* ===== verification/Store.v ===== *)
(** * The state store contract and the in-process store

    [crates/agentd/src/store/mod.rs] and [store/memory.rs]: the envelope, the
    key layout, the four-operation contract as the class [Store] with its
    laws [StoreOk] over an abstract view (each key's latest sequence number
    and value), the bounded retry, and [MemoryStore] with the proof that it
    keeps the laws. *)

From S2P Require Export Json.

(** ** Environment *)

(** The clocks: the [n]-th reading of the wall clock in Unix milliseconds
    and of the monotonic clock in milliseconds. *)
Class Clock := { wall : nat -> Z; mono : nat -> Z }.

(** ** Envelopes and keys *)

Record Envelope := mkEnvelope {
  env_kind : string;
  env_id : string;
  env_seq : Z;
  env_ts : Z;
  env_instance : string;
  env_hash : option string;
  env_state : Value;
}.

Definition envelope_to_value (e : Envelope) : Value :=
  jobj (
    [("kind", to_value (env_kind e)); ("id", to_value (env_id e));
     ("seq", to_value (env_seq e)); ("ts", to_value (env_ts e));
     ("instance", to_value (env_instance e))]
    ++ opt_field "hash" (env_hash e)
    ++ [("state", to_value (env_state e))]).
Definition envelope_from_value : Value -> option Envelope := object (fun v =>
    kind ← field "kind" v; id ← field "id" v; seq ← field "seq" v; ts ← field "ts" v;
    instance ← field "instance" v; hash ← field_opt "hash" v; state ← field "state" v;
    Some (mkEnvelope kind id seq ts instance hash state)).

#[export] Instance envelope_codec : Codec Envelope :=
  {| to_value := envelope_to_value; from_value := envelope_from_value |}.

Definition is_tombstone (e : Envelope) : bool := is_null (env_state e).

(** What a store record is when it is a tombstone: its [state] is null. *)
Definition value_tombstone (v : Value) : bool :=
  match get "state" v with Some s => is_null s | None => false end.

(** The store key layout [<prefix>/<instance>/<kind>/<id>]. *)
Definition key (prefix instance kind id : string) : string :=
  prefix +:+ "/" +:+ instance +:+ "/" +:+ kind +:+ "/" +:+ id.

(** Split a key back into its kind and id. *)
Definition parse_key (prefix instance k : string) : option (string * string) :=
  rest ← strip_prefix (prefix +:+ "/" +:+ instance +:+ "/") k;
  split_once "/"%char rest.

(** ** The contract *)

Inductive PutOutcome : Type :=
  | PutOk
  | PutConflict (latest_seq : option Z).

Record KeySeq := mkKeySeq { ks_key : string; ks_seq : option Z }.

(** The values a message interpolates stand for its text. *)
Inductive StoreError : Type :=
  | Io (m : string)
  | Unsupported (op : string)
  | Mapping (m : string)
  | Corrupt (m : string)
  | Conflict (k : string) (our_seq : Z) (latest_seq : option Z)
  | TooLarge (k : string) (bytes cap : Z).

Class Store (S : Type) := {
  store_put : string -> Z -> Value -> stM S StoreError PutOutcome;
  store_get : string -> option Z -> stM S StoreError (option Value);
  store_list : string -> stM S StoreError (list KeySeq);
  store_delete : string -> stM S StoreError unit;
}.

(** Bounded retry on [Io] alone, [attempts] at least one; the pause between
    attempts has no effect on the state. *)
Fixpoint retry_loop {S A} (left : nat) (last : option StoreError)
    (op : stM S StoreError A) : stM S StoreError A :=
  match left with
  | O => throw (default (Io "no attempts") last)
  | Datatypes.S left' => fun s =>
      match op s with
      | (s', Err (Io m)) => retry_loop left' (Some (Io m)) op s'
      | other => other
      end
  end.

Definition with_retry {S A} (op : stM S StoreError A) (attempts : nat) : stM S StoreError A :=
  retry_loop (Nat.max attempts 1) None op.

(** ** Laws

    [view s] is what the store holds: each key's latest sequence number and
    value, tombstones included.  A failed write or delete may still have
    been applied (its answer was lost). *)

Abbreviation records := (gmap string (Z * Value)).

(** The compare-and-set's guard: nothing at [k], or a lower number. *)
Definition accepts (m : records) (k : string) (seq : Z) : Prop :=
  match m !! k with None => True | Some (q, _) => (q < seq)%Z end.

Definition put_applied (m : records) (k : string) (seq : Z) (v : Value) (m' : records) : Prop :=
  accepts m k seq /\ m' = <[k := (seq, v)]> m.

Definition live (m : records) (k : string) (q : Z) (v : Value) : Prop :=
  m !! k = Some (q, v) /\ value_tombstone v = false.

Class StoreOk (S : Type) `{Store S} := {
  view : S -> records;
  put_ok : forall k seq v s, let '(s', r) := store_put k seq v s in
    match r with
    | Ok PutOk => put_applied (view s) k seq v (view s')
    | Ok (PutConflict latest) =>
        view s' = view s /\ ~ accepts (view s) k seq /\
        (forall q, latest = Some q -> fst <$> view s !! k = Some q)
    | Err _ => view s' = view s \/ put_applied (view s) k seq v (view s')
    end;
  get_ok : forall k s, let '(s', r) := store_get k None s in
    view s' = view s /\
    match r with
    | Ok (Some v) => exists q, live (view s) k q v
    | Ok None => forall q v, ~ live (view s) k q v
    | Err _ => True
    end;
  list_ok : forall p s, let '(s', r) := store_list p s in
    view s' = view s /\
    match r with
    | Ok ks => NoDup (ks_key <$> ks) /\
        forall k, k ∈ (ks_key <$> ks) <->
          starts_with p k = true /\ exists q v, live (view s) k q v
    | Err _ => True
    end;
  delete_ok : forall k s, let '(s', r) := store_delete k s in
    match r with
    | Ok _ => view s' = delete k (view s)
    | Err (Unsupported _) => view s' = view s
    | Err _ => view s' = view s \/ view s' = delete k (view s)
    end;
}.

(** ** The key layout *)

Lemma parse_key_key (prefix instance kind id : string) :
  str_contains "/"%char kind = false ->
  parse_key prefix instance (key prefix instance kind id) = Some (kind, id).
Proof.
  intros Hk. unfold parse_key, key.
  replace (prefix +:+ "/" +:+ instance +:+ "/" +:+ kind +:+ "/" +:+ id)
    with ((prefix +:+ "/" +:+ instance +:+ "/") +:+ kind +:+ String "/" id)
    by (rewrite !string_app_assoc; done).
  rewrite strip_prefix_app. by apply split_once_app.
Qed.

(** ** The retry keeps the laws *)

Section retry.
Context {S : Type} `{StoreOk S}.

Lemma retry_put_ok m last k seq v s :
  let '(s', r) := retry_loop m last (store_put k seq v) s in
  match r with
  | Ok PutOk => put_applied (view s) k seq v (view s')
  | Ok (PutConflict latest) =>
      (view s' = view s /\ ~ accepts (view s) k seq /\
       forall q, latest = Some q -> fst <$> view s !! k = Some q) \/
      (put_applied (view s) k seq v (view s') /\ forall q, latest = Some q -> q = seq)
  | Err _ => view s' = view s \/ put_applied (view s) k seq v (view s')
  end.
Proof.
  revert last s. induction m as [|m IH]; intros last s; simpl; [by left|].
  pose proof (put_ok k seq v s) as Hp.
  destruct (store_put k seq v s) as [s1 [[|latest]|e]]; [done|by left|].
  destruct e as [x| | | | |]; try done.
  specialize (IH (Some (Io x)) s1).
  destruct (retry_loop m (Some (Io x)) (store_put k seq v) s1) as [s2 r].
  destruct Hp as [Hp|[Ha Hp]]; [by rewrite Hp in IH|].
  assert (~ accepts (view s1) k seq) as Hna.
  { rewrite Hp. unfold accepts. simplify_map_eq. lia. }
  destruct r as [[|l]|e].
  - by destruct IH as [? _].
  - destruct IH as [(Hs & _ & Hl)|[[? _] _]]; [|done]. right. rewrite Hs. split; [by split|].
    intros q Hq. specialize (Hl q Hq). rewrite Hp in Hl. by simplify_map_eq.
  - destruct IH as [Hs|[? _]]; [|done]. right. rewrite Hs. by split.
Qed.

Lemma with_retry_put_ok n k seq v s :
  let '(s', r) := with_retry (store_put k seq v) n s in
  match r with
  | Ok PutOk => put_applied (view s) k seq v (view s')
  | Ok (PutConflict latest) =>
      (view s' = view s /\ ~ accepts (view s) k seq /\
       forall q, latest = Some q -> fst <$> view s !! k = Some q) \/
      (put_applied (view s) k seq v (view s') /\ forall q, latest = Some q -> q = seq)
  | Err _ => view s' = view s \/ put_applied (view s) k seq v (view s')
  end.
Proof. by apply retry_put_ok. Qed.

Lemma with_retry_get_ok n k s :
  let '(s', r) := with_retry (store_get k None) n s in
  view s' = view s /\
  match r with
  | Ok (Some v) => exists q, live (view s) k q v
  | Ok None => forall q v, ~ live (view s) k q v
  | Err _ => True
  end.
Proof.
  unfold with_retry. generalize (@None StoreError) as last. revert s.
  induction (n `max` 1) as [|m IH]; intros s last; simpl; [done|].
  pose proof (get_ok k s) as Hg. destruct (store_get k None s) as [s1 [o|e]]; [done|].
  destruct e as [x| | | | |]; try done.
  specialize (IH s1 (Some (Io x))).
  destruct (retry_loop m _ _ s1) as [s2 r]. destruct Hg as [<- _]. done.
Qed.

Lemma with_retry_delete_ok n k s :
  let '(s', r) := with_retry (store_delete k) n s in
  match r with
  | Ok _ => view s' = delete k (view s)
  | Err _ => view s' = view s \/ view s' = delete k (view s)
  end.
Proof.
  unfold with_retry. generalize (@None StoreError) as last. revert s.
  induction (n `max` 1) as [|m IH]; intros s last; simpl; [by left|].
  pose proof (delete_ok k s) as Hd. destruct (store_delete k s) as [s1 [o|e]]; [done|].
  destruct e as [x| | | | |]; try (by left); try done.
  specialize (IH s1 (Some (Io x))).
  destruct (retry_loop m _ _ s1) as [s2 r].
  destruct Hd as [Hd|Hd]; rewrite Hd in IH; [done|].
  rewrite delete_delete_eq in IH. destruct r; [done|]. right. by destruct IH.
Qed.
End retry.
