(* ===== verification/Memory.v ===== *)
(** * The in-process store

    [crates/agentd/src/store/memory.rs]: per-key history, the compare-and-set,
    [list] and [delete], and the fault injection its tests use.  [memory_ok]
    shows it keeps the laws every client of [Store] is proved against. *)

From S2P Require Export Store.

(** [Inner]: the mutex-guarded state. *)
Record MemoryStore := mkMemory {
  data : gmap string (gmap Z Value);
  fail_next : Z;
  latency : Z;
  log : list (string * string);
}.

Definition memory_new : MemoryStore := mkMemory ∅ 0 0 [].

Definition set_fail_next (n : Z) (s : MemoryStore) : MemoryStore :=
  mkMemory (data s) n (latency s) (log s).
Definition set_latency (d : Z) (s : MemoryStore) : MemoryStore :=
  mkMemory (data s) (fail_next s) d (log s).
Definition ops (s : MemoryStore) : list (string * string) := log s.

(** [keys().next_back()] of a history. *)
Definition last_seq (h : gmap Z Value) : option Z := list_max (map_to_list h).*1.
(** [values().next_back()]. *)
Definition last_value (h : gmap Z Value) : option Value := q ← last_seq h; h !! q.

(** Its latest record is live, not a tombstone. *)
Definition latest_live (h : gmap Z Value) : bool :=
  match last_value h with Some v => negb (value_tombstone v) | None => false end.

Definition len (s : MemoryStore) : nat := length (List.filter latest_live (vals (data s))).
Definition dump (s : MemoryStore) : list (string * Z) :=
  omap (fun p => (fun q => (p.1, q)) <$> last_seq p.2) (entries (data s)).

(** [begin]: log the operation, then fail it if failures are injected.  A
    latency only waits. *)
Definition begin_op (op k : string) : stM MemoryStore StoreError unit := fun s =>
  let s := mkMemory (data s) (fail_next s) (latency s) (log s ++ [(op, k)]) in
  if (0 <? fail_next s)%Z
  then (set_fail_next (fail_next s - 1) s, Err (Io "injected failure"))
  else (s, Ok tt).

Definition set_data (d : gmap string (gmap Z Value)) (s : MemoryStore) : MemoryStore :=
  mkMemory d (fail_next s) (latency s) (log s).

Definition memory_put (k : string) (seq : Z) (envelope : Value) :
    stM MemoryStore StoreError PutOutcome :=
  _ ← begin_op "put" k;
  act (fun s =>
  let hist := default ∅ (data s !! k) in
  match last_seq hist with
  | Some l =>
      if (seq <=? l)%Z then (s, Ok (PutConflict (Some l)))
      else (set_data (<[k := <[seq := envelope]> hist]> (data s)) s, Ok PutOk)
  | None => (set_data (<[k := <[seq := envelope]> hist]> (data s)) s, Ok PutOk)
  end).

Definition memory_get (k : string) (seq : option Z) :
    stM MemoryStore StoreError (option Value) :=
  _ ← begin_op "get" k;
  act (fun s =>
  match data s !! k with
  | None => (s, Ok None)
  | Some hist =>
      let picked := match seq with Some q => hist !! q | None => last_value hist end in
      (s, Ok (picked ≫= fun v => if value_tombstone v then None else Some v))
  end).

Definition memory_list (prefix : string) : stM MemoryStore StoreError (list KeySeq) :=
  _ ← begin_op "list" prefix;
  act (fun s =>
  (s, Ok ((fun p => mkKeySeq p.1 (last_seq p.2)) <$>
          List.filter (fun p => starts_with prefix p.1 && latest_live p.2) (entries (data s))))).

Definition memory_delete (k : string) : stM MemoryStore StoreError unit :=
  _ ← begin_op "delete" k;
  act (fun s =>
  (set_data (delete k (data s)) s, Ok tt)).

#[export] Instance memory_store : Store MemoryStore := {|
  store_put := memory_put;
  store_get := memory_get;
  store_list := memory_list;
  store_delete := memory_delete;
|}.

(** ** The laws *)

Definition last_entry (h : gmap Z Value) : option (Z * Value) :=
  q ← last_seq h; v ← h !! q; Some (q, v).

Definition memory_view (s : MemoryStore) : records := omap last_entry (data s).

Lemma last_seq_Some h q :
  last_seq h = Some q <-> is_Some (h !! q) /\ forall j, is_Some (h !! j) -> (j <= q)%Z.
Proof.
  unfold last_seq. rewrite list_max_spec.
  assert (forall j, j ∈ (map_to_list h).*1 <-> is_Some (h !! j)) as Hdom.
  { intros j. rewrite list_elem_of_fmap. split.
    - intros [[j' v] [-> Hv%elem_of_map_to_list]]. eauto.
    - intros [v Hv]. exists (j, v). by rewrite elem_of_map_to_list. }
  rewrite Hdom. by setoid_rewrite Hdom.
Qed.

Lemma last_seq_None h : last_seq h = None <-> h = ∅.
Proof.
  unfold last_seq. rewrite list_max_None. split.
  - intros H%fmap_nil_inv. by apply map_to_list_empty_iff.
  - intros ->. by rewrite map_to_list_empty.
Qed.

Lemma last_entry_Some h q v :
  last_entry h = Some (q, v) <-> last_seq h = Some q /\ h !! q = Some v.
Proof.
  unfold last_entry. destruct (last_seq h) as [q'|] eqn:E; simpl; [|naive_solver].
  destruct (h !! q') as [v'|] eqn:E'; simpl; naive_solver.
Qed.

Lemma last_entry_insert h q v :
  (forall l, last_seq h = Some l -> (l < q)%Z) -> last_entry (<[q := v]> h) = Some (q, v).
Proof.
  intros Hlt. apply last_entry_Some. split; [|by simplify_map_eq].
  apply last_seq_Some. split; [by simplify_map_eq|].
  intros j [w Hj]. destruct (decide (j = q)) as [->|Hne]; [lia|].
  rewrite lookup_insert_ne in Hj by done.
  destruct (last_seq h) as [l|] eqn:E.
  - apply last_seq_Some in E as E'. assert (j <= l)%Z by (apply E'; eauto).
    specialize (Hlt l eq_refl). lia.
  - apply last_seq_None in E. by subst.
Qed.

Lemma last_entry_value h : last_value h = snd <$> last_entry h.
Proof.
  unfold last_value, last_entry. destruct (last_seq h) as [q|]; simpl; [|done].
  by destruct (h !! q).
Qed.

Lemma begin_op_spec op k s :
  let '(s', r) := begin_op op k s in
  data s' = data s /\ match r with Ok _ => True | Err e => exists m, e = Io m end.
Proof. unfold begin_op. simpl. case_z; simpl; eauto. Qed.

Lemma memory_view_insert k h s :
  memory_view (set_data (<[k := h]> (data s)) s) =
    match last_entry h with
    | Some p => <[k := p]> (memory_view s)
    | None => delete k (memory_view s)
    end.
Proof.
  apply map_eq. intros j. unfold memory_view, set_data. simpl.
  rewrite lookup_omap.
  destruct (decide (j = k)) as [->|Hne].
  - rewrite lookup_insert_eq. simpl. destruct (last_entry h); by simplify_map_eq.
  - rewrite lookup_insert_ne by done.
    destruct (last_entry h); rewrite ?lookup_insert_ne, ?lookup_delete_ne by done;
      by rewrite lookup_omap.
Qed.

Lemma memory_view_lookup s k :
  memory_view s !! k = data s !! k ≫= last_entry.
Proof. apply lookup_omap. Qed.

(** The compare-and-set guard, read off the history. *)
Lemma memory_accepts s k seq :
  accepts (memory_view s) k seq <->
    forall l, last_seq (default ∅ (data s !! k)) = Some l -> (l < seq)%Z.
Proof.
  unfold accepts. rewrite memory_view_lookup.
  destruct (data s !! k) as [h|]; simpl.
  - unfold last_entry. destruct (last_seq h) as [l|] eqn:E; simpl; [|naive_solver].
    apply last_seq_Some in E as [[v Hv] _]. rewrite Hv. simpl. naive_solver.
  - split; [|done]. intros _ l Hl.
    assert (last_seq ∅ = None) as Hn by (by apply last_seq_None). congruence.
Qed.

Lemma memory_insert_applied s k seq v h :
  h = default ∅ (data s !! k) ->
  (forall l, last_seq h = Some l -> (l < seq)%Z) ->
  put_applied (memory_view s) k seq v
    (memory_view (set_data (<[k := <[seq := v]> h]> (data s)) s)).
Proof.
  intros -> Hlt. split; [by apply memory_accepts|].
  by rewrite memory_view_insert, last_entry_insert.
Qed.

Lemma memory_put_ok k seq v s : let '(s', r) := memory_put k seq v s in
  match r with
  | Ok PutOk => put_applied (memory_view s) k seq v (memory_view s')
  | Ok (PutConflict latest) =>
      memory_view s' = memory_view s /\ ~ accepts (memory_view s) k seq /\
      (forall q, latest = Some q -> fst <$> memory_view s !! k = Some q)
  | Err _ => memory_view s' = memory_view s \/
      put_applied (memory_view s) k seq v (memory_view s')
  end.
Proof.
  unfold memory_put, mbind, stM_bind, act.
  pose proof (begin_op_spec "put" k s) as Hb.
  destruct (begin_op "put" k s) as [s1 [[]|e]]; destruct Hb as [Hd _].
  2: { left. unfold memory_view. by rewrite Hd. }
  assert (memory_view s1 = memory_view s) as Hv by (unfold memory_view; by rewrite Hd).
  rewrite <- Hv. clear Hv Hd.
  destruct (last_seq (default ∅ (data s1 !! k))) as [l|] eqn:E.
  - destruct (Z.leb_spec seq l) as [Hle|Hlt].
    + split_and!; [done| |].
      * rewrite memory_accepts. intros H. specialize (H l E). lia.
      * intros q [= <-]. rewrite memory_view_lookup.
        destruct (data s1 !! k) as [h|]; simpl in *.
        -- unfold last_entry. rewrite E. simpl.
           apply last_seq_Some in E as [[w ->] _]. done.
        -- assert (last_seq ∅ = None) as Hn by (by apply last_seq_None). congruence.
    + apply memory_insert_applied; [done|]. intros l' Hl'. assert (l' = l) by congruence. lia.
  - apply memory_insert_applied; [done|]. intros l' Hl'. congruence.
Qed.

Lemma live_last_entry s k q v :
  live (memory_view s) k q v <->
    exists h, data s !! k = Some h /\ last_entry h = Some (q, v) /\ value_tombstone v = false.
Proof.
  unfold live. rewrite memory_view_lookup. destruct (data s !! k) as [h|]; simpl; naive_solver.
Qed.

Lemma memory_get_ok k s : let '(s', r) := memory_get k None s in
  memory_view s' = memory_view s /\
  match r with
  | Ok (Some v) => exists q, live (memory_view s) k q v
  | Ok None => forall q v, ~ live (memory_view s) k q v
  | Err _ => True
  end.
Proof.
  unfold memory_get, mbind, stM_bind, act.
  pose proof (begin_op_spec "get" k s) as Hb.
  destruct (begin_op "get" k s) as [s1 [[]|e]]; destruct Hb as [Hd _].
  2: { split; [|done]. unfold memory_view. by rewrite Hd. }
  assert (memory_view s1 = memory_view s) as Hv by (unfold memory_view; by rewrite Hd).
  rewrite <- Hv. clear Hv Hd. pose proof (live_last_entry s1 k) as Hl.
  destruct (data s1 !! k) as [h|] eqn:E; simpl.
  2: { split; [done|]. intros q v (h & ? & _)%Hl. done. }
  rewrite last_entry_value. split; [done|].
  destruct (last_entry h) as [[q v]|] eqn:El; simpl.
  2: { intros q v (h' & [= <-] & ? & _)%Hl. congruence. }
  destruct (value_tombstone v) eqn:Et; simpl; [|exists q; apply Hl; eauto].
  intros q' v' (h' & [= <-] & ? & ?)%Hl. congruence.
Qed.

Lemma latest_live_spec h :
  latest_live h = true <-> exists q v, last_entry h = Some (q, v) /\ value_tombstone v = false.
Proof.
  unfold latest_live. rewrite last_entry_value.
  destruct (last_entry h) as [[q v]|] eqn:E; simpl; [|naive_solver].
  rewrite negb_true_iff. naive_solver.
Qed.

Lemma memory_list_ok p s : let '(s', r) := memory_list p s in
  memory_view s' = memory_view s /\
  match r with
  | Ok ks => NoDup (ks_key <$> ks) /\
      forall k, k ∈ (ks_key <$> ks) <->
        starts_with p k = true /\ exists q v, live (memory_view s) k q v
  | Err _ => True
  end.
Proof.
  unfold memory_list, mbind, stM_bind, act.
  pose proof (begin_op_spec "list" p s) as Hb.
  destruct (begin_op "list" p s) as [s1 [[]|e]]; destruct Hb as [Hd _].
  2: { split; [|done]. unfold memory_view. by rewrite Hd. }
  assert (memory_view s1 = memory_view s) as Hv by (unfold memory_view; by rewrite Hd).
  rewrite <- Hv. clear Hv Hd. split; [done|]. rewrite <- list_fmap_compose. split.
  - pose proof (NoDup_keys (data s1)) as Hn. unfold keys in Hn.
    induction (entries (data s1)) as [|x l IH]; simpl; [constructor|].
    apply NoDup_cons in Hn as [Hx Hn]. destruct (_ && _); simpl; [|by apply IH].
    constructor; [|by apply IH]. intros Hin. apply Hx.
    apply list_elem_of_fmap in Hin as (y & Hy & Hin). apply list_elem_of_fmap.
    exists y. split; [done|]. apply list_elem_of_In in Hin. apply filter_In in Hin as [Hin _].
    by apply list_elem_of_In.
  - intros k. rewrite list_elem_of_fmap. setoid_rewrite live_last_entry. split.
    + intros ([k' h] & -> & Hin). apply list_elem_of_In, filter_In in Hin as [Hin Hb].
      apply list_elem_of_In, elem_of_entries in Hin. simpl in *.
      apply andb_true_iff in Hb as [Hp Hl]. apply latest_live_spec in Hl. naive_solver.
    + intros (Hp & q & v & h & Hh & Hl). exists (k, h). split; [done|].
      apply list_elem_of_In, filter_In. split; [by apply list_elem_of_In, elem_of_entries|].
      simpl. rewrite Hp. simpl. apply latest_live_spec. eauto.
Qed.

Lemma memory_delete_ok k s : let '(s', r) := memory_delete k s in
  match r with
  | Ok _ => memory_view s' = delete k (memory_view s)
  | Err (Unsupported _) => memory_view s' = memory_view s
  | Err _ => memory_view s' = memory_view s \/ memory_view s' = delete k (memory_view s)
  end.
Proof.
  unfold memory_delete, mbind, stM_bind, act.
  pose proof (begin_op_spec "delete" k s) as Hb.
  destruct (begin_op "delete" k s) as [s1 [[]|e]]; destruct Hb as [Hd He].
  - unfold memory_view, set_data. simpl. by rewrite omap_delete, Hd.
  - destruct He as [m ->]. left. unfold memory_view. by rewrite Hd.
Qed.

#[export] Instance memory_ok : StoreOk MemoryStore := {|
  view := memory_view;
  put_ok := memory_put_ok;
  get_ok := memory_get_ok;
  list_ok := memory_list_ok;
  delete_ok := memory_delete_ok;
|}.
