(* ===== verification/StateModel.v ===== *)
(** * The durable records

    [crates/agentd/src/state/mod.rs], its data: the entity kinds, the
    manifest, the write-ahead inbox event, the timer record, the checkpoint
    policy and what a restore finds, with the encodings their serde derives
    give them and the proof that each decodes what it encodes. *)

From S2P Require Export Store.

(** ** Kinds *)

Inductive Kind : Type :=
  | Manifest_ | Inbox | Context_ | Run | Subagent | Task | Memory | Artifact | Timer
  | Event | Audit | Cred | Identity | Company.

#[export] Instance kind_eq_dec : EqDecision Kind.
Proof. solve_decision. Defined.

Definition kind_as_str (k : Kind) : string :=
  match k with
  | Manifest_ => "manifest"
  | Inbox => "inbox"
  | Context_ => "context"
  | Run => "run"
  | Subagent => "subagent"
  | Task => "task"
  | Memory => "memory"
  | Artifact => "artifact"
  | Timer => "timer"
  | Event => "event"
  | Audit => "audit"
  | Cred => "cred"
  | Identity => "identity"
  | Company => "company"
  end.

Definition kind_parse (s : string) : option Kind :=
  if decide (s = "manifest") then Some Manifest_
  else if decide (s = "inbox") then Some Inbox
  else if decide (s = "event") then Some Event
  else if decide (s = "context") then Some Context_
  else if decide (s = "run") then Some Run
  else if decide (s = "subagent") then Some Subagent
  else if decide (s = "task") then Some Task
  else if decide (s = "memory") then Some Memory
  else if decide (s = "artifact") then Some Artifact
  else if decide (s = "timer") then Some Timer
  else if decide (s = "audit") then Some Audit
  else if decide (s = "cred") then Some Cred
  else if decide (s = "identity") then Some Identity
  else if decide (s = "company") then Some Company
  else None.

(** The kinds the manifest indexes. *)
Definition indexed (k : Kind) : bool :=
  match k with
  | Manifest_ | Memory | Audit | Cred | Event | Identity | Company => false
  | _ => true
  end.

Lemma kind_parse_as_str k : kind_parse (kind_as_str k) = Some k.
Proof. by destruct k. Qed.

Lemma kind_as_str_inj k j : kind_as_str k = kind_as_str j -> k = j.
Proof.
  intros H. apply (f_equal kind_parse) in H. rewrite !kind_parse_as_str in H. congruence.
Qed.

Lemma kind_parse_Some s k : kind_parse s = Some k -> s = kind_as_str k.
Proof. unfold kind_parse. intros H. repeat case_decide; simplify_eq; done. Qed.

Lemma kind_no_slash k : str_contains "/"%char (kind_as_str k) = false.
Proof. by destruct k. Qed.

(** ** The manifest *)

Record EntityRef := mkRef { ref_kind : string; ref_id : string; ref_seq : Z }.

#[export] Instance entity_ref_eq_dec : EqDecision EntityRef.
Proof. solve_decision. Defined.

Definition entity_ref_to_value (r : EntityRef) : Value :=
  jobj [("kind", to_value (ref_kind r)); ("id", to_value (ref_id r));
                      ("seq", to_value (ref_seq r))].
Definition entity_ref_from_value : Value -> option EntityRef := object (fun v =>
    kind ← field "kind" v; id ← field "id" v; seq ← field "seq" v;
    Some (mkRef kind id seq)).

#[export] Instance entity_ref_codec : Codec EntityRef :=
  {| to_value := entity_ref_to_value; from_value := entity_ref_from_value |}.

Record StreamMeta := mkStreamMeta { stream_seq : Z; stream_first : Z }.

Definition stream_meta_to_value (m : StreamMeta) : Value :=
  jobj [("seq", to_value (stream_seq m)); ("first", to_value (stream_first m))].
Definition stream_meta_from_value : Value -> option StreamMeta := object (fun v =>
    seq ← field "seq" v; first ← field "first" v; Some (mkStreamMeta seq first)).

#[export] Instance stream_meta_codec : Codec StreamMeta :=
  {| to_value := stream_meta_to_value; from_value := stream_meta_from_value |}.

Definition MANIFEST_ID : string := "agent".

Record Manifest := mkManifest {
  m_generation : Z;
  m_created : Z;
  m_updated : Z;
  m_entities : list EntityRef;
  m_starts : gmap string Value;
  m_streams : gmap string StreamMeta;
  m_breakers : gmap string Value;
  m_budget : Value;
  m_lifecycle : Value;
  m_config_digest : gmap string string;
  m_retired : list EntityRef;
}.

Definition manifest_default : Manifest := mkManifest 0 0 0 [] ∅ ∅ ∅ VNull VNull ∅ [].

(** [BTreeMap::is_empty], [Vec::is_empty]. *)
Definition map_is_empty {A} (m : gmap string A) : bool :=
  match map_to_list m with [] => true | _ => false end.
Definition is_empty {A} (l : list A) : bool := match l with [] => true | _ => false end.

Lemma map_is_empty_true {A} (m : gmap string A) : map_is_empty m = true -> m = ∅.
Proof.
  unfold map_is_empty. destruct (map_to_list m) eqn:E; [|done].
  intros _. by apply map_to_list_empty_iff.
Qed.

Lemma is_empty_true {A} (l : list A) : is_empty l = true -> l = [].
Proof. by destruct l. Qed.

Definition manifest_to_value (m : Manifest) : Value :=
  jobj (
    [("generation", to_value (m_generation m)); ("created", to_value (m_created m));
     ("updated", to_value (m_updated m)); ("entities", to_value (m_entities m));
     ("starts", to_value (m_starts m))]
    ++ field_unless "streams" (map_is_empty (m_streams m)) (m_streams m)
    ++ field_unless "breakers" (map_is_empty (m_breakers m)) (m_breakers m)
    ++ [("budget", to_value (m_budget m)); ("lifecycle", to_value (m_lifecycle m))]
    ++ field_unless "config_digest" (map_is_empty (m_config_digest m)) (m_config_digest m)
    ++ field_unless "retired" (is_empty (m_retired m)) (m_retired m)).
Definition manifest_from_value : Value -> option Manifest := object (fun v =>
    generation ← field_or "generation" 0%Z v; created ← field_or "created" 0%Z v;
    updated ← field_or "updated" 0%Z v; entities ← field_or "entities" [] v;
    starts ← field_or "starts" ∅ v; streams ← field_or "streams" ∅ v;
    breakers ← field_or "breakers" ∅ v; budget ← field_or "budget" VNull v;
    lifecycle ← field_or "lifecycle" VNull v; config_digest ← field_or "config_digest" ∅ v;
    retired ← field_or "retired" [] v;
    Some (mkManifest generation created updated entities starts streams breakers budget
            lifecycle config_digest retired)).

#[export] Instance manifest_codec : Codec Manifest :=
  {| to_value := manifest_to_value; from_value := manifest_from_value |}.

Definition ref_is (kind id : string) (r : EntityRef) : bool :=
  bool_decide (ref_kind r = kind) && bool_decide (ref_id r = id).

(** [iter_mut().find(..)]: the first match takes the new sequence number. *)
Fixpoint upsert_refs (kind id : string) (seq : Z) (l : list EntityRef) : list EntityRef :=
  match l with
  | [] => [mkRef kind id seq]
  | r :: l' => if ref_is kind id r then mkRef (ref_kind r) (ref_id r) seq :: l'
               else r :: upsert_refs kind id seq l'
  end.

Definition m_set_entities (l : list EntityRef) (m : Manifest) : Manifest :=
  mkManifest (m_generation m) (m_created m) (m_updated m) l (m_starts m) (m_streams m)
    (m_breakers m) (m_budget m) (m_lifecycle m) (m_config_digest m) (m_retired m).
Definition m_set_updated (t : Z) (m : Manifest) : Manifest :=
  mkManifest (m_generation m) (m_created m) t (m_entities m) (m_starts m) (m_streams m)
    (m_breakers m) (m_budget m) (m_lifecycle m) (m_config_digest m) (m_retired m).
Definition m_set_generation (g : Z) (m : Manifest) : Manifest :=
  mkManifest g (m_created m) (m_updated m) (m_entities m) (m_starts m) (m_streams m)
    (m_breakers m) (m_budget m) (m_lifecycle m) (m_config_digest m) (m_retired m).
Definition m_set_config_digest (c : gmap string string) (m : Manifest) : Manifest :=
  mkManifest (m_generation m) (m_created m) (m_updated m) (m_entities m) (m_starts m)
    (m_streams m) (m_breakers m) (m_budget m) (m_lifecycle m) c (m_retired m).
Definition m_set_retired (l : list EntityRef) (m : Manifest) : Manifest :=
  mkManifest (m_generation m) (m_created m) (m_updated m) (m_entities m) (m_starts m)
    (m_streams m) (m_breakers m) (m_budget m) (m_lifecycle m) (m_config_digest m) l.

Definition m_upsert (kind id : string) (seq : Z) (m : Manifest) : Manifest :=
  m_set_entities (upsert_refs kind id seq (m_entities m)) m.
Definition m_remove (kind id : string) (m : Manifest) : Manifest :=
  m_set_entities (List.filter (fun r => negb (ref_is kind id r)) (m_entities m)) m.

(** ** Inbox events and timers *)

Inductive InboxStatus : Type := Pending | Done.

#[export] Instance inbox_status_eq_dec : EqDecision InboxStatus.
Proof. solve_decision. Defined.

Definition inbox_status_to_value (s : InboxStatus) : Value :=
  VStr (match s with Pending => "pending" | Done => "done" end).
Definition inbox_status_from_value (v : Value) : option InboxStatus :=
  s ← as_str v;
  if decide (s = "pending") then Some Pending
  else if decide (s = "done") then Some Done else None.

#[export] Instance inbox_status_codec : Codec InboxStatus :=
  {| to_value := inbox_status_to_value; from_value := inbox_status_from_value |}.

(** [obs::trace::TraceContext], as the durable records carry it. *)
Record TraceContext := mkTrace {
  trace_id : string;
  span_id : string;
  parent_span_id : option string;
  flags : string;
  tracestate : option string;
}.

Definition trace_to_value (t : TraceContext) : Value :=
  jobj ([("trace_id", to_value (trace_id t)); ("span_id", to_value (span_id t))]
    ++ opt_field "parent_span_id" (parent_span_id t)
    ++ [("flags", to_value (flags t))]
    ++ opt_field "tracestate" (tracestate t)).
Definition trace_from_value : Value -> option TraceContext := object (fun v =>
  trace_id ← field "trace_id" v; span_id ← field "span_id" v;
  parent ← field_opt "parent_span_id" v; flags ← field "flags" v;
  state ← field_opt "tracestate" v;
  Some (mkTrace trace_id span_id parent flags state)).

#[export] Instance trace_codec : Codec TraceContext :=
  {| to_value := trace_to_value; from_value := trace_from_value |}.

Record InboxEvent := mkInboxEvent {
  ev_id : string;
  ev_kind : string;
  ev_ts : Z;
  ev_principal : option string;
  ev_payload : Value;
  ev_status : InboxStatus;
  ev_trace : option TraceContext;
  ev_session : option string;
}.

Definition inbox_event_to_value (e : InboxEvent) : Value :=
  jobj (
    [("id", to_value (ev_id e)); ("kind", to_value (ev_kind e)); ("ts", to_value (ev_ts e))]
    ++ opt_field "principal" (ev_principal e)
    ++ [("payload", to_value (ev_payload e)); ("status", to_value (ev_status e))]
    ++ opt_field "trace" (ev_trace e)
    ++ opt_field "session" (ev_session e)).
Definition inbox_event_from_value : Value -> option InboxEvent := object (fun v =>
    id ← field "id" v; kind ← field "kind" v; ts ← field "ts" v;
    principal ← field_opt "principal" v; payload ← field "payload" v;
    status ← field_or "status" Pending v; trace ← field_opt "trace" v;
    session ← field_opt "session" v;
    Some (mkInboxEvent id kind ts principal payload status trace session)).

#[export] Instance inbox_event_codec : Codec InboxEvent :=
  {| to_value := inbox_event_to_value; from_value := inbox_event_from_value |}.

Record TimerRecord := mkTimer {
  timer_id : string;
  deadline_ms : Z;
  owner : Value;
  timer_payload : Value;
}.

Definition timer_to_value (t : TimerRecord) : Value :=
  jobj [("id", to_value (timer_id t)); ("deadline_ms", to_value (deadline_ms t));
                      ("owner", to_value (owner t)); ("payload", to_value (timer_payload t))].
Definition timer_from_value : Value -> option TimerRecord := object (fun v =>
    id ← field "id" v; deadline ← field "deadline_ms" v; owner ← field "owner" v;
    payload ← field_or "payload" VNull v;
    Some (mkTimer id deadline owner payload)).

#[export] Instance timer_codec : Codec TimerRecord :=
  {| to_value := timer_to_value; from_value := timer_from_value |}.

(** ** The checkpoint policy *)

Inductive StoreOnError : Type := Halt | Degrade.

#[export] Instance store_on_error_eq_dec : EqDecision StoreOnError.
Proof. solve_decision. Defined.

(** [debounce] in milliseconds. *)
Record Policy := mkPolicy {
  debounce : Z;
  on_error : StoreOnError;
  retries : nat;
  max_value_bytes : option Z;
}.

Definition policy_default : Policy := mkPolicy 250 Halt 3 None.

(** ** What a restore found *)

Record Restored := mkRestored {
  r_manifest : option Manifest;
  r_entities : gmap string (list Envelope);
  r_lost : list EntityRef;
  r_unindexed : list EntityRef;
}.

Definition restored_default : Restored := mkRestored None ∅ [] [].

Definition of_kind (k : Kind) (r : Restored) : list Envelope :=
  default [] (r_entities r !! kind_as_str k).
Definition count (r : Restored) : nat :=
  foldr Nat.add 0 (length <$> (map_to_list (r_entities r)).*2).

(** [sort_by(ts then id)]. *)
Definition event_le (a b : InboxEvent) : Prop :=
  (ev_ts a < ev_ts b)%Z \/ (ev_ts a = ev_ts b /\ String.le (ev_id a) (ev_id b)).

#[export] Instance event_le_dec a b : Decision (event_le a b).
Proof. unfold event_le. apply _. Defined.

Definition inbox_pending (r : Restored) : list InboxEvent :=
  merge_sort event_le
    (List.filter (fun e => bool_decide (ev_status e = Pending))
       (omap (fun env => from_value (A := InboxEvent) (env_state env)) (of_kind Inbox r))).

Definition timers (r : Restored) : list TimerRecord :=
  omap (fun env => from_value (A := TimerRecord) (env_state env)) (of_kind Timer r).

(** ** Round trips *)

(** A record decodes what it encodes: read each field of the literal object
    and decode it, an absent optional one by its default. *)
Ltac codec_step :=
  first
    [ progress cbn [mbind option_bind fmap option_fmap option_map]
    | rewrite from_to_value
    | rewrite to_value_non_null
    | progress cbn beta iota
    | match goal with |- context [to_value <$> ?o] => destruct o eqn:? end ].

Ltac solve_codec :=
  let a := fresh "a" in
  intros a;
  lazymatch goal with
  | |- @from_value _ ?c (@to_value _ ?c _) = _ => unfold c; cbn [from_value to_value]
  end;
  lazymatch goal with
  | |- ?dec (?enc _) = _ => unfold dec, enc
  end;
  rewrite object_jobj; unfold field, field_or, field_opt; cbn beta iota;
  obj_simpl;
  repeat codec_step;
  try (destruct a; cbn in *; subst; reflexivity).

#[export] Instance envelope_codec_ok : CodecOk Envelope.
Proof. solve_codec. Qed.

#[export] Instance entity_ref_codec_ok : CodecOk EntityRef.
Proof. solve_codec. Qed.
#[export] Instance stream_meta_codec_ok : CodecOk StreamMeta.
Proof. solve_codec. Qed.
#[export] Instance inbox_status_codec_ok : CodecOk InboxStatus.
Proof. by intros []. Qed.
#[export] Instance trace_codec_ok : CodecOk TraceContext.
Proof. solve_codec. Qed.
#[export] Instance trace_non_null : NonNull TraceContext.
Proof. done. Qed.
#[export] Instance timer_codec_ok : CodecOk TimerRecord.
Proof. solve_codec. Qed.
#[export] Instance inbox_event_codec_ok : CodecOk InboxEvent.
Proof. solve_codec. Qed.

#[export] Instance manifest_codec_ok : CodecOk Manifest.
Proof.
  solve_codec.
  all: repeat match goal with
  | |- context [if map_is_empty ?m then _ else _] =>
      let E := fresh in destruct (map_is_empty m) eqn:E;
      [apply map_is_empty_true in E; subst|]
  | |- context [if is_empty ?l then _ else _] =>
      let E := fresh in destruct (is_empty l) eqn:E; [apply is_empty_true in E; subst|]
  | _ => progress cbn [mbind option_bind]
  | _ => rewrite from_to_value
  end; destruct a; cbn in *; subst; reflexivity.
Qed.

(** ** The manifest's index *)

(** No kind and id pair is indexed twice. *)
Definition index_ok (l : list EntityRef) : Prop :=
  NoDup ((fun r => (ref_kind r, ref_id r)) <$> l).

Lemma ref_is_true kind id r : ref_is kind id r = true <-> ref_kind r = kind /\ ref_id r = id.
Proof. unfold ref_is. rewrite andb_true_iff, !bool_decide_eq_true. done. Qed.

Lemma elem_of_upsert kind id seq l r :
  index_ok l ->
  r ∈ upsert_refs kind id seq l <->
    r = mkRef kind id seq \/ (r ∈ l /\ (ref_kind r, ref_id r) <> (kind, id)).
Proof.
  unfold index_ok. induction l as [|x l IH]; simpl; intros Hn; [set_solver|].
  apply NoDup_cons in Hn as [Hx Hn]. destruct (ref_is kind id x) eqn:E.
  - apply ref_is_true in E as [<- <-]. rewrite !elem_of_cons. split.
    + intros [->|Hr]; [by left|]. right. split; [by right|]. intros Heq.
      apply Hx. rewrite <- Heq. apply list_elem_of_fmap. eauto.
    + intros [->|[[->|Hr] Hne]]; [by left|done|by right].
  - rewrite !elem_of_cons, (IH Hn). split.
    + intros [->|[->|[Hr Hne]]]; [|by left|naive_solver].
      right. split; [by left|]. intros [=]. apply not_true_iff_false in E. apply E.
      by apply ref_is_true.
    + naive_solver.
Qed.

Lemma upsert_keys kind id seq l p :
  p ∈ (fun r => (ref_kind r, ref_id r)) <$> upsert_refs kind id seq l <->
    p = (kind, id) \/ p ∈ (fun r => (ref_kind r, ref_id r)) <$> l.
Proof.
  induction l as [|x l IH]; simpl; [set_solver|].
  destruct (ref_is kind id x) eqn:E; simpl; rewrite !elem_of_cons; [|naive_solver].
  apply ref_is_true in E as [<- <-]. naive_solver.
Qed.

Lemma index_ok_upsert kind id seq l : index_ok l -> index_ok (upsert_refs kind id seq l).
Proof.
  unfold index_ok. induction l as [|x l IH]; simpl; intros Hn; [apply NoDup_singleton|].
  apply NoDup_cons in Hn as [Hx Hn]. destruct (ref_is kind id x) eqn:E; simpl.
  - by constructor.
  - constructor; [|by apply IH]. rewrite upsert_keys. intros [Heq|]; [|done].
    apply not_true_iff_false in E. apply E, ref_is_true. by simplify_eq.
Qed.

Lemma index_ok_filter (f : EntityRef -> bool) l : index_ok l -> index_ok (List.filter f l).
Proof.
  unfold index_ok. induction l as [|x l IH]; simpl; intros Hn; [done|].
  apply NoDup_cons in Hn as [Hx Hn]. destruct (f x); simpl; [|by apply IH].
  constructor; [|by apply IH]. intros (y & Hy & Hin)%list_elem_of_fmap. apply Hx.
  apply list_elem_of_fmap. exists y. split; [done|].
  apply list_elem_of_In in Hin. apply filter_In in Hin as [Hin _]. by apply list_elem_of_In.
Qed.

Lemma elem_of_bfilter {A} (f : A -> bool) (l : list A) x :
  x ∈ List.filter f l <-> x ∈ l /\ f x = true.
Proof. rewrite !list_elem_of_In. apply filter_In. Qed.

(** A lookup of the index. *)
Definition indexes (m : Manifest) (kind id : string) : Prop :=
  exists seq, mkRef kind id seq ∈ m_entities m.

Lemma event_le_total a b : event_le a b \/ event_le b a.
Proof.
  unfold event_le. destruct (Z.lt_trichotomy (ev_ts a) (ev_ts b)) as [?|[?|?]]; [lia| |lia].
  destruct (total String.le (ev_id a) (ev_id b)); auto.
Qed.

Lemma event_le_trans a b c : event_le a b -> event_le b c -> event_le a c.
Proof.
  unfold event_le. intros [?|[??]] [?|[??]]; [lia|lia|lia|].
  right. split; [lia|]. by etrans.
Qed.

(** [inbox_pending] is what is pending among the restored inbox records, in
    arrival order. *)
Lemma elem_of_inbox_pending r e :
  e ∈ inbox_pending r <->
    ev_status e = Pending /\
    exists env, env ∈ of_kind Inbox r /\ from_value (env_state env) = Some e.
Proof.
  unfold inbox_pending. rewrite merge_sort_Permutation, elem_of_bfilter, bool_decide_eq_true.
  rewrite list_elem_of_omap. naive_solver.
Qed.
