(* ===== verification/Durable.v ===== *)
(** * The durability façade

    [crates/agentd/src/state/mod.rs], [Durable]: the single writer's view of
    a store.  A write allocates the next sequence number of its key and
    compare-and-sets; a conflict on a key this life owns is fatal; a
    create-only write never overwrites.  The definitions are generic in the
    [Store]; the theorems are proved from its laws. *)

From S2P Require Export StateModel.

(** Who holds a key a create-only write found taken. *)
Inductive Holder : Type :=
  | Ours
  | Tombstone (seq : Z)
  | Other.

(** One pass of the write loop: go round again, or the result. *)
Inductive Pass : Type :=
  | Again (adopted : bool) (tombstone : option Z)
  | Finished (seq : option Z).

Record Durable (S : Type) := mkDurable {
  d_store : S;
  d_prefix : string;
  d_instance : string;
  d_policy : Policy;
  d_seqs : gmap string Z;
  d_manifest : Manifest;
  d_manifest_dirty : bool;
  d_last_flush : Z;
  d_degraded : bool;
  d_fresh : bool;
  d_config_digest : gmap string string;
  (** How many times a clock has been read. *)
  d_ticks : nat;
}.
Arguments mkDurable {S}.
Arguments d_store {S}.
Arguments d_prefix {S}.
Arguments d_instance {S}.
Arguments d_policy {S}.
Arguments d_seqs {S}.
Arguments d_manifest {S}.
Arguments d_manifest_dirty {S}.
Arguments d_last_flush {S}.
Arguments d_degraded {S}.
Arguments d_fresh {S}.
Arguments d_config_digest {S}.
Arguments d_ticks {S}.

Section durable.
Context {S : Type} `{Store S} `{Clock} `{JsonLen}.
Implicit Types (d : Durable S).

Definition set_store (s : S) d : Durable S :=
  mkDurable s (d_prefix d) (d_instance d) (d_policy d) (d_seqs d) (d_manifest d)
    (d_manifest_dirty d) (d_last_flush d) (d_degraded d) (d_fresh d) (d_config_digest d)
    (d_ticks d).
Definition set_seqs (m : gmap string Z) d : Durable S :=
  mkDurable (d_store d) (d_prefix d) (d_instance d) (d_policy d) m (d_manifest d)
    (d_manifest_dirty d) (d_last_flush d) (d_degraded d) (d_fresh d) (d_config_digest d)
    (d_ticks d).
(** A change to the manifest marks it dirty. *)
Definition set_manifest (m : Manifest) d : Durable S :=
  mkDurable (d_store d) (d_prefix d) (d_instance d) (d_policy d) (d_seqs d) m
    true (d_last_flush d) (d_degraded d) (d_fresh d) (d_config_digest d) (d_ticks d).
Definition set_flushed (at_ms : Z) d : Durable S :=
  mkDurable (d_store d) (d_prefix d) (d_instance d) (d_policy d) (d_seqs d) (d_manifest d)
    false at_ms (d_degraded d) (d_fresh d) (d_config_digest d) (d_ticks d).
Definition set_degraded (b : bool) d : Durable S :=
  mkDurable (d_store d) (d_prefix d) (d_instance d) (d_policy d) (d_seqs d) (d_manifest d)
    (d_manifest_dirty d) (d_last_flush d) b (d_fresh d) (d_config_digest d) (d_ticks d).
Definition tick d : Durable S :=
  mkDurable (d_store d) (d_prefix d) (d_instance d) (d_policy d) (d_seqs d) (d_manifest d)
    (d_manifest_dirty d) (d_last_flush d) (d_degraded d) (d_fresh d) (d_config_digest d)
    (Datatypes.S (d_ticks d)).

(** [Durable::new], with the two startup facts it reads from the process. *)
Definition durable_new (s : S) (prefix instance : string) (p : Policy) (fresh : bool)
    (digest : gmap string string) : Durable S :=
  mkDurable s prefix instance p ∅ manifest_default false (mono 0) false fresh digest 1.

Definition with_fresh (fresh : bool) d : Durable S :=
  mkDurable (d_store d) (d_prefix d) (d_instance d) (d_policy d) (d_seqs d) (d_manifest d)
    (d_manifest_dirty d) (d_last_flush d) (d_degraded d) fresh (d_config_digest d) (d_ticks d).
Definition with_config_digest (digest : gmap string string) d : Durable S :=
  mkDurable (d_store d) (d_prefix d) (d_instance d) (d_policy d) (d_seqs d) (d_manifest d)
    (d_manifest_dirty d) (d_last_flush d) (d_degraded d) (d_fresh d) digest (d_ticks d).

Abbreviation durM := (stM (Durable S) StoreError).

(** A reading of the wall clock, of the monotonic clock. *)
Definition now_ms : durM Z := fun d => (tick d, Ok (wall (d_ticks d))).
Definition instant : durM Z := fun d => (tick d, Ok (mono (d_ticks d))).

(** An operation on the store. *)
Definition on_store {A} (m : stM S StoreError A) : durM A := fun d =>
  let '(s', r) := m (d_store d) in (set_store s' d, r).

Definition d_key (d : Durable S) (kind : Kind) (id : string) : string :=
  key (d_prefix d) (d_instance d) (kind_as_str kind) id.

Definition remember (k : string) (seq : Z) : durM unit :=
  modify (fun d => set_seqs (<[k := seq]> (d_seqs d)) d).

(** Change the manifest and stamp it. *)
Definition update_manifest (f : Manifest -> Manifest) : durM unit :=
  t ← now_ms;
  modify (fun d => set_manifest (m_set_updated t (f (d_manifest d))) d).

(** ** Entities *)

(** Who holds a key a create-only put of [env] conflicted on. *)
Definition create_conflict (k : string) (env : Envelope) (latest_seq : option Z) :
    durM Holder :=
  n ← gets (fun d => retries (d_policy d));
  stored ← on_store (with_retry (store_get k None) n);
  mret match stored with
  | None => match latest_seq with Some l => Tombstone l | None => Other end
  | Some v =>
      if forallb (fun f => bool_decide (get f v = get f (to_value env)))
           ["seq"; "ts"; "instance"; "state"]
      then Ours else Other
  end.

(** The sequence number the pass writes, and whether this life had one. *)
Definition next_seq (create_only : bool) (tombstone : option Z) (k : string) d : Z * bool :=
  if create_only
  then (match tombstone with Some t => u64_add t 1 | None => 1 end, false)%Z
  else match d_seqs d !! k with
       | Some s => (u64_add s 1, true)
       | None => (1%Z, false)
       end.

(** What a create-only conflict's holder makes of the outcome: the outcome
    to act on, or the tombstone to write past. *)
Definition resolve_conflict (create_only : bool) (tombstone : option Z) (k : string)
    (env : Envelope) (outcome : result StoreError PutOutcome) :
    durM (result StoreError PutOutcome + Z) :=
  match create_only, outcome with
  | true, Ok (PutConflict latest) =>
      h ← create_conflict k env latest;
      mret match h, tombstone with
      | Ours, _ => inl (Ok PutOk)
      | Tombstone t, None => inr t
      | _, _ => inl outcome
      end
  | _, _ => mret (inl outcome)
  end.

(** The rest of a pass, once its outcome is known. *)
Definition conclude (kind : Kind) (id k : string) (seq : Z) (warmed create_only adopted : bool)
    (tombstone : option Z) (outcome : result StoreError PutOutcome) : durM Pass :=
  match outcome with
  | Ok PutOk =>
      _ ← remember k seq;
      _ ← (if indexed kind
           then update_manifest (m_upsert (kind_as_str kind) id seq) else mret tt);
      _ ← modify (set_degraded false);
      mret (Finished (Some seq))
  | Ok (PutConflict latest) =>
      if create_only then
        _ ← match latest with Some l => remember k l | None => mret tt end;
        mret (Finished None)
      else
        match negb warmed && negb adopted, latest with
        | true, Some l => _ ← remember k l; mret (Again true tombstone)
        | _, _ => throw (Conflict k seq latest)
        end
  | Err e =>
      p ← gets d_policy;
      if decide (on_error p = Degrade) then
        _ ← modify (set_degraded true);
        _ ← remember k seq;
        mret (Finished (Some seq))
      else throw e
  end.

Definition write_pass (kind : Kind) (id : string) (state : Value) (hash : option string)
    (create_only adopted : bool) (tombstone : option Z) : durM Pass :=
  k ← gets (fun d => d_key d kind id);
  sw ← gets (next_seq create_only tombstone k);
  ts ← now_ms;
  instance ← gets d_instance;
  n ← gets (fun d => retries (d_policy d));
  let env := mkEnvelope (kind_as_str kind) id sw.1 ts instance hash state in
  outcome ← attempt (on_store (with_retry (store_put k sw.1 (to_value env)) n));
  resolved ← resolve_conflict create_only tombstone k env outcome;
  match resolved with
  | inr t => mret (Again adopted (Some t))
  | inl outcome => conclude kind id k sw.1 sw.2 create_only adopted tombstone outcome
  end.

Fixpoint write_loop (fuel : nat) (kind : Kind) (id : string) (state : Value)
    (hash : option string) (create_only adopted : bool) (tombstone : option Z) :
    durM (option Z) :=
  match fuel with
  | O => throw (Io "out of passes")
  | Datatypes.S fuel' =>
      p ← write_pass kind id state hash create_only adopted tombstone;
      match p with
      | Finished seq => mret seq
      | Again adopted' tombstone' =>
          write_loop fuel' kind id state hash create_only adopted' tombstone'
      end
  end.

(** The value's size against [store.max_value_bytes]. *)
Definition check_size (k : string) (state : Value) : durM unit :=
  p ← gets d_policy;
  match max_value_bytes p with
  | Some cap =>
      if (cap <? json_len state)%Z then throw (TooLarge k (json_len state) cap) else mret tt
  | None => mret tt
  end.

Definition write (kind : Kind) (id : string) (state : Value) (hash : option string)
    (create_only : bool) : durM (option Z) :=
  k ← gets (fun d => d_key d kind id);
  _ ← check_size k state;
  write_loop 2 kind id state hash create_only false None.

(** [put]: a plain write always reports its number ([put_some] below). *)
Definition put (kind : Kind) (id : string) (state : Value) (hash : option string) : durM Z :=
  o ← write kind id state hash false;
  match o with Some seq => mret seq | None => throw (Io "put reported an existing key") end.

Definition create (kind : Kind) (id : string) (state : Value) : durM (option Z) :=
  write kind id state None true.

Definition get_entity (kind : Kind) (id : string) : durM (option Envelope) :=
  k ← gets (fun d => d_key d kind id);
  n ← gets (fun d => retries (d_policy d));
  v ← on_store (with_retry (store_get k None) n);
  match v with
  | None => mret None
  | Some v =>
      env ← lift (ok_or (Corrupt "envelope does not parse") (from_value (A := Envelope) v));
      _ ← remember k (env_seq env);
      mret (if is_tombstone env then None else Some env)
  end.

Definition delete_entity (kind : Kind) (id : string) : durM unit :=
  k ← gets (fun d => d_key d kind id);
  n ← gets (fun d => retries (d_policy d));
  r ← attempt (on_store (with_retry (store_delete k) n));
  _ ← match r with
      | Ok _ => modify (fun d => set_seqs (delete k (d_seqs d)) d)
      | Err (Unsupported _) => _ ← put kind id VNull None; mret tt
      | Err e => throw e
      end;
  if indexed kind then update_manifest (m_remove (kind_as_str kind) id) else mret tt.

Definition list_prefix (kind : Kind) (id_prefix : string) : durM (list KeySeq) :=
  p ← gets (fun d => key (d_prefix d) (d_instance d) (kind_as_str kind) id_prefix);
  on_store (store_list p).

Definition list_kind (kind : Kind) : durM (list KeySeq) := list_prefix kind nil_str.

(** ** Inbox and timers *)

Definition inbox_put (ev : InboxEvent) : durM Z := put Inbox (ev_id ev) (to_value ev) None.
Definition inbox_done (id : string) : durM unit := delete_entity Inbox id.
Definition timer_arm (t : TimerRecord) : durM Z := put Timer (timer_id t) (to_value t) None.
Definition timer_disarm (id : string) : durM unit := delete_entity Timer id.

(** ** The manifest *)

Definition manifest_update (f : Manifest -> Manifest) : durM unit := update_manifest f.

Definition write_manifest : durM bool :=
  snapshot ← gets d_manifest;
  _ ← put Manifest_ MANIFEST_ID (to_value snapshot) None;
  t ← instant;
  _ ← modify (set_flushed t);
  mret true.

Definition flush (force : bool) : durM bool :=
  dirty ← gets d_manifest_dirty;
  if negb dirty then mret false
  else if force then write_manifest
  else
    t ← instant;
    last ← gets d_last_flush;
    p ← gets d_policy;
    if (Z.max (t - last) 0 <? debounce p)%Z then mret false else write_manifest.
End durable.

(** ** What a write does to the store and to the façade's memory *)

(** The constant part of a façade. *)
Definition static {S} (d d' : Durable S) : Prop :=
  d_prefix d' = d_prefix d /\ d_instance d' = d_instance d /\ d_policy d' = d_policy d /\
  d_fresh d' = d_fresh d /\ d_config_digest d' = d_config_digest d.

#[export] Instance static_preorder {S} : PreOrder (@static S).
Proof. unfold static. split; [by intros ?|]. intros ?????. naive_solver congruence. Qed.

(** What the store holds, through the façade. *)
Definition dview {S} `{StoreOk S} (d : Durable S) : records := view (d_store d).

Lemma value_tombstone_envelope e : value_tombstone (to_value e) = is_null (env_state e).
Proof. unfold value_tombstone. cbn. unfold envelope_to_value. by obj_simpl. Qed.

Lemma get_state_envelope e : get "state" (to_value e) = Some (env_state e).
Proof. cbn. unfold envelope_to_value. by obj_simpl. Qed.

Section facts.
Context {S : Type} `{StoreOk S} `{Clock} `{JsonLen}.
Implicit Types (d : Durable S).

(** The envelope a pass over [d] writes under the number [seq]. *)
Definition pass_env d (kind : Kind) (id : string) (seq : Z) (hash : option string)
    (state : Value) : Envelope :=
  mkEnvelope (kind_as_str kind) id seq (wall (d_ticks d)) (d_instance d) hash state.

(** The index after a write. *)
Definition index_after d (kind : Kind) (id : string) (seq : Z) : list EntityRef :=
  if indexed kind then upsert_refs (kind_as_str kind) id seq (m_entities (d_manifest d))
  else m_entities (d_manifest d).

Lemma d_key_static d d' kind id : static d d' -> d_key d' kind id = d_key d kind id.
Proof. intros (Hp & Hi & _). unfold d_key. by rewrite Hp, Hi. Qed.

(** A plain pass, on every branch. *)
Lemma plain_pass kind id state hash adopted tomb d :
  let k := d_key d kind id in
  let '(seq, warmed) := next_seq false tomb k d in
  let env := pass_env d kind id seq hash state in
  let '(d', r) := write_pass kind id state hash false adopted tomb d in
  static d d' /\
  match r with
  | Ok (Finished o) =>
      o = Some seq /\ d_seqs d' = <[k := seq]> (d_seqs d) /\
      ((d_degraded d' = false /\ put_applied (dview d) k seq (to_value env) (dview d') /\
        m_entities (d_manifest d') = index_after d kind id seq) \/
       (d_degraded d' = true /\ on_error (d_policy d) = Degrade /\
        m_entities (d_manifest d') = m_entities (d_manifest d) /\
        (dview d' = dview d \/ put_applied (dview d) k seq (to_value env) (dview d'))))
  | Ok (Again a t) =>
      warmed = false /\ adopted = false /\ a = true /\ t = tomb /\
      m_entities (d_manifest d') = m_entities (d_manifest d) /\
      d_degraded d' = d_degraded d /\
      exists l, d_seqs d' = <[k := l]> (d_seqs d) /\
        ((dview d' = dview d /\ fst <$> dview d !! k = Some l) \/
         (put_applied (dview d) k seq (to_value env) (dview d') /\ l = seq))
  | Err e =>
      d_seqs d' = d_seqs d /\ d_degraded d' = d_degraded d /\
      m_entities (d_manifest d') = m_entities (d_manifest d) /\
      (dview d' = dview d \/ put_applied (dview d) k seq (to_value env) (dview d'))
  end.
Proof.
  unfold write_pass, resolve_conflict, conclude, on_store, remember, update_manifest, now_ms.
  run_st. destruct (next_seq false tomb (d_key d kind id) d) as [seq warmed] eqn:Hn. cbn.
  change (d_key (tick d) kind id) with (d_key d kind id).
  change (mkEnvelope _ id seq _ _ hash state) with (pass_env d kind id seq hash state).
  pose proof (with_retry_put_ok (retries (d_policy d)) (d_key d kind id) seq
    (to_value (pass_env d kind id seq hash state)) (d_store d)) as Hp.
  destruct (with_retry _ _ _) as [s1 [[|latest]|e]]; cbn in *.
  - unfold index_after. destruct (indexed kind); cbn; (split; [by split_and!|]);
      (split_and!; [done|done|]); left; by split_and!.
  - destruct (negb warmed && negb adopted) eqn:Ew; [destruct latest as [l|]|]; cbn.
    + apply andb_true_iff in Ew as [->%negb_true_iff ->%negb_true_iff].
      split; [by split_and!|]. split_and!; try done. exists l. split; [done|].
      unfold dview. cbn. destruct Hp as [(? & _ & Hl)|[? Hl]]; [left|right]; auto.
    + split; [by split_and!|]. split_and!; try done. unfold dview. cbn. naive_solver.
    + split; [by split_and!|]. split_and!; try done. unfold dview. cbn. naive_solver.
  - destruct (decide _) as [Hd|Hd]; cbn; (split; [by split_and!|]); split_and!; try done.
    right. by split_and!.
Qed.

(** What one entity's write may have left in the store: nothing, or its
    record under some number. *)
Definition maybe_wrote d (kind : Kind) (id : string) (hash : option string) (state : Value)
    d' : Prop :=
  dview d' = dview d \/
  exists seq ts, dview d' =
    <[d_key d kind id := (seq, to_value
        (mkEnvelope (kind_as_str kind) id seq ts (d_instance d) hash state))]> (dview d).

Lemma maybe_wrote_step d d1 d' kind id hash state seq :
  static d d1 ->
  dview d1 = dview d \/
    put_applied (dview d) (d_key d kind id) seq
      (to_value (pass_env d kind id seq hash state)) (dview d1) ->
  maybe_wrote d1 kind id hash state d' -> maybe_wrote d kind id hash state d'.
Proof.
  unfold maybe_wrote. intros Hs Hd [Hd'|(seq' & ts & Hd')].
  - rewrite Hd'. destruct Hd as [->|[_ ->]]; [by left|]. right. by eexists _, _.
  - rewrite (d_key_static _ _ kind id Hs) in Hd'. right. exists seq', ts. rewrite Hd'.
    destruct Hs as (_ & -> & _). destruct Hd as [->|[_ ->]]; [done|].
    by rewrite insert_insert_eq.
Qed.

(** The outcome of a plain write from here: its record is in the store
    under the number it reports, or the façade is degraded. *)
Definition wrote d (kind : Kind) (id : string) (hash : option string) (state : Value)
    (seq : Z) d' : Prop :=
  d_seqs d' !! d_key d kind id = Some seq /\
  ((d_degraded d' = false /\
    m_entities (d_manifest d') = index_after d kind id seq /\
    exists ts, dview d' =
      <[d_key d kind id := (seq, to_value
        (mkEnvelope (kind_as_str kind) id seq ts (d_instance d) hash state))]> (dview d)) \/
   (d_degraded d' = true /\ on_error (d_policy d) = Degrade /\
    m_entities (d_manifest d') = m_entities (d_manifest d))).

Lemma wrote_step d d1 d' kind id hash state seq seq' :
  static d d1 -> m_entities (d_manifest d1) = m_entities (d_manifest d) ->
  dview d1 = dview d \/
    put_applied (dview d) (d_key d kind id) seq
      (to_value (pass_env d kind id seq hash state)) (dview d1) ->
  wrote d1 kind id hash state seq' d' -> wrote d kind id hash state seq' d'.
Proof.
  unfold wrote, index_after. intros Hs Hm Hd [Hq Hw].
  rewrite (d_key_static _ _ kind id Hs) in Hq, Hw. rewrite Hm in Hw.
  destruct Hs as (_ & Hi & Hpol & _). rewrite Hi, Hpol in Hw. split; [done|].
  destruct Hw as [(? & ? & ts & Hv)|]; [left|by right]. split_and!; [done..|].
  exists ts. rewrite Hv. destruct Hd as [->|[_ ->]]; [done|]. by rewrite insert_insert_eq.
Qed.

Lemma plain_pass_wrote kind id state hash adopted tomb d d' o :
  write_pass kind id state hash false adopted tomb d = (d', Ok (Finished o)) ->
  static d d' /\ maybe_wrote d kind id hash state d' /\
  exists seq, o = Some seq /\ wrote d kind id hash state seq d'.
Proof.
  intros E. pose proof (plain_pass kind id state hash adopted tomb d) as Hp. cbv zeta in Hp.
  destruct (next_seq _ _ _ _) as [seq warmed]. rewrite E in Hp.
  destruct Hp as (Hs & -> & Hq & Hw). split; [done|]. split.
  - unfold maybe_wrote, pass_env in *.
    destruct Hw as [(_ & [_ ->] & _)|(_ & _ & _ & [->|[_ ->]])]; [right|by left|right];
      by eexists _, _.
  - exists seq. split; [done|]. split; [rewrite Hq; by simplify_map_eq|].
    destruct Hw as [(? & [_ ->] & ?)|(? & ? & ? & ?)]; [left|by right].
    split_and!; [done..|]. by eexists.
Qed.

(** The loop of a plain write: two passes suffice, whatever it starts from. *)
Lemma plain_loop n kind id state hash d :
  let '(d', r) := write_loop (2 + n) kind id state hash false false None d in
  static d d' /\ maybe_wrote d kind id hash state d' /\
  match r with
  | Ok o => exists seq, o = Some seq /\ wrote d kind id hash state seq d'
  | Err _ => d_degraded d' = d_degraded d /\
      m_entities (d_manifest d') = m_entities (d_manifest d)
  end.
Proof.
  cbn [write_loop Nat.add]. run_st.
  pose proof (plain_pass kind id state hash false None d) as Hp. cbv zeta in Hp.
  destruct (next_seq false None (d_key d kind id) d) as [seq warmed] eqn:Hn.
  destruct (write_pass _ _ _ _ _ _ _ d) as [d1 [[a t|o]|e]] eqn:E1.
  - destruct Hp as (Hs1 & -> & _ & -> & -> & Hm & Hdeg & l & Hl & Hv).
    assert (dview d1 = dview d \/ put_applied (dview d) (d_key d kind id) seq
      (to_value (pass_env d kind id seq hash state)) (dview d1)) as Hv1 by naive_solver.
    pose proof (plain_pass kind id state hash true None d1) as Hp. cbv zeta in Hp.
    destruct (next_seq false None (d_key d1 kind id) d1) as [seq1 warmed1] eqn:Hn1.
    destruct (write_pass _ _ _ _ _ _ _ d1) as [d2 [[a t|o]|e]] eqn:E2; cbn.
    + naive_solver.
    + apply plain_pass_wrote in E2 as (Hs2 & Hm2 & seq' & -> & Hw).
      split; [by etrans|]. split; [by eapply maybe_wrote_step|].
      exists seq'. split; [done|]. by eapply wrote_step.
    + destruct Hp as (Hs2 & _ & Hdeg2 & Hm2 & Hv2). split; [by etrans|].
      split; [|split; congruence].
      eapply maybe_wrote_step; [done..|]. unfold maybe_wrote, pass_env in *.
      destruct Hv2 as [->|[_ ->]]; [by left|right]. by eexists _, _.
  - by apply plain_pass_wrote in E1.
  - destruct Hp as (Hs & _ & Hdeg & Hm & Hv). split; [done|]. split; [|done].
    unfold maybe_wrote, pass_env in *. destruct Hv as [->|[_ ->]]; [by left|right].
    by eexists _, _.
Qed.

Lemma check_size_spec k state d :
  (check_size k state d).1 = d /\
  (check_size k state d).2 =
    match max_value_bytes (d_policy d) with
    | Some cap => if (cap <? json_len state)%Z
                  then Err (TooLarge k (json_len state) cap) else Ok tt
    | None => Ok tt
    end.
Proof.
  unfold check_size. run_st. destruct (max_value_bytes (d_policy d)); [|done]. by case_match.
Qed.

Lemma put_spec kind id state hash d :
  let '(d', r) := put kind id state hash d in
  static d d' /\ maybe_wrote d kind id hash state d' /\
  match r with
  | Ok seq => wrote d kind id hash state seq d'
  | Err _ => d_degraded d' = d_degraded d /\
      m_entities (d_manifest d') = m_entities (d_manifest d)
  end.
Proof.
  unfold put, write, mbind, stM_bind, gets.
  pose proof (check_size_spec (d_key d kind id) state d) as [E1 E2].
  destruct (check_size (d_key d kind id) state d) as [d0 [[]|e]]; cbn in E1, E2; subst d0.
  - pose proof (plain_loop 0 kind id state hash d) as Hl. cbn [Nat.add] in Hl.
    destruct (write_loop 2 kind id state hash false false None d) as [d' [o|e]]; [|done].
    destruct Hl as (? & ? & seq & -> & ?). done.
  - split; [done|]. split; [by left|done].
Qed.

(** A read, whatever the store answers. *)
Lemma get_entity_spec kind id d :
  let '(d', r) := get_entity kind id d in
  static d d' /\ dview d' = dview d /\ d_degraded d' = d_degraded d /\
  d_manifest d' = d_manifest d /\
  match r with
  | Ok (Some env) => exists q v, live (dview d) (d_key d kind id) q v /\
      from_value v = Some env /\ is_tombstone env = false
  | Ok None => (forall q v, ~ live (dview d) (d_key d kind id) q v) \/
      exists q v env, live (dview d) (d_key d kind id) q v /\
        from_value v = Some env /\ is_tombstone env = true
  | Err _ => True
  end.
Proof.
  unfold get_entity, on_store, remember. run_st.
  pose proof (with_retry_get_ok (retries (d_policy d)) (d_key d kind id) (d_store d)) as Hg.
  destruct (with_retry _ _ _) as [s1 [[v|]|e]]; cbn in *; destruct Hg as [Hv Hg].
  - destruct (envelope_from_value v) as [env|] eqn:Ev; cbn.
    + split; [done|]. do 3 (split; [done|]). destruct Hg as [q Hq].
      destruct (is_tombstone env) eqn:Et; cbn; [|by exists q, v].
      right. by exists q, v, env.
    + done.
  - split; [done|]. do 3 (split; [done|]). by left.
  - done.
Qed.

(** A read of a record that an envelope was written to. *)
Lemma get_written kind id d q env :
  dview d !! d_key d kind id = Some (q, to_value env) ->
  match (get_entity kind id d).2 with
  | Ok o => o = if is_null (env_state env) then None else Some env
  | Err _ => True
  end.
Proof.
  intros Hk. pose proof (get_entity_spec kind id d) as Hg.
  destruct (get_entity kind id d) as [d' [[env'|]|e]]; cbn; [| |done];
    destruct Hg as (_ & _ & _ & _ & Hg).
  - destruct Hg as (q' & v & [Hv Ht] & Hf & _). assert (v = to_value env) as -> by congruence.
    rewrite value_tombstone_envelope in Ht. rewrite Ht.
    rewrite from_to_value in Hf. congruence.
  - destruct (is_null (env_state env)) eqn:En; [done|]. exfalso.
    assert (live (dview d) (d_key d kind id) q (to_value env)) as Hl.
    { split; [done|]. by rewrite value_tombstone_envelope. }
    destruct Hg as [Hg|(q' & v & env' & [Hv _] & Hf & Ht)]; [by eapply Hg|].
    assert (v = to_value env) as -> by congruence. rewrite from_to_value in Hf.
    injection Hf as <-. unfold is_tombstone in Ht. congruence.
Qed.

(** Who holds the key: [Ours] is the very record this pass wrote, up to
    the fields compared. *)
Definition same_write (v : Value) (env : Envelope) : Prop :=
  get "seq" v = get "seq" (to_value env) /\ get "ts" v = get "ts" (to_value env) /\
  get "instance" v = get "instance" (to_value env) /\
  get "state" v = get "state" (to_value env).

Lemma create_conflict_spec k env latest d :
  let '(d', r) := create_conflict k env latest d in
  static d d' /\ dview d' = dview d /\ d_degraded d' = d_degraded d /\
  d_manifest d' = d_manifest d /\ d_seqs d' = d_seqs d /\
  match r with
  | Ok Ours => exists q v, live (dview d) k q v /\ same_write v env
  | Ok (Tombstone t) => latest = Some t /\ forall q v, ~ live (dview d) k q v
  | Ok Other => forall q v, live (dview d) k q v -> ~ same_write v env
  | Err _ => True
  end.
Proof.
  unfold create_conflict, on_store. run_st.
  pose proof (with_retry_get_ok (retries (d_policy d)) k (d_store d)) as Hg.
  destruct (with_retry _ _ _) as [s1 [[v|]|e]]; cbn -[forallb] in *; destruct Hg as [Hv Hg];
    (split; [done|]); (do 4 (split; [done|])); [| |done].
  - destruct Hg as [q Hq]. destruct (forallb _ _) eqn:Ef; cbn [forallb] in Ef.
    + repeat (apply andb_true_iff in Ef as [?%bool_decide_eq_true Ef]). by exists q, v.
    + intros q' v' Hq' (H1' & H2' & H3' & H4').
      assert (v' = v) as -> by (destruct Hq, Hq'; unfold dview in *; congruence).
      apply not_true_iff_false in Ef. apply Ef.
      rewrite !andb_true_iff, !bool_decide_eq_true. by split_and!.
  - destruct latest; [done|]. intros q v Hq. by destruct (Hg q v).
Qed.

(** A create-only pass, on every branch. *)
Lemma create_pass kind id state hash adopted tomb d :
  let k := d_key d kind id in
  let seq := (next_seq true tomb k d).1 in
  let env := pass_env d kind id seq hash state in
  let '(d', r) := write_pass kind id state hash true adopted tomb d in
  static d d' /\
  (dview d' = dview d \/ put_applied (dview d) k seq (to_value env) (dview d')) /\
  match r with
  | Ok (Finished (Some s)) =>
      s = seq /\
      ((d_degraded d' = true /\ on_error (d_policy d) = Degrade) \/
       exists q v, dview d' !! k = Some (q, v) /\ same_write v env)
  | Ok (Finished None) =>
      is_null state = false -> dview d' = dview d /\ ~ accepts (dview d) k seq
  | Ok (Again a t) =>
      tomb = None /\ is_Some t /\ (forall q v, ~ live (dview d') k q v) /\
      (is_null state = false -> dview d' = dview d /\ ~ accepts (dview d) k seq)
  | Err _ => True
  end.
Proof.
  unfold write_pass, resolve_conflict, conclude, on_store, remember, update_manifest, now_ms.
  run_st. destruct (next_seq true tomb (d_key d kind id) d) as [seq warmed] eqn:Hn. cbn.
  change (d_key (tick d) kind id) with (d_key d kind id).
  change (mkEnvelope _ id seq _ _ hash state) with (pass_env d kind id seq hash state).
  pose proof (with_retry_put_ok (retries (d_policy d)) (d_key d kind id) seq
    (to_value (pass_env d kind id seq hash state)) (d_store d)) as Hp.
  destruct (with_retry _ _ _) as [s1 [[|latest]|e]].
  - assert (exists q v, view s1 !! d_key d kind id = Some (q, v) /\
      same_write v (pass_env d kind id seq hash state)).
    { destruct Hp as [_ ->]. simplify_map_eq. eexists _, _. split; [done|]. by split_and!. }
    destruct (indexed kind); cbn; (split; [done|]); (split; [by right|]); eauto.
  - set (d1 := set_store s1 (tick d)).
    pose proof (create_conflict_spec (d_key d kind id) (pass_env d kind id seq hash state)
      latest d1) as Hc.
    destruct (create_conflict _ _ latest d1) as [d2 [h|e]];
      destruct Hc as (Hs & Hv & _ & _ & _ & Hc).
    all: assert (dview d2 = dview d \/ put_applied (dview d) (d_key d kind id) seq
      (to_value (pass_env d kind id seq hash state)) (dview d2)) as Hw
      by (rewrite Hv; unfold dview; cbn; naive_solver).
    2: { split; [done|]. by split. }
    assert (h <> Ours -> is_null state = false ->
      dview d2 = dview d /\ ~ accepts (dview d) (d_key d kind id) seq) as Hn'.
    { intros Hne Hnull. rewrite Hv in Hw |- *. unfold dview in Hw, Hp. cbn in Hw, Hp.
      destruct Hp as [(Hp & Hacc & _)|[[_ Hp] _]]; [done|]. exfalso.
      assert (live (dview d1) (d_key d kind id) seq
        (to_value (pass_env d kind id seq hash state))) as Hl.
      { split; [unfold dview; cbn; rewrite Hp; by simplify_map_eq|].
        by rewrite value_tombstone_envelope. }
      destruct h as [|t|]; [done| |].
      - by eapply (proj2 Hc).
      - eapply Hc; [done|]. by split_and!. }
    destruct h as [|t|].
    + destruct Hc as (q & v & [Hq _] & Hsame).
      assert (exists q v, dview d2 !! d_key d kind id = Some (q, v) /\
        same_write v (pass_env d kind id seq hash state)).
      { exists q, v. by rewrite Hv. }
      destruct (indexed kind); cbn; (split; [done|]); (split; [done|]); eauto.
    + destruct Hc as [-> Hc]. destruct tomb as [t'|]; cbn.
      * split; [done|]. split; [done|]. intros Hnull. by apply Hn'.
      * split; [done|]. split; [done|]. split_and!; [done|done|by rewrite Hv|]. intros Hnull. by apply Hn'.
    + destruct latest; cbn; (split; [done|]); (split; [done|]); intros Hnull; by apply Hn'.
  - destruct (decide _) as [Hd|Hd]; cbn; (split; [done|]); (split; [done|]); [|done].
    split; [done|]. by left.
Qed.

Lemma next_seq_create_pos tomb k d :
  (forall t, tomb = Some t -> is_u64 t /\ (t < u64_max)%Z) ->
  (1 <= (next_seq true tomb k d).1)%Z.
Proof.
  intros Ht. destruct tomb as [t|]; cbn; [|lia]. destruct (Ht t eq_refl) as [Hu Hlt].
  rewrite u64_add_small; unfold_u; lia.
Qed.

Lemma accepts_live m k q v seq : live m k q v -> accepts m k seq <-> (q < seq)%Z.
Proof. intros [Hl _]. unfold accepts. by rewrite Hl. Qed.

(** A create-only write on a key that holds a live record. *)
Lemma create_live kind id state d q v :
  live (dview d) (d_key d kind id) q v -> (1 <= q)%Z ->
  let '(d', r) := create kind id state d in
  static d d' /\ dview d' = dview d /\
  match r with
  | Ok (Some s) => d_degraded d' = true \/ (s = 1%Z /\ exists ts,
      same_write v (mkEnvelope (kind_as_str kind) id 1 ts (d_instance d) None state))
  | _ => True
  end.
Proof.
  intros Hl Hq. unfold create, write, mbind, stM_bind, gets.
  pose proof (check_size_spec (d_key d kind id) state d) as [E1 E2].
  destruct (check_size _ _ _) as [d0 [[]|e]]; cbn in E1, E2; subst d0; [|done].
  cbn [write_loop]. run_st. pose proof (create_pass kind id state None false None d) as Hp.
  cbv zeta in Hp. cbn [next_seq fst] in Hp.
  destruct (write_pass _ _ _ _ _ _ _ d) as [d1 r].
  destruct Hp as (Hs & Hv & Hr).
  assert (dview d1 = dview d) as Hv1.
  { destruct Hv as [|[Hacc _]]; [done|]. rewrite accepts_live in Hacc by done. lia. }
  destruct r as [[a t|[s|]]|e]; cbn; [| |done|done].
  - destruct Hr as (_ & _ & Hr & _). rewrite Hv1 in Hr. by destruct (Hr q v).
  - split; [done|]. split; [done|]. destruct Hr as [-> [[? _]|(q' & v' & Hk & Hsame)]]; [by left|].
    right. split; [done|]. exists (wall (d_ticks d)). rewrite Hv1 in Hk. destruct Hl as [Hl _].
    assert (v' = v) as -> by congruence. done.
Qed.

(** A plain write of a key whose number another life has passed. *)
Lemma put_stale kind id state hash d s q v :
  d_seqs d !! d_key d kind id = Some s -> is_u64 s ->
  dview d !! d_key d kind id = Some (q, v) -> is_u64 q -> (s < q)%Z ->
  let '(d', r) := put kind id state hash d in
  static d d' /\ dview d' = dview d /\ (is_ok r = true -> d_degraded d' = true).
Proof.
  intros Hs Hus Hk Huq Hlt. unfold put, write, mbind, stM_bind, gets.
  pose proof (check_size_spec (d_key d kind id) state d) as [E1 E2].
  destruct (check_size _ _ _) as [d0 [[]|e]]; cbn in E1, E2; subst d0; [|done].
  cbn [write_loop]. run_st. pose proof (plain_pass kind id state hash false None d) as Hp.
  cbv zeta in Hp. unfold next_seq in Hp. rewrite Hs in Hp.
  assert (~ accepts (dview d) (d_key d kind id) (u64_add s 1)) as Hacc.
  { unfold accepts. rewrite Hk. rewrite u64_add_small; unfold_u; lia. }
  destruct (write_pass _ _ _ _ _ _ _ d) as [d1 [[a t|o]|e]]; cbn.
  - naive_solver.
  - destruct Hp as (Hst & -> & _ & [(_ & [? _] & _)|(Hd & _ & _ & Hv)]); [done|].
    cbn. split; [done|]. split; [|done]. destruct Hv as [|[? _]]; done.
  - destruct Hp as (Hst & _ & _ & _ & Hv). split; [done|]. split; [|done].
    destruct Hv as [|[? _]]; done.
Qed.

Lemma write_pass_again kind id state hash create_only adopted tomb d d' a t :
  write_pass kind id state hash create_only adopted tomb d = (d', Ok (Again a t)) ->
  (create_only = true /\ tomb = None /\ is_Some t) \/
  (create_only = false /\ adopted = false /\ a = true).
Proof.
  intros E. destruct create_only.
  - pose proof (create_pass kind id state hash adopted tomb d) as Hp. cbv zeta in Hp.
    rewrite E in Hp. naive_solver.
  - pose proof (plain_pass kind id state hash adopted tomb d) as Hp. cbv zeta in Hp.
    destruct (next_seq _ _ _ _). rewrite E in Hp. naive_solver.
Qed.

Lemma maybe_wrote_frame d kind id hash state d' j :
  maybe_wrote d kind id hash state d' -> j <> d_key d kind id -> dview d' !! j = dview d !! j.
Proof.
  intros [->|(? & ? & ->)] Hne; [done|]. by rewrite lookup_insert_ne.
Qed.

Lemma update_manifest_run f d :
  update_manifest f d =
    (set_manifest (m_set_updated (wall (d_ticks d)) (f (d_manifest d))) (tick d), Ok tt).
Proof. done. Qed.

Lemma m_remove_entities kind id m r :
  r ∈ m_entities (m_remove kind id m) <->
    r ∈ m_entities m /\ (ref_kind r, ref_id r) <> (kind, id).
Proof.
  cbn. rewrite elem_of_bfilter, negb_true_iff, <- not_true_iff_false, ref_is_true.
  naive_solver.
Qed.

(** What deleting leaves, whether the store deletes or a tombstone is
    written. *)
Lemma delete_spec kind id d :
  let '(d', r) := delete_entity kind id d in
  static d d' /\
  (forall j, j <> d_key d kind id -> dview d' !! j = dview d !! j) /\
  (forall q v, live (dview d') (d_key d kind id) q v -> live (dview d) (d_key d kind id) q v) /\
  match r with
  | Ok _ =>
      (d_degraded d' = true \/ forall q v, ~ live (dview d') (d_key d kind id) q v) /\
      (indexed kind = true -> ~ indexes (d_manifest d') (kind_as_str kind) id)
  | Err _ => True
  end.
Proof.
  assert (forall d' : Durable S,
    let '(d2, r) := (if indexed kind then update_manifest (m_remove (kind_as_str kind) id)
                     else mret tt) d' in
    static d' d2 /\ dview d2 = dview d' /\ d_degraded d2 = d_degraded d' /\ r = Ok tt /\
    (indexed kind = true -> ~ indexes (d_manifest d2) (kind_as_str kind) id)) as Hfin.
  { intros d'. destruct (indexed kind); [|by split_and!].
    rewrite update_manifest_run. split; [done|]. split_and!; try done.
    intros _ (q & Hq). cbn in Hq. apply (m_remove_entities _ _ (d_manifest d')) in Hq as [_ []].
    done. }
  unfold delete_entity, on_store. set (fin := if indexed kind then _ else _) in *.
  clearbody fin. run_st.
  pose proof (with_retry_delete_ok (retries (d_policy d)) (d_key d kind id) (d_store d)) as Hd.
  destruct (with_retry _ _ _) as [s1 [[]|e]]; cbn -[indexed update_manifest] in *.
  - specialize (Hfin (set_seqs (delete (d_key d kind id) (d_seqs d)) (set_store s1 d))).
    destruct (fin _) as [d2 r].
    destruct Hfin as (Hs & Hv & _ & -> & Hi). split; [done|]. rewrite Hv.
    unfold dview. cbn. rewrite Hd. split; [intros; by rewrite lookup_delete_ne|].
    assert (forall q v, ~ live (delete (d_key d kind id) (view (d_store d))) (d_key d kind id) q v) as Hno
      by (intros q v [Hl _]; by rewrite lookup_delete_eq in Hl).
    split; [by intros q v ?%Hno|]. split; [by right|done].
  - assert (forall j, j <> d_key d kind id -> view s1 !! j = view (d_store d) !! j) as Hfr.
    { intros j Hj. destruct Hd as [->| ->]; [done|]. by rewrite lookup_delete_ne. }
    assert (forall q v, live (view s1) (d_key d kind id) q v -> live (dview d) (d_key d kind id) q v) as Hlv.
    { intros q v Hl. destruct Hd as [Hd|Hd]; rewrite Hd in Hl; [done|].
      destruct Hl as [Hl _]. by rewrite lookup_delete_eq in Hl. }
    destruct e as [m|op|m|m|k o l|k b c]; try by split_and!.
    pose proof (put_spec kind id VNull None (set_store s1 d)) as Hp.
    destruct (put kind id VNull None (set_store s1 d)) as [d1 [q|e]];
      destruct Hp as (Hs1 & Hm & Hw).
    all: assert (forall q' v, live (dview d1) (d_key d kind id) q' v -> live (dview d) (d_key d kind id) q' v) as Hlv1
      by (intros q' v Hl; destruct Hm as [Hm|(sq & ts & Hm)]; rewrite Hm in Hl; [by apply Hlv|];
          destruct Hl as [Hl Ht]; change (d_key (set_store s1 d) kind id) with (d_key d kind id) in Hl;
          rewrite lookup_insert_eq in Hl; injection Hl as <- <-; done).
    + specialize (Hfin d1). destruct (fin d1) as [d2 r].
      destruct Hfin as (Hs2 & Hv & Hdeg & -> & Hi).
      split; [by etrans|]. rewrite Hv, Hdeg. split.
      { intros j Hj. rewrite (maybe_wrote_frame _ _ _ _ _ _ _ Hm) by done. by apply Hfr. }
      split; [done|]. split; [|done]. destruct Hw as [_ [(_ & _ & ts & Hv1)|[? _]]]; [right|by left].
      intros q' v [Hl Ht]. rewrite Hv1 in Hl.
      change (d_key (set_store s1 d) kind id) with (d_key d kind id) in Hl.
      rewrite lookup_insert_eq in Hl. injection Hl as <- <-. done.
    + split; [done|]. split; [|by split]. intros j Hj.
      rewrite (maybe_wrote_frame _ _ _ _ _ _ _ Hm) by done. by apply Hfr.
Qed.

(** *** The index invariant *)

Definition d_index_ok d : Prop := index_ok (m_entities (d_manifest d)).

Lemma index_after_ok d kind id seq : d_index_ok d -> index_ok (index_after d kind id seq).
Proof. unfold index_after. intros Hd. case_match; [by apply index_ok_upsert|done]. Qed.

Lemma put_index_ok kind id state hash : preserves d_index_ok (put kind id state hash).
Proof.
  intros d Hd. pose proof (put_spec kind id state hash d) as Hp.
  destruct (put kind id state hash d) as [d' [q|e]]; unfold d_index_ok; cbn.
  - destruct Hp as (_ & _ & _ & [(_ & -> & _)|(_ & _ & ->)]); [by apply index_after_ok|done].
  - by destruct Hp as (_ & _ & _ & ->).
Qed.

Lemma update_manifest_index_ok f :
  (forall m, index_ok (m_entities m) -> index_ok (m_entities (f m))) ->
  preserves d_index_ok (update_manifest f).
Proof. intros Hf d Hd. rewrite update_manifest_run. cbn. by apply Hf. Qed.

(** *** The manifest's flush *)

(** The manifest in memory, and whether it has changes to be flushed. *)
Definition manifest_is (m : Manifest * bool) d : Prop := d_manifest d = m.1 /\ d_manifest_dirty d = m.2.

Lemma on_store_manifest {A} (op : stM S StoreError A) m : preserves (manifest_is m) (on_store op).
Proof. intros d Hd. unfold on_store. by destruct (op (d_store d)). Qed.

Lemma modify_manifest f m :
  (forall d, d_manifest (f d) = d_manifest d /\ d_manifest_dirty (f d) = d_manifest_dirty d) ->
  preserves (manifest_is m) (modify f : stM (Durable S) StoreError unit).
Proof. intros Hf. apply preserves_modify. unfold manifest_is. intros d. by destruct (Hf d) as [-> ->]. Qed.

Lemma now_manifest m : preserves (manifest_is m) (now_ms : stM _ StoreError _).
Proof. by intros d. Qed.

(** A write of a kind that is not indexed leaves the manifest alone. *)
Lemma conclude_manifest kind id k seq warmed create_only adopted tomb o m :
  indexed kind = false ->
  preserves (manifest_is m) (conclude kind id k seq warmed create_only adopted tomb o).
Proof.
  intros Hi. unfold conclude, remember. rewrite Hi.
  solve_preserves ltac:(by apply modify_manifest).
Qed.

Lemma pass_manifest kind id state hash create_only adopted tomb m :
  indexed kind = false ->
  preserves (manifest_is m) (write_pass kind id state hash create_only adopted tomb).
Proof.
  intros Hi. unfold write_pass, resolve_conflict, create_conflict.
  solve_preserves ltac:(first [apply now_manifest | apply on_store_manifest
    | by apply conclude_manifest]).
Qed.

Lemma put_manifest kind id state hash m :
  indexed kind = false -> preserves (manifest_is m) (put kind id state hash).
Proof.
  intros Hi. unfold put, write, check_size. cbn [write_loop].
  solve_preserves ltac:(by apply pass_manifest).
Qed.

(** A flush writes the manifest record and nothing else. *)
Lemma flush_spec force d :
  let '(d', r) := flush force d in
  static d d' /\
    (forall j, j <> d_key d Manifest_ MANIFEST_ID -> dview d' !! j = dview d !! j) /\
    d_manifest d' = d_manifest d /\
    match r with
  | Ok true => d_manifest_dirty d' = false /\
    (d_degraded d' = true \/ exists q ts, dview d' !! d_key d Manifest_ MANIFEST_ID =
        Some (q, to_value (mkEnvelope "manifest" MANIFEST_ID q ts (d_instance d) None
          (to_value (d_manifest d)))))
  | Ok false => d_manifest_dirty d' = d_manifest_dirty d /\
    (d_manifest_dirty d = false \/ force = false)
  | Err _ => True
  end.
Proof.
  assert (forall d : Durable S, let '(d', r) := write_manifest d in
    static d d' /\
    (forall j, j <> d_key d Manifest_ MANIFEST_ID -> dview d' !! j = dview d !! j) /\
    d_manifest d' = d_manifest d /\
    match r with
    | Ok b => b = true /\ d_manifest_dirty d' = false /\
    (d_degraded d' = true \/ exists q ts, dview d' !! d_key d Manifest_ MANIFEST_ID =
        Some (q, to_value (mkEnvelope "manifest" MANIFEST_ID q ts (d_instance d) None
          (to_value (d_manifest d)))))
    | Err _ => True
    end) as Hw.
  { clear d. intros d. unfold write_manifest, instant. run_st.
    pose proof (put_spec Manifest_ MANIFEST_ID (to_value (d_manifest d)) None d) as Hp.
    pose proof (put_manifest Manifest_ MANIFEST_ID (to_value (d_manifest d)) None
      (d_manifest d, d_manifest_dirty d) eq_refl d (conj eq_refl eq_refl)) as [Hm _].
    destruct (put Manifest_ _ _ _ d) as [d1 [q|e]]; cbn in Hm |- *;
      destruct Hp as (Hs & Hmw & Hp); (split; [done|]);
      (split; [intros j Hj; exact (maybe_wrote_frame _ _ _ _ _ _ _ Hmw Hj)|]); (split; [done|]); [|done].
    split; [done|]. split; [done|].
    destruct Hp as [_ [(_ & _ & ts & Hv)|[? _]]]; [right|by left].
    exists q, ts. unfold dview in *. cbn. rewrite Hv. by simplify_map_eq. }
  unfold flush, instant. run_st. destruct (d_manifest_dirty d) eqn:Ed; cbn.
  - destruct force; cbn.
    + specialize (Hw d). destruct (write_manifest d) as [d' [[]|e]]; naive_solver.
    + destruct (_ <? _)%Z; [split; [done|]; split_and!; by auto|].
      specialize (Hw (tick d)). destruct (write_manifest (tick d)) as [d' [[]|e]]; naive_solver.
  - split; [done|]; split_and!; by auto.
Qed.
End facts.
