(* ===== verification/Restore.v ===== *)
(** * Restore

    [crates/agentd/src/state/mod.rs], [Durable::restore]: read the manifest,
    fetch every indexed entity, reconcile with the store's [list], bump the
    generation and flush; and [restore_fresh], which opens the next
    generation beside the old one. *)

From S2P Require Export Durable.


(** The kinds the restore reconciles against [list]. *)
Definition RECONCILED : list Kind := [Inbox; Context_; Run; Subagent; Task; Timer; Artifact].

(** The configuration sections whose digest moved: reported, never a gate. *)
Definition changed_sections (recorded current : gmap string string) : list string :=
  if map_is_empty recorded || map_is_empty current then []
  else
    remove_dups (merge_sort String.le
      ((List.filter (fun p => negb (bool_decide (recorded !! p.1 = Some p.2))) (entries current)).*1
       ++ List.filter (fun k => bool_decide (current !! k = None)) (keys recorded))).

Definition push_lost (e : EntityRef) (r : Restored) : Restored :=
  mkRestored (r_manifest r) (r_entities r) (r_lost r ++ [e]) (r_unindexed r).
Definition push_unindexed (e : EntityRef) (r : Restored) : Restored :=
  mkRestored (r_manifest r) (r_entities r) (r_lost r) (r_unindexed r ++ [e]).
(** [entities.entry(kind).or_default().push(env)]. *)
Definition push_entity (kind : string) (env : Envelope) (r : Restored) : Restored :=
  mkRestored (r_manifest r)
    (<[kind := default [] (r_entities r !! kind) ++ [env]]> (r_entities r))
    (r_lost r) (r_unindexed r).
Definition set_restored_manifest (m : Manifest) (r : Restored) : Restored :=
  mkRestored (Some m) (r_entities r) (r_lost r) (r_unindexed r).

Section restore.
Context {S : Type} `{Store S} `{Clock} `{JsonLen}.
Implicit Types (d : Durable S).

Abbreviation durM := (stM (Durable S) StoreError).

(** The stored manifest, or a new one, and whether there was none. *)
Definition read_manifest : durM (Manifest * bool) :=
  o ← get_entity Manifest_ MANIFEST_ID;
  match o with
  | None =>
      created ← now_ms;
      updated ← now_ms;
      mret (mkManifest 0 created updated [] ∅ ∅ ∅ VNull VNull ∅ [], true)
  | Some env =>
      m ← lift (ok_or (Corrupt "manifest does not parse")
                  (from_value (A := Manifest) (env_state env)));
      mret (m, false)
  end.

(** Fetch one indexed entity. *)
Definition fetch_indexed (out : Restored) (r : EntityRef) : durM Restored :=
  match kind_parse (ref_kind r) with
  | None => mret (push_lost r out)
  | Some kind =>
      o ← get_entity kind (ref_id r);
      mret match o with
           | Some env => push_entity (ref_kind r) env out
           | None => push_lost r out
           end
  end.

(** The (kind, id) pairs [list] showed; [None] on a store without it. *)
Abbreviation seen_set := (option (gset (string * string))).

Definition adopt_listed (manifest : Manifest) (kind : Kind) (acc : Restored * gset (string * string))
    (ks : KeySeq) : durM (Restored * gset (string * string)) :=
  let '(out, seen) := acc in
  parsed ← gets (fun d => parse_key (d_prefix d) (d_instance d) (ks_key ks));
  match parsed with
  | None => mret (out, seen)
  | Some (_, id) =>
      let seen := {[(kind_as_str kind, id)]} ∪ seen in
      if existsb (ref_is (kind_as_str kind) id) (m_entities manifest) then mret (out, seen)
      else if existsb (ref_is (kind_as_str kind) id) (m_retired manifest) then mret (out, seen)
      else
        o ← get_entity kind id;
        mret match o with
             | Some env =>
                 (push_entity (kind_as_str kind) env
                    (push_unindexed (mkRef (kind_as_str kind) id (env_seq env)) out), seen)
             | None => (out, seen)
             end
  end.

Definition reconcile (manifest : Manifest) (acc : Restored * seen_set) (kind : Kind) :
    durM (Restored * seen_set) :=
  r ← attempt (list_kind kind);
  match r with
  | Ok ks =>
      p ← for_each (adopt_listed manifest kind) ks (acc.1, default ∅ acc.2);
      mret (p.1, Some p.2)
  | Err (Unsupported _) => mret acc
  | Err e => throw e
  end.

(** The manifest the new life starts from. *)
Definition adopt_manifest (manifest : Manifest) (out : Restored) (seen : seen_set)
    (now : Z) (digest : gmap string string) : Manifest :=
  let m := m_set_entities
    (List.filter (fun e => negb (existsb (fun l => bool_decide (l = e)) (r_lost out)))
       (m_entities manifest)) manifest in
  let m := fold_left (fun m u => m_upsert (ref_kind u) (ref_id u) (ref_seq u) m)
             (r_unindexed out) m in
  let m := m_set_generation (u64_add (m_generation m) 1) m in
  let m := m_set_updated now m in
  let m := if map_is_empty digest then m else m_set_config_digest digest m in
  match seen with
  | Some s => m_set_retired
      (List.filter (fun r => bool_decide ((ref_kind r, ref_id r) ∈ s)) (m_retired m)) m
  | None => m
  end.

(** [retired]: named once each, in the order met. *)
Definition push_retired (l : list EntityRef) (kind id : string) (seq : Z) : list EntityRef :=
  if existsb (ref_is kind id) l then l else l ++ [mkRef kind id seq].

Definition retire_listed (acc : list EntityRef) (kind : Kind) : durM (list EntityRef) :=
  r ← attempt (list_kind kind);
  match r with
  | Ok ks =>
      p ← gets (fun d => (d_prefix d, d_instance d));
      mret (fold_left (fun l k =>
        match parse_key p.1 p.2 (ks_key k) with
        | Some (_, id) => push_retired l (kind_as_str kind) id (default 0%Z (ks_seq k))
        | None => l
        end) ks acc)
  | Err (Unsupported _) => mret acc
  | Err e => throw e
  end.

Definition push_refs (l : list EntityRef) (refs : list EntityRef) : list EntityRef :=
  fold_left (fun l r => push_retired l (ref_kind r) (ref_id r) (ref_seq r)) refs l.

(** The copy of the outgoing index. *)
Definition gen_id (m : Manifest) : string := "agent.gen" +:+ pretty (m_generation m).
Definition copy_outgoing (prior : Manifest) (no_prior_manifest : bool) : durM unit :=
  if no_prior_manifest then mret tt
  else _ ← put Manifest_ (gen_id prior) (to_value prior) None; mret tt.
(** The birth date: inherited, or now. *)
Definition birth (prior : Manifest) : durM Z :=
  if (m_created prior =? 0)%Z then now_ms else mret (m_created prior).

Definition restore_fresh (prior : Manifest) (no_prior_manifest : bool) : durM Restored :=
  listed ← for_each retire_listed RECONCILED [];
  let retired := push_refs (push_refs listed (m_entities prior)) (m_retired prior) in
  _ ← copy_outgoing prior no_prior_manifest;
  created ← birth prior;
  updated ← now_ms;
  digest ← gets d_config_digest;
  let m := mkManifest (u64_add (m_generation prior) 1) created updated [] ∅ ∅ ∅ VNull VNull
             digest retired in
  _ ← modify (set_manifest m);
  _ ← flush true;
  mret restored_default.

Definition restore : durM Restored :=
  mf ← read_manifest;
  let '(manifest, no_manifest) := mf in
  fresh ← gets d_fresh;
  if (fresh : bool) then restore_fresh manifest no_manifest
  else
    out ← for_each fetch_indexed (m_entities manifest) restored_default;
    acc ← for_each (reconcile manifest) RECONCILED (out, None);
    let '(out, seen) := acc in
    now ← now_ms;
    digest ← gets d_config_digest;
    let m := adopt_manifest manifest out seen now digest in
    _ ← modify (set_manifest m);
    _ ← flush true;
    if no_manifest && (count out =? 0) then mret out
    else mret (set_restored_manifest m out).
End restore.

(** ** Lemmas *)

Lemma existsb_ref_is kind id l :
  existsb (ref_is kind id) l = true <-> (kind, id) ∈ (fun r => (ref_kind r, ref_id r)) <$> l.
Proof.
  rewrite existsb_exists, list_elem_of_fmap. setoid_rewrite ref_is_true.
  setoid_rewrite <- list_elem_of_In. split.
  - intros (r & Hr & <- & <-). eauto.
  - intros (r & [= -> ->] & Hr). eauto.
Qed.

Lemma value_tombstone_decoded v env :
  from_value v = Some env -> value_tombstone v = is_tombstone env.
Proof.
  change (envelope_from_value v = Some env -> value_tombstone v = is_tombstone env).
  unfold envelope_from_value, object. destruct v as [| | | | |o]; try done.
  intros Hf. repeat (apply bind_Some in Hf as (? & ? & Hf)). injection Hf as <-.
  unfold value_tombstone, field in *.
  match goal with H : get "state" _ ≫= _ = Some _ |- _ => apply bind_Some in H as (w & -> & Hw) end.
  by injection Hw as ->.
Qed.

(** The sections reported are those whose digest differs, each once. *)
Lemma elem_of_changed_sections recorded current k :
  recorded <> ∅ -> current <> ∅ ->
  k ∈ changed_sections recorded current <-> recorded !! k <> current !! k.
Proof.
  intros Hr Hc. unfold changed_sections.
  destruct (map_is_empty recorded) eqn:E; [by apply map_is_empty_true in E|].
  destruct (map_is_empty current) eqn:E'; [by apply map_is_empty_true in E'|]. simpl.
  rewrite elem_of_remove_dups, merge_sort_Permutation, elem_of_app.
  rewrite elem_of_bfilter, bool_decide_eq_true, elem_of_keys, list_elem_of_fmap.
  setoid_rewrite elem_of_bfilter. setoid_rewrite negb_true_iff.
  setoid_rewrite bool_decide_eq_false. split.
  - intros [([k' x] & -> & Hin & Hne)|[[x Hx] Hn]]; simpl in *; [|congruence].
    apply elem_of_entries in Hin. congruence.
  - intros Hne. destruct (current !! k) as [x|] eqn:Ek.
    + left. exists (k, x). by rewrite elem_of_entries.
    + right. split; [|done]. by destruct (recorded !! k).
Qed.

Lemma NoDup_changed_sections recorded current : NoDup (changed_sections recorded current).
Proof.
  unfold changed_sections. case_match; [constructor|]. apply NoDup_remove_dups.
Qed.

(** What a run of reads leaves as it was. *)
Definition quiet {S} `{StoreOk S} (d d' : Durable S) : Prop :=
  static d d' /\ dview d' = dview d /\ d_degraded d' = d_degraded d /\
  d_manifest d' = d_manifest d.

#[export] Instance quiet_preorder {S} `{StoreOk S} : PreOrder quiet.
Proof.
  unfold quiet. split; [by intros ?|]. intros x y z (? & ? & ? & ?) (? & ? & ? & ?).
  split_and!; [by etrans|congruence..].
Qed.

Lemma quiet_key {S} `{StoreOk S} (d d' : Durable S) kind id :
  quiet d d' -> d_key d' kind id = d_key d kind id.
Proof. intros [Hs _]. by apply d_key_static. Qed.

(** The stored manifest, read off the store's contents. *)
Definition stored_manifest (m : records) (k : string) : option Manifest :=
  match m !! k with
  | Some (_, v) =>
      if value_tombstone v then None
      else env ← from_value (A := Envelope) v; from_value (A := Manifest) (env_state env)
  | None => None
  end.

(** A store that has [list]. *)
Definition lists_supported (S : Type) `{Store S} : Prop :=
  forall p (s : S) op, (store_list p s).2 <> Err (Unsupported op).

Section facts.
Context {S : Type} `{StoreOk S} `{Clock} `{JsonLen}.
Implicit Types (d : Durable S).

(** The record an entity has in the store decodes to [env]. *)
Definition stored d (kind : Kind) (id : string) (env : Envelope) : Prop :=
  exists q v, live (dview d) (d_key d kind id) q v /\ from_value v = Some env.

Lemma stored_quiet d d' kind id env : quiet d d' -> stored d' kind id env <-> stored d kind id env.
Proof.
  intros Hq. unfold stored. rewrite (quiet_key _ _ _ _ Hq). by destruct Hq as (_ & -> & _).
Qed.

Lemma stored_fun d kind id e1 e2 : stored d kind id e1 -> stored d kind id e2 -> e1 = e2.
Proof. intros (q1 & v1 & [? _] & ?) (q2 & v2 & [? _] & ?). congruence. Qed.

(** [get]: the record, or nothing live. *)
Lemma get_stored kind id d :
  let '(d', r) := get_entity kind id d in
  quiet d d' /\
  match r with
  | Ok (Some env) => stored d kind id env
  | Ok None => forall env, ~ stored d kind id env
  | Err _ => True
  end.
Proof.
  pose proof (get_entity_spec kind id d) as Hg.
  destruct (get_entity kind id d) as [d' [[env|]|e]]; destruct Hg as (? & ? & ? & ? & Hg);
    (split; [done|]); [| |done].
  - destruct Hg as (q & v & ? & ? & _). by exists q, v.
  - intros env (q & v & Hl & Hf). destruct Hg as [Hg|(q' & v' & env' & Hl' & Hf' & Ht)].
    + by eapply Hg.
    + rewrite <- (value_tombstone_decoded _ _ Hf') in Ht. by destruct Hl'; congruence.
Qed.

Lemma list_prefix_spec kind p d :
  let '(d', r) := list_prefix kind p d in
  quiet d d' /\ d_seqs d' = d_seqs d /\
  match r with
  | Ok ks => NoDup (ks_key <$> ks) /\
      (forall id, d_key d kind (p +:+ id) ∈ (ks_key <$> ks) <->
        exists q v, live (dview d) (d_key d kind (p +:+ id)) q v) /\
      forall k, k ∈ (ks_key <$> ks) -> exists id, k = d_key d kind (p +:+ id)
  | Err _ => True
  end.
Proof.
  unfold list_prefix, on_store. run_st.
  pose proof (list_ok (key (d_prefix d) (d_instance d) (kind_as_str kind) p) (d_store d)) as Hl.
  destruct (store_list _ _) as [s1 [ks|e]]; destruct Hl as [Hv Hl]; (split; [done|]);
    (split; [done|]); [|done].
  destruct Hl as [Hn Hl]. split; [done|]. unfold dview, starts_with in *.
  assert (forall id, d_key d kind (p +:+ id) =
    key (d_prefix d) (d_instance d) (kind_as_str kind) p +:+ id) as Hk
    by (intros id; unfold d_key, key; by rewrite !string_app_assoc).
  split.
  - intros id. rewrite Hl, Hk, strip_prefix_app. naive_solver.
  - intros k [Hp _]%Hl. destruct (strip_prefix _ k) as [id|] eqn:E; [|done].
    apply strip_prefix_Some in E as ->. exists id. by rewrite Hk.
Qed.

Lemma list_kind_spec kind d :
  let '(d', r) := list_kind kind d in
  quiet d d' /\ d_seqs d' = d_seqs d /\
  match r with
  | Ok ks => NoDup (ks_key <$> ks) /\
      (forall id, d_key d kind id ∈ (ks_key <$> ks) <->
        exists q v, live (dview d) (d_key d kind id) q v) /\
      forall k, k ∈ (ks_key <$> ks) -> exists id, k = d_key d kind id
  | Err _ => True
  end.
Proof. apply (list_prefix_spec kind nil_str). Qed.

Lemma parse_d_key d kind id :
  parse_key (d_prefix d) (d_instance d) (d_key d kind id) = Some (kind_as_str kind, id).
Proof. apply parse_key_key, kind_no_slash. Qed.

Lemma of_kind_push kind s env r :
  of_kind kind (push_entity s env r) =
    if decide (s = kind_as_str kind) then of_kind kind r ++ [env] else of_kind kind r.
Proof.
  unfold of_kind, push_entity. cbn. case_decide; simplify_map_eq; done.
Qed.

(** *** The indexed entities *)

Definition refs (l : list EntityRef) : list (string * string) :=
  (fun r => (ref_kind r, ref_id r)) <$> l.

Record fetched d (done : list EntityRef) (out : Restored) d' : Prop := {
  f_quiet : quiet d d';
  f_sound : forall kind env, env ∈ of_kind kind out ->
    exists id, stored d kind id env /\ (kind_as_str kind, id) ∈ refs done;
  f_complete : forall kind id env, (kind_as_str kind, id) ∈ refs done ->
    stored d kind id env -> env ∈ of_kind kind out;
  f_lost : forall r, r ∈ r_lost out <-> r ∈ done /\
    forall kind env, kind_parse (ref_kind r) = Some kind -> ~ stored d kind (ref_id r) env;
  f_unindexed : r_unindexed out = [];
  }.

Lemma fetch_step d xs x out d' :
  fetched d xs out d' ->
  let '(d2, r) := fetch_indexed out x d' in
  match r with Ok out' => fetched d (xs ++ [x]) out' d2 | Err _ => True end.
Proof.
  intros [Hq Hsound Hcomp Hlost Hun].
  assert (forall p, p ∈ refs (xs ++ [x]) <-> p ∈ refs xs \/ p = (ref_kind x, ref_id x)) as Hrefs.
  { intros p. unfold refs. rewrite fmap_app, elem_of_app. cbn. by rewrite list_elem_of_singleton. }
  unfold fetch_indexed. destruct (kind_parse (ref_kind x)) as [kind|] eqn:Ek.
  - apply kind_parse_Some in Ek as Ek'. run_st.
    pose proof (get_stored kind (ref_id x) d') as Hg.
    destruct (get_entity kind (ref_id x) d') as [d2 [[env|]|e]]; [| |done];
      destruct Hg as [Hq2 Hg]; setoid_rewrite (stored_quiet d d' kind _ _ Hq) in Hg.
    + split; [by etrans| | | |done].
      * intros kind' env'. rewrite of_kind_push. setoid_rewrite Hrefs. case_decide as Hk.
        -- rewrite elem_of_app, list_elem_of_singleton. rewrite Ek' in Hk.
           apply kind_as_str_inj in Hk as <-.
           intros [Hin| ->]; [destruct (Hsound _ _ Hin) as (id & ? & ?); eauto|].
           exists (ref_id x). rewrite Ek'. eauto.
        -- intros Hin. destruct (Hsound _ _ Hin) as (id & ? & ?). eauto.
      * intros kind' id env'. rewrite of_kind_push, Hrefs. intros [Hin|Hx] Hst.
        -- case_decide; [apply elem_of_app; left|]; by eapply Hcomp.
        -- injection Hx as Hk ->. rewrite Ek' in Hk. apply kind_as_str_inj in Hk as ->.
           rewrite decide_True by done. apply elem_of_app. right.
           rewrite (stored_fun _ _ _ _ _ Hst Hg). by apply list_elem_of_singleton.
      * intros r. cbn. rewrite Hlost, elem_of_app, list_elem_of_singleton.
        split; [naive_solver|]. intros [[?| ->] Hr]; [done|]. by destruct (Hr kind env).
    + split; [by etrans| | | |done].
      * intros kind' env' Hin. setoid_rewrite Hrefs. destruct (Hsound _ _ Hin) as (id & ? & ?). eauto.
      * intros kind' id env'. rewrite Hrefs. intros [Hin|Hx] Hst; [by eapply Hcomp|].
        injection Hx as Hk ->. rewrite Ek' in Hk. apply kind_as_str_inj in Hk as ->.
        by destruct (Hg env').
      * intros r. cbn. rewrite !elem_of_app, !list_elem_of_singleton, Hlost.
        split; [|naive_solver]. intros [?| ->]; [naive_solver|]. split; [by right|].
        intros kind' env' Hk'. assert (kind' = kind) as -> by congruence. apply Hg.
  - split; [done| | | |done].
    + intros kind' env' Hin. setoid_rewrite Hrefs. destruct (Hsound _ _ Hin) as (id & ? & ?). eauto.
    + intros kind' id env'. rewrite Hrefs. intros [Hin|Hx] Hst; [by eapply Hcomp|].
      injection Hx as Hk _. rewrite <- Hk, kind_parse_as_str in Ek. done.
    + intros r. cbn. rewrite !elem_of_app, !list_elem_of_singleton, Hlost. naive_solver.
Qed.

(** *** The reconciliation *)

(** What the reconciliation has done for the keys of [D]. *)
Record adopted d (man : Manifest) (out0 : Restored) (D : Kind -> string -> Prop)
    (out : Restored) (seen : gset (string * string)) d' : Prop := {
  a_quiet : quiet d d';
  a_sound : forall kind env, env ∈ of_kind kind out ->
    env ∈ of_kind kind out0 \/
    exists id, stored d kind id env /\ kind ∈ RECONCILED /\
      (kind_as_str kind, id) ∉ refs (m_retired man);
  a_grows : forall kind env, env ∈ of_kind kind out0 -> env ∈ of_kind kind out;
  a_complete : forall kind id env, D kind id ->
    (kind_as_str kind, id) ∉ refs (m_entities man) ->
    (kind_as_str kind, id) ∉ refs (m_retired man) ->
    stored d kind id env ->
    env ∈ of_kind kind out /\ mkRef (kind_as_str kind) id (env_seq env) ∈ r_unindexed out;
  a_lost : r_lost out = r_lost out0;
  a_seen : forall kind id, (kind_as_str kind, id) ∈ seen <-> D kind id;
  }.

Lemma adopted_ext d man out0 (D D' : Kind -> string -> Prop) out seen d' :
  adopted d man out0 D out seen d' -> (forall kind id, D kind id <-> D' kind id) ->
  adopted d man out0 D' out seen d'.
Proof.
  intros [? ? ? Hc ? Hs] HD. split; try done.
  - intros kind id env Hk. apply Hc. by apply HD.
  - intros kind id. by rewrite Hs.
Qed.

Lemma adopt_step d man out0 D out seen d' kind id ks :
  kind ∈ RECONCILED ->
  adopted d man out0 D out seen d' -> ks_key ks = d_key d kind id ->
  let '(d2, r) := adopt_listed man kind (out, seen) ks d' in
  match r with
  | Ok p => adopted d man out0 (fun k i => D k i \/ (k = kind /\ i = id)) p.1 p.2 d2
  | Err _ => True
  end.
Proof.
  intros Hrec [Hq Hsound Hgrow Hcomp Hlost Hseen] Hk.
  assert (forall k i, (kind_as_str k, i) ∈ ({[(kind_as_str kind, id)]} ∪ seen : gset _) <->
    D k i \/ (k = kind /\ i = id)) as Hseen'.
  { intros k i. rewrite elem_of_union, elem_of_singleton, Hseen. split.
    - intros [[= ?%kind_as_str_inj ->]|]; auto.
    - intros [|[-> ->]]; auto. }
  unfold adopt_listed. run_st. rewrite Hk.
  assert (parse_key (d_prefix d') (d_instance d') (d_key d kind id) =
    Some (kind_as_str kind, id)) as ->.
  { destruct Hq as [(-> & -> & _) _]. apply parse_d_key. }
  destruct (existsb _ (m_entities man)) eqn:Ei.
  { apply existsb_ref_is in Ei. split; try done.
    intros k i env [|[-> ->]] Hni; [by apply Hcomp|done]. }
  destruct (existsb _ (m_retired man)) eqn:Er.
  { apply existsb_ref_is in Er. split; try done.
    intros k i env [|[-> ->]] Hni Hnr; [by apply Hcomp|done]. }
  assert ((kind_as_str kind, id) ∉ refs (m_retired man)) as Hnr.
  { intros Hin. apply existsb_ref_is in Hin. congruence. }
  run_st. pose proof (get_stored kind id d') as Hg.
  destruct (get_entity kind id d') as [d2 [[env|]|e]]; [| |done];
    destruct Hg as [Hq2 Hg]; setoid_rewrite (stored_quiet d d' kind _ _ Hq) in Hg.
  - split; cbn [fst snd]; [by etrans| | | |done|done].
    + intros k env'. rewrite of_kind_push. case_decide as E; [|apply Hsound].
      apply kind_as_str_inj in E as <-.
      rewrite elem_of_app, list_elem_of_singleton. intros [?| ->]; [by apply Hsound|eauto].
    + intros k env' Hin. rewrite of_kind_push. case_decide; [|by apply Hgrow].
      apply elem_of_app. left. by apply Hgrow.
    + intros k i env' [HD|[-> ->]] Hni Hnr' Hst; rewrite of_kind_push; cbn.
      * destruct (Hcomp _ _ _ HD Hni Hnr' Hst) as [Hin Hun].
        rewrite !elem_of_app. split; [|by left].
        case_decide; [apply elem_of_app; by left|done].
      * rewrite (stored_fun _ _ _ _ _ Hst Hg). rewrite decide_True by done.
        rewrite !elem_of_app, !list_elem_of_singleton. auto.
  - split; cbn [fst snd]; try done; [by etrans|].
    intros k i env' [|[-> ->]] Hni Hnr' Hst; [by apply Hcomp|]. by destruct (Hg env').
Qed.

(** The keys of a kind the store lists. *)
Definition live_id d (kind : Kind) (id : string) : Prop :=
  exists q v, live (dview d) (d_key d kind id) q v.

Lemma d_key_inj d k i j : d_key d k i = d_key d k j -> i = j.
Proof.
  intros E. apply (f_equal (parse_key (d_prefix d) (d_instance d))) in E.
  rewrite !parse_d_key in E. congruence.
Qed.

Lemma reconcile_step d man out0 D out seen d' kind :
  lists_supported S -> kind ∈ RECONCILED ->
  adopted d man out0 D out (default ∅ seen) d' ->
  let '(d2, r) := reconcile man (out, seen) kind d' in
  match r with
  | Ok p => is_Some p.2 /\
      adopted d man out0 (fun k i => D k i \/ (k = kind /\ live_id d k i)) p.1 (default ∅ p.2) d2
  | Err _ => True
  end.
Proof.
  intros Hlist Hrec Ha. unfold reconcile. run_st.
  pose proof (list_kind_spec kind d') as Hl.
  assert (forall op, (list_kind kind d').2 <> Err (Unsupported op)) as Hsup.
  { intros op. unfold list_kind, list_prefix, on_store. run_st.
    specialize (Hlist (key (d_prefix d') (d_instance d') (kind_as_str kind) nil_str)
      (d_store d') op).
    by destruct (store_list _ _). }
  destruct (list_kind kind d') as [d1 [ks|e]].
  2: { destruct e; try done. by destruct (Hsup op). }
  destruct Hl as (Hq1 & _ & Hn & Hlive & Hkeys).
  assert (quiet d d1) as Hqd by (etrans; [apply Ha|done]).
  pose proof (for_each_spec (adopt_listed man kind) ks
    (fun done p s => adopted d man out0 (fun k i => D k i \/
      (k = kind /\ d_key d k i ∈ (ks_key <$> done))) p.1 p.2 s)
    (out, default ∅ seen) d1) as Hfor.
  cbn [fst snd] in *. destruct (for_each _ ks _ d1) as [d2 [[out2 seen2]|e]]; [|done].
  split; [done|]. cbn [fst snd default] in *.
  assert (forall k i, d_key d' k i = d_key d k i) as Hdk.
  { intros k i. apply quiet_key, Ha. }
  eapply adopted_ext; [apply Hfor|].
  - destruct Ha. split; try done.
    + intros k i env [|[_ Hin]]; [by auto|]. by apply not_elem_of_nil in Hin.
    + intros k i. rewrite a_seen0. split; [by left|]. intros [|[_ Hin]]; [done|].
      by apply not_elem_of_nil in Hin.
  - clear Hfor. intros xs x ys [out' seen'] s Heq Hinv. cbn [fst snd] in Hinv.
    destruct (Hkeys (ks_key x)) as [id Hid].
    { apply list_elem_of_fmap. exists x. split; [done|]. rewrite Heq. set_solver. }
    rewrite Hdk in Hid.
    pose proof (adopt_step _ _ _ _ _ _ _ kind id x Hrec Hinv Hid) as Hstep.
    destruct (adopt_listed man kind (out', seen') x s) as [s2 [p|e]]; [|done].
    eapply adopted_ext; [apply Hstep|]. intros k i. cbn beta.
    rewrite fmap_app, elem_of_app. cbn. rewrite list_elem_of_singleton, Hid. split.
    + intros [[|[-> ?]]|[-> ->]]; auto.
    + intros [|[-> [?|?%d_key_inj]]]; auto.
  - intros k i. cbn beta. split.
    + intros [|[-> Hin]]; [by left|]. right. split; [done|].
      rewrite <- Hdk in Hin. apply Hlive in Hin. unfold live_id.
      rewrite <- Hdk. destruct (a_quiet _ _ _ _ _ _ _ Ha) as (_ & <- & _). done.
    + intros [|[-> Hin]]; [by left|]. right. split; [done|]. rewrite <- Hdk. apply Hlive.
      unfold live_id in Hin. rewrite <- Hdk in Hin.
      destruct (a_quiet _ _ _ _ _ _ _ Ha) as (_ & Hv & _). by rewrite Hv.
Qed.

(** *** The whole restore *)

(** The manifest the store holds, an empty one where it holds none. *)
Definition prior d : Manifest :=
  default manifest_default (stored_manifest (dview d) (d_key d Manifest_ MANIFEST_ID)).

Lemma stored_manifest_stored d env m :
  stored d Manifest_ MANIFEST_ID env -> from_value (env_state env) = Some m ->
  stored_manifest (dview d) (d_key d Manifest_ MANIFEST_ID) = Some m.
Proof.
  intros (q & v & [Hv Ht] & Hf) Hm. unfold stored_manifest. rewrite Hv, Ht, Hf. done.
Qed.

Lemma read_manifest_spec d :
  let '(d', r) := read_manifest d in
  quiet d d' /\
  match r with
  | Ok (m, none) =>
      m_entities m = m_entities (prior d) /\ m_retired m = m_retired (prior d) /\
      m_generation m = m_generation (prior d) /\
      m_streams m = m_streams (prior d) /\ m_starts m = m_starts (prior d) /\
      stored_manifest (dview d) (d_key d Manifest_ MANIFEST_ID) =
        (if (none : bool) then None else Some m)
  | Err _ => True
  end.
Proof.
  unfold read_manifest, now_ms. run_st. pose proof (get_stored Manifest_ MANIFEST_ID d) as Hg.
  destruct (get_entity _ _ d) as [d1 [[env|]|e]]; destruct Hg as [Hq Hg]; [| |done].
  - destruct (from_value (env_state env)) as [m|] eqn:E; cbn -[from_value]; (split; [done|]);
      [|done].
    unfold prior. rewrite (stored_manifest_stored _ _ _ Hg E). by split_and!.
  - cbn -[from_value]. split; [by destruct Hq as (? & ? & ? & ?)|].
    unfold prior, stored_manifest.
    destruct (dview d !! _) as [[q v]|] eqn:Ev; [|by split_and!].
    destruct (value_tombstone v) eqn:Et; [by split_and!|].
    destruct (from_value v) as [env|] eqn:Ef; [|by split_and!].
    destruct (Hg env). exists q, v. by split.
Qed.

Lemma adopt_manifest_generation m out seen now digest :
  m_generation (adopt_manifest m out seen now digest) = u64_add (m_generation m) 1.
Proof.
  unfold adopt_manifest. cbv zeta.
  assert (forall l m, m_generation (fold_left (fun m u =>
    m_upsert (ref_kind u) (ref_id u) (ref_seq u) m) l m) = m_generation m) as Hf.
  { intros l. induction l as [|u l IH]; intros m'; [done|]. cbn. by rewrite IH. }
  destruct seen; case_match; cbn; by rewrite Hf.
Qed.

(** Where each stream and each start stands is taken over as it was. *)
Lemma adopt_manifest_positions m out seen now digest :
  m_streams (adopt_manifest m out seen now digest) = m_streams m /\
  m_starts (adopt_manifest m out seen now digest) = m_starts m.
Proof.
  unfold adopt_manifest. cbv zeta.
  assert (forall l m, m_streams (fold_left (fun m u =>
    m_upsert (ref_kind u) (ref_id u) (ref_seq u) m) l m) = m_streams m /\
    m_starts (fold_left (fun m u =>
    m_upsert (ref_kind u) (ref_id u) (ref_seq u) m) l m) = m_starts m) as Hf.
  { intros l. induction l as [|u l IH]; intros m'; [done|]. cbn. by destruct (IH (m_upsert (ref_kind u) (ref_id u) (ref_seq u) m')) as [-> ->]. }
  destruct seen; case_match; cbn; match goal with |- context [fold_left ?f ?l ?m'] =>
    destruct (Hf l m') as [-> ->] end; done.
Qed.

Definition upsert_all (l : list EntityRef) (m : list EntityRef) : list EntityRef :=
  fold_left (fun m u => upsert_refs (ref_kind u) (ref_id u) (ref_seq u) m) l m.

Lemma adopt_manifest_entities m out seen now digest :
  m_entities (adopt_manifest m out seen now digest) =
    upsert_all (r_unindexed out)
      (List.filter (fun e => negb (existsb (fun l => bool_decide (l = e)) (r_lost out)))
         (m_entities m)).
Proof.
  unfold adopt_manifest, upsert_all. cbv zeta.
  assert (forall l m, m_entities (fold_left (fun m u =>
    m_upsert (ref_kind u) (ref_id u) (ref_seq u) m) l m) =
    fold_left (fun m u => upsert_refs (ref_kind u) (ref_id u) (ref_seq u) m) l (m_entities m))
    as Hf.
  { intros l. induction l as [|u l IH]; intros m'; [done|]. cbn. by rewrite IH. }
  destruct seen; case_match; cbn; by rewrite Hf.
Qed.

Lemma adopt_manifest_retired m out seen now digest r :
  r ∈ m_retired (adopt_manifest m out seen now digest) <->
    r ∈ m_retired m /\ (forall s, seen = Some s -> (ref_kind r, ref_id r) ∈ s).
Proof.
  unfold adopt_manifest. cbv zeta.
  assert (forall l m, m_retired (fold_left (fun m u =>
    m_upsert (ref_kind u) (ref_id u) (ref_seq u) m) l m) = m_retired m) as Hf.
  { intros l. induction l as [|u l IH]; intros m'; [done|]. cbn. by rewrite IH. }
  destruct seen as [s|]; case_match; cbn; rewrite Hf, ?elem_of_bfilter, ?bool_decide_eq_true;
    cbn; naive_solver.
Qed.

Lemma refs_upsert_all l m p : p ∈ refs (upsert_all l m) <-> p ∈ refs l \/ p ∈ refs m.
Proof.
  revert m. induction l as [|u l IH]; intros m; cbn; [set_solver|].
  rewrite IH. unfold refs at 2. rewrite upsert_keys. cbn. rewrite elem_of_cons.
  unfold refs. tauto.
Qed.

Lemma index_ok_upsert_all l m : index_ok m -> index_ok (upsert_all l m).
Proof. revert m. induction l as [|u l IH]; intros m Hm; [done|]. by apply IH, index_ok_upsert. Qed.

(** A restore that resumes: what it returns and what it leaves. *)
Record resumed d (out : Restored) d' : Prop := {
  s_static : static d d';
  s_frame : forall j, j <> d_key d Manifest_ MANIFEST_ID -> dview d' !! j = dview d !! j;
  s_generation : m_generation (d_manifest d') = u64_add (m_generation (prior d)) 1;
  s_streams : m_streams (d_manifest d') = m_streams (prior d);
  s_starts : m_starts (d_manifest d') = m_starts (prior d);
  s_manifest : d_degraded d' = true \/ exists q ts,
    dview d' !! d_key d Manifest_ MANIFEST_ID =
      Some (q, to_value (mkEnvelope "manifest" MANIFEST_ID q ts (d_instance d) None
        (to_value (d_manifest d'))));
  s_sound : forall kind env, env ∈ of_kind kind out -> exists id, stored d kind id env /\
    ((kind_as_str kind, id) ∈ refs (m_entities (prior d)) \/
     (kind ∈ RECONCILED /\ (kind_as_str kind, id) ∉ refs (m_retired (prior d))));
  s_indexed : forall kind id env, (kind_as_str kind, id) ∈ refs (m_entities (prior d)) ->
    stored d kind id env ->
    env ∈ of_kind kind out /\ (kind_as_str kind, id) ∈ refs (m_entities (d_manifest d'));
  s_adopted : forall kind id env, kind ∈ RECONCILED -> stored d kind id env ->
    (kind_as_str kind, id) ∉ refs (m_retired (prior d)) ->
    env ∈ of_kind kind out /\ (kind_as_str kind, id) ∈ refs (m_entities (d_manifest d'));
  s_lost : forall r, r ∈ r_lost out <-> r ∈ m_entities (prior d) /\
    forall kind env, kind_parse (ref_kind r) = Some kind -> ~ stored d kind (ref_id r) env;
  }.

Lemma reconcile_all d man out0 d1 :
  lists_supported S -> adopted d man out0 (fun _ _ => False) out0 ∅ d1 ->
  let '(d2, r) := for_each (reconcile man) RECONCILED (out0, None) d1 in
  match r with
  | Ok p => is_Some p.2 /\
      adopted d man out0 (fun k i => k ∈ RECONCILED /\ live_id d k i) p.1 (default ∅ p.2) d2
  | Err _ => True
  end.
Proof.
  intros Hlist Ha.
  pose proof (for_each_spec (reconcile man) RECONCILED
    (fun done p s => (done <> [] -> is_Some p.2) /\
      adopted d man out0 (fun k i => k ∈ done /\ live_id d k i) p.1 (default ∅ p.2) s)
    (out0, None) d1) as Hfor.
  cbn [fst snd] in Hfor. destruct (for_each _ _ _ d1) as [d2 [p|e]]; [|done].
  destruct Hfor as [Hsome Had]; [| |by split; [apply Hsome|]].
  - split; [done|]. eapply adopted_ext; [done|]. intros k i. cbn beta.
    split; [done|]. intros [Hin _]. by apply not_elem_of_nil in Hin.
  - intros xs x ys [out seen] s Heq [_ Hinv]. cbn [fst snd] in *.
    assert (x ∈ RECONCILED) as Hx by (rewrite Heq; set_solver).
    pose proof (reconcile_step _ _ _ _ _ _ _ x Hlist Hx Hinv) as Hstep.
    destruct (reconcile man (out, seen) x s) as [s2 [p'|e]]; [|done].
    destruct Hstep as [Hs Had]. split; [done|]. eapply adopted_ext; [done|].
    intros k i. cbn beta. rewrite elem_of_app, list_elem_of_singleton. naive_solver.
Qed.

(** The index of the new manifest names every record restored. *)
Lemma adopted_index d man out0 out seen d1 d2 now digest kind id env :
  fetched d (m_entities man) out0 d1 ->
  adopted d man out0 (fun k i => k ∈ RECONCILED /\ live_id d k i) out (default ∅ seen) d2 ->
  stored d kind id env ->
  (kind_as_str kind, id) ∈ refs (m_entities man) \/
    (kind ∈ RECONCILED /\ (kind_as_str kind, id) ∉ refs (m_retired man)) ->
  env ∈ of_kind kind out /\
  (kind_as_str kind, id) ∈ refs (m_entities (adopt_manifest man out seen now digest)).
Proof.
  intros Hf Ha Hst Hor. rewrite adopt_manifest_entities, refs_upsert_all.
  destruct (decide ((kind_as_str kind, id) ∈ refs (m_entities man))) as [Hin|Hni].
  - split; [eapply a_grows, f_complete; eauto|]. right.
    apply list_elem_of_fmap in Hin as (r & Hr & Hin). apply list_elem_of_fmap.
    exists r. split; [done|]. rewrite elem_of_bfilter, negb_true_iff. split; [done|].
    apply not_true_iff_false. rewrite existsb_exists. intros (l & Hl & Heq).
    apply bool_decide_eq_true in Heq as ->. apply list_elem_of_In in Hl.
    rewrite (a_lost _ _ _ _ _ _ _ Ha) in Hl. apply (f_lost _ _ _ _ Hf) in Hl as [_ Hno].
    injection Hr as Hk Hi. apply (Hno kind env); [rewrite <- Hk; apply kind_parse_as_str|].
    by rewrite <- Hi.
  - destruct Hor as [|[Hk Hnr]]; [done|].
    destruct (a_complete _ _ _ _ _ _ _ Ha kind id env) as [He Hu]; try done.
    + split; [done|]. destruct Hst as (q & v & ? & _). by exists q, v.
    + split; [done|]. left. apply list_elem_of_fmap. by exists (mkRef (kind_as_str kind) id (env_seq env)).
Qed.

Lemma restore_resumed d :
  lists_supported S -> d_fresh d = false ->
  let '(d', r) := restore d in
  match r with Ok out => resumed d out d' | Err _ => True end.
Proof.
  intros Hlist Hfresh. unfold restore, now_ms. run_st.
  pose proof (read_manifest_spec d) as Hm.
  destruct (read_manifest d) as [d1 [[man none]|e]]; [|done].
  destruct Hm as (Hq1 & He & Hr & Hg & Hstr & Hsta & _).
  assert (d_fresh d1 = false) as -> by (destruct Hq1 as [(_ & _ & _ & -> & _) _]; done).
  pose proof (for_each_spec fetch_indexed (m_entities man) (fetched d) restored_default d1) as Hf.
  destruct (for_each fetch_indexed _ _ d1) as [d2 [out0|e]]; [|done].
  assert (fetched d (m_entities man) out0 d2) as Hfet.
  { apply Hf.
    - split; [done| | | |done]; cbn.
      + intros kind env Hin. unfold of_kind in Hin. cbn in Hin. rewrite lookup_empty in Hin.
        by apply not_elem_of_nil in Hin.
      + intros kind id env Hin. by apply not_elem_of_nil in Hin.
      + intros r. set_solver.
    - intros xs x ys b s _ Hi. by apply fetch_step. }
  clear Hf. pose proof (reconcile_all d man out0 d2 Hlist) as Hrec.
  destruct (for_each (reconcile man) _ _ d2) as [d3 [[out seen]|e]]; [|done].
  destruct Hrec as [_ Had].
  { split; [apply Hfet|by left|done|done|done|]. set_solver. }
  cbn [fst snd] in Had.
  set (m := adopt_manifest man out seen (wall (d_ticks d3)) (d_config_digest (tick d3))).
  pose proof (flush_spec true (set_manifest m (tick d3))) as Hfl.
  destruct (flush true _) as [d4 [b|e]]; [|done].
  destruct Hfl as (Hs4 & Hv4 & Hm4 & Hb).
  pose proof (a_quiet _ _ _ _ _ _ _ Had) as Hq3.
  assert (forall x, resumed d out d4 -> r_entities x = r_entities out ->
    r_lost x = r_lost out -> resumed d x d4) as Hx.
  { intros x [] Ex El. split; unfold of_kind in *; rewrite ?Ex, ?El; done. }
  assert (resumed d out d4) as Hres; [|destruct (none && _); by apply Hx].
  clear Hx. destruct Hq3 as (Hs3 & Hv3 & _).
  assert (static d d4) as Hs by (etrans; [apply Hs3|apply Hs4]).
  assert (d_key (set_manifest m (tick d3)) Manifest_ MANIFEST_ID = d_key d Manifest_ MANIFEST_ID)
    as Hk by (by apply d_key_static).
  rewrite Hk in Hv4. change (dview (set_manifest m (tick d3))) with (dview d3) in Hv4.
  rewrite Hk in Hb. change (d_manifest (set_manifest m (tick d3))) with m in *.
  split.
  - done.
  - intros j Hj. rewrite Hv4 by done. by rewrite Hv3.
  - rewrite Hm4. unfold m. rewrite adopt_manifest_generation. by rewrite Hg.
  - rewrite Hm4. unfold m. by rewrite (proj1 (adopt_manifest_positions _ _ _ _ _)).
  - rewrite Hm4. unfold m. by rewrite (proj2 (adopt_manifest_positions _ _ _ _ _)).
  - destruct b; [|by destruct Hb as [_ [|]]]. rewrite Hm4.
    destruct Hb as [_ [|(q & ts & Hb)]]; [by left|right]. exists q, ts. rewrite Hb.
    do 4 f_equal. cbn. by destruct Hs3 as (_ & -> & _).
  - intros kind env Hin. rewrite <- He, <- Hr.
    destruct (a_sound _ _ _ _ _ _ _ Had _ _ Hin) as [Hin0|(id & ? & ? & ?)]; [|eauto 6].
    destruct (f_sound _ _ _ _ Hfet _ _ Hin0) as (id & ? & ?). eauto.
  - intros kind id env Hin Hst. rewrite <- He in Hin. rewrite Hm4.
    eapply adopted_index; eauto.
  - intros kind id env Hk' Hst Hnr. rewrite <- Hr in Hnr. rewrite Hm4.
    eapply adopted_index; eauto.
  - intros r. rewrite (a_lost _ _ _ _ _ _ _ Had). rewrite (f_lost _ _ _ _ Hfet r), He. done.
Qed.

(** *** A fresh generation *)

Lemma refs_push_retired l k i q p : p ∈ refs (push_retired l k i q) <-> p ∈ refs l \/ p = (k, i).
Proof.
  unfold push_retired. destruct (existsb (ref_is k i) l) eqn:E.
  - apply existsb_ref_is in E. split; [by left|]. by intros [| ->].
  - unfold refs. rewrite fmap_app, elem_of_app. cbn. by rewrite list_elem_of_singleton.
Qed.

Lemma refs_push_refs l rs p : p ∈ refs (push_refs l rs) <-> p ∈ refs l \/ p ∈ refs rs.
Proof.
  unfold push_refs. revert l. induction rs as [|r rs IH]; intros l; cbn.
  - set_solver.
  - rewrite IH, refs_push_retired. rewrite elem_of_cons. tauto.
Qed.

Lemma refs_push_keys kind ks l d :
  (forall k, k ∈ (ks_key <$> ks) -> exists id, k = d_key d kind id) ->
  forall p, p ∈ refs (fold_left (fun l k =>
      match parse_key (d_prefix d) (d_instance d) (ks_key k) with
      | Some (_, id) => push_retired l (kind_as_str kind) id (default 0%Z (ks_seq k))
      | None => l
      end) ks l) <->
    p ∈ refs l \/ exists id, p = (kind_as_str kind, id) /\ d_key d kind id ∈ (ks_key <$> ks).
Proof.
  revert l. induction ks as [|k ks IH]; intros l Hk p; cbn; [set_solver|].
  destruct (Hk (ks_key k)) as [id Hid]; [by left|]. rewrite Hid, parse_d_key.
  rewrite IH by (intros k' ?; apply Hk; by right).
  rewrite refs_push_retired. setoid_rewrite elem_of_cons. split.
  - intros [[?| ->]|(i & ? & ?)]; eauto 6.
  - intros [?|(i & -> & [Hi|?])]; [by auto| |eauto 6]. apply d_key_inj in Hi as ->. auto.
Qed.

Lemma retire_all d d1 :
  lists_supported S -> quiet d d1 ->
  let '(d2, r) := for_each retire_listed RECONCILED [] d1 in
  match r with
  | Ok l => quiet d d2 /\ forall kind id, kind ∈ RECONCILED -> live_id d kind id ->
      (kind_as_str kind, id) ∈ refs l
  | Err _ => True
  end.
Proof.
  intros Hlist Hq. apply (for_each_spec retire_listed RECONCILED
    (fun done l s => quiet d s /\ forall kind id, kind ∈ done -> live_id d kind id ->
      (kind_as_str kind, id) ∈ refs l)).
  - split; [done|]. intros kind id Hin. by apply not_elem_of_nil in Hin.
  - intros xs x ys l s _ [Hqs Hl]. unfold retire_listed. run_st.
    pose proof (list_kind_spec x s) as Hls.
    destruct (list_kind x s) as [s1 [ks|e]] eqn:E; destruct Hls as (Hq1 & _ & Hks).
    + destruct Hks as (_ & Hlive & Hkeys).
      assert (d_prefix s1 = d_prefix s /\ d_instance s1 = d_instance s) as [-> ->]
        by (destruct Hq1 as [(? & ? & _) _]; by split).
      split; [by etrans|]. intros kind id. rewrite elem_of_app, list_elem_of_singleton.
      rewrite (refs_push_keys x ks l s Hkeys).
      intros [Hin| ->] Hid; [left; by apply Hl|right]. exists id. split; [done|].
      apply Hlive. unfold live_id in Hid. rewrite (quiet_key _ _ _ _ Hqs).
      by destruct Hqs as (_ & -> & _).
    + destruct e; try done. exfalso.
      specialize (Hlist (key (d_prefix s) (d_instance s) (kind_as_str x) nil_str) (d_store s) op).
      unfold list_kind, list_prefix, on_store in E. cbn in E.
      revert E. run_st. destruct (store_list _ _). naive_solver.
Qed.

Record started_fresh d d' : Prop := {
  fr_static : static d d';
  fr_frame : forall kind id, kind <> Manifest_ ->
    dview d' !! d_key d kind id = dview d !! d_key d kind id;
  fr_generation : m_generation (d_manifest d') = u64_add (m_generation (prior d)) 1;
  fr_entities : m_entities (d_manifest d') = [];
  fr_retired : forall kind id, kind ∈ RECONCILED -> live_id d kind id ->
    (kind_as_str kind, id) ∈ refs (m_retired (d_manifest d'));
  fr_index : forall p, p ∈ refs (m_entities (prior d)) \/ p ∈ refs (m_retired (prior d)) ->
    p ∈ refs (m_retired (d_manifest d'));
  fr_manifest : d_degraded d' = true \/ exists q ts,
    dview d' !! d_key d Manifest_ MANIFEST_ID =
      Some (q, to_value (mkEnvelope "manifest" MANIFEST_ID q ts (d_instance d) None
        (to_value (d_manifest d'))));
  fr_copied : forall m, on_error (d_policy d) = Halt ->
    stored_manifest (dview d) (d_key d Manifest_ MANIFEST_ID) = Some m ->
    stored_manifest (dview d') (d_key d Manifest_ (gen_id m)) = Some m;
  }.

Lemma d_key_kind_ne d k k' i i' : k <> k' -> d_key d k i <> d_key d k' i'.
Proof.
  intros Hne E. apply (f_equal (parse_key (d_prefix d) (d_instance d))) in E.
  rewrite !parse_d_key in E. injection E as E _. by apply kind_as_str_inj in E.
Qed.

Lemma gen_id_ne m : gen_id m <> MANIFEST_ID.
Proof. unfold gen_id, MANIFEST_ID. done. Qed.

Lemma stored_manifest_written (mv : records) k q e m :
  mv !! k = Some (q, to_value e) -> env_state e = to_value m -> stored_manifest mv k = Some m.
Proof.
  intros Hk He. unfold stored_manifest. rewrite Hk, value_tombstone_envelope, He.
  change (is_null (to_value m)) with false. cbv iota.
  rewrite from_to_value. cbn [mbind option_bind]. rewrite He. apply from_to_value.
Qed.

(** The copy of the outgoing index, where there is one. *)
Lemma copy_prior d (none : bool) m :
  let '(d', r) := copy_outgoing m none d in
  static d d' /\
  (forall j, j <> d_key d Manifest_ (gen_id m) -> dview d' !! j = dview d !! j) /\
  match r with
  | Ok _ => on_error (d_policy d) = Halt -> none = false ->
      stored_manifest (dview d') (d_key d Manifest_ (gen_id m)) = Some m
  | Err _ => True
  end.
Proof.
  unfold copy_outgoing. destruct none; [by split_and!|]. run_st.
  pose proof (put_spec Manifest_ (gen_id m) (to_value m) None d) as Hp.
  destruct (put Manifest_ (gen_id m) _ _ d) as [d' [q|e]]; destruct Hp as (Hs & Hm & Hw);
    (split; [done|]);
    (split; [intros j Hj; exact (maybe_wrote_frame _ _ _ _ _ _ _ Hm Hj)|]); [|done].
  intros Hh _. destruct Hw as [_ [(_ & _ & ts & Hv)|(_ & Hd & _)]]; [|congruence].
  eapply stored_manifest_written with (q := q); [rewrite Hv; by simplify_map_eq|done].
Qed.

Lemma birth_spec d m :
  let '(d', r) := birth m d in
  static d d' /\ d_store d' = d_store d /\ is_ok r = true.
Proof. unfold birth, now_ms. run_st. by destruct (_ =? _)%Z. Qed.

Lemma restore_fresh_spec d :
  lists_supported S -> d_fresh d = true ->
  let '(d', r) := restore d in
  match r with
  | Ok out => out = restored_default /\ started_fresh d d'
  | Err _ => True
  end.
Proof.
  intros Hlist Hfresh. unfold restore. run_st.
  pose proof (read_manifest_spec d) as Hm.
  destruct (read_manifest d) as [d1 [[man none]|e]]; [|done].
  destruct Hm as (Hq1 & He & Hr & Hg & _ & _ & Hst).
  assert (d_fresh d1 = true) as -> by (destruct Hq1 as [(_ & _ & _ & -> & _) _]; done).
  unfold restore_fresh. run_st.
  pose proof (retire_all d d1 Hlist Hq1) as Hret.
  destruct (for_each retire_listed _ _ d1) as [d2 [l|e]]; [|done].
  destruct Hret as [Hq2 Hret].
  pose proof (copy_prior d2 none man) as Hc.
  destruct (copy_outgoing man none d2) as [d3 [[]|e]]; [|done].
  destruct Hc as (Hs3 & Hv3 & Hc).
  pose proof (birth_spec d3 man) as Hn.
  destruct (birth man d3) as [d4 [created|e]]; [|by destruct Hn as (_ & _ & ?)].
  destruct Hn as (Hs4 & Hv4 & _). unfold now_ms. cbn beta iota zeta.
  match goal with |- context [set_manifest ?m (tick d4)] => set (m' := m) end.
  pose proof (flush_spec true (set_manifest m' (tick d4))) as Hfl.
  destruct (flush true _) as [d5 [b|e]]; [|done]. split; [done|].
  destruct Hfl as (Hs5 & Hv5 & Hm5 & Hb).
  assert (static d d2) as Hs2 by apply Hq2.
  assert (static d d4) as Hsd4 by (etrans; [apply Hs2|]; etrans; done).
  assert (static d d5) as Hs by (etrans; [apply Hsd4|apply Hs5]).
  assert (forall i, d_key (set_manifest m' (tick d4)) Manifest_ i = d_key d Manifest_ i) as Hk
    by (intros i; by apply d_key_static).
  rewrite Hk in Hv5, Hb. rewrite (d_key_static _ _ _ _ Hs2) in Hv3, Hc.
  assert (dview d2 = dview d) as Hv2 by apply Hq2. rewrite Hv2 in Hv3.
  assert (forall j, j <> d_key d Manifest_ MANIFEST_ID -> dview d5 !! j = dview d3 !! j) as Hv53.
  { intros j Hj. rewrite Hv5 by done. unfold dview. cbn. by rewrite Hv4. }
  change (d_manifest (set_manifest m' (tick d4))) with m' in *.
  split.
  - done.
  - intros kind id Hne. rewrite Hv53 by (by apply d_key_kind_ne).
    apply Hv3. by apply d_key_kind_ne.
  - rewrite Hm5. cbn. by rewrite Hg.
  - by rewrite Hm5.
  - intros kind id Hin Hid. rewrite Hm5. cbn. rewrite !refs_push_refs. left. left. by apply Hret.
  - intros p Hp. rewrite Hm5. cbn. rewrite !refs_push_refs, He, Hr. tauto.
  - destruct b; [|by destruct Hb as [_ [|]]]. rewrite Hm5.
    destruct Hb as [_ [|(q & ts & Hb)]]; [by left|right]. exists q, ts. rewrite Hb.
    do 4 f_equal. cbn. by destruct Hsd4 as (_ & -> & _).
  - intros m Hh Hsm. rewrite Hst in Hsm. destruct none; [done|]. injection Hsm as <-.
    unfold stored_manifest in *. rewrite Hv53.
    + apply Hc; [|done]. by destruct Hs2 as (_ & _ & -> & _).
    + intros E%d_key_inj. by apply gen_id_ne in E.
Qed.
End facts.
