(* ===== verification/DurableProps.v ===== *)
(** * What the durability layer promises

    The properties of [Durable] and of its restore, proved for any store
    that keeps the laws [StoreOk], with witnesses over the in-process store. *)

From S2P Require Export Restore Memory.

(** ** A life to evaluate

    Concrete clocks and sizes, and a first life over the in-process store. *)

Module Sample.
#[export] Instance clock : Clock :=
  {| wall n := (1700000000000 + Z.of_nat n)%Z; mono n := Z.of_nat n |}.
#[export] Instance size : JsonLen := fun _ => 100%Z.

Definition life (s : MemoryStore) (fresh : bool) : Durable MemoryStore :=
  durable_new s "agentd" "house" policy_default fresh ∅.
Definition first : Durable MemoryStore := life memory_new false.
Definition event : InboxEvent := mkInboxEvent "01H" "a2a" 7 None VNull Pending None None.
(** The first life after [event] arrived, then crashed. *)
Definition crashed : Durable MemoryStore := (inbox_put event first).1.
Definition second : Durable MemoryStore := life (d_store crashed) false.
End Sample.
Import Sample.

Lemma memory_lists : lists_supported MemoryStore.
Proof.
  intros p s op. cbn. unfold memory_list, begin_op, set_fail_next. run_st. by destruct (_ <? _)%Z.
Qed.

Section properties.
Context {S : Type} `{StoreOk S} `{Clock} `{JsonLen}.
Implicit Types (d : Durable S).

(** Once a write reports a sequence number and the façade is not
    degraded, the next read of that entity answers the envelope written: its
    kind, id, number, instance, hash and state; a null state (a tombstone)
    answers nothing. *)
Theorem put_then_get kind id state hash d d1 q :
  put kind id state hash d = (d1, Ok q) -> d_degraded d1 = false ->
  match (get_entity kind id d1).2 with
  | Ok o => if is_null state then o = None else exists ts,
      o = Some (mkEnvelope (kind_as_str kind) id q ts (d_instance d) hash state)
  | Err _ => True
  end.
Proof.
  intros E Hdeg. pose proof (put_spec kind id state hash d) as Hp. rewrite E in Hp.
  destruct Hp as (Hs & _ & _ & [(_ & _ & ts & Hv)|[? _]]); [|congruence].
  pose proof (get_written kind id d1 q
    (mkEnvelope (kind_as_str kind) id q ts (d_instance d) hash state)) as Hg.
  rewrite (d_key_static _ _ kind id Hs), Hv in Hg. specialize (Hg (lookup_insert_eq _ _ _)).
  destruct (get_entity kind id d1) as [d2 [o|e]]; [|done]. cbn in *.
  destruct (is_null state); [done|]. by exists ts.
Qed.

(** A create-only write never touches a live record: the store is left
    as it was, and the write is reported as made only when the façade is
    degraded or the record is this very write (its first answer was lost). *)
Theorem create_never_overwrites kind id state d d' r q v :
  live (dview d) (d_key d kind id) q v -> (1 <= q)%Z ->
  create kind id state d = (d', r) ->
  dview d' = dview d /\
  forall s, r = Ok (Some s) -> d_degraded d' = true \/
    (s = 1%Z /\ get "seq" v = Some (to_value 1%Z) /\ get "state" v = Some state /\
     get "instance" v = Some (to_value (d_instance d))).
Proof.
  intros Hl Hq E. pose proof (create_live kind id state d q v Hl Hq) as Hc. rewrite E in Hc.
  destruct Hc as (_ & Hv & Hr). split; [done|]. intros s ->.
  destruct Hr as [|(-> & ts & Hsame)]; [by left|right].
  destruct Hsame as (-> & _ & -> & ->). cbn. unfold envelope_to_value. by obj_simpl.
Qed.

(** C2: split brain stops: a life whose number for a key another life has
    passed cannot write it.  The store keeps the other's record, and the write
    is an error, or the façade says it is degraded. *)
Theorem stale_write_refused kind id state hash d d' r s q v :
  d_seqs d !! d_key d kind id = Some s -> is_u64 s ->
  dview d !! d_key d kind id = Some (q, v) -> is_u64 q -> (s < q)%Z ->
  put kind id state hash d = (d', r) ->
  dview d' = dview d /\ (d_degraded d' = true \/ exists e, r = Err e).
Proof.
  intros Hs Hus Hk Huq Hlt E. pose proof (put_stale kind id state hash d s q v Hs Hus Hk Huq Hlt)
    as Hp. rewrite E in Hp. destruct Hp as (_ & Hv & Hr). split; [done|].
  destruct r; [left; by apply Hr|right; eauto].
Qed.

(** The write loop ends: a conflict is adopted or a tombstone written
    past at most once, so two passes give the result any more would. *)
Theorem write_two_passes n kind id state hash create_only d :
  write_loop (2 + n) kind id state hash create_only false None d =
    write_loop 2 kind id state hash create_only false None d.
Proof.
  cbn [Nat.add write_loop]. run_st.
  destruct (write_pass _ _ _ _ _ _ _ d) as [d1 [[a t|o]|e]] eqn:E1; [|done|done].
  destruct (write_pass _ _ _ _ create_only a t d1) as [d2 [[a2 t2|o2]|e2]] eqn:E2; [|done|done].
  apply write_pass_again in E1, E2. exfalso. destruct E2 as [(-> & -> & _)|(-> & -> & _)].
  - destruct E1 as [(_ & _ & [x ?])|(? & _)]; done.
  - destruct E1 as [(? & _)|(_ & _ & ?)]; done.
Qed.

(** The manifest's index stays without duplicates through a write, and
    a write of an indexed kind is named in it once, with the number it reports,
    every other entry kept. *)
Theorem put_indexes kind id state hash d d' q :
  index_ok (m_entities (d_manifest d)) -> indexed kind = true ->
  put kind id state hash d = (d', Ok q) -> d_degraded d' = false ->
  index_ok (m_entities (d_manifest d')) /\
  forall r, r ∈ m_entities (d_manifest d') <->
    r = mkRef (kind_as_str kind) id q \/
    (r ∈ m_entities (d_manifest d) /\ (ref_kind r, ref_id r) <> (kind_as_str kind, id)).
Proof.
  intros Hok Hi E Hdeg. pose proof (put_spec kind id state hash d) as Hp. rewrite E in Hp.
  destruct Hp as (_ & _ & _ & [(_ & Hm & _)|[? _]]); [|congruence].
  rewrite Hm. split; [by apply index_after_ok|]. unfold index_after. rewrite Hi.
  intros r. by apply elem_of_upsert.
Qed.

(** deleting an entity leaves nothing live at its key and nothing of it
    in the index, touches no other key, whether the store deletes or a
    tombstone has to be written. *)
Theorem delete_removes kind id d d' :
  delete_entity kind id d = (d', Ok tt) ->
  (d_degraded d' = true \/ forall q v, ~ live (dview d') (d_key d kind id) q v) /\
  (indexed kind = true -> ~ indexes (d_manifest d') (kind_as_str kind) id) /\
  forall j, j <> d_key d kind id -> dview d' !! j = dview d !! j.
Proof.
  intros E. pose proof (delete_spec kind id d) as Hd. rewrite E in Hd.
  destruct Hd as (_ & Hf & _ & Hl & Hi). by split_and!.
Qed.

(** C1: a restore loses nothing: over a store that has [list], every live
    record of a reconciled kind that the stored manifest indexes, or that no
    [--fresh] retired, is returned and indexed by the new manifest, indexed or
    not before the crash; everything returned is such a live record; the
    generation is the next one. *)
Theorem restore_complete d d' out :
  lists_supported S -> d_fresh d = false -> restore d = (d', Ok out) ->
  (forall kind id env, kind ∈ RECONCILED -> stored d kind id env ->
     (kind_as_str kind, id) ∈ refs (m_entities (prior d)) \/
     (kind_as_str kind, id) ∉ refs (m_retired (prior d)) ->
     env ∈ of_kind kind out /\ (kind_as_str kind, id) ∈ refs (m_entities (d_manifest d'))) /\
  (forall kind env, env ∈ of_kind kind out -> exists id, stored d kind id env) /\
  m_generation (d_manifest d') = u64_add (m_generation (prior d)) 1.
Proof.
  intros Hl Hf E. pose proof (restore_resumed d Hl Hf) as Hr. rewrite E in Hr.
  split_and!.
  - intros kind id env Hk Hst [Hin|Hnr]; [by eapply s_indexed|by eapply s_adopted].
  - intros kind env Hin. destruct (s_sound _ _ _ Hr _ _ Hin) as (id & ? & _). by exists id.
  - by eapply s_generation.
Qed.

(** A start with [--fresh] sticks: it resumes nothing, deletes nothing, and the next
    ordinary start over the same store does not take the abandoned generation's
    records back; under [on_error: halt] the outgoing index is kept beside the
    new one. *)
Theorem fresh_sticks d d1 out1 p digest d3 out3 :
  lists_supported S -> d_fresh d = true ->
  restore d = (d1, Ok out1) -> d_degraded d1 = false ->
  restore (durable_new (d_store d1) (d_prefix d) (d_instance d) p false digest) = (d3, Ok out3) ->
  (forall kind, of_kind kind out1 = [] /\ of_kind kind out3 = []) /\
  (forall kind id, kind <> Manifest_ ->
     dview d1 !! d_key d kind id = dview d !! d_key d kind id) /\
  (forall m, on_error (d_policy d) = Halt ->
     stored_manifest (dview d) (d_key d Manifest_ MANIFEST_ID) = Some m ->
     stored_manifest (dview d1) (d_key d Manifest_ (gen_id m)) = Some m).
Proof.
  intros Hl Hf E1 Hdeg E3. pose proof (restore_fresh_spec d Hl Hf) as Hr. rewrite E1 in Hr.
  destruct Hr as [-> Hfr]. set (d2 := durable_new _ _ _ _ _ _) in E3.
  pose proof (restore_resumed d2 Hl eq_refl) as Hr. rewrite E3 in Hr.
  assert (stored_manifest (dview d2) (d_key d2 Manifest_ MANIFEST_ID) = Some (d_manifest d1)) as Hm.
  { destruct (fr_manifest _ _ Hfr) as [|(q & ts & Hk)]; [congruence|].
    by eapply stored_manifest_written. }
  split; [|split; [apply (fr_frame _ _ Hfr)|apply (fr_copied _ _ Hfr)]].
  intros kind. split; [done|]. destruct (of_kind kind out3) as [|env l] eqn:Ek; [done|exfalso].
  destruct (s_sound _ _ _ Hr kind env) as (id & Hst & Hor); [rewrite Ek; by left|].
  unfold prior in Hor. rewrite Hm in Hor. change (default manifest_default (Some (d_manifest d1))) with (d_manifest d1) in Hor.
  rewrite (fr_entities _ _ Hfr) in Hor.
  destruct Hor as [Hin|[Hk Hnr]]; [by apply not_elem_of_nil in Hin|]. apply Hnr.
  apply (fr_retired _ _ Hfr); [done|]. destruct Hst as (q & v & Hlive & _). exists q, v.
  unfold live in *. change (d_key d2 kind id) with (d_key d kind id) in Hlive.
  rewrite <- (fr_frame _ _ Hfr); [done|]. intros ->. revert Hk. clear. unfold RECONCILED. set_solver.
Qed.

(** The inbox is written ahead: an event whose [inbox_put] answered is
    pending again in the next life over the same store, whether or not the
    manifest that would index it was ever flushed. *)
Theorem inbox_survives_crash ev d d1 q p digest d3 out :
  lists_supported S -> ev_status ev = Pending ->
  inbox_put ev d = (d1, Ok q) -> d_degraded d1 = false ->
  let d2 := durable_new (d_store d1) (d_prefix d) (d_instance d) p false digest in
  ("inbox", ev_id ev) ∉ refs (m_retired (prior d2)) ->
  restore d2 = (d3, Ok out) -> ev ∈ inbox_pending out.
Proof.
  intros Hl Hst E1 Hdeg d2 Hnr E. pose proof (put_spec Inbox (ev_id ev) (to_value ev) None d) as Hp.
  unfold inbox_put in E1. rewrite E1 in Hp.
  destruct Hp as (Hs & _ & _ & [(_ & _ & ts & Hv)|[? _]]); [|congruence].
  set (env := mkEnvelope (kind_as_str Inbox) (ev_id ev) q ts (d_instance d) None (to_value ev)) in *.
  assert (stored d2 Inbox (ev_id ev) env) as Hstored.
  { exists q, (to_value env). change (d_key d2 Inbox (ev_id ev)) with (d_key d Inbox (ev_id ev)).
    change (dview d2) with (dview d1). rewrite Hv. split; [|apply from_to_value].
    split; [by simplify_map_eq|]. by rewrite value_tombstone_envelope. }
  pose proof (restore_resumed d2 Hl eq_refl) as Hr. rewrite E in Hr.
  destruct (s_adopted _ _ _ Hr Inbox (ev_id ev) env) as [Hin _]; [by left|done|done|].
  apply elem_of_inbox_pending. split; [done|]. exists env. split; [done|].
  apply (from_to_value ev).
Qed.
End properties.

(** ** Witnesses *)

Lemma put_then_get_witness :
  match (get_entity Inbox "01H" crashed).2 with
  | Ok o => exists ts, o = Some (mkEnvelope "inbox" "01H" 1 ts "house" None (to_value event))
  | Err _ => True
  end.
Proof.
  refine (put_then_get Inbox "01H" (to_value event) None first crashed 1 _ _);
    vm_compute; reflexivity.
Defined.

Lemma create_never_overwrites_witness :
  let d' := (create Inbox "01H" (VBool true) second).1 in
  dview d' = dview second /\
  forall s, (Ok None : result StoreError (option Z)) = Ok (Some s) -> d_degraded d' = true \/
    (s = 1%Z /\ get "seq" (envelope_to_value (mkEnvelope "inbox" "01H" 1 1700000000001 "house" None
       (to_value event))) = Some (to_value 1%Z) /\
     get "state" (envelope_to_value (mkEnvelope "inbox" "01H" 1 1700000000001 "house" None
       (to_value event))) = Some (VBool true) /\
     get "instance" (envelope_to_value (mkEnvelope "inbox" "01H" 1 1700000000001 "house" None
       (to_value event))) = Some (to_value (d_instance second))).
Proof.
  refine (create_never_overwrites Inbox "01H" (VBool true) second
    (create Inbox "01H" (VBool true) second).1 (Ok None) 1 _ _ _ _).
  - split; vm_compute; reflexivity.
  - lia.
  - vm_compute; reflexivity.
Defined.

(** The second life resumed and wrote the event again; the first, still
    running, then tries to. *)
Definition stale : Durable MemoryStore :=
  set_store (d_store (inbox_put event (restore second).1).1) crashed.

Lemma stale_write_refused_witness :
  dview (inbox_put event stale).1 = dview stale /\
  (d_degraded (inbox_put event stale).1 = true \/ exists e, (inbox_put event stale).2 = Err e).
Proof.
  refine (stale_write_refused Inbox "01H" (to_value event) None stale
    (inbox_put event stale).1 (inbox_put event stale).2 1 2
    (to_value (mkEnvelope "inbox" "01H" 2 1700000000006 "house" None (to_value event))) _ _ _ _ _ _).
  - vm_compute; reflexivity.
  - unfold_u; lia.
  - vm_compute; reflexivity.
  - unfold_u; lia.
  - lia.
  - vm_compute; reflexivity.
Defined.

Lemma put_indexes_witness :
  index_ok (m_entities (d_manifest crashed)) /\
  forall r, r ∈ m_entities (d_manifest crashed) <->
    r = mkRef "inbox" "01H" 1 \/ (r ∈ [] /\ (ref_kind r, ref_id r) <> ("inbox", "01H")).
Proof.
  refine (put_indexes Inbox "01H" (to_value event) None first crashed 1 _ _ _ _).
  - apply NoDup_nil_2.
  - reflexivity.
  - vm_compute; reflexivity.
  - vm_compute; reflexivity.
Defined.

Lemma delete_removes_witness :
  let d' := (inbox_done "01H" crashed).1 in
  (d_degraded d' = true \/ forall q v, ~ live (dview d') (d_key crashed Inbox "01H") q v) /\
  (indexed Inbox = true -> ~ indexes (d_manifest d') "inbox" "01H") /\
  forall j, j <> d_key crashed Inbox "01H" -> dview d' !! j = dview crashed !! j.
Proof.
  refine (delete_removes Inbox "01H" crashed _ _). vm_compute; reflexivity.
Defined.

Definition restored : Restored :=
  match (restore second).2 with Ok out => out | Err _ => restored_default end.

Lemma restore_complete_witness :
  (forall kind id env, kind ∈ RECONCILED -> stored second kind id env ->
     (kind_as_str kind, id) ∈ refs (m_entities (prior second)) \/
     (kind_as_str kind, id) ∉ refs (m_retired (prior second)) ->
     env ∈ of_kind kind restored /\
     (kind_as_str kind, id) ∈ refs (m_entities (d_manifest (restore second).1))) /\
  (forall kind env, env ∈ of_kind kind restored -> exists id, stored second kind id env) /\
  m_generation (d_manifest (restore second).1) = u64_add (m_generation (prior second)) 1.
Proof.
  refine (restore_complete second (restore second).1 restored memory_lists eq_refl _).
  vm_compute; reflexivity.
Defined.

(** The same store opened with [--fresh], and the start after that. *)
Definition fresh_life : Durable MemoryStore := life (d_store (restore second).1) true.
Definition after_fresh : Durable MemoryStore := life (d_store (restore fresh_life).1) false.
Definition resumed_after : Restored :=
  match (restore after_fresh).2 with Ok out => out | Err _ => restored end.

Lemma fresh_sticks_witness :
  (forall kind, of_kind kind restored_default = [] /\ of_kind kind resumed_after = []) /\
  (forall kind id, kind <> Manifest_ ->
     dview (restore fresh_life).1 !! d_key fresh_life kind id = dview fresh_life !! d_key fresh_life kind id) /\
  (forall m, on_error (d_policy fresh_life) = Halt ->
     stored_manifest (dview fresh_life) (d_key fresh_life Manifest_ MANIFEST_ID) = Some m ->
     stored_manifest (dview (restore fresh_life).1) (d_key fresh_life Manifest_ (gen_id m)) = Some m).
Proof.
  refine (fresh_sticks fresh_life (restore fresh_life).1 restored_default policy_default ∅
    (restore after_fresh).1 resumed_after memory_lists _ _ _ _); vm_compute; reflexivity.
Defined.

Lemma inbox_survives_crash_witness : event ∈ inbox_pending restored.
Proof.
  refine (inbox_survives_crash event first crashed 1 policy_default ∅ (restore second).1 restored
    memory_lists _ _ _ _ _).
  - reflexivity.
  - vm_compute; reflexivity.
  - vm_compute; reflexivity.
  - apply not_elem_of_nil.
  - vm_compute; reflexivity.
Defined.
