(* ===== verification/Governor.v ===== *)
(** * The token governor

    [crates/agentd/src/governor/mod.rs]: windowed, durable token and request
    budgets, the instance's and its sub-scopes', with reservations and the
    tactic an exhausted window answers with.  The clock is an argument, as in
    the source. *)

From S2P Require Export Json Text.

(** ** Configuration *)

Inductive WindowUnit : Type := Second | Minute | Hour | Day | Week.

#[export] Instance window_unit_eq_dec : EqDecision WindowUnit.
Proof. solve_decision. Defined.

(** [WindowUnit::duration], in milliseconds. *)
Definition duration_ms (u : WindowUnit) : Z :=
  match u with
  | Second => 1000
  | Minute => 60000
  | Hour => 3600000
  | Day => 86400000
  | Week => 604800000
  end.

(** [format!("{:?}").to_lowercase()]. *)
Definition unit_label (u : WindowUnit) : string :=
  match u with
  | Second => "second" | Minute => "minute" | Hour => "hour" | Day => "day" | Week => "week"
  end.

Inductive BudgetTactic : Type := TWait | TSlow | TDegrade | TRefuse | TFail.

#[export] Instance tactic_eq_dec : EqDecision BudgetTactic.
Proof. solve_decision. Defined.

Definition tactic_label (t : BudgetTactic) : string :=
  match t with
  | TWait => "wait" | TSlow => "slow" | TDegrade => "degrade" | TRefuse => "refuse" | TFail => "fail"
  end.

Record BudgetWindow := mkBudgetWindow {
  per : WindowUnit;
  cap_tokens : option Z;
  cap_requests : option Z;
  reset : option string;
}.

(** The fields of a budget the governor reads; [lifetime_exhausted] is the
    runtime's. *)
Record Budget := mkBudget {
  b_windows : list BudgetWindow;
  lifetime_tokens : option Z;
  on_exhausted : BudgetTactic;
  factor : option f64;
  degrade_to : option string;
}.

Record Usage := mkUsage { input_tokens : Z; output_tokens : Z }.
Definition total (u : Usage) : Z := u64_add (input_tokens u) (output_tokens u).

(** ** Windows *)

Record WindowState := mkWindowState {
  w_index : Z;
  w_tokens : Z;
  w_requests : Z;
  w_reserved : Z;
}.
Definition window_state_default : WindowState := mkWindowState 0 0 0 0.

Record Window := mkWindow {
  cfg : BudgetWindow;
  reset_offset_ms : Z;
  w_state : WindowState;
}.
Definition set_w_state (s : WindowState) (w : Window) : Window :=
  mkWindow (cfg w) (reset_offset_ms w) s.

(** Weeks start on a Monday; the epoch was a Thursday. *)
Definition week_epoch_shift (u : WindowUnit) : Z :=
  match u with Week => 4 * 86400000 | _ => 0 end.

Definition len_ms (w : Window) : Z := duration_ms (per (cfg w)).

Definition index_at (w : Window) (now : Z) : Z :=
  match per (cfg w) with
  | Day | Week =>
      (u64_sat_sub now (u64_add (reset_offset_ms w) (week_epoch_shift (per (cfg w)))) / len_ms w)%Z
  | _ => (now / len_ms w)%Z
  end.

Definition start_ms (w : Window) (now : Z) : Z :=
  match per (cfg w) with
  | Day | Week =>
      u64_add (u64_add (u64_mul (index_at w now) (len_ms w)) (reset_offset_ms w))
        (week_epoch_shift (per (cfg w)))
  | _ => u64_mul (index_at w now) (len_ms w)
  end.

Definition next_reset_ms (w : Window) (now : Z) : Z := u64_add (start_ms w now) (len_ms w).

(** Roll to the window open at [now]: the counters clear when it moved. *)
Definition roll_window (now : Z) (w : Window) : Window :=
  if (index_at w now =? w_index (w_state w))%Z then w
  else set_w_state (mkWindowState (index_at w now) 0 0 0) w.

Definition tokens_left (w : Window) : option Z :=
  (fun cap => u64_sat_sub cap (u64_add (w_tokens (w_state w)) (w_reserved (w_state w))))
    <$> cap_tokens (cfg w).
Definition requests_left (w : Window) : option Z :=
  (fun cap => u64_sat_sub cap (w_requests (w_state w))) <$> cap_requests (cfg w).

(** [HH:MMZ] or [HH:MM], as milliseconds after midnight. *)
Definition is_z (a : char) : bool := bool_decide (a = "Z"%char) || bool_decide (a = "z"%char).
Definition parse_reset (s : string) : option Z :=
  let t := trim_end is_z (trim (chars s)) in
  hm ← cut ":"%char t;
  h ← parse_u64 hm.1;
  m ← parse_u64 hm.2;
  if (h <? 24)%Z && (m <? 60)%Z then Some ((h * 3600 + m * 60) * 1000)%Z else None.

(** ** Scopes *)

Record Scope := mkScope {
  windows : list Window;
  lifetime_cap : Z;
  lifetime_used : Z;
  tactic : BudgetTactic;
  slow_factor : f64;
  degrade_model : option string;
}.

Definition set_windows (ws : list Window) (s : Scope) : Scope :=
  mkScope ws (lifetime_cap s) (lifetime_used s) (tactic s) (slow_factor s) (degrade_model s).
Definition set_used (n : Z) (s : Scope) : Scope :=
  mkScope (windows s) (lifetime_cap s) n (tactic s) (slow_factor s) (degrade_model s).

Definition window_from (b : BudgetWindow) : Window :=
  mkWindow b (default 0%Z (reset b ≫= parse_reset)) window_state_default.

Definition from_budget (b : Budget) : Scope :=
  mkScope (window_from <$> b_windows b) (default 0%Z (lifetime_tokens b)) 0 (on_exhausted b)
    (f64_clamp (default (f64_ratio 1 2) (factor b)) (f64_ratio 1 100) (f64_of_Z 1))
    (degrade_to b).

Definition roll_scope (now : Z) (s : Scope) : Scope := set_windows (roll_window now <$> windows s) s.

Record Exhausted := mkExhausted {
  ex_window : string;
  ex_until : option Z;
  ex_pacing : bool;
}.

(** [slow]: when the window's pace does not allow the estimate yet, and
    when it will. *)
Definition check_pace (s : Scope) (w : Window) (cap estimate now : Z) : option Exhausted :=
  let elapsed := f64_of_Z (u64_sat_sub now (start_ms w now)) in
  let len := f64_of_Z (len_ms w) in
  let rate := f64_mul (slow_factor s) (f64_of_Z cap) in
  let allowed := f64_add
    (f64_mul rate (f64_clamp (f64_div elapsed len) (f64_of_Z 0) (f64_of_Z 1)))
    (f64_mul rate (f64_ratio 1 20)) in
  let after := f64_of_Z
    (u64_add (u64_add (w_tokens (w_state w)) (w_reserved (w_state w))) estimate) in
  if f64_ltb allowed after && f64_leb after (f64_of_Z cap) then
    let t := f64_mul (f64_div after rate) len in
    let until := u64_add (start_ms w now) (f64_to_u64 (f64_min t len)) in
    Some (mkExhausted (unit_label (per (cfg w))) (Some (Z.max until (u64_add now 50))) true)
  else None.

Definition check_window (s : Scope) (estimate now : Z) (w : Window) : option Exhausted :=
  let ex := mkExhausted (unit_label (per (cfg w))) (Some (next_reset_ms w now)) false in
  if match tokens_left w with Some rest => (rest <? estimate)%Z | None => false end then Some ex
  else if match requests_left w with Some rest => (rest =? 0)%Z | None => false end then Some ex
  else match tactic s, cap_tokens (cfg w) with
       | TSlow, Some cap => check_pace s w cap estimate now
       | _, _ => None
       end.

(** The first window that does not allow the estimate. *)
Fixpoint first_exhausted (s : Scope) (estimate now : Z) (ws : list Window) : option Exhausted :=
  match ws with
  | [] => None
  | w :: ws' =>
      match check_window s estimate now w with
      | Some ex => Some ex
      | None => first_exhausted s estimate now ws'
      end
  end.

Definition check (s : Scope) (estimate now : Z) : option Exhausted :=
  if (0 <? lifetime_cap s)%Z && (lifetime_cap s <? u64_add (lifetime_used s) estimate)%Z
  then Some (mkExhausted "lifetime" None false)
  else first_exhausted s estimate now (windows s).

Definition reserve_window (estimate : Z) (w : Window) : Window :=
  let s := w_state w in
  set_w_state (mkWindowState (w_index s) (w_tokens s) (u64_add (w_requests s) 1)
    (u64_add (w_reserved s) estimate)) w.
Definition reserve (estimate : Z) (s : Scope) : Scope :=
  set_windows (reserve_window estimate <$> windows s) s.

Definition settle_window (reserved used : Z) (w : Window) : Window :=
  let s := w_state w in
  set_w_state (mkWindowState (w_index s) (u64_add (w_tokens s) used) (w_requests s)
    (u64_sat_sub (w_reserved s) reserved)) w.
Definition settle_scope (reserved used : Z) (s : Scope) : Scope :=
  set_used (u64_add (lifetime_used s) used)
    (set_windows (settle_window reserved used <$> windows s) s).

Definition release_window (reserved : Z) (w : Window) : Window :=
  let s := w_state w in
  set_w_state (mkWindowState (w_index s) (w_tokens s) (u64_sat_sub (w_requests s) 1)
    (u64_sat_sub (w_reserved s) reserved)) w.
Definition release_scope (reserved : Z) (s : Scope) : Scope :=
  set_windows (release_window reserved <$> windows s) s.

(** The durable counters, and their adoption by unit. *)
Definition window_to_value (w : Window) : Value :=
  jobj [("per", VStr (unit_label (per (cfg w)))); ("index", ju64 (w_index (w_state w)));
        ("tokens", ju64 (w_tokens (w_state w))); ("requests", ju64 (w_requests (w_state w)))].
Definition scope_to_value (s : Scope) : Value :=
  jobj [("windows", VArr (window_to_value <$> windows s)); ("lifetime_used", ju64 (lifetime_used s))].

Definition saved_for (w : Window) (ws : list Value) : option Value :=
  List.find (fun s => bool_decide (as_str (idx "per" s) = Some (unit_label (per (cfg w))))) ws.
Definition adopt_window (ws : list Value) (w : Window) : Window :=
  match saved_for w ws with
  | Some saved =>
      set_w_state (mkWindowState (default 0%Z (as_u64 (idx "index" saved)))
        (default 0%Z (as_u64 (idx "tokens" saved)))
        (default 0%Z (as_u64 (idx "requests" saved))) 0) w
  | None => w
  end.
Definition adopt (v : Value) (s : Scope) : Scope :=
  set_used (default 0%Z (get "lifetime_used" v ≫= as_u64))
    (match get "windows" v ≫= as_array with
     | Some ws => set_windows (adopt_window ws <$> windows s) s
     | None => s
     end).

Definition opt_u64 (o : option Z) : Value := match o with Some n => ju64 n | None => VNull end.
Definition window_status (now : Z) (w : Window) : Value :=
  jobj [("per", VStr (unit_label (per (cfg w))));
        ("tokens", jobj [("cap", opt_u64 (cap_tokens (cfg w))); ("used", ju64 (w_tokens (w_state w)));
                         ("reserved", ju64 (w_reserved (w_state w))); ("remaining", opt_u64 (tokens_left w))]);
        ("requests", jobj [("cap", opt_u64 (cap_requests (cfg w))); ("used", ju64 (w_requests (w_state w)));
                           ("remaining", opt_u64 (requests_left w))]);
        ("resets_at_ms", ju64 (next_reset_ms w now))].
Definition scope_status (now : Z) (s : Scope) : Value :=
  jobj [("tactic", VStr (tactic_label (tactic s)));
        ("lifetime",
          if (0 <? lifetime_cap s)%Z
          then jobj [("cap", ju64 (lifetime_cap s)); ("used", ju64 (lifetime_used s));
                     ("remaining", ju64 (u64_sat_sub (lifetime_cap s) (lifetime_used s)))]
          else VNull);
        ("windows", VArr (window_status now <$> windows s))].

(** ** The governor *)

(** The verdicts.  [AdmOk] carries the reservation and the model degraded
    to. *)
Inductive Admission : Type :=
  | AdmOk (reservation : Z) (model : option string)
  | AdmWait (until_ms : Z) (reason : string)
  | AdmRefuse (reason : string)
  | AdmFail (reason : string)
  | AdmExhausted (reason : string).

Record Reservation := mkReservation { r_estimate : Z; r_scopes : list string }.

Record Governor := mkGovernor {
  instance : Scope;
  scopes : gmap string Scope;
  reservations : gmap Z Reservation;
  next_reservation : Z;
  waiting : gmap string Z;
  events : Z;
}.

Definition governor_new (b : Budget) : Governor := mkGovernor (from_budget b) ∅ ∅ 1 ∅ 0.

Definition is_active (g : Governor) : bool :=
  match windows (instance g) with [] => false | _ => true end
  || (0 <? lifetime_cap (instance g))%Z
  || match map_to_list (scopes g) with [] => false | _ => true end.

(** The scopes change, the bookkeeping does not. *)
Definition set_scopes (i : Scope) (m : gmap string Scope) (g : Governor) : Governor :=
  mkGovernor i m (reservations g) (next_reservation g) (waiting g) (events g).
Definition set_reservations (m : gmap Z Reservation) (g : Governor) : Governor :=
  mkGovernor (instance g) (scopes g) m (next_reservation g) (waiting g) (events g).

Definition ensure_scope (k : string) (b : Budget) (g : Governor) : Governor :=
  match scopes g !! k with
  | Some _ => g
  | None => set_scopes (instance g) (<[k := from_budget b]> (scopes g)) g
  end.
Definition drop_scope (k : string) (g : Governor) : Governor :=
  set_scopes (instance g) (delete k (scopes g)) g.

(** [for k in scopes { if let Some(s) = self.scopes.get_mut(k) { f(s) } }]. *)
Definition on_scopes (f : Scope -> Scope) (ks : list string) (m : gmap string Scope) :
    gmap string Scope := fold_left (fun m k => alter f k m) ks m.

(** A change to the instance and to every scope named that exists. *)
Definition on_all (f : Scope -> Scope) (ks : list string) (g : Governor) : Governor :=
  set_scopes (f (instance g)) (on_scopes f ks (scopes g)) g.

Record Verdict := mkVerdict {
  v_ex : Exhausted;
  v_key : string;
  v_tactic : BudgetTactic;
  v_model : option string;
}.

(** The first refusal, sub-scopes before the instance. *)
Fixpoint first_refusal (estimate now : Z) (ks : list string) (g : Governor) : option Verdict :=
  match ks with
  | [] => (fun ex => mkVerdict ex "instance" (tactic (instance g)) (degrade_model (instance g)))
            <$> check (instance g) estimate now
  | k :: ks' =>
      match scopes g !! k with
      | Some s =>
          match check s estimate now with
          | Some ex => Some (mkVerdict ex k (tactic s) (degrade_model s))
          | None => first_refusal estimate now ks' g
          end
      | None => first_refusal estimate now ks' g
      end
  end.

Definition reserve_all (estimate : Z) (ks : list string) (g : Governor) : Governor * Z :=
  let g := on_all (reserve estimate) ks g in
  let id := next_reservation g in
  (mkGovernor (instance g) (scopes g) (<[id := mkReservation estimate ks]> (reservations g))
     (u64_add id 1) (waiting g) (events g), id).

Definition reason_of (v : Verdict) : string :=
  if ex_pacing (v_ex v)
  then "budget pacing (" +:+ v_key v +:+ " " +:+ ex_window (v_ex v) +:+ " window): slowing admissions"
  else "budget exhausted (" +:+ v_key v +:+ " " +:+ ex_window (v_ex v) +:+ " window)".

Definition count_event (g : Governor) : Governor :=
  mkGovernor (instance g) (scopes g) (reservations g) (next_reservation g) (waiting g)
    (u64_add (events g) 1).

(** [Governor::admit]. *)
Definition gov_admit (estimate : Z) (ks : list string) (now : Z) (g : Governor) :
    Governor * Admission :=
  let g := on_all (roll_scope now) ks g in
  match first_refusal estimate now ks g with
  | Some v =>
      let g := count_event g in
      if bool_decide (ex_window (v_ex v) = "lifetime")
      then (g, AdmExhausted ("lifetime token budget exhausted (" +:+ v_key v +:+ ")"))
      else
        let wait := AdmWait (default (u64_add now 1000) (ex_until (v_ex v))) (reason_of v) in
        match v_tactic v with
        | TWait | TSlow => (g, wait)
        | TDegrade =>
            match v_model v with
            | Some m => let '(g, id) := reserve_all estimate ks g in (g, AdmOk id (Some m))
            | None => (g, wait)
            end
        | TRefuse => (g, AdmRefuse ("refused: " +:+ reason_of v))
        | TFail => (g, AdmFail (reason_of v))
        end
  | None => let '(g, id) := reserve_all estimate ks g in (g, AdmOk id None)
  end.

Definition settle (reservation : Z) (usage : Usage) (g : Governor) : Governor :=
  match reservations g !! reservation with
  | None => g
  | Some r =>
      on_all (settle_scope (r_estimate r) (total usage)) (r_scopes r)
        (set_reservations (delete reservation (reservations g)) g)
  end.

Definition charge (usage : Usage) (ks : list string) (now : Z) (g : Governor) : Governor :=
  on_all (fun s => settle_scope 0 (total usage) (roll_scope now s)) ks g.

Definition release (reservation : Z) (g : Governor) : Governor :=
  match reservations g !! reservation with
  | None => g
  | Some r =>
      on_all (release_scope (r_estimate r)) (r_scopes r)
        (set_reservations (delete reservation (reservations g)) g)
  end.

Definition governor_to_value (g : Governor) : Value :=
  jobj [("instance", scope_to_value (instance g));
        ("scopes", VObj (prod_map id scope_to_value <$> entries (scopes g)))].

Definition adopt_scopes (o : list (string * Value)) (m : gmap string Scope) : gmap string Scope :=
  fold_left (fun m p => alter (adopt p.2) p.1 m) o m.

Definition governor_restore (v : Value) (now : Z) (g : Governor) : Governor :=
  let i := match get "instance" v with Some i => adopt i (instance g) | None => instance g end in
  let m := match get "scopes" v ≫= as_object with
           | Some o => adopt_scopes o (scopes g)
           | None => scopes g
           end in
  set_scopes (roll_scope now i) m g.

Definition governor_status (now : Z) (g : Governor) : Value :=
  jobj [("active", VBool (is_active g)); ("instance", scope_status now (instance g));
        ("scopes", VObj (prod_map id (scope_status now) <$> entries (scopes g)));
        ("reservations", ju64 (Z.of_nat (length (map_to_list (reservations g)))));
        ("waiting", VObj (prod_map id ju64 <$> entries (waiting g)));
        ("events", ju64 (events g))].

Definition gov_lifetime_used (g : Governor) : Z := lifetime_used (instance g).
Definition lifetime_remaining (g : Governor) : option Z :=
  if (0 <? lifetime_cap (instance g))%Z
  then Some (u64_sat_sub (lifetime_cap (instance g)) (lifetime_used (instance g))) else None.
Definition gov_next_reset_ms (now : Z) (g : Governor) : option Z :=
  foldr (fun x acc => Some (match acc with Some y => Z.min x y | None => x end)) None
    ((fun w => next_reset_ms w now) <$> windows (instance g)).
