(* ===== verification/GovernorProps.v ===== *)
(** * What the token governor promises

    Window alignment, admission within the caps, the accounting of
    reservations over every sequence of operations, the lifetime ceiling, the
    durable counters, and where the reservation accounting and the ceiling do
    not hold. *)

From S2P Require Export Governor.

(** ** Windows *)

Lemma duration_pos u : (0 < duration_ms u)%Z.
Proof. by destruct u. Qed.

Lemma unit_label_inj u v : unit_label u = unit_label v -> u = v.
Proof. by destruct u, v. Qed.

(** The offset [parse_reset] gives: a time of day. *)
Lemma parse_reset_range s n : parse_reset s = Some n -> (0 <= n < 86400000)%Z.
Proof.
  unfold parse_reset. intros E.
  apply bind_Some in E as ([l r] & _ & E). apply bind_Some in E as (h & Hh & E).
  apply bind_Some in E as (m & Hm & E).
  assert (forall l x, parse_u64 l = Some x -> (0 <= x)%Z) as Hpos.
  { intros l' x. unfold parse_u64, parse_uint. destruct (match l' with [] => [] | _ => _ end) eqn:El; [done|].
    destruct (forallb is_digit (a :: l0)) eqn:Ed; [|done]. cbn [andb].
    destruct (_ <=? _)%Z; [|done]. intros [= <-]. apply eval_bound. apply Forall_forall.
    intros y Hy. rewrite forallb_forall in Ed. apply Ed. by apply list_elem_of_In. }
  apply Hpos in Hh, Hm. destruct (Z.ltb_spec h 24), (Z.ltb_spec m 60); cbn in E; simplify_eq. lia.
Qed.

Lemma window_from_offset b : (0 <= reset_offset_ms (window_from b) < 86400000)%Z.
Proof.
  unfold window_from. cbn. destruct (reset b) as [s|]; cbn; [|lia].
  destruct (parse_reset s) eqn:E; cbn; [by eapply parse_reset_range|lia].
Qed.

(** The origin a window's buckets are counted from. *)
Definition origin (w : Window) : Z :=
  match per (cfg w) with
  | Day | Week => reset_offset_ms w + week_epoch_shift (per (cfg w))
  | _ => 0
  end.

(** A clock past the window's origin and short of the end of 64 bits. *)
Definition clock_fits (w : Window) (now : Z) : Prop :=
  (0 <= reset_offset_ms w < 86400000)%Z /\ (origin w <= now)%Z /\ (now + len_ms w <= u64_max)%Z.

Lemma index_at_spec w now :
  clock_fits w now -> index_at w now = ((now - origin w) / len_ms w)%Z.
Proof.
  unfold clock_fits, index_at, origin, week_epoch_shift.
  intros (Ho & Hn & Hm). destruct (per (cfg w)); rewrite ?Z.sub_0_r; try done;
    unfold u64_sat_sub; rewrite u64_add_small by (unfold_u; lia); f_equal; lia.
Qed.

Lemma start_ms_spec w now :
  clock_fits w now ->
  start_ms w now = (origin w + (now - origin w) / len_ms w * len_ms w)%Z.
Proof.
  intros Hc. pose proof (index_at_spec w now Hc) as Hi. unfold start_ms. rewrite Hi.
  destruct Hc as (Ho & Hn & Hm). pose proof (duration_pos (per (cfg w))) as Hd.
  assert (0 <= origin w)%Z as Hor.
  { unfold origin, week_epoch_shift. destruct (per (cfg w)); lia. }
  assert (0 <= (now - origin w) / len_ms w * len_ms w <= now - origin w)%Z as Hq.
  { pose proof (Z.div_pos (now - origin w) (len_ms w) ltac:(lia) Hd).
    pose proof (Z.mul_div_le (now - origin w) (len_ms w) Hd). unfold len_ms in *. nia. }
  assert (now <= u64_max)%Z by (unfold len_ms in *; lia).
  unfold u64_mul. set (q := ((now - origin w) / len_ms w * len_ms w)%Z) in *. clearbody q.
  unfold origin, week_epoch_shift in *.
  destruct (per (cfg w)); rewrite u64_wrap_small by (unfold_u; lia); try lia;
    (rewrite (u64_add_small q) by (unfold_u; lia));
    (rewrite u64_add_small by (unfold_u; lia)); lia.
Qed.

Lemma window_bounds w now :
  clock_fits w now ->
  (origin w <= start_ms w now <= now)%Z /\ (now < start_ms w now + len_ms w)%Z /\
  next_reset_ms w now = (start_ms w now + len_ms w)%Z.
Proof.
  intros Hc. pose proof (start_ms_spec w now Hc) as Hs. destruct Hc as (Ho & Hn & Hm).
  pose proof (duration_pos (per (cfg w))) as Hd. fold (len_ms w) in Hd.
  pose proof (Z.div_mod (now - origin w) (len_ms w) ltac:(lia)) as Hdm.
  pose proof (Z.mod_pos_bound (now - origin w) (len_ms w) Hd) as Hmod.
  pose proof (Z.div_pos (now - origin w) (len_ms w) ltac:(lia) Hd) as Hp.
  assert (0 <= origin w)%Z by (unfold origin, week_epoch_shift; destruct (per (cfg w)); lia).
  assert (0 <= (now - origin w) / len_ms w * len_ms w)%Z by nia.
  split_and!; try (rewrite Hs; lia).
  unfold next_reset_ms. apply u64_add_small. unfold_u. rewrite Hs. lia.
Qed.

(** A window is a fixed bucket aligned to its unit: [now] lies in
    [start, start + length), the counters clear exactly at its end, every
    instant of the bucket has the same index, and a day or week bucket begins at
    the reset time of day, a week's on a Monday. *)
Theorem window_aligned w now t :
  clock_fits w now -> (start_ms w now <= t < next_reset_ms w now)%Z ->
  (start_ms w now <= now < next_reset_ms w now)%Z /\
  next_reset_ms w now = (start_ms w now + len_ms w)%Z /\
  index_at w t = index_at w now /\
  index_at w (next_reset_ms w now) = (index_at w now + 1)%Z /\
  (per (cfg w) = Day \/ per (cfg w) = Week ->
     (start_ms w now mod 86400000)%Z = reset_offset_ms w) /\
  (per (cfg w) = Week -> ((start_ms w now / 86400000 + 4) mod 7)%Z = 1%Z).
Proof.
  intros Hc Ht. destruct (window_bounds w now Hc) as (Hb & Hn & Hr). rewrite Hr in *.
  pose proof (start_ms_spec w now Hc) as Hs. pose proof (duration_pos (per (cfg w))) as Hd.
  fold (len_ms w) in Hd. pose proof Hc as (Ho & Hle & Hm).
  assert (forall x, (start_ms w now <= x <= start_ms w now + len_ms w)%Z ->
    index_at w x = ((x - origin w) / len_ms w)%Z) as Hix.
  { intros x Hx. unfold index_at, origin, week_epoch_shift in *.
    destruct (per (cfg w)); rewrite ?Z.sub_0_r; try done;
      unfold u64_sat_sub; (rewrite u64_add_small; [f_equal; lia|unfold_u; lia]). }
  split; [lia|]. split; [done|]. split; [|split; [|split]].
  - rewrite (index_at_spec w now Hc), Hix by lia. symmetry.
    apply Z.div_unique with (t - start_ms w now)%Z; [lia|]. lia.
  - rewrite (index_at_spec w now Hc), Hix by lia. symmetry.
    apply Z.div_unique with 0%Z; lia.
  - intros Hcal. rewrite Hs. unfold origin, week_epoch_shift, len_ms in *. symmetry.
    destruct Hcal as [-> | ->]; cbn [duration_ms] in *.
    + apply Z.mod_unique with ((now - (reset_offset_ms w + 0)) / 86400000)%Z; lia.
    + apply Z.mod_unique with
        (4 + (now - (reset_offset_ms w + 4 * 86400000)) / 604800000 * 7)%Z; lia.
  - intros Hw. rewrite Hs. unfold origin, week_epoch_shift, len_ms in *. rewrite Hw in *.
    cbn [duration_ms] in *.
    set (q := ((now - (reset_offset_ms w + 4 * 86400000)) / 604800000)%Z) in *.
    assert ((reset_offset_ms w + 4 * 86400000 + q * 604800000) / 86400000 = 4 + q * 7)%Z as ->.
    { symmetry. apply Z.div_unique with (reset_offset_ms w); lia. }
    symmetry. apply Z.mod_unique with (1 + q)%Z; lia.
Qed.

(** ** Admission *)

(** Counters in the range of 64 bits. *)
Definition window_ok (w : Window) : Prop :=
  (0 <= w_tokens (w_state w))%Z /\ (0 <= w_reserved (w_state w))%Z /\
  (w_tokens (w_state w) + w_reserved (w_state w) <= u64_max)%Z /\
  (0 <= w_requests (w_state w) < u64_max)%Z /\
  (forall cap, cap_tokens (cfg w) = Some cap -> is_u64 cap).
Definition scope_ok (s : Scope) : Prop := Forall window_ok (windows s).

(** The window is the one open at [now], and within its caps. *)
Definition window_within (now : Z) (w : Window) : Prop :=
  w_index (w_state w) = index_at w now /\
  (forall cap, cap_tokens (cfg w) = Some cap ->
     (w_tokens (w_state w) + w_reserved (w_state w) <= cap)%Z) /\
  (forall cap, cap_requests (cfg w) = Some cap -> (w_requests (w_state w) <= cap)%Z).
Definition within (now : Z) (s : Scope) : Prop := Forall (window_within now) (windows s).

Lemma roll_window_ok now w : window_ok w -> window_ok (roll_window now w).
Proof.
  unfold window_ok, roll_window. intros H. destruct (_ =? _)%Z; [done|]. cbn. unfold_u. naive_solver lia.
Qed.

Lemma roll_window_index now w :
  w_index (w_state (roll_window now w)) = index_at (roll_window now w) now.
Proof.
  unfold roll_window. destruct (Z.eqb_spec (index_at w now) (w_index (w_state w))); [done|].
  by destruct w.
Qed.

Lemma first_exhausted_None s estimate now ws :
  first_exhausted s estimate now ws = None ->
  Forall (fun w => check_window s estimate now w = None) ws.
Proof.
  induction ws as [|w ws IH]; cbn; intros E; [constructor|].
  destruct (check_window _ _ _ w) eqn:Ew; [done|]. constructor; auto.
Qed.

(** A window that passes the check takes the estimate and stays within. *)
Lemma check_reserve s estimate now w :
  window_ok w -> (0 < estimate)%Z -> w_index (w_state w) = index_at w now ->
  check_window s estimate now w = None ->
  window_within now (reserve_window estimate w).
Proof.
  intros (Ht & Hr & Hsum & Hq & Hcap) He Hi. unfold check_window, tokens_left, requests_left.
  intros Hc. unfold window_within, reserve_window. cbn. split; [done|]. split.
  - intros cap Ecap. specialize (Hcap cap Ecap). rewrite Ecap in Hc. cbn in Hc.
    rewrite u64_add_small in Hc by (unfold_u; lia). unfold u64_sat_sub in Hc.
    destruct (Z.ltb_spec (Z.max (cap - (w_tokens (w_state w) + w_reserved (w_state w))) 0) estimate);
      [done|].
    rewrite u64_add_small by (unfold_u; lia). lia.
  - intros cap Ecap. rewrite Ecap in Hc. cbn in Hc.
    destruct (match _ <$> cap_tokens _ with Some _ => _ | None => _ end); [done|].
    unfold u64_sat_sub in Hc. rewrite u64_add_small by (unfold_u; lia).
    destruct (Z.eqb_spec (Z.max (cap - w_requests (w_state w)) 0) 0); [done|]. lia.
Qed.

Lemma scope_within estimate now s :
  scope_ok s -> (0 < estimate)%Z -> check (roll_scope now s) estimate now = None ->
  within now (reserve estimate (roll_scope now s)).
Proof.
  unfold check, scope_ok, within, reserve. intros Hok He Hc.
  destruct (_ && _); [done|]. apply first_exhausted_None in Hc. cbn in *.
  rewrite !Forall_fmap in *. eapply Forall_impl; [apply Forall_and; split; [apply Hok|apply Hc]|].
  intros w [Hw Hcw]. cbn in *. eapply check_reserve; [by apply roll_window_ok|done| |done].
  apply roll_window_index.
Qed.

(** *** Changes to the scopes *)

Lemma on_scopes_notin f ks m k : k ∉ ks -> on_scopes f ks m !! k = m !! k.
Proof.
  unfold on_scopes. revert m. induction ks as [|j ks IH]; intros m Hk; [done|]. cbn.
  rewrite IH by set_solver. apply lookup_alter_ne. set_solver.
Qed.

Lemma on_scopes_lookup f ks m k :
  on_scopes f ks m !! k = Nat.iter (count_occ String.eq_dec ks k) f <$> m !! k.
Proof.
  unfold on_scopes. revert m. induction ks as [|j ks IH]; intros m; cbn.
  - by destruct (m !! k).
  - rewrite IH. destruct (String.eq_dec j k) as [->|Hne].
    + rewrite lookup_alter_eq. destruct (m !! k) as [s|]; [|done]. cbn. f_equal.
      by rewrite <- Nat.iter_succ_r.
    + by rewrite lookup_alter_ne.
Qed.

Lemma on_scopes_once f ks m k : NoDup ks -> k ∈ ks -> on_scopes f ks m !! k = f <$> m !! k.
Proof.
  intros Hn Hk. rewrite on_scopes_lookup.
  assert (count_occ String.eq_dec ks k = 1) as ->; [|done].
  apply NoDup_ListNoDup in Hn. apply list_elem_of_In in Hk.
  by apply (NoDup_count_occ' String.eq_dec).
Qed.

Lemma first_refusal_None estimate now ks g :
  first_refusal estimate now ks g = None ->
  check (instance g) estimate now = None /\
  forall k s, k ∈ ks -> scopes g !! k = Some s -> check s estimate now = None.
Proof.
  induction ks as [|k ks IH]; cbn.
  - destruct (check _ _ _); [done|]. intros _. split; [done|]. set_solver.
  - destruct (scopes g !! k) as [s|] eqn:Es.
    + destruct (check s estimate now) eqn:Ec; [done|]. intros [Hi Hs]%IH. split; [done|].
      intros k' s' [->|Hk]%elem_of_cons Hs'; [congruence|by eapply Hs].
    + intros [Hi Hs]%IH. split; [done|].
      intros k' s' [->|Hk]%elem_of_cons Hs'; [congruence|by eapply Hs].
Qed.

(** An admission on the asked model came from no refusal. *)
Lemma admit_ok_inv estimate ks now g g' id :
  gov_admit estimate ks now g = (g', AdmOk id None) ->
  let g1 := on_all (roll_scope now) ks g in
  first_refusal estimate now ks g1 = None /\ reserve_all estimate ks g1 = (g', id).
Proof.
  unfold gov_admit. cbv zeta. destruct (first_refusal _ _ _ _) as [v|]; intros E.
  - case_bool_decide; [done|]. destruct (v_tactic v); try done.
    destruct (v_model v); [|done]. by destruct (reserve_all _ _ _).
  - destruct (reserve_all _ _ _) as [g2 id2]. by simplify_eq.
Qed.

(** The scope's counters, with the estimate counted, are short of the end of 64
    bits. *)
Definition scope_fits (estimate : Z) (s : Scope) : Prop :=
  scope_ok s /\ (0 <= lifetime_used s)%Z /\ (lifetime_used s + estimate <= u64_max)%Z.

(** The scope keeps its budget after an admission of [estimate]. *)
Definition keeps_budget (estimate now : Z) (s : Scope) : Prop :=
  within now s /\ ((0 < lifetime_cap s)%Z -> (lifetime_used s + estimate <= lifetime_cap s)%Z).

Lemma scope_keeps_budget estimate now s :
  scope_fits estimate s -> (0 < estimate)%Z -> check (roll_scope now s) estimate now = None ->
  keeps_budget estimate now (reserve estimate (roll_scope now s)).
Proof.
  intros (Hok & Hu & Hl) He Hc. split; [by apply scope_within|]. intros Hcap. cbn in *.
  unfold check in Hc. cbn in Hc.
  destruct (Z.ltb_spec 0 (lifetime_cap s)); [|lia]. cbn [andb] in Hc.
  rewrite u64_add_small in Hc by (unfold_u; lia).
  by destruct (Z.ltb_spec (lifetime_cap s) (lifetime_used s + estimate)).
Qed.

(** C3: an admission on the asked model keeps every budget. For a positive
    estimate, sub-scopes named once each, and counters that with the estimate are
    short of the end of 64 bits: in the instance and in every sub-scope named,
    each window is the one open now and holds tokens used plus reserved and
    requests within its caps, and the scope's lifetime ceiling holds with the
    estimate counted; no scope not named changed; and the estimate, with the
    scopes it was reserved in, is the one record added, under the reservation. *)
Theorem admit_within_caps estimate ks now g g' id :
  NoDup ks -> (0 < estimate)%Z ->
  scope_fits estimate (instance g) ->
  (forall k s, k ∈ ks -> scopes g !! k = Some s -> scope_fits estimate s) ->
  gov_admit estimate ks now g = (g', AdmOk id None) ->
  keeps_budget estimate now (instance g') /\
  (forall k s, k ∈ ks -> scopes g' !! k = Some s -> keeps_budget estimate now s) /\
  (forall k, k ∉ ks -> scopes g' !! k = scopes g !! k) /\
  id = next_reservation g /\
  reservations g' = <[id := mkReservation estimate ks]> (reservations g).
Proof.
  intros Hn He Hi Hs E. apply admit_ok_inv in E as [Hc E].
  apply first_refusal_None in Hc as [Hci Hcs]. unfold reserve_all in E. injection E as <- <-. cbn in *.
  split_and!.
  - by apply scope_keeps_budget.
  - intros k s Hk. rewrite on_scopes_once by done.
    specialize (Hcs k). rewrite on_scopes_once in * by done.
    specialize (Hs k). destruct (scopes g !! k) as [s0|]; [|done]. cbn in *.
    intros [= <-]. apply scope_keeps_budget; eauto.
  - intros k Hk. by rewrite !on_scopes_notin.
  - done.
  - done.
Qed.

(** ** The accounting of reservations *)

Definition times (k : string) (ks : list string) : Z := Z.of_nat (count_occ String.eq_dec ks k).

(** What the outstanding reservations hold in the instance, in a sub-scope. *)
Definition outstanding (f : Reservation -> Z) (m : gmap Z Reservation) : Z :=
  list_sum ((fun p => f p.2) <$> map_to_list m).
Definition on_instance (r : Reservation) : Z := r_estimate r.
Definition on_scope (k : string) (r : Reservation) : Z := (r_estimate r * times k (r_scopes r))%Z.

Lemma outstanding_insert f m i r :
  m !! i = None -> outstanding f (<[i := r]> m) = (f r + outstanding f m)%Z.
Proof.
  intros Hi. unfold outstanding.
  rewrite (list_sum_perm _ ((fun p => f p.2) <$> ((i, r) :: map_to_list m))); [done|].
  by rewrite map_to_list_insert.
Qed.

Lemma outstanding_delete f m i r :
  m !! i = Some r -> outstanding f m = (f r + outstanding f (delete i m))%Z.
Proof.
  intros Hi. rewrite <- (insert_delete_id m i r Hi) at 1.
  apply outstanding_insert. apply lookup_delete_eq.
Qed.

(** Every window of the scope holds at most [n] tokens in reserve. *)
Definition bounded (n : Z) (s : Scope) : Prop :=
  Forall (fun w => 0 <= w_reserved (w_state w) <= n)%Z (windows s).

Lemma u64_wrap_le x : (0 <= x)%Z -> (0 <= u64_wrap x <= x)%Z.
Proof. intros H. unfold u64_wrap. split; [apply Z.mod_pos_bound; lia|apply Z.mod_le; lia]. Qed.

Lemma bounded_map (n m : Z) (h : Window -> Window) s :
  (forall w, 0 <= w_reserved (w_state w) <= n -> 0 <= w_reserved (w_state (h w)) <= m)%Z ->
  bounded n s -> bounded m (set_windows (h <$> windows s) s).
Proof.
  intros Hh Hb. unfold bounded in *. cbn. rewrite Forall_fmap.
  eapply Forall_impl; [apply Hb|]. intros w. apply Hh.
Qed.

Lemma bounded_roll n now s : (0 <= n)%Z -> bounded n s -> bounded n (roll_scope now s).
Proof. intros Hn. apply bounded_map. intros w H. unfold roll_window. destruct (_ =? _)%Z; cbn; lia. Qed.

Lemma bounded_reserve n e s : (0 <= e)%Z -> bounded n s -> bounded (n + e) (reserve e s).
Proof.
  intros He. apply bounded_map. intros w H. cbn. unfold u64_add.
  pose proof (u64_wrap_le (w_reserved (w_state w) + e)). lia.
Qed.

Lemma bounded_settle n e u s :
  (0 <= e <= n)%Z -> bounded n s -> bounded (n - e) (settle_scope e u s).
Proof. intros He. apply (bounded_map n). intros w H. cbn. unfold u64_sat_sub. lia. Qed.

Lemma bounded_release n e s : (0 <= e <= n)%Z -> bounded n s -> bounded (n - e) (release_scope e s).
Proof. intros He. apply bounded_map. intros w H. cbn. unfold u64_sat_sub. lia. Qed.

Lemma bounded_adopt n v s : (0 <= n)%Z -> bounded n s -> bounded n (adopt v s).
Proof.
  intros Hn Hb. unfold adopt. destruct (get "windows" v ≫= as_array) as [ws|]; [|done].
  apply (bounded_map n); [|done]. intros w H. unfold adopt_window. destruct (saved_for w ws); cbn; lia.
Qed.

Lemma bounded_new b : bounded 0 (from_budget b).
Proof. unfold bounded. cbn. rewrite Forall_fmap. apply Forall_true. intros w. cbn. lia. Qed.

Lemma bounded_weaken n m s : (n <= m)%Z -> bounded n s -> bounded m s.
Proof. intros Hle Hb. eapply Forall_impl; [apply Hb|]. intros w. cbn. lia. Qed.

(** A change that takes the bound up or down by [d], made [c] times. *)
Lemma bounded_iter (c : nat) (d n : Z) (f : Scope -> Scope) s :
  (forall m s, (n <= m \/ m <= n)%Z -> (Z.min n (n + Z.of_nat c * d) <= m)%Z ->
     (Z.min n (n + Z.of_nat c * d) <= m + d)%Z -> bounded m s -> bounded (m + d) (f s)) ->
  bounded n s -> bounded (n + Z.of_nat c * d) (Nat.iter c f s).
Proof.
  intros Hf Hb.
  assert (forall j, j <= c -> bounded (n + Z.of_nat j * d) (Nat.iter j f s)) as Hj; [|by apply Hj].
  induction j as [|j IH]; intros Hle; [by rewrite Z.add_0_r|]. cbn [Nat.iter].
  replace (n + Z.of_nat (S j) * d)%Z with (n + Z.of_nat j * d + d)%Z by lia.
  apply Hf; [lia|nia|nia|]. apply IH. lia.
Qed.

(** Reservations are recorded under numbers already given out, and no window
    holds more in reserve than the reservations outstanding put there. *)
Record accounted (g : Governor) : Prop := {
  acc_ids : forall i r, reservations g !! i = Some r ->
    (0 <= r_estimate r)%Z /\ (i < next_reservation g)%Z;
  acc_instance : bounded (outstanding on_instance (reservations g)) (instance g);
  acc_scopes : forall k s, scopes g !! k = Some s ->
    bounded (outstanding (on_scope k) (reservations g)) s;
}.

Inductive gov_step (g : Governor) : Governor -> Prop :=
  | step_admit estimate ks now :
      (0 <= estimate)%Z -> (0 <= next_reservation g < u64_max)%Z ->
      gov_step g (gov_admit estimate ks now g).1
  | step_settle i u : gov_step g (settle i u g)
  | step_release i : gov_step g (release i g)
  | step_charge u ks now : gov_step g (charge u ks now g)
  | step_ensure k b : gov_step g (ensure_scope k b g)
  | step_drop k : gov_step g (drop_scope k g)
  | step_restore v now : gov_step g (governor_restore v now g).

Lemma outstanding_nonneg (f : Reservation -> Z) m :
  (forall i r, m !! i = Some r -> (0 <= f r)%Z) -> (0 <= outstanding f m)%Z.
Proof.
  intros H. apply list_sum_nonneg. rewrite Forall_fmap. apply Forall_forall.
  intros [i r] Hin. by apply (H i), elem_of_map_to_list.
Qed.

Lemma acc_nonneg g k :
  accounted g ->
  (0 <= outstanding on_instance (reservations g))%Z /\
  (0 <= outstanding (on_scope k) (reservations g))%Z.
Proof.
  intros [Hid _ _]. split; apply outstanding_nonneg; intros i r Hr; apply Hid in Hr as [He _].
  - done.
  - unfold on_scope, times. nia.
Qed.

(** A change that bounds no window higher keeps the accounts. *)
Lemma accounted_on_all (f : Scope -> Scope) ks g :
  (forall n s, (0 <= n)%Z -> bounded n s -> bounded n (f s)) ->
  accounted g -> accounted (on_all f ks g).
Proof.
  intros Hf Ha. pose proof (acc_nonneg g) as Hnn. split; cbn.
  - apply Ha.
  - apply Hf; [by apply (Hnn nil_str)|apply Ha].
  - intros k s. rewrite on_scopes_lookup. intros (s0 & Hs0 & ->)%fmap_Some.
    pose proof (acc_scopes g Ha k s0 Hs0) as Hb. destruct (Hnn k Ha) as [_ Hk].
    induction (count_occ String.eq_dec ks k) as [|c IH]; cbn; [done|]. by apply Hf.
Qed.

Lemma accounted_reserve estimate ks g :
  (0 <= estimate)%Z -> (0 <= next_reservation g < u64_max)%Z -> accounted g ->
  accounted (reserve_all estimate ks g).1.
Proof.
  intros He Hnx Ha.
  assert (reservations g !! next_reservation g = None) as Hfresh.
  { destruct (reservations g !! _) eqn:E; [|done]. apply (acc_ids g Ha) in E. lia. }
  unfold reserve_all. cbn. split; cbn.
  - intros i r. rewrite (u64_add_small (next_reservation g)) by (unfold_u; lia).
    rewrite lookup_insert_Some. intros [[<- <-]|[_ Hr]]; [cbn; lia|].
    apply (acc_ids g Ha) in Hr. lia.
  - rewrite outstanding_insert by done. rewrite Z.add_comm.
    by apply bounded_reserve, Ha.
  - intros k s. rewrite on_scopes_lookup. intros (s0 & Hs0 & ->)%fmap_Some.
    rewrite outstanding_insert by done. unfold on_scope at 1, times. cbn [r_estimate r_scopes].
    rewrite Z.add_comm, (Z.mul_comm estimate). apply bounded_iter; [|by apply Ha].
    intros m s' _ _ _. by apply bounded_reserve.
Qed.

(** Taking a reservation off the books with a change that takes its estimate
    out of every window. *)
Lemma accounted_close (f : Z -> Scope -> Scope) i r g :
  (forall n e s, (0 <= e <= n)%Z -> bounded n s -> bounded (n - e) (f e s)) ->
  reservations g !! i = Some r -> accounted g ->
  accounted (on_all (f (r_estimate r)) (r_scopes r)
    (set_reservations (delete i (reservations g)) g)).
Proof.
  intros Hf Hr Ha. pose proof (acc_ids g Ha i r Hr) as [He _].
  assert (forall h, (forall r, (0 <= r_estimate r)%Z -> (0 <= h r)%Z) ->
    (0 <= outstanding h (delete i (reservations g)))%Z) as Hnn.
  { intros h Hh. apply outstanding_nonneg. intros j x. rewrite lookup_delete_Some.
    intros [_ Hx]. apply Hh. by eapply acc_ids. }
  split; cbn.
  - intros j x. rewrite lookup_delete_Some. intros [_ Hx]. by apply (acc_ids g Ha).
  - pose proof (acc_instance g Ha) as Hb. rewrite (outstanding_delete _ _ i r Hr) in Hb.
    unfold on_instance at 1 in Hb.
    specialize (Hnn on_instance (fun _ H => H)).
    apply (Hf _ (r_estimate r)) in Hb; [|lia].
    eapply bounded_weaken; [|apply Hb]. lia.
  - intros k s. rewrite on_scopes_lookup. intros (s0 & Hs0 & ->)%fmap_Some.
    pose proof (acc_scopes g Ha k s0 Hs0) as Hb. rewrite (outstanding_delete _ _ i r Hr) in Hb.
    assert (0 <= outstanding (on_scope k) (delete i (reservations g)))%Z as Hk.
    { apply Hnn. intros x Hx. unfold on_scope, times. nia. }
    unfold on_scope at 1, times in Hb.
    set (c := count_occ String.eq_dec (r_scopes r) k) in *.
    set (o := outstanding (on_scope k) (delete i (reservations g))) in *.
    replace o with (r_estimate r * Z.of_nat c + o + Z.of_nat c * - r_estimate r)%Z by lia.
    apply bounded_iter; [|done]. intros m s' _ H1 H2 Hm.
    apply Hf; [nia|done].
Qed.

Lemma accounted_count_event g : accounted g -> accounted (count_event g).
Proof. intros [? ? ?]. by split. Qed.

Lemma accounted_set_scopes i m g :
  accounted g -> bounded (outstanding on_instance (reservations g)) i ->
  (forall k s, m !! k = Some s -> bounded (outstanding (on_scope k) (reservations g)) s) ->
  accounted (set_scopes i m g).
Proof. intros [? _ _] Hi Hm. by split. Qed.

Lemma adopt_scopes_bounded g o m :
  accounted g ->
  (forall k s, m !! k = Some s -> bounded (outstanding (on_scope k) (reservations g)) s) ->
  forall k s, adopt_scopes o m !! k = Some s -> bounded (outstanding (on_scope k) (reservations g)) s.
Proof.
  intros Ha. revert m. induction o as [|[j v] o IH]; intros m Hm; [done|]. cbn. apply IH.
  intros k s. destruct (decide (k = j)) as [->|Hne].
  - rewrite lookup_alter_eq. intros (s0 & Hs0 & ->)%fmap_Some.
    apply bounded_adopt; [by apply acc_nonneg|by apply Hm].
  - rewrite lookup_alter_ne by done. apply Hm.
Qed.

Lemma gov_step_accounted g g' : gov_step g g' -> accounted g -> accounted g'.
Proof.
  intros Hstep Ha. destruct Hstep as [e ks now He Hn|i u|i|u ks now|k b|k|v now].
  - unfold gov_admit.
    assert (accounted (on_all (roll_scope now) ks g)) as Hr.
    { apply accounted_on_all; [|done]. intros n s. by apply bounded_roll. }
    destruct (first_refusal _ _ _ _) as [v|].
    + apply accounted_count_event in Hr.
      destruct (bool_decide _); [done|]. destruct (v_tactic v); try done.
      destruct (v_model v); [|done].
      pose proof (accounted_reserve e ks
        (count_event (on_all (roll_scope now) ks g)) He Hn Hr) as Hres.
      by destruct (reserve_all e ks _).
    + pose proof (accounted_reserve e ks (on_all (roll_scope now) ks g) He Hn Hr) as Hres. by destruct (reserve_all e ks _).
  - unfold settle. destruct (reservations g !! i) as [r|] eqn:Hr; [|done].
    apply (accounted_close (fun e => settle_scope e (total u))); [|done|done].
    intros n e s. apply bounded_settle.
  - unfold release. destruct (reservations g !! i) as [r|] eqn:Hr; [|done].
    apply (accounted_close release_scope); [|done|done]. apply bounded_release.
  - apply accounted_on_all; [|done]. intros n s Hn Hb.
    pose proof (bounded_settle n 0 (total u) (roll_scope now s)) as H. rewrite Z.sub_0_r in H.
    apply H; [lia|by apply bounded_roll].
  - unfold ensure_scope. destruct (scopes g !! k) eqn:Ek; [done|].
    apply accounted_set_scopes; [done|apply Ha|]. intros j s.
    rewrite lookup_insert_Some. intros [[<- <-]|[_ Hs]]; [|by apply Ha].
    eapply bounded_weaken; [by apply acc_nonneg|apply bounded_new].
  - apply accounted_set_scopes; [done|apply Ha|]. intros j s.
    rewrite lookup_delete_Some. intros [_ Hs]. by apply Ha.
  - unfold governor_restore. apply accounted_set_scopes; [done| |].
    + apply bounded_roll; [by apply (acc_nonneg g nil_str)|].
      destruct (get "instance" v); [|apply Ha].
      apply bounded_adopt; [by apply (acc_nonneg g nil_str)|apply Ha].
    + destruct (get "scopes" v ≫= as_object) as [o|]; [|apply Ha].
      apply adopt_scopes_bounded; [done|apply Ha].
Qed.

Lemma accounted_new b : accounted (governor_new b).
Proof.
  split; cbn.
  - intros i r. by rewrite lookup_empty.
  - apply bounded_new.
  - intros k s. by rewrite lookup_empty.
Qed.

(** C4: reservations do not leak: after any sequence of admissions,
    settlements, releases, charges, scope changes and restores, no window of the
    instance or of a sub-scope holds more tokens in reserve than the reservations
    still outstanding, and with none outstanding it holds none. *)
Theorem reservations_do_not_leak b g :
  rtc gov_step (governor_new b) g ->
  (forall w, w ∈ windows (instance g) ->
     (0 <= w_reserved (w_state w) <= outstanding on_instance (reservations g))%Z) /\
  (forall k s w, scopes g !! k = Some s -> w ∈ windows s ->
     (0 <= w_reserved (w_state w) <= outstanding (on_scope k) (reservations g))%Z) /\
  (reservations g = ∅ ->
     (forall w, w ∈ windows (instance g) -> w_reserved (w_state w) = 0%Z) /\
     (forall k s w, scopes g !! k = Some s -> w ∈ windows s -> w_reserved (w_state w) = 0%Z)).
Proof.
  intros Hr.
  assert (accounted g) as Ha.
  { revert g Hr. apply rtc_ind_r; [apply accounted_new|].
    intros y z _ Hyz. by apply gov_step_accounted. }
  assert (forall f : Reservation -> Z, reservations g = ∅ -> outstanding f (reservations g) = 0%Z) as He.
  { intros f ->. by unfold outstanding; rewrite map_to_list_empty. }
  assert (forall w, w ∈ windows (instance g) ->
    (0 <= w_reserved (w_state w) <= outstanding on_instance (reservations g))%Z) as Hi.
  { intros w Hw. pose proof (acc_instance g Ha) as Hb. unfold bounded in Hb.
    rewrite Forall_forall in Hb. by apply Hb. }
  assert (forall k s w, scopes g !! k = Some s -> w ∈ windows s ->
    (0 <= w_reserved (w_state w) <= outstanding (on_scope k) (reservations g))%Z) as Hs.
  { intros k s w Hk Hw. pose proof (acc_scopes g Ha k s Hk) as Hb. unfold bounded in Hb.
    rewrite Forall_forall in Hb. by apply Hb. }
  split_and!; [done|done|]. intros Hempty. split.
  - intros w Hw. specialize (Hi w Hw). rewrite He in Hi by done. lia.
  - intros k s w Hk Hw. specialize (Hs k s w Hk Hw). rewrite He in Hs by done. lia.
Qed.

(** ** The lifetime ceiling *)

Lemma first_refusal_some estimate now ks g :
  is_Some (check (instance g) estimate now) -> is_Some (first_refusal estimate now ks g).
Proof.
  intros [ex Hex]. induction ks as [|k ks IH]; cbn; [rewrite Hex; eauto|].
  destruct (scopes g !! k) as [s|]; [|done]. destruct (check s estimate now); eauto.
Qed.

(** Where a refusal comes from: a sub-scope named, or the instance. *)
Lemma first_refusal_Some estimate now ks g v :
  first_refusal estimate now ks g = Some v ->
  (exists k s, k ∈ ks /\ scopes g !! k = Some s /\ check s estimate now = Some (v_ex v) /\
     v = mkVerdict (v_ex v) k (tactic s) (degrade_model s)) \/
  (check (instance g) estimate now = Some (v_ex v) /\
     v = mkVerdict (v_ex v) "instance" (tactic (instance g)) (degrade_model (instance g))).
Proof.
  induction ks as [|k ks IH]; cbn.
  - intros (ex & Hex & ->)%fmap_Some. by right.
  - destruct (scopes g !! k) as [s|] eqn:Es.
    + destruct (check s estimate now) as [ex|] eqn:Ec.
      * intros [= <-]. left. exists k, s. split_and!; try done. by left.
      * intros [(j & s' & ? & ?)|?]%IH; [left|by right]. exists j, s'. split; [by right|done].
    + intros [(j & s' & ? & ?)|?]%IH; [left|by right]. exists j, s'. split; [by right|done].
Qed.

(** The lifetime ceiling is hard: once the instance has spent so much
    that the estimate would pass it, no admission whose sub-scopes do not degrade
    is granted, nothing is reserved, and one under the instance alone answers
    that the lifetime is exhausted, whatever the instance's own tactic. *)
Theorem lifetime_ceiling estimate ks now g g' v :
  (0 < lifetime_cap (instance g))%Z ->
  (lifetime_cap (instance g) < u64_add (lifetime_used (instance g)) estimate)%Z ->
  (forall k s, k ∈ ks -> scopes g !! k = Some s -> tactic s <> TDegrade) ->
  gov_admit estimate ks now g = (g', v) ->
  (forall id m, v <> AdmOk id m) /\ reservations g' = reservations g /\
  (ks = [] -> v = AdmExhausted "lifetime token budget exhausted (instance)").
Proof.
  intros Hcap Hused Hk. unfold gov_admit. set (g1 := on_all (roll_scope now) ks g).
  assert (check (instance g1) estimate now = Some (mkExhausted "lifetime" None false)) as Hc.
  { unfold check. cbn. destruct (Z.ltb_spec 0 (lifetime_cap (instance g))); [|lia].
    destruct (Z.ltb_spec (lifetime_cap (instance g)) (u64_add (lifetime_used (instance g)) estimate));
      [done|lia]. }
  destruct (first_refusal_some estimate now ks g1) as [ver Hver]; [by rewrite Hc|].
  rewrite Hver. apply first_refusal_Some in Hver as [(k & s & Hin & Hs & Hex & ->)|[Hex ->]].
  - change (scopes g1) with (on_scopes (roll_scope now) ks (scopes g)) in Hs.
    cbn. rewrite on_scopes_lookup in Hs. apply fmap_Some in Hs as (s0 & Hs0 & ->).
    assert (tactic (Nat.iter (count_occ String.eq_dec ks k) (roll_scope now) s0) <> TDegrade) as Ht.
    { specialize (Hk k s0 Hin Hs0).
      clear Hex. induction (count_occ String.eq_dec ks k) as [|c IH]; [done|exact IH]. }
    intros E. assert (ks <> []) as Hne by (by intros ->; apply not_elem_of_nil in Hin).
    case_bool_decide; [by simplify_eq|].
    destruct (tactic _); simplify_eq; (split_and!; [done|done|by intros ->]).
  - rewrite Hc in Hex. injection Hex as Hex. rewrite <- Hex. cbn. intros [= <- <-]. done.
Qed.

(** ** The durable counters *)

Definition config_of (w : Window) : BudgetWindow * Z := (cfg w, reset_offset_ms w).
(** The scope runs under this budget. *)
Definition configured (b : Budget) (s : Scope) : Prop :=
  config_of <$> windows s = config_of <$> windows (from_budget b).

(** A window's counters as the next life takes them up. *)
Definition restarted (now : Z) (w : Window) : Window :=
  roll_window now (set_w_state
    (mkWindowState (w_index (w_state w)) (w_tokens (w_state w)) (w_requests (w_state w)) 0) w).

Lemma saved_for_find w0 ws w :
  NoDup ((fun w => per (cfg w)) <$> ws) -> w ∈ ws -> per (cfg w0) = per (cfg w) ->
  saved_for w0 (window_to_value <$> ws) = Some (window_to_value w).
Proof.
  intros Hn Hin Hper. unfold saved_for. induction ws as [|x ws IH]; [by apply not_elem_of_nil in Hin|].
  cbn. apply NoDup_cons in Hn as [Hx Hn].
  assert (as_str (idx "per" (window_to_value x)) = Some (unit_label (per (cfg x)))) as ->.
  { unfold window_to_value, idx. by obj_simpl. }
  apply elem_of_cons in Hin as [->|Hin].
  - rewrite Hper. by rewrite bool_decide_true.
  - rewrite bool_decide_false; [by apply IH|]. intros [= E%unit_label_inj].
    apply Hx. apply list_elem_of_fmap. exists w. split; [congruence|done].
Qed.

Lemma adopt_window_restored ws w0 w :
  NoDup ((fun w => per (cfg w)) <$> ws) -> w ∈ ws -> config_of w0 = config_of w ->
  adopt_window (window_to_value <$> ws) w0 = set_w_state
    (mkWindowState (w_index (w_state w)) (w_tokens (w_state w)) (w_requests (w_state w)) 0) w.
Proof.
  intros Hn Hin Hc. unfold config_of in Hc. injection Hc as Hcfg Hoff.
  unfold adopt_window. rewrite (saved_for_find w0 ws w) by (by rewrite ?Hcfg).
  unfold window_to_value, idx, set_w_state. obj_simpl. cbn. by rewrite Hcfg, Hoff.
Qed.

Lemma fmap_by_key {A B C} (key : A -> B) (h f : A -> C) (ws ws0 : list A) :
  key <$> ws = key <$> ws0 ->
  (forall w w0, w ∈ ws -> key w0 = key w -> h w0 = f w) -> h <$> ws0 = f <$> ws.
Proof.
  revert ws0. induction ws as [|w ws IH]; intros [|w0 ws0] Hk Hf; try done; cbn in *.
  injection Hk as Hk Hks. f_equal; [by apply Hf; [left|]|]. apply IH; [done|].
  intros x x0 Hx. apply Hf. by right.
Qed.

(** A restart never reopens a spent budget: the instance governor
    restored from its durable counters under the same budget has the lifetime
    usage and, in each window still open, the tokens and requests it had, with
    nothing in reserve. *)
Theorem restart_keeps_counters b g now :
  NoDup (per <$> b_windows b) -> configured b (instance g) ->
  let i := instance (governor_restore (governor_to_value g) now (governor_new b)) in
  windows i = restarted now <$> windows (instance g) /\
  lifetime_used i = lifetime_used (instance g) /\
  forall w, w ∈ windows (instance g) -> index_at w now = w_index (w_state w) ->
    w_tokens (w_state (restarted now w)) = w_tokens (w_state w) /\
    w_requests (w_state (restarted now w)) = w_requests (w_state w).
Proof.
  intros Hn Hc. unfold governor_restore, governor_to_value. obj_simpl. cbn zeta.
  unfold adopt, scope_to_value. obj_simpl. cbn [mbind option_bind as_array].
  split_and!.
  - cbn [instance set_scopes roll_scope windows set_windows set_used governor_new].
    assert (adopt_window (window_to_value <$> windows (instance g)) <$> windows (from_budget b) =
      (fun w => set_w_state (mkWindowState (w_index (w_state w)) (w_tokens (w_state w))
        (w_requests (w_state w)) 0) w) <$> windows (instance g)) as ->.
    { apply (fmap_by_key config_of); [done|]. intros w w0 Hin Hw. apply adopt_window_restored; try done.
      assert ((fun w => per (cfg w)) <$> windows (instance g) = per <$> b_windows b) as ->; [|done].
      apply (f_equal (fmap (fun p => per p.1))) in Hc. rewrite <- !list_fmap_compose in Hc.
      rewrite (Hc : (fun w => per (cfg w)) <$> _ = _). cbn. by rewrite <- list_fmap_compose. }
    by rewrite <- list_fmap_compose.
  - done.
  - intros w _ Hw. unfold restarted, roll_window. cbn.
    change (index_at (set_w_state _ w) now) with (index_at w now). rewrite Hw, Z.eqb_refl. done.
Qed.

(** a sub-scope's durable counters do not survive a restart: the
    governor adopts only the scopes it already has, and at start it has none, so
    the scope made when its owner next acts starts from zero, whatever the
    restored record says of it. *)
Theorem sub_scope_counters_forgotten v now b k bk :
  scopes (ensure_scope k bk (governor_restore v now (governor_new b))) !! k = Some (from_budget bk).
Proof.
  unfold ensure_scope, governor_restore. cbn.
  assert (forall o, adopt_scopes o ∅ = ∅) as He.
  { intros o. unfold adopt_scopes. induction o as [|p o IH]; [done|]. cbn. by rewrite alter_empty. }
  assert (match get "scopes" v ≫= as_object with Some o => adopt_scopes o ∅ | None => ∅ end = ∅
    :> gmap string Scope) as ->.
  { destruct (get "scopes" v ≫= as_object); [apply He|done]. }
  rewrite lookup_empty. cbn. by rewrite lookup_insert_eq.
Qed.

(** ** A governor to evaluate *)

Definition hourly : Budget :=
  mkBudget [mkBudgetWindow Hour (Some 100%Z) None None] (Some 1000%Z) TWait None None.
Definition weekly : Window := window_from (mkBudgetWindow Week (Some 100%Z) None (Some "06:30Z")).
Definition hour (n : Z) : Z := (n * 3600000)%Z.

Definition g_first : Governor := (gov_admit 100 [] (hour 1) (governor_new hourly)).1.
Definition g_second : Governor := (gov_admit 50 [] (hour 2) g_first).1.
Definition g_settled : Governor := settle 1 (mkUsage 10 0) g_second.
Definition g_third : Governor := (gov_admit 90 [] (hour 2) g_settled).1.

Lemma g_first_step : gov_step (governor_new hourly) g_first.
Proof. unfold g_first. apply step_admit; [done|split; by vm_compute]. Qed.

(** A settlement that comes after its window rolled takes its estimate out of
    the newer reservations: with a cap of 100, the hour ends with 10 used and 140
    more admitted. *)
Lemma late_settlement_overadmits :
  rtc gov_step (governor_new hourly) g_third /\
  (gov_admit 90 [] (hour 2) g_settled).2 = AdmOk 3 None /\
  exists w, windows (instance g_third) = [w] /\ cap_tokens (cfg w) = Some 100%Z /\
    (100 < w_tokens (w_state w) + outstanding on_instance (reservations g_third))%Z.
Proof.
  split_and!.
  - apply (rtc_l _ _ g_first); [apply g_first_step|].
    apply (rtc_l _ _ g_second); [unfold g_second; apply step_admit; [done|split; by vm_compute]|].
    apply (rtc_l _ _ g_settled); [apply step_settle|].
    apply rtc_once. unfold g_third. apply step_admit; [done|split; by vm_compute].
  - by vm_compute.
  - eexists. split_and!; vm_compute; reflexivity.
Qed.

(** A conversation budget that degrades. *)
Definition degrading : Budget :=
  mkBudget [mkBudgetWindow Hour (Some 10%Z) None None] None TDegrade None (Some "fast").
Definition g_spent : Governor :=
  ensure_scope "conversation:c" degrading (charge (mkUsage 1000 0) [] (hour 1) (governor_new hourly)).

(** A sub-scope whose tactic is [degrade] lets work past the instance's spent
    lifetime ceiling: the first refusal decides, and the instance is not asked. *)
Lemma degrade_passes_lifetime :
  (gov_admit 50 [] (hour 1) g_spent).2 =
    AdmExhausted "lifetime token budget exhausted (instance)" /\
  (gov_admit 50 ["conversation:c"] (hour 1) g_spent).2 = AdmOk 1 (Some "fast").
Proof. by vm_compute. Qed.

Lemma window_aligned_witness :
  let now := 1704067200000%Z in
  (start_ms weekly now <= now < next_reset_ms weekly now)%Z /\
  next_reset_ms weekly now = (start_ms weekly now + len_ms weekly)%Z /\
  index_at weekly (now + 1000) = index_at weekly now /\
  index_at weekly (next_reset_ms weekly now) = (index_at weekly now + 1)%Z /\
  (per (cfg weekly) = Day \/ per (cfg weekly) = Week ->
     (start_ms weekly now mod 86400000)%Z = reset_offset_ms weekly) /\
  (per (cfg weekly) = Week -> ((start_ms weekly now / 86400000 + 4) mod 7)%Z = 1%Z).
Proof.
  apply (window_aligned weekly 1704067200000 (1704067200000 + 1000)).
  - vm_compute. split_and!; congruence.
  - vm_compute. split; congruence.
Defined.

(** A governor with a conversation's budget under the instance's, its lifetime
    ceiling almost spent. *)
Definition talk : Budget :=
  mkBudget [mkBudgetWindow Minute (Some 60%Z) (Some 2%Z) None] (Some 90%Z) TWait None None.
Definition g_talk : Governor :=
  charge (mkUsage 40 0) ["conversation:c"] (hour 1) (ensure_scope "conversation:c" talk (governor_new hourly)).
Definition g_asked : Governor := (gov_admit 20 ["conversation:c"] (hour 1) g_talk).1.

Lemma one_window_ok u cap reqs i t r s :
  windows s = [mkWindow (mkBudgetWindow u (Some cap) reqs None) 0 (mkWindowState i t r 0)] ->
  is_u64 cap -> (0 <= t <= u64_max)%Z -> (0 <= r < u64_max)%Z -> scope_ok s.
Proof.
  unfold scope_ok. intros -> Hc Ht Hr. constructor; [|constructor]. unfold window_ok. cbn.
  split_and!; try lia. by intros c [= <-].
Qed.

Lemma admit_within_caps_witness :
  keeps_budget 20 (hour 1) (instance g_asked) /\
  (forall k s, k ∈ ["conversation:c"] -> scopes g_asked !! k = Some s -> keeps_budget 20 (hour 1) s) /\
  (forall k, k ∉ ["conversation:c"] -> scopes g_asked !! k = scopes g_talk !! k) /\
  1%Z = next_reservation g_talk /\
  reservations g_asked = <[1%Z := mkReservation 20 ["conversation:c"]]> (reservations g_talk).
Proof.
  apply (admit_within_caps 20 ["conversation:c"] (hour 1) g_talk g_asked 1).
  - apply NoDup_singleton.
  - lia.
  - split; [|vm_compute; split; congruence]. apply (one_window_ok Hour 100 None 1 40 0); unfold_u; lia || done.
  - intros k s -> %list_elem_of_singleton [= <-]. split; [|vm_compute; split; congruence].
    apply (one_window_ok Minute 60 (Some 2%Z) 60 40 0); unfold_u; lia || done.
  - by vm_compute.
Defined.

Lemma reservations_do_not_leak_witness :
  (forall w, w ∈ windows (instance g_first) ->
     (0 <= w_reserved (w_state w) <= outstanding on_instance (reservations g_first))%Z) /\
  (forall k s w, scopes g_first !! k = Some s -> w ∈ windows s ->
     (0 <= w_reserved (w_state w) <= outstanding (on_scope k) (reservations g_first))%Z) /\
  (reservations g_first = ∅ ->
     (forall w, w ∈ windows (instance g_first) -> w_reserved (w_state w) = 0%Z) /\
     (forall k s w, scopes g_first !! k = Some s -> w ∈ windows s -> w_reserved (w_state w) = 0%Z)).
Proof.
  apply (reservations_do_not_leak hourly g_first).
  apply rtc_once, g_first_step.
Defined.

Lemma lifetime_ceiling_witness :
  (forall id m, (gov_admit 50 [] (hour 1) g_spent).2 <> AdmOk id m) /\
  reservations (gov_admit 50 [] (hour 1) g_spent).1 = reservations g_spent /\
  (@nil string = [] -> (gov_admit 50 [] (hour 1) g_spent).2 =
     AdmExhausted "lifetime token budget exhausted (instance)").
Proof.
  apply (lifetime_ceiling 50 [] (hour 1) g_spent).
  - vm_compute; reflexivity.
  - vm_compute; reflexivity.
  - intros k s Hk. by apply not_elem_of_nil in Hk.
  - apply surjective_pairing.
Defined.

Lemma restart_keeps_counters_witness :
  let i := instance (governor_restore (governor_to_value g_settled) (hour 2) (governor_new hourly)) in
  windows i = restarted (hour 2) <$> windows (instance g_settled) /\
  lifetime_used i = lifetime_used (instance g_settled) /\
  forall w, w ∈ windows (instance g_settled) -> index_at w (hour 2) = w_index (w_state w) ->
    w_tokens (w_state (restarted (hour 2) w)) = w_tokens (w_state w) /\
    w_requests (w_state (restarted (hour 2) w)) = w_requests (w_state w).
Proof.
  apply (restart_keeps_counters hourly g_settled (hour 2)).
  - apply NoDup_singleton.
  - by vm_compute.
Defined.
