(* ===== verification/Calendar.v ===== *)
(** * The UTC calendar

    [crates/agentd/src/obs/log.rs] ([civil_from_days], [rfc3339_ms]) and
    [crates/agentd/src/spending.rs] ([days_from_civil], the calendar periods of
    an allowance, [rfc3339]).  Signed arithmetic is [Z]: days stay far from the
    ends of 64 bits.  Rust's division truncates, as [Z.quot] does. *)

From S2P Require Export Text.

#[local] Open Scope Z_scope.

(** Days since 1970-01-01 to (year, month, day). *)
Definition civil_from_days (z : Z) : Z * Z * Z :=
  let z := z + 719468 in
  let era := Z.quot (if 0 <=? z then z else z - 146096) 146097 in
  let doe := z - era * 146097 in
  let yoe := Z.quot (doe - Z.quot doe 1460 + Z.quot doe 36524 - Z.quot doe 146096) 365 in
  let y := yoe + era * 400 in
  let doy := doe - (365 * yoe + Z.quot yoe 4 - Z.quot yoe 100) in
  let mp := Z.quot (5 * doy + 2) 153 in
  let d := doy - Z.quot (153 * mp + 2) 5 + 1 in
  let m := if mp <? 10 then mp + 3 else mp - 9 in
  (if m <=? 2 then y + 1 else y, m, d).

Definition days_from_civil (y m d : Z) : Z :=
  let y := if m <=? 2 then y - 1 else y in
  let era := Z.quot (if 0 <=? y then y else y - 399) 400 in
  let yoe := y - era * 400 in
  let mp := if 2 <? m then m - 3 else m + 9 in
  let doy := Z.quot (153 * mp + 2) 5 + d - 1 in
  let doe := yoe * 365 + Z.quot yoe 4 - Z.quot yoe 100 + doy in
  era * 146097 + doe - 719468.

(** ** Correctness *)

(** The day a year of the March-based calendar starts on, in its era. *)
Definition year_start (y : Z) : Z := 365 * y + y / 4 - y / 100 + y / 400.
(** The leap-corrected day count [civil_from_days] divides. *)
Definition corrected (doe : Z) : Z := doe - doe / 1460 + doe / 36524 - doe / 146096.

Lemma floor_quot x n : 0 < n -> Z.quot (if 0 <=? x then x else x - (n - 1)) n = x / n.
Proof.
  intros Hn. destruct (Z.leb_spec 0 x).
  - apply Z.quot_div_nonneg; lia.
  - rewrite <- (Z.opp_involutive (x - (n - 1))), Z.quot_opp_l by lia.
    rewrite Z.quot_div_nonneg by lia.
    apply Z.div_unique with (x - n * (- (- (x - (n - 1)) / n))); [|lia].
    left. pose proof (Z.div_mod (- (x - (n - 1))) n ltac:(lia)).
    pose proof (Z.mod_pos_bound (- (x - (n - 1))) n ltac:(lia)). lia.
Qed.

Lemma corrected_step x : 0 <= x -> corrected x <= corrected (x + 1).
Proof.
  intros Hx. unfold corrected.
  assert ((x + 1) / 1460 <= x / 1460 + 1) by (Z.to_euclidean_division_equations; lia).
  assert (x / 36524 <= (x + 1) / 36524) by (apply Z.div_le_mono; lia).
  destruct (Z.eq_dec ((x + 1) / 146096) (x / 146096)); [lia|].
  assert ((x + 1) / 146096 = x / 146096 + 1 /\ (x + 1) / 36524 = x / 36524 + 1) as [-> ->];
    [|lia].
  Z.to_euclidean_division_equations. lia.
Qed.

Lemma corrected_mono x y : 0 <= x <= y -> corrected x <= corrected y.
Proof.
  intros [Hx Hy]. rewrite <- (Z2Nat.id y), <- (Z2Nat.id x) by lia.
  assert (Z.to_nat x <= Z.to_nat y)%nat as Hle by lia.
  induction Hle as [|n Hle IH]; [done|]. etrans; [apply IH|].
  rewrite Nat2Z.inj_succ, <- Z.add_1_r. apply corrected_step. lia.
Qed.

(** The year boundaries of an era, each of the 400 checked. *)
Lemma year_boundaries y :
  0 <= y < 400 ->
  365 * y <= corrected (year_start y) /\ (1 <= y -> corrected (year_start y - 1) < 365 * y).
Proof.
  assert (forallb (fun n => let y := Z.of_nat n in
    (365 * y <=? corrected (year_start y)) &&
    ((y <? 1) || (corrected (year_start y - 1) <? 365 * y))) (seq 0 400) = true) as Hall
    by (vm_compute; reflexivity).
  intros Hy. rewrite forallb_forall in Hall. specialize (Hall (Z.to_nat y)).
  rewrite Z2Nat.id in Hall by lia. cbv zeta in Hall.
  assert (In (Z.to_nat y) (seq 0 400)) as Hin by (apply in_seq; lia).
  specialize (Hall Hin). lia.
Qed.

Lemma year_start_nonneg y : 0 <= y -> 0 <= year_start y.
Proof. intros. unfold year_start. Z.to_euclidean_division_equations. lia. Qed.

Lemma year_start_step y : 365 <= year_start (y + 1) - year_start y <= 366.
Proof. unfold year_start. Z.to_euclidean_division_equations. lia. Qed.

Lemma year_of_era doe :
  0 <= doe < 146097 ->
  let yoe := corrected doe / 365 in
  0 <= yoe < 400 /\ year_start yoe <= doe < year_start (yoe + 1).
Proof.
  intros Hd yoe.
  assert (0 <= corrected doe < 146000) as Hc.
  { split.
    - change 0 with (corrected 0) at 1. apply corrected_mono. lia.
    - assert (corrected doe <= corrected 146096) by (apply corrected_mono; lia).
      change (corrected 146096) with 145999 in *. lia. }
  assert (0 <= yoe < 400) as Hy by (split;
    [apply Z.div_pos; lia|apply Z.div_lt_upper_bound; lia]).
  assert (365 * yoe <= corrected doe < 365 * (yoe + 1)) as Hb.
  { subst yoe. pose proof (Z.div_mod (corrected doe) 365 ltac:(lia)).
    pose proof (Z.mod_pos_bound (corrected doe) 365 ltac:(lia)). lia. }
  clearbody yoe. split; [done|]. destruct (year_boundaries yoe Hy) as [_ Hlow]. split.
  - destruct (Z.le_gt_cases (year_start yoe) doe) as [|Hlt]; [done|exfalso].
    assert (1 <= yoe).
    { destruct (Z.eq_dec yoe 0) as [E|]; [|lia]. rewrite E in Hlt. change (year_start 0) with 0 in Hlt. lia. }
    specialize (Hlow ltac:(lia)).
    assert (corrected doe <= corrected (year_start yoe - 1)) by (apply corrected_mono; lia). lia.
  - destruct (Z.eq_dec yoe 399) as [->|Hne]; [change (year_start (399 + 1)) with 146097; lia|].
    destruct (Z.le_gt_cases (year_start (yoe + 1)) doe) as [Hle|]; [exfalso|lia].
    destruct (year_boundaries (yoe + 1) ltac:(lia)) as [Hup _].
    assert (corrected (year_start (yoe + 1)) <= corrected doe)
      by (apply corrected_mono; split; [apply year_start_nonneg; lia|done]). lia.
Qed.

(** [days_from_civil] without the eras: the March-based year's start, the
    month's first day in it, the day. *)
Definition month_start (mp : Z) : Z := (153 * mp + 2) / 5.
Lemma days_from_civil_flat y m d :
  1 <= m <= 12 ->
  let y' := if m <=? 2 then y - 1 else y in
  let mp := if 2 <? m then m - 3 else m + 9 in
  days_from_civil y m d = year_start y' + month_start mp + d - 1 - 719468.
Proof.
  intros Hm y' mp. unfold days_from_civil. fold y' mp.
  change (y' - 399) with (y' - (400 - 1)). rewrite floor_quot by lia.
  assert (0 <= mp) as Hmp by (unfold mp; destruct (Z.ltb_spec 2 m); lia).
  pose proof (Z.mod_pos_bound y' 400 ltac:(lia)) as Hb.
  pose proof (Z.div_mod y' 400 ltac:(lia)) as Hdm.
  assert (y' - y' / 400 * 400 = y' mod 400) as -> by lia.
  rewrite !Z.quot_div_nonneg by lia. unfold month_start, year_start.
  clearbody y' mp. remember (y' mod 400) as r. remember (y' / 400) as e.
  assert (y' / 4 = 100 * e + r / 4) as -> by (Z.to_euclidean_division_equations; lia).
  assert (y' / 100 = 4 * e + r / 100) as -> by (Z.to_euclidean_division_equations; lia).
  lia.
Qed.

(** [civil_from_days] by its parts: the year and month hold the day. *)
Lemma civil_from_days_spec z :
  let '(y, m, d) := civil_from_days z in
  let y' := if m <=? 2 then y - 1 else y in
  let mp := if 2 <? m then m - 3 else m + 9 in
  let doy := z + 719468 - year_start y' in
  1 <= m <= 12 /\ 1 <= d <= 31 /\
  year_start y' <= z + 719468 < year_start (y' + 1) /\
  month_start mp <= doy < month_start (mp + 1) /\ d = doy - month_start mp + 1.
Proof.
  unfold civil_from_days. set (w := z + 719468).
  change (w - 146096) with (w - (146097 - 1)). rewrite floor_quot by lia.
  pose proof (Z.mod_pos_bound w 146097 ltac:(lia)) as Hb.
  pose proof (Z.div_mod w 146097 ltac:(lia)) as Hdm.
  set (era := w / 146097) in *. set (doe := w - era * 146097) in *.
  assert (0 <= doe < 146097) as Hdoe by lia.
  destruct (year_of_era doe Hdoe) as [Hyoe Hys].
  assert (0 <= doe - doe / 1460 + doe / 36524 - doe / 146096) as Hcor.
  { pose proof (corrected_mono 0 doe ltac:(lia)) as H. unfold corrected at 2 in H.
    change (corrected 0) with 0 in H. lia. }
  rewrite (Z.quot_div_nonneg doe 1460), (Z.quot_div_nonneg doe 36524),
    (Z.quot_div_nonneg doe 146096), (Z.quot_div_nonneg _ 365) by lia.
  change (doe - doe / 1460 + doe / 36524 - doe / 146096) with (corrected doe).
  set (yoe := corrected doe / 365) in *. clearbody yoe.
  rewrite (Z.quot_div_nonneg yoe 4), (Z.quot_div_nonneg yoe 100) by lia.
  assert (year_start yoe = 365 * yoe + yoe / 4 - yoe / 100) as Hyf.
  { unfold year_start. rewrite (Z.div_small yoe 400) by lia. lia. }
  rewrite <- Hyf. set (doy := doe - year_start yoe) in *.
  pose proof (year_start_step yoe) as Hstep. assert (0 <= doy <= 365) as Hdoy by lia.
  rewrite (Z.quot_div_nonneg (5 * doy + 2) 153) by lia.
  set (mp := (5 * doy + 2) / 153) in *.
  assert (0 <= mp <= 11) as Hmp by (unfold mp; Z.to_euclidean_division_equations; lia).
  rewrite (Z.quot_div_nonneg _ 5) by lia. fold (month_start mp).
  assert (month_start mp <= doy < month_start (mp + 1) /\ doy - month_start mp <= 30) as [Hms Hlen].
  { unfold month_start, mp. Z.to_euclidean_division_equations. lia. }
  assert (forall k, year_start (k + era * 400) = year_start k + era * 146097) as Hera.
  { intros k. unfold year_start. Z.to_euclidean_division_equations. lia. }
  destruct (Z.ltb_spec mp 10).
  - replace (mp + 3 <=? 2) with false by lia. replace (2 <? mp + 3) with true by lia.
    replace (mp + 3 - 3) with mp by lia. cbv zeta.
    replace (yoe + era * 400 + 1) with (yoe + 1 + era * 400) by lia. rewrite !Hera. lia.
  - replace (mp - 9 <=? 2) with true by lia. replace (2 <? mp - 9) with false by lia.
    replace (mp - 9 + 9) with mp by lia. cbv zeta.
    replace (yoe + era * 400 + 1 - 1) with (yoe + era * 400) by lia.
    replace (yoe + era * 400 + 1) with (yoe + 1 + era * 400) by lia. rewrite !Hera. lia.
Qed.

(** C5: the civil date of a day is a date (a month of 1 to 12, a day of 1 to
    31) and names that day and no other: [days_from_civil] takes it back. *)
Theorem civil_round_trip z :
  let '(y, m, d) := civil_from_days z in
  1 <= m <= 12 /\ 1 <= d <= 31 /\ days_from_civil y m d = z.
Proof.
  pose proof (civil_from_days_spec z) as Hc. destruct (civil_from_days z) as [[y m] d].
  destruct Hc as (Hm & Hd & _ & _ & Heq). split_and!; try lia.
  rewrite days_from_civil_flat by done. cbv zeta. lia.
Qed.

(** ** The calendar, counted day by day

    A reference for [civil_from_days]: 1970-01-01 is day 0, and each day is
    followed by the next one of the Gregorian calendar. *)

Definition leap (y : Z) : bool := ((y mod 4 =? 0) && negb (y mod 100 =? 0)) || (y mod 400 =? 0).
Definition month_days (y m : Z) : Z :=
  if m =? 2 then if leap y then 29 else 28
  else if (m =? 4) || (m =? 6) || (m =? 9) || (m =? 11) then 30 else 31.
Definition tomorrow (date : Z * Z * Z) : Z * Z * Z :=
  let '(y, m, d) := date in
  if d <? month_days y m then (y, m, d + 1) else if m <? 12 then (y, m + 1, 1) else (y + 1, 1, 1).
Definition date_at (n : nat) : Z * Z * Z := Nat.iter n tomorrow (1970, 1, 1).

(** The March-based year of a date, and its month. *)
Definition march_year (y m : Z) : Z := if m <=? 2 then y - 1 else y.
Definition march_month (m : Z) : Z := if 2 <? m then m - 3 else m + 9.

(** The date's year and month hold the day [z]. *)
Definition dates (z : Z) (date : Z * Z * Z) : Prop :=
  let '(y, m, d) := date in
  let doy := z + 719468 - year_start (march_year y m) in
  1 <= m <= 12 /\
  year_start (march_year y m) <= z + 719468 < year_start (march_year y m + 1) /\
  month_start (march_month m) <= doy < month_start (march_month m + 1) /\
  d = doy - month_start (march_month m) + 1.

Lemma civil_dates z : dates z (civil_from_days z).
Proof.
  pose proof (civil_from_days_spec z) as Hc. unfold dates, march_year, march_month.
  destruct (civil_from_days z) as [[y m] d]. cbv zeta in *. destruct Hc as (? & ? & ? & ? & ->). split_and!; lia || done.
Qed.

Lemma year_start_mono x y : x <= y -> year_start x <= year_start y.
Proof.
  intros Hle. replace y with (x + Z.of_nat (Z.to_nat (y - x))) by lia.
  induction (Z.to_nat (y - x)) as [|n IH]; [by rewrite Z.add_0_r|].
  pose proof (year_start_step (x + Z.of_nat n)).
  replace (x + Z.of_nat (S n)) with (x + Z.of_nat n + 1) by lia. lia.
Qed.

(** A day has one date. *)
Lemma dates_unique z a b : dates z a -> dates z b -> a = b.
Proof.
  destruct a as [[y m] d], b as [[y' m'] d']. cbn. intros (Hm & Hy & Ho & Hd) (Hm' & Hy' & Ho' & Hd').
  assert (march_year y m = march_year y' m') as Ey.
  { destruct (Z.lt_trichotomy (march_year y m) (march_year y' m')) as [Hl|[|Hl]]; [exfalso|done|exfalso];
      [pose proof (year_start_mono (march_year y m + 1) (march_year y' m') ltac:(lia))
      |pose proof (year_start_mono (march_year y' m' + 1) (march_year y m) ltac:(lia))]; lia. }
  rewrite Ey in *. set (doy := z + 719468 - year_start (march_year y' m')) in *. clearbody doy.
  assert (march_month m = march_month m') as Em
    by (unfold month_start in *; Z.to_euclidean_division_equations; lia).
  rewrite Em in *. unfold march_year, march_month in *. repeat f_equal;
    destruct (Z.leb_spec m 2), (Z.leb_spec m' 2), (Z.ltb_spec 2 m), (Z.ltb_spec 2 m'); lia.
Qed.

Lemma year_length y : year_start (y + 1) - year_start y = if leap (y + 1) then 366 else 365.
Proof.
  unfold year_start, leap.
  destruct (Z.eqb_spec ((y + 1) mod 4) 0), (Z.eqb_spec ((y + 1) mod 100) 0), (Z.eqb_spec ((y + 1) mod 400) 0);
    cbn [andb orb negb]; Z.to_euclidean_division_equations; lia.
Qed.

(** The months of a date before and after [march_month], case by case. *)
Lemma month_cases m : 1 <= m <= 12 -> m ∈ [1; 2; 3; 4; 5; 6; 7; 8; 9; 10; 11; 12].
Proof. intros Hm. rewrite !elem_of_cons. lia. Qed.

(** Decide the comparisons of constants. *)
Ltac decide_const t := let v := eval vm_compute in t in
  lazymatch v with true => change t with true in * | false => change t with false in * end.
Ltac decide_consts := cbv beta iota zeta; repeat match goal with
  | |- context [Z.leb ?a ?b] => decide_const (Z.leb a b)
  | |- context [Z.ltb ?a ?b] => decide_const (Z.ltb a b)
  | |- context [Z.eqb ?a ?b] => decide_const (Z.eqb a b)
  | H : context [Z.leb ?a ?b] |- _ => decide_const (Z.leb a b)
  | H : context [Z.ltb ?a ?b] |- _ => decide_const (Z.ltb a b)
  end; cbn [orb] in *; cbv iota in *.

Lemma dates_tomorrow z date : dates z date -> dates (z + 1) (tomorrow date).
Proof.
  destruct date as [[y m] d]. cbn [dates]. intros (Hm%month_cases & Hy & Ho & Hd).
  pose proof (year_length (march_year y m)) as Hl. pose proof (year_start_step (march_year y m + 1)) as Hn.
  unfold tomorrow, month_days.
  repeat (apply elem_of_cons in Hm as [->|Hm]); [..|by apply elem_of_nil in Hm].
  all: unfold march_year, march_month in *; decide_consts; rewrite ?Z.sub_add in *.
  all: destruct (leap _); match goal with |- context [?x <? ?k] => destruct (Z.ltb_spec x k) end.
  all: unfold dates, march_year, march_month; decide_consts.
  all: rewrite ?Z.add_simpl_r, ?Z.sub_add in *; unfold month_start in *.
  all: Z.to_euclidean_division_equations; lia.
Qed.

(** [civil_from_days] counts the calendar. *)
Lemma civil_counts n : civil_from_days (Z.of_nat n) = date_at n.
Proof.
  apply (dates_unique (Z.of_nat n)); [apply civil_dates|].
  induction n as [|n IH]; [apply (civil_dates 0)|].
  rewrite Nat2Z.inj_succ, <- Z.add_1_r. change (date_at (S n)) with (tomorrow (date_at n)).
  by apply dates_tomorrow.
Qed.

(** ** Calendar periods *)

Inductive Per : Type := PDay | PWeek | PMonth | PQuarter | PYear | POnce.

#[export] Instance per_eq_dec : EqDecision Per.
Proof. solve_decision. Defined.

Definition per_parse (s : string) : option Per :=
  if decide (s = "day"%string) then Some PDay
  else if decide (s = "week"%string) then Some PWeek
  else if decide (s = "month"%string) then Some PMonth
  else if decide (s = "quarter"%string) then Some PQuarter
  else if decide (s = "year"%string) then Some PYear
  else if decide (s = "once"%string) then Some POnce
  else None.

Definition per_as_str (p : Per) : string :=
  match p with
  | PDay => "day" | PWeek => "week" | PMonth => "month" | PQuarter => "quarter"
  | PYear => "year" | POnce => "once"
  end.

Definition DAY_MS : Z := 86400000.

(** The start of the period [now] falls in. *)
Definition period_start (p : Per) (now : Z) : option Z :=
  let days := now / DAY_MS in
  let '(y, m, _) := civil_from_days days in
  let start := match p with
    | POnce => None
    | PDay => Some days
    | PWeek => Some (days - (days + 3) mod 7)
    | PMonth => Some (days_from_civil y m 1)
    | PQuarter => Some (days_from_civil y (Z.quot (m - 1) 3 * 3 + 1) 1)
    | PYear => Some (days_from_civil y 1 1)
    end in
  (fun s => Z.max s 0 * DAY_MS) <$> start.

(** The first day of a month past December, too. *)
Definition next_month (y m : Z) : Z :=
  if 12 <? m then days_from_civil (y + 1) (m - 12) 1 else days_from_civil y m 1.

(** The start of the period after the one that starts at [start]. *)
Definition period_end (p : Per) (start : Z) : option Z :=
  let days := start / DAY_MS in
  let '(y, m, _) := civil_from_days days in
  let fin := match p with
    | POnce => None
    | PDay => Some (days + 1)
    | PWeek => Some (days + 7)
    | PMonth => Some (next_month y (m + 1))
    | PQuarter => Some (next_month y (m + 3))
    | PYear => Some (days_from_civil (y + 1) 1 1)
    end in
  (fun e => e * DAY_MS) <$> fin.

(** Months counted on: January of year 0 is 0. *)
Definition month_index (y m : Z) : Z := 12 * y + (m - 1).
Definition first_of (i : Z) : Z := days_from_civil (i / 12) (i mod 12 + 1) 1.

Lemma first_of_index y m : 1 <= m <= 12 -> first_of (month_index y m) = days_from_civil y m 1.
Proof.
  intros Hm. unfold first_of, month_index.
  assert ((12 * y + (m - 1)) / 12 = y) as -> by (Z.to_euclidean_division_equations; lia).
  assert ((12 * y + (m - 1)) mod 12 = m - 1) as -> by (Z.to_euclidean_division_equations; lia).
  f_equal. lia.
Qed.

Lemma next_month_index y m : 1 <= m <= 24 -> next_month y m = first_of (month_index y m).
Proof.
  intros Hm. unfold next_month. destruct (Z.ltb_spec 12 m).
  - rewrite <- first_of_index by lia. f_equal. unfold month_index. lia.
  - symmetry. apply first_of_index. lia.
Qed.

(** The month that holds a day: it starts no later, the next one later. *)
Lemma month_holds z :
  let '(y, m, d) := civil_from_days z in
  1 <= m <= 12 /\ first_of (month_index y m) <= z < first_of (month_index y m + 1).
Proof.
  pose proof (civil_from_days_spec z) as Hc. destruct (civil_from_days z) as [[y m] d].
  cbv zeta in Hc. destruct Hc as (Hm & Hd & Hy & Hms & Heq). split; [done|].
  assert (month_index y m + 1 = month_index y (m + 1)) as -> by (unfold month_index; lia).
  rewrite <- (next_month_index y (m + 1)), (first_of_index y m) by lia.
  rewrite days_from_civil_flat by done. cbv zeta. split; [lia|].
  unfold next_month. destruct (Z.ltb_spec 12 (m + 1)) as [Hl|Hl].
  - replace (m + 1 - 12) with 1 by lia. rewrite days_from_civil_flat by lia. cbv zeta.
    replace (1 <=? 2) with true by lia. replace (2 <? 1) with false by lia.
    assert (m = 12) as -> by lia.
    change (12 <=? 2) with false in *. change (2 <? 12) with true in *.
    cbv beta iota in *.
    change (12 - 3 + 1) with (1 + 9) in *. replace (y + 1 - 1) with y by lia. lia.
  - rewrite days_from_civil_flat by lia. cbv zeta.
    destruct (Z.leb_spec m 2), (Z.leb_spec (m + 1) 2), (Z.ltb_spec 2 m), (Z.ltb_spec 2 (m + 1));
      try lia.
    + replace (m + 1 + 9) with (m + 9 + 1) by lia. lia.
    + assert (m = 2) as -> by lia. change (month_start (2 + 1 - 3)) with 0.
      replace (y - 1 + 1) with y in Hy by lia. lia.
    + replace (m + 1 - 3) with (m - 3 + 1) by lia. lia.
Qed.

Lemma first_of_step i : first_of i < first_of (i + 1).
Proof.
  assert (month_index (i / 12) (i mod 12 + 1) = i) as Hi
    by (unfold month_index; Z.to_euclidean_division_equations; lia).
  assert (0 <= i mod 12 < 12) as Hb by (apply Z.mod_pos_bound; lia).
  set (y := i / 12) in *. set (m := i mod 12 + 1) in *.
  assert (i + 1 = month_index y (m + 1)) as -> by (unfold month_index in *; lia).
  rewrite <- Hi at 1. rewrite <- (next_month_index y (m + 1)), (first_of_index y m) by lia.
  pose proof (year_start_step (y - 1)). pose proof (year_start_step y).
  replace (y - 1 + 1) with y in * by lia.
  assert (1 <= m <= 12) by lia. clearbody y m. unfold next_month. destruct (Z.ltb_spec 12 (m + 1)).
  - assert (m = 12) as -> by lia. rewrite !days_from_civil_flat by lia. cbv zeta.
    change (12 + 1 - 12) with 1. change (12 <=? 2) with false. change (2 <? 12) with true.
    change (1 <=? 2) with true. change (2 <? 1) with false. cbv iota.
    change (month_start (12 - 3)) with 275. change (month_start (1 + 9)) with 306.
    replace (y + 1 - 1) with y by lia. lia.
  - rewrite !days_from_civil_flat by lia. cbv zeta. unfold month_start.
    destruct (Z.leb_spec m 2), (Z.leb_spec (m + 1) 2), (Z.ltb_spec 2 m), (Z.ltb_spec 2 (m + 1));
      try lia; Z.to_euclidean_division_equations; lia.
Qed.

Lemma first_of_mono i j : i <= j -> first_of i <= first_of j.
Proof.
  intros Hle. replace j with (i + Z.of_nat (Z.to_nat (j - i))) by lia.
  induction (Z.to_nat (j - i)) as [|n IH]; [by rewrite Z.add_0_r|].
  pose proof (first_of_step (i + Z.of_nat n)). replace (i + Z.of_nat (S n)) with (i + Z.of_nat n + 1) by lia.
  lia.
Qed.

(** A day is in one month. *)
Lemma first_of_unique i j z :
  first_of i <= z < first_of (i + 1) -> first_of j <= z < first_of (j + 1) -> i = j.
Proof.
  intros Hi Hj. destruct (Z.lt_trichotomy i j) as [?|[?|?]]; [exfalso|done|exfalso].
  - pose proof (first_of_mono (i + 1) j ltac:(lia)). lia.
  - pose proof (first_of_mono (j + 1) i ltac:(lia)). lia.
Qed.

(** How many months a period of months has. *)
Definition per_months (p : Per) : option Z :=
  match p with PMonth => Some 1 | PQuarter => Some 3 | PYear => Some 12 | _ => None end.

(** The months a day's period spans: aligned to [k] months of its year. *)
Lemma month_period z k :
  k = 1 \/ k = 3 \/ k = 12 ->
  let '(y, m, _) := civil_from_days z in
  let i := month_index y m in
  1 <= m <= 12 /\ first_of (i / k * k) <= z < first_of (i / k * k + k).
Proof.
  intros Hk. pose proof (month_holds z) as Hm. destruct (civil_from_days z) as [[y m] d].
  destruct Hm as [Hm Hz]. cbv zeta. split; [done|].
  set (i := month_index y m) in *.
  assert (i / k * k <= i < i / k * k + k) as Hi by (Z.to_euclidean_division_equations; nia).
  pose proof (first_of_mono (i / k * k) i). pose proof (first_of_mono (i + 1) (i / k * k + k)). lia.
Qed.

Lemma period_start_months p k now :
  per_months p = Some k ->
  let '(y, m, _) := civil_from_days (now / DAY_MS) in
  period_start p now =
    Some (Z.max (first_of (month_index y m / k * k)) 0 * DAY_MS).
Proof.
  intros Hk. unfold period_start. pose proof (month_holds (now / DAY_MS)) as Hm.
  destruct (civil_from_days (now / DAY_MS)) as [[y m] d]. destruct Hm as [Hm _].
  destruct p; try done; cbn in Hk; injection Hk as <-; cbn [fmap option_fmap option_map]; do 3 f_equal.
  - by rewrite Z.div_1_r, Z.mul_1_r, first_of_index.
  - rewrite Z.quot_div_nonneg by lia. rewrite <- first_of_index.
    + f_equal. unfold month_index. Z.to_euclidean_division_equations. lia.
    + Z.to_euclidean_division_equations. lia.
  - rewrite <- first_of_index by lia. f_equal. unfold month_index. Z.to_euclidean_division_equations. lia.
Qed.

(** The end of a period of months that starts on a month's first day. *)
Lemma period_end_months p k i :
  per_months p = Some k -> i / k * k = i ->
  period_end p (first_of i * DAY_MS) = Some (first_of (i + k) * DAY_MS).
Proof.
  intros Hk Hi. unfold period_end.
  assert (first_of i * DAY_MS / DAY_MS = first_of i) as -> by (apply Z.div_mul; done).
  pose proof (month_holds (first_of i)) as Hm.
  destruct (civil_from_days (first_of i)) as [[y m] d]. destruct Hm as [Hm Hz].
  assert (month_index y m = i) as Him.
  { apply (first_of_unique _ _ (first_of i)); [done|]. pose proof (first_of_step i). lia. }
  destruct p; try done; cbn in Hk; injection Hk as <-; cbn [fmap option_fmap option_map]; do 2 f_equal.
  - rewrite next_month_index by lia. f_equal. unfold month_index in *. lia.
  - rewrite next_month_index by lia. f_equal. unfold month_index in *. lia.
  - rewrite <- first_of_index by lia. f_equal. unfold month_index in *.
    Z.to_euclidean_division_equations. lia.
Qed.

Lemma first_of_epoch : first_of 23640 = 0.
Proof. reflexivity. Qed.

Lemma aligned_from_epoch z k :
  k = 1 \/ k = 3 \/ k = 12 -> 0 <= z ->
  let '(y, m, _) := civil_from_days z in 0 <= first_of (month_index y m / k * k).
Proof.
  intros Hk Hz. pose proof (month_holds z) as Hm. destruct (civil_from_days z) as [[y m] d].
  destruct Hm as [_ Hm]. rewrite <- first_of_epoch. apply first_of_mono.
  assert (23640 <= month_index y m) as Hi.
  { destruct (Z.le_gt_cases 23640 (month_index y m)) as [|Hlt]; [done|exfalso].
    pose proof (first_of_mono (month_index y m + 1) 23640 ltac:(lia)). rewrite first_of_epoch in *. lia. }
  destruct Hk as [-> |[-> | ->]]; Z.to_euclidean_division_equations; lia.
Qed.

Lemma per_months_cases p k : per_months p = Some k -> k = 1 \/ k = 3 \/ k = 12.
Proof. destruct p; intros [= <-]; auto. Qed.

Lemma months_partition p k now :
  per_months p = Some k -> 0 <= now ->
  exists s e, period_start p now = Some s /\ period_end p s = Some e /\ s <= now < e /\
    forall t, s <= t < e -> period_start p t = Some s.
Proof.
  intros Hk Hnow. pose proof (per_months_cases p k Hk) as Hkk.
  assert (0 <= now / DAY_MS) as Hd by (apply Z.div_pos; done).
  pose proof (period_start_months p k now Hk) as Hs.
  pose proof (month_period (now / DAY_MS) k Hkk) as Hp.
  pose proof (aligned_from_epoch (now / DAY_MS) k Hkk Hd) as Ha.
  destruct (civil_from_days (now / DAY_MS)) as [[y m] d]. destruct Hp as [Hm Hp].
  set (i := month_index y m / k * k) in *.
  assert (i / k * k = i) as Hi by (unfold i; destruct Hkk as [-> |[-> | ->]]; rewrite Z.div_mul by lia; lia).
  rewrite Z.max_l in Hs by done.
  exists (first_of i * DAY_MS), (first_of (i + k) * DAY_MS).
  split; [done|]. split; [by apply period_end_months|].
  assert (forall t, first_of i * DAY_MS <= t < first_of (i + k) * DAY_MS <->
    first_of i <= t / DAY_MS < first_of (i + k)) as Hdiv.
  { intros t. unfold DAY_MS. Z.to_euclidean_division_equations. lia. }
  split; [by apply Hdiv|]. intros t Ht%Hdiv.
  pose proof (period_start_months p k t Hk) as Hst.
  pose proof (month_holds (t / DAY_MS)) as Hmt.
  destruct (civil_from_days (t / DAY_MS)) as [[yt mt] dt]. destruct Hmt as [_ Hmt].
  assert (month_index yt mt / k * k = i) as Hit; [|rewrite Hst, Hit, Z.max_l by done; done].
  assert (i <= month_index yt mt < i + k) as Hrange.
  { split.
    - destruct (Z.le_gt_cases i (month_index yt mt)) as [|Hlt]; [done|exfalso].
      pose proof (first_of_mono (month_index yt mt + 1) i ltac:(lia)). lia.
    - destruct (Z.lt_ge_cases (month_index yt mt) (i + k)) as [|Hge]; [done|exfalso].
      pose proof (first_of_mono (i + k) (month_index yt mt) ltac:(lia)). lia. }
  rewrite <- Hi. f_equal. symmetry.
  apply Z.div_unique with (month_index yt mt - i); [|lia]. lia.
Qed.

(** A period starts no later than the instant it holds. *)
Lemma period_start_le p now s : 0 <= now -> period_start p now = Some s -> s <= now.
Proof.
  intros Hnow Hs. destruct (per_months p) as [k|] eqn:Hk.
  { destruct (months_partition p k now Hk Hnow) as (s' & e & Hs' & _ & Hb & _).
    rewrite Hs in Hs'. injection Hs' as <-. lia. }
  unfold period_start in Hs. destruct (civil_from_days (now / DAY_MS)) as [[y m] d].
  assert (0 <= now / DAY_MS) by (apply Z.div_pos; done).
  unfold DAY_MS in *. destruct p; try done; cbn in Hs; injection Hs as <-.
  - rewrite Z.max_l by done. Z.to_euclidean_division_equations. lia.
  - pose proof (Z.mod_pos_bound (now / 86400000 + 3) 7 ltac:(lia)).
    assert (now / 86400000 * 86400000 <= now) by (Z.to_euclidean_division_equations; lia).
    nia.
Qed.

(** The calendar periods of an allowance partition time: an instant lies
    in the half-open period from [period_start] to the [period_end] of that
    start, and every instant of that period, and none past it, has the same
    start.  (Weeks are counted from the first Monday of the epoch.) *)
Theorem period_partition p now :
  p <> POnce -> 0 <= now -> (p = PWeek -> 4 * DAY_MS <= now) ->
  exists s e, period_start p now = Some s /\ period_end p s = Some e /\ s <= now < e /\
    forall t, s <= t < e -> period_start p t = Some s.
Proof.
  intros Hne Hnow Hw. destruct (per_months p) as [k|] eqn:Hk; [by eapply months_partition|].
  unfold period_start, period_end, DAY_MS in *.
  destruct p; try done; clear Hk Hne.
  - exists (now / 86400000 * 86400000), ((now / 86400000 + 1) * 86400000).
    destruct (civil_from_days (now / 86400000)) as [[y m] d]. cbn [fmap option_fmap option_map].
    assert (0 <= now / 86400000) by (apply Z.div_pos; lia).
    rewrite Z.max_l by done. rewrite Z.div_mul by done.
    destruct (civil_from_days (now / 86400000)) as [[y' m'] d']. cbn [fmap option_fmap option_map].
    split_and!; try done; [Z.to_euclidean_division_equations; lia..|].
    intros t Ht. destruct (civil_from_days (t / 86400000)) as [[yt mt] dt]. cbn [fmap option_fmap option_map].
    assert (t / 86400000 = now / 86400000) as -> by (Z.to_euclidean_division_equations; lia).
    by rewrite Z.max_l.
  - specialize (Hw eq_refl). set (n := now / 86400000 - (now / 86400000 + 3) mod 7).
    assert (4 <= now / 86400000) as Hn by (apply Z.div_le_lower_bound; lia).
    assert (0 <= n) as Hpos by (unfold n; Z.to_euclidean_division_equations; lia).
    exists (n * 86400000), ((n + 7) * 86400000).
    destruct (civil_from_days (now / 86400000)) as [[y m] d]. cbn [fmap option_fmap option_map].
    fold n. rewrite Z.max_l by done. rewrite Z.div_mul by done.
    destruct (civil_from_days n) as [[y' m'] d']. cbn [fmap option_fmap option_map].
    pose proof (Z.mod_pos_bound (now / 86400000 + 3) 7 ltac:(lia)) as Hb7.
    assert (n <= now / 86400000 < n + 7) as Hb by (unfold n; lia).
    assert (n + 3 = 7 * ((now / 86400000 + 3) / 7)) as Hmod.
    { pose proof (Z.div_mod (now / 86400000 + 3) 7 ltac:(lia)). unfold n. lia. }
    set (q := (now / 86400000 + 3) / 7) in *. clearbody q.
    clearbody n. split_and!; try done; [Z.to_euclidean_division_equations; lia..|].
    intros t Ht. destruct (civil_from_days (t / 86400000)) as [[yt mt] dt]. cbn [fmap option_fmap option_map].
    assert (n <= t / 86400000 < n + 7) as Htd by (Z.to_euclidean_division_equations; lia).
    assert ((t / 86400000 + 3) mod 7 = t / 86400000 - n) as ->
      by (symmetry; apply Z.mod_unique with q; lia).
    replace (t / 86400000 - (t / 86400000 - n)) with n by lia. by rewrite Z.max_l.
Qed.

Lemma period_partition_witness :
  exists s e, period_start PQuarter 1767225600000 = Some s /\ period_end PQuarter s = Some e /\
    s <= 1767225600000 < e /\ forall t, s <= t < e -> period_start PQuarter t = Some s.
Proof. apply (period_partition PQuarter); [done|done|done]. Defined.

(** ** RFC 3339 *)

(** [{n:0w}]. *)
Definition pad (w : nat) (n : Z) : list char :=
  let ds := decimal n in replicate (w - length ds) "0"%char ++ ds.

(** An instant in milliseconds, to the second. *)
Definition rfc3339 (ms : Z) : list char :=
  let '(y, m, d) := civil_from_days (ms / DAY_MS) in
  let s := ms mod DAY_MS / 1000 in
  pad 4 y ++ "-"%char :: pad 2 m ++ "-"%char :: pad 2 d ++ "T"%char ::
  pad 2 (s / 3600) ++ ":"%char :: pad 2 (s / 60 mod 60) ++ ":"%char :: pad 2 (s mod 60) ++ ["Z"%char].

(** The number in the bytes [from..to]. *)
Definition num (l : list char) (from to : nat) : option Z :=
  if decide (to <= length l)%nat then
    let part := take (to - from) (drop from l) in
    if forallb is_digit part then
      match part with [] => None | _ => Some (eval part) end
    else None
  else None.

Definition byte_is (l : list char) (i : nat) (cs : list char) : bool :=
  match l !! i with Some c => bool_decide (c ∈ cs) | None => false end.

Fixpoint span_digits (l : list char) : list char * list char :=
  match l with
  | a :: l' => if is_digit a then let '(x, y) := span_digits l' in (a :: x, y) else ([], l)
  | [] => ([], [])
  end.

(** The fraction after the seconds, as milliseconds, and what follows it. *)
Definition fraction (rest : list char) : option (Z * list char) :=
  match rest with
  | "."%char :: rest' =>
      match span_digits rest' with
      | ([], _) => None
      | (ds, rest'') =>
          let digits := take 3 ds in
          Some (eval digits * 10 ^ (3 - Z.of_nat (length digits)), rest'')
      end
  | _ => Some (0, rest)
  end.

(** The offset, in seconds. *)
Definition offset (o : list char) : option Z :=
  if decide (o = ["Z"%char] \/ o = ["z"%char]) then Some 0
  else if decide (length o = 6%nat) then
    if byte_is o 0 ["+"%char; "-"%char] && byte_is o 3 [":"%char] then
      oh ← num o 1 3;
      om ← num o 4 6;
      if (23 <? oh) || (59 <? om) then None
      else
        let v := oh * 3600 + om * 60 in
        Some (if byte_is o 0 ["-"%char] then - v else v)
    else None
  else None.

Definition rfc3339_ms (l : list char) : option Z :=
  if decide (length l < 20)%nat then None
  else if negb (byte_is l 4 ["-"%char] && byte_is l 7 ["-"%char] && byte_is l 10 ["T"%char; "t"%char]
                && byte_is l 13 [":"%char] && byte_is l 16 [":"%char]) then None
  else
    y ← num l 0 4; mo ← num l 5 7; d ← num l 8 10;
    h ← num l 11 13; mi ← num l 14 16; sec ← num l 17 19;
    if negb ((1 <=? mo) && (mo <=? 12)) || negb ((1 <=? d) && (d <=? 31))
       || (23 <? h) || (59 <? mi) || (60 <? sec) then None
    else
      fr ← fraction (drop 19 l);
      offset_s ← offset fr.2;
      let yy := if mo <=? 2 then y - 1 else y in
      let era := yy / 400 in
      let yoe := yy - era * 400 in
      let doy := Z.quot (153 * (if 2 <? mo then mo - 3 else mo + 9) + 2) 5 + d - 1 in
      let days := era * 146097 + yoe * 365 + Z.quot yoe 4 - Z.quot yoe 100 + doy - 719468 in
      let secs := days * 86400 + h * 3600 + mi * 60 + sec - offset_s in
      let ms := secs * 1000 + fr.1 in
      if (0 <=? ms) && (ms <=? u64_max) then Some ms else None.

(** Zero padding to [w] digits. *)
Lemma pad_spec w n :
  0 <= n < 10 ^ Z.of_nat w -> (0 < w)%nat ->
  length (pad w n) = w /\ Forall (fun a => is_digit a = true) (pad w n) /\ eval (pad w n) = n.
Proof.
  intros Hn Hw. destruct (decimal_spec n) as (Hne & Hd & He & Hz & H1); [lia|].
  assert (length (decimal n) <= w)%nat as Hlen.
  { destruct (Z.le_gt_cases 10 n) as [Hge|Hlt]; [|specialize (H1 Hlt); lia].
    destruct (Hz Hge) as (a & l & E & Ha). rewrite E in *.
    inversion Hd as [|? ? Hda Hdl]. subst. apply is_digit_val in Hda.
    change (eval (a :: l)) with (eval_from (0 * 10 + digit_val a) l) in Hn.
    rewrite eval_from_val in Hn. pose proof (eval_bound l Hdl) as Hb. cbn [length].
    destruct (Nat.le_gt_cases (S (length l)) w) as [|Hgt]; [done|exfalso].
    assert (10 ^ Z.of_nat w <= 10 ^ Z.of_nat (length l)) by (apply Z.pow_le_mono_r; lia). nia. }
  unfold pad. split_and!.
  - rewrite length_app, length_replicate. lia.
  - apply Forall_app. split; [|done]. by apply Forall_replicate.
  - by rewrite eval_zeros.
Qed.

Lemma Forall_forallb l : Forall (fun a => is_digit a = true) l -> forallb is_digit l = true.
Proof. induction 1 as [|a l Ha _ IH]; [done|]. cbn. by rewrite Ha, IH. Qed.

Lemma pad2 n : 0 <= n < 100 -> exists a b, pad 2 n = [a; b] /\
  forallb is_digit [a; b] = true /\ eval [a; b] = n.
Proof.
  intros Hn. destruct (pad_spec 2 n) as (Hl & Hd & He); [cbn; lia|lia|].
  apply Forall_forallb in Hd. destruct (pad 2 n) as [|a [|b [|]]]; try done. by exists a, b.
Qed.

Lemma pad4 n : 0 <= n < 10000 -> exists a b c d, pad 4 n = [a; b; c; d] /\
  forallb is_digit [a; b; c; d] = true /\ eval [a; b; c; d] = n.
Proof.
  intros Hn. destruct (pad_spec 4 n) as (Hl & Hd & He); [cbn; lia|lia|].
  apply Forall_forallb in Hd. destruct (pad 4 n) as [|a [|b [|c [|d [|]]]]]; try done.
  by exists a, b, c, d.
Qed.

(** Years of four digits: before 10000-01-01. *)
Lemma year_range z : 0 <= z < 2932897 ->
  let '(y, _, _) := civil_from_days z in 1970 <= y < 10000.
Proof.
  intros Hz. pose proof (month_holds z) as Hm. destruct (civil_from_days z) as [[y m] d].
  destruct Hm as [Hm Hb].
  assert (first_of 120000 = 2932897) as H1 by reflexivity.
  pose proof first_of_epoch as H0.
  assert (23640 <= month_index y m).
  { destruct (Z.le_gt_cases 23640 (month_index y m)) as [|Hlt]; [done|exfalso].
    pose proof (first_of_mono (month_index y m + 1) 23640 ltac:(lia)). lia. }
  assert (month_index y m < 120000).
  { destruct (Z.lt_ge_cases (month_index y m) 120000) as [|Hge]; [done|exfalso].
    pose proof (first_of_mono 120000 (month_index y m) ltac:(lia)). lia. }
  unfold month_index in *. lia.
Qed.

Lemma num_digits l a b p :
  take (b - a) (drop a l) = p -> p <> [] -> forallb is_digit p = true -> (b <= length l)%nat ->
  num l a b = Some (eval p).
Proof.
  intros E Hne Hp Hle. unfold num. rewrite decide_True by done. cbv zeta. rewrite E, Hp.
  by destruct p.
Qed.

(** Reading the six numbers of a whole-second UTC text. *)
Lemma rfc3339_ms_parts y1 y2 y3 y4 m1 m2 d1 d2 h1 h2 i1 i2 s1 s2 :
  forallb is_digit [y1; y2; y3; y4] = true -> forallb is_digit [m1; m2] = true ->
  forallb is_digit [d1; d2] = true -> forallb is_digit [h1; h2] = true ->
  forallb is_digit [i1; i2] = true -> forallb is_digit [s1; s2] = true ->
  let y := eval [y1; y2; y3; y4] in let mo := eval [m1; m2] in let d := eval [d1; d2] in
  let h := eval [h1; h2] in let mi := eval [i1; i2] in let sec := eval [s1; s2] in
  1 <= mo <= 12 -> 1 <= d <= 31 -> h <= 23 -> mi <= 59 -> sec <= 59 -> 1970 <= y < 10000 ->
  0 <= days_from_civil y mo d ->
  rfc3339_ms [y1; y2; y3; y4; "-"%char; m1; m2; "-"%char; d1; d2; "T"%char; h1; h2; ":"%char;
    i1; i2; ":"%char; s1; s2; "Z"%char] =
  let ms := (days_from_civil y mo d * 86400 + h * 3600 + mi * 60 + sec) * 1000 in
  if (0 <=? ms) && (ms <=? u64_max) then Some ms else None.
Proof.
  intros Hy Hm Hd Hh Hi Hs y mo d h mi sec Hmo Hdd Hhh Hmi Hsec Hyy Hdays.
  unfold rfc3339_ms. rewrite decide_False by (apply Nat.lt_irrefl).
  assert (forall l i c cs, l !! i = Some c -> c ∈ cs -> byte_is l i cs = true) as Hbyte.
  { intros l i c cs Hl Hin. unfold byte_is. rewrite Hl. by apply bool_decide_eq_true. }
  rewrite (Hbyte _ 4%nat "-"%char), (Hbyte _ 7%nat "-"%char), (Hbyte _ 10%nat "T"%char),
    (Hbyte _ 13%nat ":"%char), (Hbyte _ 16%nat ":"%char) by (reflexivity || by left).
  cbn [negb andb].
  rewrite (num_digits _ 0 4 [y1; y2; y3; y4]), (num_digits _ 5 7 [m1; m2]),
    (num_digits _ 8 10 [d1; d2]), (num_digits _ 11 13 [h1; h2]),
    (num_digits _ 14 16 [i1; i2]), (num_digits _ 17 19 [s1; s2])
    by (done || (apply Nat.leb_le; reflexivity)).
  fold y mo d h mi sec. clearbody y mo d h mi sec. cbn [mbind option_bind].
  replace (negb _ || _ || _ || _ || _) with false by lia.
  cbn [fraction drop app mbind option_bind fst snd].
  change (offset ["Z"%char]) with (Some 0). cbn [mbind option_bind]. rewrite Z.sub_0_r, Z.add_0_r.
  replace (_ * 146097 + _ + _ - _ + _ - 719468) with (days_from_civil y mo d); [done|].
  unfold days_from_civil. replace (0 <=? (if mo <=? 2 then y - 1 else y)) with true
    by (destruct (Z.leb_spec mo 2); lia).
  rewrite Z.quot_div_nonneg by (destruct (Z.leb_spec mo 2); lia). lia.
Qed.

(** An instant before the year 10000 written in RFC 3339 reads back as
    itself, to the second. *)
Theorem rfc3339_round_trip ms :
  0 <= ms < 253402300800000 -> rfc3339_ms (rfc3339 ms) = Some (ms / 1000 * 1000).
Proof.
  intros Hms. unfold rfc3339.
  assert (0 <= ms / DAY_MS < 2932897) as Hz
    by (unfold DAY_MS; Z.to_euclidean_division_equations; lia).
  pose proof (year_range _ Hz) as Hyr. pose proof (civil_round_trip (ms / DAY_MS)) as Hc.
  destruct (civil_from_days (ms / DAY_MS)) as [[y m] d]. destruct Hc as (Hm & Hd & Hdays).
  set (s := ms mod DAY_MS / 1000).
  assert (0 <= s < 86400 /\ ms / 1000 = ms / DAY_MS * 86400 + s) as [Hs Hmsd]
    by (unfold s, DAY_MS; Z.to_euclidean_division_equations; lia).
  rewrite Hmsd. clearbody s. clear Hmsd. set (z := ms / DAY_MS) in *. clearbody z. clear Hms ms.
  assert (0 <= s / 3600 < 24 /\ 0 <= s / 60 mod 60 < 60 /\ 0 <= s mod 60 < 60 /\
    s = s / 3600 * 3600 + s / 60 mod 60 * 60 + s mod 60) as (Hh & Hi & Hse & Hsum)
    by (Z.to_euclidean_division_equations; lia).
  set (h := s / 3600) in *. set (i := s / 60 mod 60) in *. set (sec := s mod 60) in *.
  clearbody h i sec.
  destruct (pad4 y ltac:(lia)) as (y1 & y2 & y3 & y4 & -> & Hyd & Hye).
  destruct (pad2 m ltac:(lia)) as (m1 & m2 & -> & Hm1 & Hme).
  destruct (pad2 d ltac:(lia)) as (d1 & d2 & -> & Hd1 & Hde).
  destruct (pad2 h ltac:(lia)) as (h1 & h2 & -> & Hh1 & Hhe).
  destruct (pad2 i ltac:(lia)) as (i1 & i2 & -> & Hi1 & Hie).
  destruct (pad2 sec ltac:(lia)) as (s1 & s2 & -> & Hs1 & Hsec). cbn [app].
  rewrite rfc3339_ms_parts; rewrite ?Hye, ?Hme, ?Hde, ?Hhe, ?Hie, ?Hsec; try done; try lia.
  cbv zeta. rewrite Hdays.
  replace ((0 <=? _) && (_ <=? _)) with true by (unfold u64_max; lia). f_equal. lia.
Qed.

Lemma rfc3339_round_trip_witness :
  text (rfc3339 1767225599123) = "2025-12-31T23:59:59Z"%string /\
  rfc3339_ms (rfc3339 1767225599123) = Some (1767225599123 / 1000 * 1000).
Proof. split; [reflexivity|]. apply (rfc3339_round_trip 1767225599123). lia. Defined.

(** A date that is not in the calendar is read as the day so many days on. *)
Lemma rfc3339_takes_february_31 :
  rfc3339_ms (chars "2026-02-31T00:00:00Z") = rfc3339_ms (chars "2026-03-03T00:00:00Z").
Proof. reflexivity. Qed.
