(* ===== verification/Amount.v ===== *)
(** * Payment amounts

    [crates/agentd/src/config/settings/payments.rs]: [parse_amount],
    [format_amount] and [parse_atomic] — decimals in whole units and integers
    of atomic units, held exactly in 128 bits. *)

From S2P Require Export Text.

#[local] Open Scope Z_scope.

(** A refusal: the text is not an amount at these decimals. *)
Inductive AmountError : Type :=
  | NotAmount (t : string) (decimals : nat)
  | NotAtomic (t : string)
  | Past128 (t : string).

(** [v.checked_mul(10).and_then(|v| v.checked_add(d))], digit by digit. *)
Fixpoint push_digits (v : Z) (l : list char) : option Z :=
  match l with
  | [] => Some v
  | d :: l' =>
      match u128_checked_mul v 10 ≫= fun v => u128_checked_add v (digit_val d) with
      | Some v' => push_digits v' l'
      | None => None
      end
  end.

Definition dot : char := "."%char.
Definition zero : char := "0"%char.

(** The two sides of the point; no point is an empty fraction. *)
Definition split_amount (t : list char) : list char * list char :=
  match cut dot t with Some (w, f) => (w, f) | None => (t, []) end.

Definition has_dot (t : list char) : bool := existsb (fun a => bool_decide (a = dot)) t.
Definition nil_chars (l : list char) : bool := match l with [] => true | _ => false end.

Definition parse_amount (s : string) (decimals : nat) : result AmountError Z :=
  let t := trim (chars s) in
  let '(whole, frac) := split_amount t in
  if nil_chars whole || negb (forallb is_digit whole) || negb (forallb is_digit frac)
     || (has_dot t && nil_chars frac) || (decimals <? length frac)%nat
  then Err (NotAmount s decimals)
  else
    ok_or (NotAmount s decimals)
      (push_digits 0 (whole ++ frac ++ replicate (decimals - length frac) zero)).

(** [format!("{s:0>width$}")]. *)
Definition pad_zero (width : nat) (l : list char) : list char :=
  replicate (width - length l) zero ++ l.

Definition format_amount (atomic : Z) (decimals : nat) : string :=
  let s := decimal atomic in
  match decimals with
  | O => text s
  | _ =>
      let s := pad_zero (decimals + 1) s in
      let whole := take (length s - decimals) s in
      let frac := trim_end (fun a => bool_decide (a = zero)) (drop (length s - decimals) s) in
      match frac with
      | [] => text whole
      | _ => text (whole ++ dot :: frac)
      end
  end.

Definition parse_atomic (s : string) : result AmountError Z :=
  let l := chars s in
  if nil_chars l || negb (forallb is_digit l)
     || ((1 <? length l)%nat && match l with a :: _ => bool_decide (a = zero) | [] => false end)
  then Err (NotAtomic s)
  else ok_or (Past128 s) (parse_uint u128_max l).

(** ** Lemmas *)

Lemma forallb_Forall l : forallb is_digit l = true <-> Forall (fun a => is_digit a = true) l.
Proof.
  rewrite forallb_forall, Forall_forall. by setoid_rewrite list_elem_of_In.
Qed.

Lemma push_digits_spec v l :
  0 <= v <= u128_max -> Forall (fun a => is_digit a = true) l ->
  push_digits v l = if eval_from v l <=? u128_max then Some (eval_from v l) else None.
Proof.
  intros Hv Hl. revert v Hv. induction Hl as [|a l Ha Hl IH]; intros v Hv; cbn.
  - change (eval_from v []) with v. by replace (v <=? u128_max) with true by lia.
  - apply is_digit_val in Ha. change (eval_from v (a :: l)) with (eval_from (v * 10 + digit_val a) l).
    assert (v * 10 + digit_val a <= eval_from (v * 10 + digit_val a) l) as Hmono.
    { rewrite (eval_from_val (v * 10 + digit_val a)). pose proof (eval_bound l Hl).
      assert (0 < 10 ^ Z.of_nat (length l)) by (apply Z.pow_pos_nonneg; lia). nia. }
    unfold u128_checked_mul, u128_checked_add.
    destruct (Z.leb_spec (v * 10) u128_max); cbn.
    + destruct (Z.leb_spec (v * 10 + digit_val a) u128_max); [apply IH; lia|].
      by replace (eval_from (v * 10 + digit_val a) l <=? u128_max) with false by lia.
    + by replace (eval_from (v * 10 + digit_val a) l <=? u128_max) with false by lia.
Qed.

Lemma push_digits_eval l :
  Forall (fun a => is_digit a = true) l ->
  push_digits 0 l = if eval l <=? u128_max then Some (eval l) else None.
Proof. apply push_digits_spec. done. Qed.

Lemma eval_snoc_zeros l n : eval (l ++ replicate n zero) = eval l * 10 ^ Z.of_nat n.
Proof.
  unfold eval. rewrite eval_from_app, eval_from_val, length_replicate.
  assert (eval (replicate n zero) = 0) as ->; [|lia].
  induction n as [|n IH]; [done|]. exact IH.
Qed.

Lemma eval_app l k : eval (l ++ k) = eval l * 10 ^ Z.of_nat (length k) + eval k.
Proof. unfold eval at 1. rewrite eval_from_app, eval_from_val. done. Qed.

Lemma eval_pad_zero w l : eval (pad_zero w l) = eval l.
Proof. unfold pad_zero. induction (w - length l)%nat as [|n IH]; [done|]. exact IH. Qed.

Lemma digit_not_dot l : Forall (fun a => is_digit a = true) l -> dot ∉ l.
Proof. intros Hl Hin. rewrite Forall_forall in Hl. by specialize (Hl _ Hin). Qed.

Lemma existsb_dot l : has_dot l = true <-> dot ∈ l.
Proof.
  unfold has_dot. rewrite existsb_exists. setoid_rewrite bool_decide_eq_true.
  setoid_rewrite <- list_elem_of_In. naive_solver.
Qed.

Lemma is_space_false_trim l : Forall (fun a => is_digit a = true \/ a = dot) l -> trim l = l.
Proof.
  intros Hl. apply trim_none. intros a Ha. rewrite Forall_forall in Hl.
  destruct (Hl a Ha) as [Hd| ->]; [by apply is_digit_not_space|done].
Qed.

(** What is trimmed from the end is zeros, and no more remain. *)
Lemma drop_while_split {A} (f : A -> bool) (l : list A) :
  exists k, l = k ++ drop_while f l /\ Forall (fun a => f a = true) k /\
    match drop_while f l with a :: _ => f a = false | [] => True end.
Proof.
  induction l as [|a l IH]; [by exists []|]. cbn. destruct (f a) eqn:E.
  - destruct IH as (k & Hk & Hf & Hd). exists (a :: k). cbn. split; [by f_equal|].
    split; [by constructor|done].
  - exists []. done.
Qed.

Lemma trim_end_zeros l :
  exists n, l = trim_end (fun a => bool_decide (a = zero)) l ++ replicate n zero.
Proof.
  unfold trim_end. destruct (drop_while_split (fun a => bool_decide (a = zero)) (rev l))
    as (k & Hk & Hz & _).
  exists (length k). rewrite <- (rev_involutive l) at 1. rewrite Hk at 1. rewrite rev_app_distr.
  f_equal. assert (k = replicate (length k) zero) as ->.
  { clear Hk. induction Hz as [|a k Ha _ IH]; [done|]. cbn. apply bool_decide_eq_true in Ha as ->.
    by f_equal. }
  rewrite length_replicate. induction (length k) as [|n IH]; [done|]. cbn. rewrite IH.
  by rewrite <- replicate_cons_app.
Qed.

(** Digit strings of one length are told apart by their values. *)
Lemma eval_inj l k :
  Forall (fun a => is_digit a = true) l -> Forall (fun a => is_digit a = true) k ->
  length l = length k -> eval l = eval k -> l = k.
Proof.
  intros Hl. revert k. induction Hl as [|a l Ha Hl IH]; intros [|b k] Hk Hlen E; try done.
  inversion Hk as [|? ? Hb Hk']. subst. injection Hlen as Hlen.
  pose proof (eval_bound l Hl) as Bl. pose proof (eval_bound k Hk') as Bk.
  change (eval (a :: l)) with (eval_from (0 * 10 + digit_val a) l) in E.
  change (eval (b :: k)) with (eval_from (0 * 10 + digit_val b) k) in E.
  rewrite (eval_from_val _ l), (eval_from_val _ k), Hlen in E. rewrite Hlen in Bl.
  set (p := 10 ^ Z.of_nat (length k)) in *.
  assert (digit_val a = digit_val b) as Hd by nia.
  assert (eval l = eval k) as He by nia.
  f_equal; [|by apply IH]. apply code_inj. unfold digit_val in Hd. lia.
Qed.

(** A digit string with no leading zero is the decimal form of its value. *)
Lemma decimal_eval a l :
  Forall (fun a => is_digit a = true) (a :: l) -> (l <> [] -> a <> zero) ->
  decimal (eval (a :: l)) = a :: l.
Proof.
  intros Hd Hz. pose proof (eval_bound _ Hd) as Hb. cbn [length] in Hb.
  inversion Hd as [|? ? Ha Hl]. subst.
  assert (eval (a :: l) = digit_val a * 10 ^ Z.of_nat (length l) + eval l) as He.
  { change (eval (a :: l)) with (eval_from (0 * 10 + digit_val a) l). rewrite eval_from_val. lia. }
  pose proof (is_digit_val a Ha) as Hav. pose proof (eval_bound l Hl) as Hbl.
  destruct (decimal_spec (eval (a :: l))) as (Hne & Hdd & Hde & Hlead & H1); [lia|].
  apply eval_inj; [done|done| |done].
  destruct (decimal (eval (a :: l))) as [|b k] eqn:E; [done|].
  inversion Hdd as [|? ? Hbd Hk]. subst. pose proof (eval_bound k Hk) as Hbk.
  pose proof (is_digit_val b Hbd) as Hbv.
  assert (eval (b :: k) = digit_val b * 10 ^ Z.of_nat (length k) + eval k) as Heb.
  { change (eval (b :: k)) with (eval_from (0 * 10 + digit_val b) k). rewrite eval_from_val. lia. }
  cbn [length]. f_equal. destruct l as [|x l'].
  - assert (eval [a] < 10) as Hlt by (rewrite He; cbn; change (eval []) with 0; lia).
    specialize (H1 Hlt). cbn in H1. cbn. lia.
  - assert (a <> zero) as Hnz by (by apply Hz).
    assert (digit_val a <> 0) as Hdv.
    { intros H0. apply Hnz, code_inj. unfold digit_val in H0. change (code zero) with 48. lia. }
    set (n := length (x :: l')) in *. assert (1 <= Z.of_nat n) by (unfold n; cbn; lia).
    assert (10 <= 10 ^ Z.of_nat n) by (change 10 with (10 ^ 1) at 1; apply Z.pow_le_mono_r; lia).
    destruct (Hlead ltac:(nia)) as (b' & k' & Ebk & Hb0). injection Ebk as <- <-.
    rewrite Heb in Hde. rewrite He in Hde.
    destruct (Nat.lt_trichotomy (length k) n) as [Hlt|[Heq|Hgt]]; [exfalso|done|exfalso].
    + assert (10 ^ Z.of_nat (S (length k)) <= 10 ^ Z.of_nat n) by (apply Z.pow_le_mono_r; lia).
      rewrite Nat2Z.inj_succ, Z.pow_succ_r in * by lia. nia.
    + assert (10 ^ Z.of_nat (S n) <= 10 ^ Z.of_nat (length k)) by (apply Z.pow_le_mono_r; lia).
      rewrite Nat2Z.inj_succ, Z.pow_succ_r in * by lia. nia.
Qed.

(** What is written reads back. *)
Lemma parse_format a d :
  0 <= a <= u128_max -> parse_amount (format_amount a d) d = Ok a.
Proof.
  intros Ha. destruct (decimal_spec a ltac:(lia)) as (Hne & Hd & He & _).
  assert (forall w f, w <> [] -> Forall (fun a => is_digit a = true) w ->
    Forall (fun a => is_digit a = true) f -> (length f <= d)%nat ->
    eval (w ++ f ++ replicate (d - length f) zero) = a ->
    parse_amount (text (match f with [] => w | _ => w ++ dot :: f end)) d = Ok a) as Hmain.
  { intros w f Hw Hwd Hfd Hlen Hev. unfold parse_amount. rewrite chars_text.
    assert (Forall (fun a => is_digit a = true \/ a = dot)
      (match f with [] => w | _ => w ++ dot :: f end)) as Hall.
    { assert (forall l, Forall (fun a => is_digit a = true) l ->
        Forall (fun a => is_digit a = true \/ a = dot) l) as Hx.
      { intros l Hl. eapply Forall_impl; [apply Hl|]. auto. }
      destruct f as [|x f]; [by apply Hx|]. apply Forall_app. split; [by apply Hx|].
      constructor; [by right|by apply Hx]. }
    rewrite is_space_false_trim by done.
    assert (split_amount (match f with [] => w | _ => w ++ dot :: f end) = (w, f)) as ->.
    { unfold split_amount. destruct f as [|x f].
      - by rewrite (proj2 (cut_None dot w) (digit_not_dot w Hwd)).
      - by rewrite cut_app by (by apply digit_not_dot). }
    rewrite (proj2 (forallb_Forall w) Hwd), (proj2 (forallb_Forall f) Hfd).
    replace (d <? length f)%nat with false by (symmetry; by apply Nat.ltb_ge).
    assert (has_dot (match f with [] => w | _ => w ++ dot :: f end) && nil_chars f = false) as ->.
    { destruct f; [|by rewrite andb_false_r]. rewrite andb_true_r. apply not_true_iff_false.
      rewrite existsb_dot. by apply digit_not_dot. }
    destruct w as [|x w]; [done|]. cbn [nil_chars negb orb].
    rewrite push_digits_eval.
    - rewrite Hev. by replace (a <=? u128_max) with true by lia.
    - apply Forall_app. split; [done|]. apply Forall_app. split; [done|]. by apply Forall_replicate. }
  unfold format_amount. destruct d as [|d'].
  - apply (Hmain (decimal a) []); [done|done|constructor|done|]. cbn. by rewrite app_nil_r.
  - set (s := pad_zero (S d' + 1) (decimal a)).
    assert (Forall (fun a => is_digit a = true) s) as Hs.
    { unfold s, pad_zero. apply Forall_app. split; [by apply Forall_replicate|done]. }
    assert (S d' < length s)%nat as Hlen.
    { unfold s, pad_zero. rewrite length_app, length_replicate.
      destruct (decimal a); [done|cbn; lia]. }
    set (w := take (length s - S d') s). set (f0 := drop (length s - S d') s).
    assert (length f0 = S d') as Hf0 by (unfold f0; rewrite length_drop; lia).
    destruct (trim_end_zeros f0) as [n Hn]. set (f := trim_end _ f0) in *.
    assert (length f + n = S d')%nat as Hfn.
    { pose proof (f_equal length Hn) as E. rewrite length_app, length_replicate, Hf0 in E. lia. }
    assert (Forall (fun a => is_digit a = true) f0) as Hf0d by (by apply Forall_drop).
    clearbody f.
    enough (parse_amount (text (match f with [] => w | _ => w ++ dot :: f end)) (S d') = Ok a) as H.
    { destruct f; exact H. }
    apply Hmain.
    + intros E. apply (f_equal length) in E. unfold w in E. rewrite length_take in E.
      change (length []) with 0%nat in E. lia.
    + by apply Forall_take.
    + rewrite Hn in Hf0d. by apply Forall_app in Hf0d as [? _].
    + lia.
    + replace (S d' - length f)%nat with n by lia. rewrite <- Hn. unfold w, f0.
      rewrite take_drop. unfold s. by rewrite eval_pad_zero.
Qed.

(** What is read. *)
Lemma parse_amount_value s d v :
  parse_amount s d = Ok v <->
  exists whole frac,
    whole <> [] /\ Forall (fun a => is_digit a = true) whole /\
    Forall (fun a => is_digit a = true) frac /\ (length frac <= d)%nat /\
    trim (chars s) = (match frac with [] => whole | _ => whole ++ dot :: frac end) /\
    v = eval whole * 10 ^ Z.of_nat d + eval frac * 10 ^ Z.of_nat (d - length frac) /\
    v <= u128_max.
Proof.
  unfold parse_amount. set (t := trim (chars s)).
  assert (forall w f, Forall (fun a => is_digit a = true) w -> Forall (fun a => is_digit a = true) f ->
    (length f <= d)%nat ->
    push_digits 0 (w ++ f ++ replicate (d - length f) zero) =
      (let v := eval w * 10 ^ Z.of_nat d + eval f * 10 ^ Z.of_nat (d - length f) in
       if v <=? u128_max then Some v else None)) as Hval.
  { intros w f Hw Hf Hl. rewrite push_digits_eval.
    - rewrite eval_app, eval_snoc_zeros, length_app, length_replicate.
      by replace (length f + (d - length f))%nat with d by lia.
    - apply Forall_app. split; [done|]. apply Forall_app. split; [done|]. by apply Forall_replicate. }
  split.
  - destruct (split_amount t) as [w f] eqn:Es. case_match eqn:Ec; [done|].
    repeat (apply orb_false_elim in Ec as [Ec ?]).
    repeat match goal with H : negb _ = false |- _ => apply negb_false_iff in H end.
    rewrite !forallb_Forall in *.
    match goal with H : (d <? _)%nat = false |- _ => apply Nat.ltb_ge in H end.
    rewrite Hval by done. cbv zeta. case_match eqn:Ev; [|done]. intros [= <-].
    exists w, f. split_and!; try done; [by destruct w| |lia].
    unfold split_amount in Es. destruct (cut dot t) as [[w' f']|] eqn:Ecut; simplify_eq.
    + apply cut_Some in Ecut as [Et _]. destruct f as [|x f]; [|done].
      assert (has_dot t = true) as Hdot by (apply existsb_dot; rewrite Et; set_solver).
      rewrite Hdot in *. done.
    + done.
  - intros (w & f & Hw & Hwd & Hfd & Hl & Et & -> & Hmax).
    assert (split_amount t = (w, f)) as ->.
    { rewrite Et. unfold split_amount. destruct f as [|x f].
      - by rewrite (proj2 (cut_None dot w) (digit_not_dot w Hwd)).
      - by rewrite cut_app by (by apply digit_not_dot). }
    rewrite (proj2 (forallb_Forall w) Hwd), (proj2 (forallb_Forall f) Hfd).
    replace (d <? length f)%nat with false by (symmetry; by apply Nat.ltb_ge).
    assert (has_dot t && nil_chars f = false) as ->.
    { destruct f; [|by rewrite andb_false_r]. rewrite andb_true_r. apply not_true_iff_false.
      rewrite existsb_dot, Et. by apply digit_not_dot. }
    destruct w as [|x w]; [done|]. cbn [nil_chars negb orb]. rewrite Hval by done. cbv zeta.
    by replace (_ <=? u128_max) with true by lia.
Qed.

(** ** Properties *)

(** Every 128-bit amount at every number of decimals is written as a text
    that reads back as exactly that amount. *)
Theorem amount_round_trip a d :
  0 <= a <= u128_max -> parse_amount (format_amount a d) d = Ok a.
Proof. apply parse_format. Qed.

(** An amount is read exactly or refused: what is accepted is digits with
    at most one point and at most [decimals] of them after it, and its value is
    those digits scaled, within 128 bits; every such text is accepted. *)
Theorem parse_amount_exact s d v :
  parse_amount s d = Ok v <->
  exists whole frac,
    whole <> [] /\ Forall (fun a => is_digit a = true) whole /\
    Forall (fun a => is_digit a = true) frac /\ (length frac <= d)%nat /\
    trim (chars s) = (match frac with [] => whole | _ => whole ++ dot :: frac end) /\
    v = eval whole * 10 ^ Z.of_nat d + eval frac * 10 ^ Z.of_nat (d - length frac) /\
    v <= u128_max.
Proof. apply parse_amount_value. Qed.

(** A server's atomic amount is read back exactly, and only the one
    canonical text of an amount is read: no sign, no leading zero. *)
Theorem parse_atomic_canonical s n :
  parse_atomic s = Ok n <-> 0 <= n <= u128_max /\ s = text (decimal n).
Proof.
  unfold parse_atomic. split.
  - intros E. case_match eqn:Ec; [done|]. apply orb_false_elim in Ec as [Ec Hz].
    apply orb_false_elim in Ec as [Hnil Hd]. apply negb_false_iff in Hd.
    destruct (chars s) as [|a l] eqn:Es; [done|].
    apply forallb_Forall in Hd as Hdig.
    unfold parse_uint in E. rewrite decide_False in E by (by eapply digits_no_plus).
    rewrite Hd in E. cbn [andb] in E. pose proof (eval_bound _ Hdig) as Hb.
    destruct (Z.leb_spec (eval (a :: l)) u128_max) as [Hm|]; [|done]. cbn in E. injection E as <-.
    split; [lia|]. rewrite decimal_eval.
    + by rewrite <- Es, text_chars.
    + done.
    + intros Hl ->. destruct l; [done|]. cbn in Hz. by rewrite bool_decide_true in Hz.
  - intros [Hn ->]. rewrite chars_text.
    destruct (decimal_spec n ltac:(lia)) as (Hne & Hd & He & Hlead & H1).
    rewrite (parse_uint_decimal u128_max n Hn), (proj2 (forallb_Forall _) Hd).
    destruct (decimal n) as [|a l] eqn:E; [done|]. cbn [nil_chars negb orb].
    assert ((1 <? length (a :: l))%nat && bool_decide (a = zero) = false) as ->; [|done].
    apply andb_false_iff. destruct (Z.le_gt_cases 10 n) as [Hge|Hlt].
    + right. apply bool_decide_eq_false. intros ->.
      destruct (Hlead Hge) as (b & k & Eb & Hb0). injection Eb as <- <-. by apply Hb0.
    + left. by rewrite (H1 Hlt).
Qed.

Lemma amount_round_trip_witness :
  format_amount 250000 6 = "0.25"%string /\ parse_amount (format_amount 250000 6) 6 = Ok 250000.
Proof. split; [reflexivity|]. apply (amount_round_trip 250000 6). unfold u128_max. lia. Defined.
