(* ===== verification/Spending.v ===== *)
(** * Allowances and the spending ledger

    [crates/agentd/src/spending.rs]: an allowance read from the settings, the
    judgement of one charge against it, and [Spending], the ledger of what
    operations were charged, kept through the durability façade before a
    confirm is sent.  An operation on the ledger is one step: the source holds
    the charges' lock over it. *)

From S2P Require Export Durable Calendar Amount.

(** The decimals an allowance's amounts are held at. *)
Definition SCALE : nat := 18.
Definition PREFIX : string := "spending/charges/".

(** ** Allowances *)

(** Where a document's allowance came from, as far as the judgement goes. *)
Record DocumentOrigin := mkDocument {
  doc_uri : string;
  hosts : option (list string);
  approver_unbound : option string;
}.

(** [config::settings::payments::Allowance]: every amount a decimal text. *)
Record AllowanceSettings := mkAllowanceSettings {
  s_title : option string;
  s_currency : string;
  s_wallets : option (list string);
  s_max : option string;
  s_budget : option string;
  s_per : option string;
  s_times : option Z;
  s_payees : option (list string);
  s_categories : list string;
  s_from : option string;
  s_until : option string;
  s_approve_above : option string;
  s_approver : option string;
  s_document : option DocumentOrigin;
}.

Record Allowance := mkAllowance {
  a_id : string;
  a_title : option string;
  currency : string;
  wallets : option (list string);
  a_max : Z;
  budget : Z;
  a_per : Per;
  times : option Z;
  payees : option (list string);
  categories : list string;
  from_ms : option Z;
  until_ms : option Z;
  approve_above : option Z;
  approver : option string;
  document : option DocumentOrigin;
}.

(** Why an allowance does not read. *)
Inductive AllowanceError : Type :=
  | BadAmount (field : string) (e : AmountError)
  | BadInstant (field value : string)
  | BadPer (value : string)
  | NotSet (field : string).

(** [Option::map(..).transpose()]. *)
Definition transpose {A B E} (f : A -> result E B) (o : option A) : result E (option B) :=
  match o with
  | None => Ok None
  | Some a => match f a with Ok b => Ok (Some b) | Err e => Err e end
  end.

Definition read_amount (k : string) (v : option string) : result AllowanceError (option Z) :=
  transpose (fun v => map_err (BadAmount k) (parse_amount v SCALE)) v.
Definition read_time (k : string) (v : option string) : result AllowanceError (option Z) :=
  transpose (fun v => ok_or (BadInstant k v) (rfc3339_ms (chars v))) v.

Definition from_settings (id : string) (a : AllowanceSettings) : result AllowanceError Allowance :=
  per ← match s_per a with
        | None => Ok POnce
        | Some p => ok_or (BadPer p) (per_parse p)
        end;
  max ← read_amount "max" (s_max a);
  max ← ok_or (NotSet "max") max;
  budget ← read_amount "budget" (s_budget a);
  budget ← ok_or (NotSet "budget") budget;
  from ← read_time "from" (s_from a);
  until ← read_time "until" (s_until a);
  above ← read_amount "approve_above" (s_approve_above a);
  Ok (mkAllowance id (s_title a) (s_currency a) (s_wallets a) max budget per (s_times a)
        (s_payees a) (s_categories a) from until above (s_approver a) (s_document a)).

(** The allowances that read. *)
Definition all_allowances (m : gmap string AllowanceSettings) : gmap string Allowance :=
  map_imap (fun id a => ok (from_settings id a)) m.

Definition since (a : Allowance) (now : Z) : Z := default 0%Z (period_start (a_per a) now).
Definition holds (a : Allowance) (at_ms now : Z) : bool := (since a now <=? at_ms)%Z.

(** Token amounts and amounts of the currency. *)
Definition to_currency (atomic : Z) (decimals : nat) : option Z :=
  if decide (decimals <= SCALE)%nat
  then u128_checked_mul atomic (10 ^ Z.of_nat (SCALE - decimals)) else None.
Definition from_currency (amount : Z) (decimals : nat) : Z :=
  if decide (decimals <= SCALE)%nat then (amount / 10 ^ Z.of_nat (SCALE - decimals))%Z else amount.

(** ** The judgement *)

(** What counts against an allowance in its current period. *)
Record SUsage := mkSUsage { spent : Z; payments : Z }.
Definition no_usage : SUsage := mkSUsage 0 0.
Definition usage_add (u : SUsage) (amount : Z) : SUsage :=
  mkSUsage (u128_sat_add (spent u) amount) (u32_sat_add (payments u) 1).

(** The reasons of a refusal, by the limit each names. *)
Inductive Why : Type :=
  | WCategories
  | WFrom (from : Z)
  | WUntil (until : Z)
  | WPayee (payee : string)
  | WHostUnknown
  | WHost (host : string)
  | WMax
  | WBudget
  | WTimes (t : Z)
  | WApproverUnbound (name : string)
  | WConfirmed
  | WNoAllowance (id : string)
  | WStore (e : StoreError)
  | WDegraded
  | WUnreadable (id : string).

Definition reason (b : bool) (w : Why) : list Why := if b then [w] else [].

Definition above_limit (a : Allowance) (charge : Z) : option Z :=
  t ← approve_above a; if (t <? charge)%Z then Some t else None.

Definition judge_hosts (a : Allowance) (host : option string) : list Why :=
  match document a ≫= hosts with
  | None => []
  | Some hs =>
      match host with
      | None => [WHostUnknown]
      | Some h => reason (negb (existsb (fun x => eq_ignore_case x h) hs)) (WHost h)
      end
  end.

Definition judge (a : Allowance) (payee : string) (host : option string) (charge : Z)
    (usage : SUsage) (now : Z) : result (list Why) bool :=
  let above := above_limit a charge in
  let why :=
    reason (match categories a with [] => false | _ => true end) WCategories
    ++ match from_ms a with Some f => reason (now <? f)%Z (WFrom f) | None => [] end
    ++ match until_ms a with Some u => reason (u <=? now)%Z (WUntil u) | None => [] end
    ++ match payees a with
       | Some l => reason (negb (bool_decide (payee ∈ l))) (WPayee payee)
       | None => []
       end
    ++ judge_hosts a host
    ++ reason (a_max a <? charge)%Z WMax
    ++ reason (match u128_checked_add (spent usage) charge with
               | None => true
               | Some t => (budget a <? t)%Z
               end) WBudget
    ++ match times a with Some t => reason (t <=? payments usage)%Z (WTimes t) | None => [] end
    ++ match above, document a ≫= approver_unbound with
       | Some _, Some name => [WApproverUnbound name]
       | _, _ => []
       end in
  match why with
  | [] => Ok (match above with Some _ => true | None => false end)
  | _ => Err why
  end.

(** ** The ledger *)

Inductive ChargeState : Type := Sent | Confirmed | Unknown | Refused | Credited.

#[export] Instance charge_state_eq_dec : EqDecision ChargeState.
Proof. solve_decision. Defined.

Definition counts (s : ChargeState) : bool :=
  match s with Sent | Confirmed | Unknown => true | _ => false end.

Definition charge_state_to_value (s : ChargeState) : Value :=
  VStr match s with
  | Sent => "sent" | Confirmed => "confirmed" | Unknown => "unknown" | Refused => "refused"
  | Credited => "credited"
  end.
Definition charge_state_from_value (v : Value) : option ChargeState :=
  s ← as_str v;
  if decide (s = "sent") then Some Sent
  else if decide (s = "confirmed") then Some Confirmed
  else if decide (s = "unknown") then Some Unknown
  else if decide (s = "refused") then Some Refused
  else if decide (s = "credited") then Some Credited
  else None.

#[export] Instance charge_state_codec : Codec ChargeState :=
  {| to_value := charge_state_to_value; from_value := charge_state_from_value |}.
#[export] Instance charge_state_codec_ok : CodecOk ChargeState.
Proof. by intros []. Qed.

Record Charge := mkCharge {
  company : string;
  operation : string;
  c_allowance : string;
  c_currency : string;
  amount : string;
  state : ChargeState;
  at_ms : Z;
  ended_ms : option Z;
}.

Definition charge_to_value (c : Charge) : Value :=
  jobj ([("company", to_value (company c)); ("operation", to_value (operation c));
         ("allowance", to_value (c_allowance c)); ("currency", to_value (c_currency c));
         ("amount", to_value (amount c)); ("state", to_value (state c));
         ("at_ms", to_value (at_ms c))]
    ++ opt_field "ended_ms" (ended_ms c)).
Definition charge_from_value : Value -> option Charge := object (fun v =>
  company ← field "company" v; operation ← field "operation" v;
  allowance ← field "allowance" v; currency ← field "currency" v; amount ← field "amount" v;
  state ← field "state" v; at_ms ← field "at_ms" v; ended ← field_opt "ended_ms" v;
  Some (mkCharge company operation allowance currency amount state at_ms ended)).

#[export] Instance charge_codec : Codec Charge :=
  {| to_value := charge_to_value; from_value := charge_from_value |}.
#[export] Instance charge_codec_ok : CodecOk Charge.
Proof. solve_codec. Qed.

Definition charge_id (company operation : string) : string := company +:+ "." +:+ operation.
Definition c_id (c : Charge) : string := charge_id (company c) (operation c).
(** An amount that does not read counts as all there is. *)
Definition c_amount (c : Charge) : Z := default u128_max (ok (parse_amount (amount c) SCALE)).

(** What the x402 ledger counts for an allowance, its currency, since a
    time, now: the interface [Counted]. *)
Definition Counted : Type := string -> string -> Z -> Z -> SUsage.

Record Spending (S : Type) := mkSpending {
  sp_durable : Durable S;
  charges : gmap string Charge;
  x402 : option Counted;
  live_allowances : gmap string Allowance;
  (** Whether the kept charges were read. *)
  read : option (result (list Why) unit);
}.
Arguments mkSpending {S}.
Arguments sp_durable {S}.
Arguments charges {S}.
Arguments x402 {S}.
Arguments live_allowances {S}.
Arguments read {S}.

(** What a charge did. *)
Inductive Charged : Type :=
  | New (above : bool)
  | Held.

Section spending.
Context {S : Type} `{Store S} `{Clock} `{JsonLen}.
Implicit Types (sp : Spending S).

Abbreviation spM := (stM (Spending S) (list Why)).

Definition set_durable (d : Durable S) sp : Spending S :=
  mkSpending d (charges sp) (x402 sp) (live_allowances sp) (read sp).
Definition set_charges (m : gmap string Charge) sp : Spending S :=
  mkSpending (sp_durable sp) m (x402 sp) (live_allowances sp) (read sp).
Definition set_live (m : gmap string Allowance) sp : Spending S :=
  mkSpending (sp_durable sp) (charges sp) (x402 sp) m (read sp).
Definition set_read (r : option (result (list Why) unit)) sp : Spending S :=
  mkSpending (sp_durable sp) (charges sp) (x402 sp) (live_allowances sp) r.

(** An operation of the façade, its error mapped. *)
Definition on_durable {A} (f : StoreError -> list Why) (m : stM (Durable S) StoreError A) : spM A :=
  fun sp => let '(d, r) := m (sp_durable sp) in (set_durable d sp, map_err f r).
Definition store_why (e : StoreError) : list Why := [WStore e].

Definition open (d : Durable S) : Spending S := mkSpending d ∅ None ∅ None.

(** [OnceLock::set]: the first wins. *)
Definition count_x402 (x : Counted) sp : Spending S :=
  match x402 sp with
  | Some _ => sp
  | None => mkSpending (sp_durable sp) (charges sp) (Some x) (live_allowances sp) (read sp)
  end.

(** One listed key, read into the charges gathered so far. *)
Definition read_charge (acc : gmap string Charge) (ks : KeySeq) : spM (gmap string Charge) :=
  d ← gets sp_durable;
  match parse_key (d_prefix d) (d_instance d) (ks_key ks) with
  | None => mret acc
  | Some (_, id) =>
      if negb (starts_with PREFIX id) then mret acc
      else
        env ← on_durable store_why (get_entity Cred id);
        match env with
        | None => mret acc
        | Some env =>
            c ← lift (ok_or [WUnreadable id] (from_value (A := Charge) (env_state env)));
            mret (<[c_id c := c]> acc)
        end
  end.

Definition read_charges : spM unit :=
  l ← on_durable store_why (list_prefix Cred PREFIX);
  m ← for_each read_charge l ∅;
  modify (fun sp => set_charges (m ∪ charges sp) sp).

(** Whether the kept charges were read. *)
Definition was_read sp : bool := match read sp with Some (Ok _) => true | _ => false end.

(** The charges counted against [a], in key order. *)
Definition counted (a : Allowance) (now : Z) (skip : option string) (c : Charge) : bool :=
  bool_decide (c_allowance c = a_id a) && bool_decide (c_currency c = currency a)
  && counts (state c) && (since a now <=? at_ms c)%Z
  && negb (bool_decide (skip = Some (c_id c))).

Definition usage (a : Allowance) (now : Z) (except : option (string * string)) sp : SUsage :=
  if negb (was_read sp) then mkSUsage u128_max u32_max
  else
    let skip := (fun p => charge_id p.1 p.2) <$> except in
    let u := fold_left (fun u c => if counted a now skip c then usage_add u (c_amount c) else u)
               (vals (charges sp)) no_usage in
    match x402 sp with
    | Some x =>
        let more := x (a_id a) (currency a) (since a now) now in
        mkSUsage (u128_sat_add (spent u) (spent more)) (u32_sat_add (payments u) (payments more))
    | None => u
    end.

(** The first reading, and what came of it. *)
Definition read_now : spM unit :=
  r ← attempt read_charges;
  modify (set_read (Some r)).

Definition set_allowances (all : gmap string Allowance) : spM unit :=
  _ ← modify (set_live all);
  if map_is_empty all then mret tt
  else
    was ← gets was_read;
    _ ← (if (was : bool) then mret tt else read_now);
    r ← gets read;
    lift (default (Ok tt) r).

Definition set_allowance (a : Allowance) : spM unit :=
  all ← gets live_allowances;
  set_allowances (<[a_id a := a]> all).

Definition allowance (id : string) sp : result (list Why) Allowance :=
  ok_or [WNoAllowance id] (live_allowances sp !! id).

Definition charge_of (company operation : string) sp : option Charge :=
  charges sp !! charge_id company operation.

(** The confirmed charge that forbids a second confirm. *)
Definition confirmed_already (company operation : string) sp : option Charge :=
  c ← charge_of company operation sp;
  if decide (state c = Confirmed) then Some c else None.

(** Keep a charge: in the store first, then in memory; a degraded store is
    an error. *)
Definition put_charge (c : Charge) : spM unit :=
  _ ← on_durable store_why (put Cred (PREFIX +:+ c_id c) (to_value c) None);
  degraded ← gets (fun sp => d_degraded (sp_durable sp));
  if (degraded : bool) then throw [WDegraded]
  else modify (fun sp => set_charges (<[c_id c := c]> (charges sp)) sp).

Definition charge (id company operation : string) (amount now : Z) : spM Charged :=
  held ← gets (charge_of company operation);
  let fresh : spM Charged :=
    a ← act (fun sp => (sp, allowance id sp));
    u ← gets (usage a now None);
    above ← lift (judge a company None amount u now);
    _ ← put_charge (mkCharge company operation (a_id a) (currency a) (format_amount amount SCALE)
          Sent now None);
    mret (New above) in
  match held with
  | Some c =>
      match state c with
      | Confirmed => throw [WConfirmed]
      | Sent | Unknown => mret Held
      | Refused | Credited => fresh
      end
  | None => fresh
  end.

Definition set_state (s : ChargeState) (ended : Z) (c : Charge) : Charge :=
  mkCharge (company c) (operation c) (c_allowance c) (c_currency c) (amount c) s (at_ms c)
    (Some ended).

(** [settle]: a credited charge is final; a charge that cannot be kept stays
    as it was. *)
Definition settle_charge (company operation : string) (to : ChargeState) : spM unit :=
  held ← gets (charge_of company operation);
  match held with
  | None => mret tt
  | Some c =>
      if decide (state c = to \/ state c = Credited) then mret tt
      else
        t ← on_durable store_why now_ms;
        _ ← attempt (put_charge (set_state to t c));
        mret tt
  end.

(** What an operation's final state makes of its charge. *)
Definition final_state (c : Charge) (op_state : string) (confirmed : bool) : ChargeState :=
  if decide (op_state = "succeeded") then Confirmed
  else if decide (op_state = "cancelled") then Credited
  else if confirmed || bool_decide (state c = Confirmed) then Confirmed
  else Refused.

Definition settle_final (company operation op_state : string) (confirmed : bool) :
    spM (option ChargeState) :=
  held ← gets (charge_of company operation);
  match held with
  | None => mret None
  | Some c =>
      let to := final_state c op_state confirmed in
      if decide (state c = to \/ state c = Credited \/ state c = Refused) then mret None
      else _ ← settle_charge company operation to; mret (Some to)
  end.

(** A charge no allowance counts any more. *)
Definition stale_charge (all : gmap string Allowance) (now : Z) (c : Charge) : bool :=
  negb (bool_decide (state c = Sent))
  && match all !! c_allowance c with
     | None => true
     | Some a => negb (holds a (at_ms c) now)
     end.

Definition sweep_one (n : nat) (id : string) : spM nat :=
  r ← attempt (on_durable store_why (delete_entity Cred (PREFIX +:+ id)));
  match r with
  | Ok _ =>
      _ ← modify (fun sp => set_charges (delete id (charges sp)) sp);
      mret (Datatypes.S n)
  | Err _ => mret n
  end.

Definition sweep (all : gmap string Allowance) (now : Z) : spM nat :=
  old ← gets (fun sp => c_id <$> List.filter (stale_charge all now) (vals (charges sp)));
  for_each sweep_one old O.
End spending.
