(* ===== verification/SpendingProps.v ===== *)
(** * What the spending ledger promises

    The judgement of a charge, the budget held under every new charge, an
    operation charged once, the ledger read back after a crash. *)

From S2P Require Export Spending Restore Memory.

(** ** The judgement *)

Lemma reason_nil b w : reason b w = [] <-> b = false.
Proof. by destruct b. Qed.

(** Every limit of an allowance, for one charge. *)
Record permits (a : Allowance) (payee : string) (host : option string) (charge : Z)
    (usage : SUsage) (now : Z) : Prop := {
  p_categories : categories a = [];
  p_from : forall f, from_ms a = Some f -> (f <= now)%Z;
  p_until : forall u, until_ms a = Some u -> (now < u)%Z;
  p_payee : forall l, payees a = Some l -> payee ∈ l;
  p_host : forall hs, document a ≫= hosts = Some hs ->
    exists h x, host = Some h /\ x ∈ hs /\ eq_ignore_case x h = true;
  p_max : (charge <= a_max a)%Z;
  p_budget : (spent usage + charge <= budget a)%Z /\ (spent usage + charge <= u128_max)%Z;
  p_times : forall t, times a = Some t -> (payments usage < t)%Z;
  p_approver : forall t, approve_above a = Some t -> (t < charge)%Z ->
    document a ≫= approver_unbound = None;
}.

Lemma judge_hosts_nil a host :
  judge_hosts a host = [] <->
  forall hs, document a ≫= hosts = Some hs ->
    exists h x, host = Some h /\ x ∈ hs /\ eq_ignore_case x h = true.
Proof.
  unfold judge_hosts. destruct (document a ≫= hosts) as [hs|]; [|naive_solver].
  destruct host as [h|]; [|naive_solver].
  rewrite reason_nil, negb_false_iff, existsb_exists. setoid_rewrite <- list_elem_of_In. naive_solver.
Qed.

Lemma above_limit_spec a charge :
  above_limit a charge <> None <-> exists t, approve_above a = Some t /\ (t < charge)%Z.
Proof.
  unfold above_limit. destruct (approve_above a) as [t|]; cbn; [|naive_solver].
  destruct (Z.ltb_spec t charge); naive_solver lia.
Qed.

(** The judgement, limit by limit. *)
Lemma judge_permits a payee host charge usage now above :
  judge a payee host charge usage now = Ok above <->
  permits a payee host charge usage now /\
  (above = true <-> exists t, approve_above a = Some t /\ (t < charge)%Z).
Proof.
  unfold judge. cbv zeta. rewrite <- above_limit_spec.
  set (why := reason _ WCategories ++ _).
  assert (why = [] <-> permits a payee host charge usage now) as Hwhy.
  { unfold why. rewrite !app_nil, !reason_nil, judge_hosts_nil.
    split.
    - intros (Hc & Hf & Hu & Hp & Hh & Hm & Hb & Ht & Ha). split.
      + by destruct (categories a).
      + intros f Ef. rewrite Ef, reason_nil in Hf. lia.
      + intros u Eu. rewrite Eu, reason_nil in Hu. lia.
      + intros l El. rewrite El, reason_nil, negb_false_iff, bool_decide_eq_true in Hp. done.
      + done.
      + lia.
      + unfold u128_checked_add in Hb. destruct (Z.leb_spec (spent usage + charge) u128_max); lia.
      + intros t Et. rewrite Et, reason_nil in Ht. lia.
      + intros t Et Hlt. unfold above_limit in Ha. rewrite Et in Ha. cbn in Ha.
        destruct (Z.ltb_spec t charge); [|lia]. by destruct (document a ≫= approver_unbound).
    - intros [Hc Hf Hu Hp Hh Hm [Hb1 Hb2] Ht Ha]. split_and!.
      + by rewrite Hc.
      + destruct (from_ms a) as [f|]; [|done]. rewrite reason_nil. specialize (Hf f eq_refl). lia.
      + destruct (until_ms a) as [u|]; [|done]. rewrite reason_nil. specialize (Hu u eq_refl). lia.
      + destruct (payees a) as [l|]; [|done]. rewrite reason_nil, negb_false_iff, bool_decide_eq_true.
        by apply Hp.
      + done.
      + lia.
      + unfold u128_checked_add. destruct (Z.leb_spec (spent usage + charge) u128_max); lia.
      + destruct (times a) as [t|]; [|done]. rewrite reason_nil. specialize (Ht t eq_refl). lia.
      + unfold above_limit. destruct (approve_above a) as [t|]; [|done]. cbn.
        destruct (Z.ltb_spec t charge) as [Hlt|]; [|done]. by rewrite (Ha t eq_refl Hlt). }
  rewrite <- Hwhy. clearbody why. destruct why as [|w why]; [|naive_solver].
  destruct (above_limit a charge); destruct above; naive_solver.
Qed.

(** C6: a charge is judged within an allowance exactly when every limit
    allows it: no kind-of-purchase list, the window, the payee, the document's
    host, the most for one payment, the budget with what is already spent
    (within 128 bits), the count of payments, and an approver who can answer when
    the charge is above [approve_above]; and it is said to be above exactly when
    it is. *)
Theorem judge_spec a payee host charge usage now above :
  judge a payee host charge usage now = Ok above <->
  permits a payee host charge usage now /\
  (above = true <-> exists t, approve_above a = Some t /\ (t < charge)%Z).
Proof. apply judge_permits. Qed.

(** ** The sums *)

Lemma c_amount_nonneg c : (0 <= c_amount c)%Z.
Proof.
  unfold c_amount. destruct (parse_amount (amount c) SCALE) as [v|] eqn:E; cbn; [|unfold u128_max; lia].
  apply parse_amount_value in E as (w & f & _ & Hw & Hf & _ & _ & -> & _).
  pose proof (eval_bound w Hw). pose proof (eval_bound f Hf).
  assert (0 < 10 ^ Z.of_nat SCALE)%Z by done.
  assert (0 < 10 ^ Z.of_nat (SCALE - length f))%Z by (apply Z.pow_pos_nonneg; lia). nia.
Qed.

(** Saturating sums do not depend on the order. *)
Definition sum_counted (p : Charge -> bool) (l : list Charge) : SUsage :=
  fold_left (fun u c => if p c then usage_add u (c_amount c) else u) l no_usage.

Definition exact (p : Charge -> bool) (l : list Charge) : Z :=
  list_sum ((fun c => if p c then c_amount c else 0%Z) <$> l).
Definition how_many (p : Charge -> bool) (l : list Charge) : Z :=
  list_sum ((fun c => if p c then 1%Z else 0%Z) <$> l).

Lemma sum_counted_spec p l :
  sum_counted p l = mkSUsage (Z.min (exact p l) u128_max) (Z.min (how_many p l) u32_max).
Proof.
  unfold sum_counted.
  assert (forall l u, fold_left (fun u c => if p c then usage_add u (c_amount c) else u) l u =
    mkSUsage (Z.min (spent u + exact p l) (Z.max (spent u) u128_max))
      (Z.min (payments u + how_many p l) (Z.max (payments u) u32_max)) \/
    ~ (0 <= spent u <= u128_max /\ 0 <= payments u <= u32_max)%Z) as Hgen.
  { induction l0 as [|c l0 IH]; intros [s n].
    - destruct (decide (0 <= s <= u128_max /\ 0 <= n <= u32_max)%Z) as [Hr|]; [left|by right].
      cbn. unfold exact, how_many. cbn. f_equal; lia.
    - destruct (decide (0 <= s <= u128_max /\ 0 <= n <= u32_max)%Z) as [Hr|]; [left|by right].
      cbn [fold_left]. pose proof (c_amount_nonneg c) as Hc.
      assert (0 <= exact p l0 /\ 0 <= how_many p l0)%Z as [He Hh].
      { unfold exact, how_many. split; apply list_sum_nonneg, Forall_fmap, Forall_true;
          intros x; cbn; destruct (p x); pose proof (c_amount_nonneg x); lia. }
      assert (exact p (c :: l0) = (if p c then c_amount c else 0) + exact p l0 /\
        how_many p (c :: l0) = (if p c then 1 else 0) + how_many p l0)%Z as [-> ->] by done.
      destruct (IH (if p c then usage_add (mkSUsage s n) (c_amount c) else mkSUsage s n)) as [->|Hn].
      + destruct (p c); cbn; unfold u128_sat_add, u32_sat_add; f_equal; lia.
      + exfalso. apply Hn. destruct (p c); cbn; unfold u128_sat_add, u32_sat_add; [|done].
        unfold u128_max, u32_max in *. lia. }
  destruct (Hgen l no_usage) as [->|Hn].
  - cbn. f_equal; unfold u128_max, u32_max; lia.
  - exfalso. apply Hn. cbn. unfold u128_max, u32_max. lia.
Qed.

Lemma list_sum_insert {A} (f : A -> Z) (m : gmap string A) k (c : A) :
  (forall c', m !! k = Some c' -> f c' = 0%Z) ->
  list_sum (f <$> vals (<[k := c]> m)) = (f c + list_sum (f <$> vals m))%Z.
Proof.
  intros Hk. unfold vals.
  assert (forall m, list_sum (f <$> (entries m).*2) = list_sum ((fun p => f p.2) <$> map_to_list m)) as He.
  { intros m'. rewrite <- list_fmap_compose. apply list_sum_perm. by rewrite entries_perm. }
  rewrite !He.
  assert (list_sum ((fun p => f p.2) <$> map_to_list m) =
    list_sum ((fun p => f p.2) <$> map_to_list (delete k m))) as ->.
  { destruct (m !! k) as [c'|] eqn:E; [|by rewrite delete_id].
    rewrite <- (insert_delete_id m k c' E) at 1.
    rewrite (list_sum_perm _ ((fun p => f p.2) <$> ((k, c') :: map_to_list (delete k m)))).
    - cbn. rewrite (Hk c' eq_refl). done.
    - by rewrite map_to_list_insert by apply lookup_delete_eq. }
  rewrite <- (insert_delete_eq m k c).
  rewrite (list_sum_perm _ ((fun p => f p.2) <$> ((k, c) :: map_to_list (delete k m)))); [done|].
  by rewrite map_to_list_insert by apply lookup_delete_eq.
Qed.

Section ledger.
Context {S : Type} `{StoreOk S} `{Clock} `{JsonLen}.
Implicit Types (sp : Spending S).

(** What the other rail counts is two unsigned integers. *)
Definition x402_ok sp : Prop :=
  forall x, x402 sp = Some x -> forall al cur s now,
    (0 <= spent (x al cur s now) <= u128_max)%Z /\ (0 <= payments (x al cur s now) <= u32_max)%Z.

Lemma usage_spec sp a now except :
  was_read sp = true ->
  usage a now except sp =
    let u := sum_counted (counted a now ((fun p => charge_id p.1 p.2) <$> except)) (vals (charges sp)) in
    match x402 sp with
    | Some x => mkSUsage (u128_sat_add (spent u) (spent (x (a_id a) (currency a) (since a now) now)))
                  (u32_sat_add (payments u) (payments (x (a_id a) (currency a) (since a now) now)))
    | None => u
    end.
Proof. intros Hr. unfold usage. by rewrite Hr. Qed.

(** Keeping a charge: what is written, and what is in memory after. *)
Lemma put_charge_spec c sp :
  let '(sp', r) := put_charge c sp in
  x402 sp' = x402 sp /\ live_allowances sp' = live_allowances sp /\ read sp' = read sp /\
  static (sp_durable sp) (sp_durable sp') /\
  match r with
  | Ok _ => charges sp' = <[c_id c := c]> (charges sp) /\
      exists q ts, dview (sp_durable sp') !! d_key (sp_durable sp) Cred (PREFIX +:+ c_id c) =
        Some (q, to_value (mkEnvelope "cred" (PREFIX +:+ c_id c) q ts
          (d_instance (sp_durable sp)) None (to_value c)))
  | Err _ => charges sp' = charges sp
  end.
Proof.
  unfold put_charge, on_durable. run_st.
  pose proof (put_spec Cred (PREFIX +:+ c_id c) (to_value c) None (sp_durable sp)) as Hp.
  destruct (put _ _ _ _ _) as [d [q|e]]; destruct Hp as (Hs & _ & Hp); cbn [map_err]; [|by split_and!].
  destruct Hp as [_ Hp]. cbn [sp_durable set_durable].
  destruct (d_degraded d) eqn:Ed; [by split_and!|]. split_and!; try done. cbn.
  destruct Hp as [(_ & _ & ts & Hv)|[? _]]; [|congruence].
  exists q, ts. rewrite Hv. by rewrite lookup_insert_eq.
Qed.

(** A new charge, step by step. *)
Lemma charge_new id co op am now sp sp' above :
  charge id co op am now sp = (sp', Ok (New above)) ->
  exists a, live_allowances sp !! id = Some a /\
    judge a co None am (usage a now None sp) now = Ok above /\
    (forall c, charge_of co op sp = Some c -> counts (state c) = false) /\
    put_charge (mkCharge co op (a_id a) (currency a) (format_amount am SCALE) Sent now None) sp =
      (sp', Ok tt).
Proof.
  unfold charge. run_st. unfold allowance. intros E.
  assert (forall X, (match ok_or [WNoAllowance id] (live_allowances sp !! id) with
    | Ok a0 => match judge a0 co None am (usage a0 now None sp) now with
        | Ok a1 => let (s', r) := put_charge (mkCharge co op (a_id a0) (currency a0)
            (format_amount am SCALE) Sent now None) sp in
            match r with Ok _ => (s', Ok (New a1)) | Err e => (s', Err e) end
        | Err e => (sp, Err e)
        end
    | Err e => (sp, Err e)
    end) = (sp', Ok (New above)) -> X ->
    exists a, live_allowances sp !! id = Some a /\
      judge a co None am (usage a now None sp) now = Ok above /\ X /\
      put_charge (mkCharge co op (a_id a) (currency a) (format_amount am SCALE) Sent now None) sp =
        (sp', Ok tt)) as Hfresh.
  { intros X E' HX. destruct (live_allowances sp !! id) as [a|]; [|done]. cbn in E'.
    exists a. destruct (judge a co None am _ now) as [b|]; [|done].
    destruct (put_charge _ sp) as [s' [[]|]]; [|done]. by simplify_eq. }
  destruct (charge_of co op sp) as [c|].
  - destruct (state c) eqn:Ec; try done; apply Hfresh; try done;
      intros c' [= <-]; by rewrite Ec.
  - apply Hfresh; [done|]. intros c' [=].
Qed.

Lemma c_amount_format am : (0 <= am <= u128_max)%Z -> forall co op al cu st t e,
  c_amount (mkCharge co op al cu (format_amount am SCALE) st t e) = am.
Proof. intros Ha co op al cu st t e. 
  change (default u128_max (ok (parse_amount (format_amount am SCALE) SCALE)) = am).
  by rewrite parse_format.
Qed.

(** The charge just kept counts for its allowance. *)
Lemma new_charge_counts a co op am now :
  (0 <= now)%Z ->
  counted a now None (mkCharge co op (a_id a) (currency a) am Sent now None) = true.
Proof.
  intros Hnow. unfold counted. cbn [c_allowance c_currency state at_ms counts].
  rewrite !bool_decide_true by done. cbn [andb].
  assert (since a now <= now)%Z as Hs.
  2: { rewrite bool_decide_false by done. apply Z.leb_le in Hs. by rewrite Hs. }
  unfold since. destruct (period_start (a_per a) now) as [s|] eqn:E; cbn; [|done].
  by eapply period_start_le.
Qed.

(** C7: the budget holds under every new charge: when [charge] answers that a
    charge was made, the allowance in force allows it, what counts against the
    allowance afterwards is what counted before plus the charge, within the
    budget and the count of payments, no charge was replaced that still counted,
    and the charge is in the store before the answer. *)
Theorem charge_within_budget id co op am now sp sp' above :
  (0 <= am <= u128_max)%Z -> (0 <= now)%Z -> x402_ok sp -> was_read sp = true ->
  charge id co op am now sp = (sp', Ok (New above)) ->
  exists a, live_allowances sp !! id = Some a /\
    (am <= a_max a)%Z /\
    spent (usage a now None sp') = (spent (usage a now None sp) + am)%Z /\
    (spent (usage a now None sp') <= budget a)%Z /\
    (forall t, times a = Some t -> (t <= u32_max)%Z -> (payments (usage a now None sp') <= t)%Z) /\
    (forall c, charge_of co op sp = Some c -> counts (state c) = false) /\
    exists c q ts, charge_of co op sp' = Some c /\ state c = Sent /\ c_amount c = am /\
      dview (sp_durable sp') !! d_key (sp_durable sp) Cred (PREFIX +:+ charge_id co op) =
        Some (q, to_value (mkEnvelope "cred" (PREFIX +:+ charge_id co op) q ts
          (d_instance (sp_durable sp)) None (to_value c))).
Proof.
  intros Ham Hnow Hx Hread E. apply charge_new in E as (a & Ha & Hj & Hold & Hput).
  exists a. split; [done|]. set (c := mkCharge _ _ _ _ _ _ _ _) in Hput.
  pose proof (put_charge_spec c sp) as Hp. rewrite Hput in Hp.
  destruct Hp as (Hx4 & _ & Hrd & _ & Hch & q & ts & Hv). change (c_id c) with (charge_id co op) in *.
  assert (c_amount c = am) as Hcam by (by apply c_amount_format).
  apply judge_permits in Hj as [[] _].
  set (p := counted a now None) in *.
  assert (p c = true) as Hpc by (by apply new_charge_counts).
  assert (was_read sp' = true) as Hread' by (unfold was_read; by rewrite Hrd).
  assert (exact p (vals (charges sp')) = am + exact p (vals (charges sp)) /\
    how_many p (vals (charges sp')) = 1 + how_many p (vals (charges sp)))%Z as [He Hh].
  { unfold exact, how_many. rewrite Hch. rewrite !list_sum_insert.
    - by rewrite Hpc, Hcam.
    - intros c' Hc'. unfold p, counted. specialize (Hold c' Hc'). rewrite Hold. by rewrite andb_false_r.
    - intros c' Hc'. unfold p, counted. specialize (Hold c' Hc'). rewrite Hold. by rewrite andb_false_r. }
  assert (0 <= exact p (vals (charges sp)) /\ 0 <= how_many p (vals (charges sp)))%Z as [He0 Hh0].
  { unfold exact, how_many. split; apply list_sum_nonneg, Forall_fmap, Forall_true;
      intros x; cbn; destruct (p x); pose proof (c_amount_nonneg x); lia. }
  rewrite (usage_spec sp') by done. rewrite (usage_spec sp) in * by done. cbn zeta in *.
  change (((fun p0 => charge_id p0.1 p0.2) <$> None) : option string) with (@None string) in *.
  fold p in p_budget0, p_times0 |- *. rewrite !sum_counted_spec in *. rewrite Hx4, He, Hh.
  split; [done|].
  assert (exists c0 q0 ts0, charge_of co op sp' = Some c0 /\ state c0 = Sent /\ c_amount c0 = am /\
    dview (sp_durable sp') !! d_key (sp_durable sp) Cred (PREFIX +:+ charge_id co op) =
      Some (q0, to_value (mkEnvelope "cred" (PREFIX +:+ charge_id co op) q0 ts0
        (d_instance (sp_durable sp)) None (to_value c0)))) as Hlast.
  { exists c, q, ts. split; [unfold charge_of; rewrite Hch; apply lookup_insert_eq|]. by split_and!. }
  destruct (x402 sp) as [x|] eqn:Ex.
  - specialize (Hx x Ex (a_id a) (currency a) (since a now) now) as [Hxs Hxp].
    cbn [spent payments] in *. unfold u128_sat_add, u32_sat_add in *.
    split_and!; try done; [lia|lia|]. intros t Ht Htm. specialize (p_times0 t Ht). lia.
  - cbn [spent payments] in *. split_and!; try done; [lia|lia|].
    intros t Ht Htm. specialize (p_times0 t Ht). lia.
Qed.

(** An operation is charged once: while its charge counts, another
    [charge] of it changes nothing, in the store or in memory; it is refused when
    the charge is confirmed and held as it is when the confirm's outcome is not
    known. *)
Theorem charged_once id co op am now sp c :
  charge_of co op sp = Some c -> counts (state c) = true ->
  charge id co op am now sp =
    (sp, if decide (state c = Confirmed) then Err [WConfirmed] else Ok Held).
Proof.
  intros Hc Hs. unfold charge. run_st. rewrite Hc. by destruct (state c).
Qed.

(** What a settlement leaves of a charge: its state alone may move. *)
Lemma settle_charge_spec co op to sp :
  let '(sp', r) := settle_charge co op to sp in
  r = Ok tt /\
  (forall k c, charges sp !! k = Some c -> c_id c = k) ->
  forall c, charge_of co op sp = Some c ->
    exists c', charge_of co op sp' = Some c' /\
      (c' = c \/ (state c <> Credited /\ exists t, c' = set_state to t c)).
Proof.
  unfold settle_charge, on_durable, now_ms. run_st.
  destruct (charge_of co op sp) as [c0|] eqn:Hc; [|by intros _ c [=]].
  destruct (decide _) as [Hd|Hd].
  { intros _ c [= <-]. exists c0. split; [done|by left]. }
  cbn [map_err]. set (sp1 := set_durable (tick (sp_durable sp)) sp).
  set (t := wall (d_ticks (sp_durable sp))).
  pose proof (put_charge_spec (set_state to t c0) sp1) as Hp.
  destruct (put_charge (set_state to t c0) sp1) as [sp2 r].
  destruct Hp as (_ & _ & _ & _ & Hp). intros [_ Hid] c [= <-].
  specialize (Hid _ _ Hc). destruct r as [u|e].
  - destruct Hp as [Hch _]. exists (set_state to t c0). split.
    + unfold charge_of. rewrite Hch. change (c_id (set_state to t c0)) with (c_id c0).
      rewrite Hid. apply lookup_insert_eq.
    + right. split; [|by exists t]. intros E. apply Hd. by right.
  - exists c0. split; [|by left]. unfold charge_of. by rewrite Hp.
Qed.

(** A charge moves one way: settled by its operation's final state, a
    confirmed one is never released (only a cancellation credits it), a refused
    or credited one never changes, and nothing but the state and the time it
    ended moves. *)
Theorem settlement_one_way co op st confirmed sp sp' r c :
  (forall k c, charges sp !! k = Some c -> c_id c = k) ->
  charge_of co op sp = Some c ->
  settle_final co op st confirmed sp = (sp', r) ->
  exists c', charge_of co op sp' = Some c' /\ amount c' = amount c /\
    c_allowance c' = c_allowance c /\ c_currency c' = c_currency c /\ at_ms c' = at_ms c /\
    (state c = Credited \/ state c = Refused -> c' = c) /\
    (state c = Confirmed -> state c' = Confirmed \/ (state c' = Credited /\ st = "cancelled")) /\
    (state c' = state c \/ state c' = final_state c st confirmed).
Proof.
  intros Hid Hc. unfold settle_final. run_st. rewrite Hc.
  destruct (decide _) as [Hd|Hd].
  { intros [= <- <-]. exists c. split_and!; try done; auto. }
  pose proof (settle_charge_spec co op (final_state c st confirmed) sp) as Hs.
  unfold settle_charge in Hs.
  assert (exists sp1, settle_charge co op (final_state c st confirmed) sp = (sp1, Ok tt)) as [sp1 E].
  { unfold settle_charge, on_durable, now_ms. run_st. rewrite Hc.
    destruct (decide _); [by eexists|]. cbn [map_err]. destruct (put_charge _ _). by eexists. }
  rewrite E. intros [= <- <-]. fold (settle_charge co op (final_state c st confirmed)) in Hs.
  rewrite E in Hs. destruct (Hs (conj eq_refl Hid) c Hc) as (c' & Hc' & [->|(Hne & t & ->)]).
  - exists c. split_and!; try done; auto.
  - exists (set_state (final_state c st confirmed) t c). split_and!; try done; [| |by right].
    + intros Hcr. exfalso. apply Hd. tauto.
    + cbn. unfold final_state. intros Hcf. rewrite Hcf. rewrite bool_decide_true by done.
      rewrite orb_true_r. destruct (decide (st = "succeeded")); [by left|].
      destruct (decide (st = "cancelled")); [by right|by left].
Qed.

(** *** Reading the ledger back *)

Definition quiet_sp sp sp' : Prop :=
  quiet (sp_durable sp) (sp_durable sp') /\ charges sp' = charges sp /\ x402 sp' = x402 sp /\
  live_allowances sp' = live_allowances sp /\ read sp' = read sp.

Lemma quiet_sp_trans sp1 sp2 sp3 : quiet_sp sp1 sp2 -> quiet_sp sp2 sp3 -> quiet_sp sp1 sp3.
Proof.
  intros (? & ? & ? & ? & ?) (? & ? & ? & ? & ?). split_and!; [by etrans|congruence..].
Qed.

(** The charge kept under an id. *)
Definition kept sp (id : string) (c : Charge) : Prop :=
  exists env, stored (sp_durable sp) Cred (PREFIX +:+ id) env /\ from_value (env_state env) = Some c.

(** Every charge kept is under its own id. *)
Definition own_ids sp : Prop := forall id c, kept sp id c -> id = c_id c.

Lemma read_charge_spec sp0 sp acc ks id :
  own_ids sp0 -> quiet_sp sp0 sp ->
  ks_key ks = d_key (sp_durable sp0) Cred (PREFIX +:+ id) ->
  let '(sp', r) := read_charge acc ks sp in
  match r with
  | Ok m => quiet_sp sp0 sp' /\
      (forall j, j <> id -> m !! j = acc !! j) /\ (forall c, kept sp0 id c -> m !! id = Some c)
  | Err _ => True
  end.
Proof.
  intros Hown Hq Hk. unfold read_charge, on_durable. run_st. rewrite Hk.
  destruct Hq as (Hqd & Hqs).
  assert (parse_key (d_prefix (sp_durable sp)) (d_instance (sp_durable sp))
    (d_key (sp_durable sp0) Cred (PREFIX +:+ id)) = Some ("cred", PREFIX +:+ id)) as ->.
  { destruct Hqd as [(-> & -> & _) _]. apply (parse_d_key (sp_durable sp0) Cred). }
  assert (starts_with PREFIX (PREFIX +:+ id) = true) as ->
    by (unfold starts_with; by rewrite strip_prefix_app).
  cbn [negb]. run_st. pose proof (get_stored Cred (PREFIX +:+ id) (sp_durable sp)) as Hg.
  destruct (get_entity Cred (PREFIX +:+ id) (sp_durable sp)) as [d [[env|]|e]]; cbn [map_err]; [| |done];
    destruct Hg as [Hqg Hg]; setoid_rewrite (stored_quiet _ _ _ _ _ Hqd) in Hg.
  - destruct (from_value (env_state env)) as [c|] eqn:Ec; cbn -[from_value]; [|done].
    split; [split; [by etrans|done]|].
    assert (kept sp0 id c) as Hkept by (exists env; done).
    pose proof (Hown id c Hkept) as Hid. split.
    + intros j Hj. rewrite lookup_insert_ne; [done|]. congruence.
    + intros c' (env' & Hst & Hf). rewrite (stored_fun _ _ _ _ _ Hst Hg) in Hf.
      rewrite Hid. rewrite lookup_insert_eq. congruence.
  - split; [split; [by etrans|done]|]. split; [done|].
    intros c (env & Hst & _). by destruct (Hg env).
Qed.

Lemma read_charges_spec sp :
  own_ids sp -> let '(sp', r) := read_charges sp in
  match r with
  | Ok _ => forall id c, kept sp id c -> charges sp' !! id = Some c
  | Err _ => True
  end.
Proof.
  intros Hown. unfold read_charges, on_durable. run_st.
  pose proof (list_prefix_spec Cred PREFIX (sp_durable sp)) as Hl.
  destruct (list_prefix Cred PREFIX (sp_durable sp)) as [d1 [ks|e]]; cbn [map_err]; [|done].
  destruct Hl as (Hq1 & _ & _ & Hlive & Hkeys).
  pose proof (for_each_spec read_charge ks
    (fun done m s => quiet_sp sp s /\ forall id c, kept sp id c ->
      d_key (sp_durable sp) Cred (PREFIX +:+ id) ∈ (ks_key <$> done) -> m !! id = Some c)
    ∅ (set_durable d1 sp)) as Hfor.
  destruct (for_each read_charge ks ∅ _) as [sp2 [m|e]]; [|done].
  destruct Hfor as [Hq2 Hm].
  - split; [by split|]. intros id c _ Hin. by apply not_elem_of_nil in Hin.
  - intros xs x ys m0 s Heq [Hq Hm].
    destruct (Hkeys (ks_key x)) as [id Hid].
    { apply list_elem_of_fmap. exists x. split; [done|]. rewrite Heq. set_solver. }
    pose proof (read_charge_spec sp s m0 x id Hown Hq Hid) as Hr.
    destruct (read_charge m0 x s) as [s2 [m2|e]]; [|done]. destruct Hr as (Hq2 & Hother & Hthis).
    split; [done|]. intros j c Hkept. rewrite fmap_app, elem_of_app. cbn.
    rewrite list_elem_of_singleton. destruct (decide (j = id)) as [->|Hne]; [by intros _; apply Hthis|].
    rewrite Hid. intros [Hin|Hin]; [rewrite Hother by done; by apply Hm|].
    apply d_key_inj in Hin. by apply string_app_inj in Hin.
  - intros id c Hkept. cbn. rewrite lookup_union. rewrite (Hm id c Hkept); [by destruct (charges sp2 !! id)|].
    destruct Hkept as (env & (q & v & Hv & _) & _). apply Hlive. by exists q, v.
Qed.

(** C8: what was charged is not forgotten: after a charge is made and the
    process dies, the next life over the same store, once it reads its ledger for
    the allowances in force, holds that charge as it was. *)
Theorem charge_survives_crash id co op am now sp sp' above fresh p digest all sp2 :
  charge id co op am now sp = (sp', Ok (New above)) ->
  let d2 := durable_new (d_store (sp_durable sp')) (d_prefix (sp_durable sp))
              (d_instance (sp_durable sp)) p fresh digest in
  own_ids (set_live all (open d2)) -> all <> ∅ ->
  set_allowances all (open d2) = (sp2, Ok tt) ->
  charge_of co op sp2 = charge_of co op sp'.
Proof.
  intros E d2 Hown Hall. apply charge_new in E as (a & _ & _ & _ & Hput).
  set (c := mkCharge _ _ _ _ _ _ _ _) in Hput.
  pose proof (put_charge_spec c sp) as Hp. rewrite Hput in Hp.
  destruct Hp as (_ & _ & _ & _ & Hch & q & ts & Hv). change (c_id c) with (charge_id co op) in *.
  assert (charge_of co op sp' = Some c) as -> by (unfold charge_of; rewrite Hch; apply lookup_insert_eq).
  unfold set_allowances, read_now. run_st.
  destruct (map_is_empty all) eqn:Em; [by apply map_is_empty_true in Em|].
  change (was_read (set_live all (open d2))) with false. cbv iota. run_st.
  pose proof (read_charges_spec (set_live all (open d2)) Hown) as Hr.
  destruct (read_charges (set_live all (open d2))) as [sp3 [[]|e]]; [|done].
  intros [= <-]. cbn. apply (Hr (charge_id co op) c).
  eexists. split; [exists q; eexists; split; [split; [apply Hv|]|apply from_to_value]|].
  - by rewrite value_tombstone_envelope.
  - apply (from_to_value c).
Qed.
End ledger.

(** ** Sample runs *)

Module SpendingSample.
#[export] Instance clock : Clock :=
  {| wall n := (1700000000000 + Z.of_nat n)%Z; mono n := Z.of_nat n |}.
#[export] Instance size : JsonLen := fun _ => 100%Z.

Definition tokens (n : Z) : Z := (n * 10 ^ 18)%Z.
(** At most 40 a payment, 100 a month, three payments a month, to "acme". *)
Definition shop : Allowance :=
  mkAllowance "shop" None "eur" None (tokens 40) (tokens 100) PMonth (Some 3%Z) (Some ["acme"]) []
    None None None None None.
Definition ledger (s : MemoryStore) : Spending MemoryStore :=
  open (durable_new s "agentd" "house" policy_default false ∅).
Definition at_work : Spending MemoryStore := (set_allowance shop (ledger memory_new)).1.
Definition noon : Z := 1700000000000%Z.
Definition bought : Spending MemoryStore :=
  (charge "shop" "acme" "op1" (tokens 25) noon at_work).1.
Definition bought_charge : Charge :=
  mkCharge "acme" "op1" "shop" "eur" "25" Sent noon None.
End SpendingSample.
Import SpendingSample.

Lemma charge_within_budget_witness :
  exists a, live_allowances at_work !! "shop" = Some a /\
    (tokens 25 <= a_max a)%Z /\
    spent (usage a noon None bought) = (spent (usage a noon None at_work) + tokens 25)%Z /\
    (spent (usage a noon None bought) <= budget a)%Z /\
    (forall t, times a = Some t -> (t <= u32_max)%Z -> (payments (usage a noon None bought) <= t)%Z) /\
    (forall c, charge_of "acme" "op1" at_work = Some c -> counts (state c) = false) /\
    exists c q ts, charge_of "acme" "op1" bought = Some c /\ state c = Sent /\ c_amount c = tokens 25 /\
      dview (sp_durable bought) !! d_key (sp_durable at_work) Cred (PREFIX +:+ charge_id "acme" "op1") =
        Some (q, to_value (mkEnvelope "cred" (PREFIX +:+ charge_id "acme" "op1") q ts
          (d_instance (sp_durable at_work)) None (to_value c))).
Proof.
  refine (charge_within_budget "shop" "acme" "op1" (tokens 25) noon at_work bought false _ _ _ _ _).
  - split; vm_compute; congruence.
  - by vm_compute.
  - intros x Hx. assert (x402 at_work = None) as E by (vm_compute; reflexivity). congruence.
  - vm_compute; reflexivity.
  - vm_compute; reflexivity.
Defined.

Lemma charged_once_witness :
  charge "shop" "acme" "op1" (tokens 25) noon bought =
    (bought, if decide (state bought_charge = Confirmed) then Err [WConfirmed] else Ok Held).
Proof.
  refine (charged_once "shop" "acme" "op1" (tokens 25) noon bought bought_charge _ _);
    vm_compute; reflexivity.
Defined.

Lemma bought_only k c : charges bought !! k = Some c -> k = "acme.op1" /\ c = bought_charge.
Proof.
  assert (charges bought = {["acme.op1" := bought_charge]}) as -> by (vm_compute; reflexivity).
  by intros [<- <-]%lookup_singleton_Some.
Qed.

Lemma settlement_one_way_witness :
  exists c', charge_of "acme" "op1" (settle_final "acme" "op1" "succeeded" false bought).1 = Some c' /\
    amount c' = amount bought_charge /\
    c_allowance c' = c_allowance bought_charge /\ c_currency c' = c_currency bought_charge /\
    at_ms c' = at_ms bought_charge /\
    (state bought_charge = Credited \/ state bought_charge = Refused -> c' = bought_charge) /\
    (state bought_charge = Confirmed ->
       state c' = Confirmed \/ (state c' = Credited /\ "succeeded" = "cancelled")) /\
    (state c' = state bought_charge \/ state c' = final_state bought_charge "succeeded" false).
Proof.
  refine (settlement_one_way "acme" "op1" "succeeded" false bought _
    (settle_final "acme" "op1" "succeeded" false bought).2 bought_charge _ _ _).
  - by intros k c [-> ->]%bought_only.
  - vm_compute; reflexivity.
  - apply surjective_pairing.
Defined.

(** The store the first life left, read by the next. *)
Definition reopened : Spending MemoryStore := ledger (d_store (sp_durable bought)).

Lemma reopened_own_ids : own_ids (set_live {["shop" := shop]} reopened).
Proof.
  intros id c (env & (q & v & [Hv _] & Hf) & Hc). revert Hv. unfold dview.
  assert (view (d_store (sp_durable (set_live {["shop" := shop]} reopened))) =
    {["agentd/house/cred/spending/charges/acme.op1" :=
      (1%Z, to_value (mkEnvelope "cred" "spending/charges/acme.op1" 1 1700000000001 "house" None
        (to_value bought_charge)))]}) as -> by (vm_compute; reflexivity).
  intros [Hk Hv]%lookup_singleton_Some.
  change "agentd/house/cred/spending/charges/acme.op1" with
    (d_key (sp_durable (set_live {["shop" := shop]} reopened)) Cred (PREFIX +:+ "acme.op1")) in Hk.
  apply d_key_inj, string_app_inj in Hk as <-. apply pair_equal_spec in Hv as [_ <-].
  rewrite (from_to_value (A := Envelope)) in Hf. injection Hf as <-. cbn [env_state] in Hc.
  assert (Some c = Some bought_charge) as [= ->] by (rewrite <- Hc; vm_compute; reflexivity).
  vm_compute. reflexivity.
Qed.

Lemma charge_survives_crash_witness :
  charge_of "acme" "op1" (set_allowances {["shop" := shop]} reopened).1 =
    charge_of "acme" "op1" bought.
Proof.
  refine (charge_survives_crash "shop" "acme" "op1" (tokens 25) noon at_work bought false false
    policy_default ∅ {["shop" := shop]} (set_allowances {["shop" := shop]} reopened).1 _ _ _ _).
  - vm_compute; reflexivity.
  - apply reopened_own_ids.
  - apply insert_non_empty.
  - vm_compute; reflexivity.
Defined.
