(* ===== verification/Cron.v ===== *)
(** * The cron schedule ([triggers/timer.rs])

    Five fields read into bit sets, an instant decomposed in UTC, and the
    search minute by minute for the next instant that matches. *)

From S2P Require Export Text Calendar.
Open Scope Z_scope.

(** ** The expression *)

Record CronExpr := mkCron {
  minute : Z;
  hour : Z;
  dom : Z;
  month : Z;
  dow : Z;
  dom_restricted : bool;
  dow_restricted : bool;
}.

(** Why an expression does not read; [NoFuel] is never given (see
    [parse_field_total]). *)
Inductive CronError : Type :=
  | FieldCount (n : nat)
  | EmptyField
  | BadStep (term : list char)
  | ZeroStep (term : list char)
  | BadRange (range : list char)
  | BadValue (range : list char)
  | OutOfRange (lo hi : Z) (term : list char)
  | NoFuel.

(** [while v <= end { mask |= 1 << v; v += step }], the addition wrapping. *)
Fixpoint fill (fuel : nat) (mask v last step : Z) : option Z :=
  match fuel with
  | O => None
  | S f =>
      if v <=? last then fill f (Z.lor mask (Z.shiftl 1 v)) (u64_add v step) last step
      else Some mask
  end.

(** One term of a field: first value, last value, step. *)
Definition parse_range (lo hi : Z) (range : list char) : result CronError (Z * Z) :=
  if decide (range = ["*"%char]) then Ok (lo, hi)
  else match cut "-"%char range with
       | Some (a, b) =>
           s ← ok_or (BadRange range) (parse_u64 a);
           e ← ok_or (BadRange range) (parse_u64 b);
           Ok (s, e)
       | None =>
           v ← ok_or (BadValue range) (parse_u64 range);
           Ok (v, v)
       end.

Definition parse_term (lo hi : Z) (term : list char) : result CronError (Z * Z * Z) :=
  p ← match cut "/"%char term with
      | Some (r, s) => n ← ok_or (BadStep term) (parse_u64 s); Ok (r, n)
      | None => Ok (term, 1)
      end;
  if p.2 =? 0 then Err (ZeroStep term)
  else
    b ← parse_range lo hi p.1;
    if (b.1 <? lo) || (hi <? b.2) || (b.2 <? b.1) then Err (OutOfRange lo hi term)
    else Ok (b.1, b.2, p.2).

Fixpoint parse_terms (lo hi mask : Z) (terms : list (list char)) : result CronError Z :=
  match terms with
  | [] => Ok mask
  | term :: rest =>
      t ← parse_term lo hi term;
      mask ← ok_or NoFuel (fill 65 mask t.1.1 t.1.2 t.2);
      parse_terms lo hi mask rest
  end.

Definition parse_field (lo hi : Z) (field : list char) : result CronError Z :=
  match field with
  | [] => Err EmptyField
  | _ => parse_terms lo hi 0 (split_char ","%char field)
  end.

Definition star : list char := ["*"%char].

Definition cron_parse (expr : list char) : result CronError CronExpr :=
  match split_whitespace expr with
  | [f0; f1; f2; f3; f4] =>
      mi ← parse_field 0 59 f0;
      h ← parse_field 0 23 f1;
      d ← parse_field 1 31 f2;
      mo ← parse_field 1 12 f3;
      w ← parse_field 0 6 f4;
      Ok (mkCron mi h d mo w (negb (bool_decide (f2 = star))) (negb (bool_decide (f4 = star))))
  | f => Err (FieldCount (length f))
  end.

(** ** The schedule *)

Definition bit (mask v : Z) : bool := (v <? 64) && negb (Z.land mask (Z.shiftl 1 v) =? 0).

Record Tm := mkTm { t_minute : Z; t_hour : Z; t_dom : Z; t_month : Z; t_dow : Z }.

(** An instant in UTC; 1970-01-01 was a Thursday. *)
Definition decompose (secs : Z) : Tm :=
  let days := secs / 86400 in
  let secs_of_day := secs mod 86400 in
  let '(_, m, d) := civil_from_days days in
  mkTm ((secs_of_day mod 3600) / 60) (secs_of_day / 3600) d m ((days + 4) mod 7).

Definition cron_matches (c : CronExpr) (secs : Z) : bool :=
  let tm := decompose secs in
  if negb (bit (minute c) (t_minute tm) && bit (hour c) (t_hour tm) && bit (month c) (t_month tm))
  then false
  else
    let dom_ok := bit (dom c) (t_dom tm) in
    let dow_ok := bit (dow c) (t_dow tm) in
    match dom_restricted c, dow_restricted c with
    | true, true => dom_ok || dow_ok
    | true, false => dom_ok
    | false, true => dow_ok
    | false, false => true
    end.

(** [for _ in 0..n { if matches(t) { return Some(t) } t += 60 }]. *)
Fixpoint search (c : CronExpr) (n : nat) (t : Z) : option Z :=
  match n with
  | O => None
  | S n' => if cron_matches c t then Some t else search c n' (u64_add t 60)
  end.

(** Four years of minutes. *)
Definition HORIZON : Z := 366 * 24 * 60 * 4.
Definition first_minute (after : Z) : Z := u64_mul (u64_add (after / 60) 1) 60.
Definition next_after (c : CronExpr) (after : Z) : option Z :=
  search c (Z.to_nat HORIZON) (first_minute after).

(** ** Fields *)

Lemma bit_testbit m v : 0 <= m -> 0 <= v < 64 -> bit m v = Z.testbit m v.
Proof.
  intros Hm Hv. unfold bit. rewrite (proj2 (Z.ltb_lt v 64)) by lia. cbn [andb].
  rewrite Z.shiftl_1_l. destruct (Z.testbit m v) eqn:E.
  - apply negb_true_iff, Z.eqb_neq. intros Ez.
    assert (Z.testbit (Z.land m (2 ^ v)) v = false) as Hf by (rewrite Ez; apply Z.bits_0).
    rewrite Z.land_spec, E, Z.pow2_bits_true in Hf by lia. done.
  - apply negb_false_iff, Z.eqb_eq, Z.bits_inj'. intros n Hn.
    rewrite Z.land_spec, Z.bits_0, Z.pow2_bits_eqb by lia.
    destruct (Z.eqb_spec v n) as [<-|]; [by rewrite E|apply andb_false_r].
Qed.

(** Values a term stands for: from the first, by the step, to the last. *)
Definition in_term (t : Z * Z * Z) (v : Z) : Prop :=
  exists k, 0 <= k /\ v = t.1.1 + k * t.2 /\ v <= t.1.2.

(** A term whose step cannot take the counter past 64 bits. *)
Definition no_wrap (t : Z * Z * Z) : Prop := t.1.2 + t.2 <= u64_max.

Lemma testbit_set mask v i :
  0 <= v -> 0 <= i -> Z.testbit (Z.lor mask (Z.shiftl 1 v)) i = Z.testbit mask i || (v =? i).
Proof. intros Hv Hi. by rewrite Z.lor_spec, Z.shiftl_1_l, Z.pow2_bits_eqb. Qed.

Lemma fill_spec fuel mask v last step m :
  0 <= v -> 1 <= step -> last + step <= u64_max -> fill fuel mask v last step = Some m ->
  forall i, 0 <= i -> Z.testbit m i = true <-> Z.testbit mask i = true \/ in_term (v, last, step) i.
Proof.
  intros Hv Hs Hw. revert mask v Hv. induction fuel as [|f IH]; intros mask v Hv; cbn; [done|].
  destruct (Z.leb_spec v last) as [Hle|Hgt].
  - rewrite u64_add_small by (unfold_u; lia). intros E i Hi.
    rewrite (IH (Z.lor mask (Z.shiftl 1 v)) (v + step) ltac:(lia) E i Hi), testbit_set by lia. unfold in_term. cbn.
    rewrite orb_true_iff, Z.eqb_eq. split.
    + intros [[?| <-]|(k & Hk & -> & Hl)]; [by left|right; exists 0; lia|].
      right. exists (k + 1). lia.
    + intros [?|(k & Hk & -> & Hl)]; [by do 2 left|].
      destruct (decide (k = 0)) as [->|]; [left; right; lia|]. right. exists (k - 1). lia.
  - intros [= <-] i Hi. split; [by left|]. intros [?|(k & Hk & -> & Hl)]; [done|].
    unfold in_term in *. cbn in *. nia.
Qed.

(** The loop ends whatever the step: the counter climbs past the last value,
    or (a step past 2^64 less the counter) falls below zero and wraps out. *)
Lemma fill_total fuel mask v last step :
  0 <= v <= u64_max -> last < 64 -> 1 <= step <= u64_max ->
  0 < Z.of_nat fuel -> (step <= 2 ^ 63 -> last - v + 1 < Z.of_nat fuel) ->
  (2 ^ 63 < step -> v <= last -> v + 2 < Z.of_nat fuel) ->
  fill fuel mask v last step <> None.
Proof.
  revert mask v. induction fuel as [|f IH]; intros mask v Hv Hl Hs H0 H1 H2; cbn; [lia|].
  destruct (Z.leb_spec v last) as [Hle|Hgt]; [|done].
  assert (v < 64) by lia.
  destruct (decide (v + step <= u64_max)) as [Hn|Hn].
  - rewrite u64_add_small by (unfold_u; lia). apply IH; unfold_u; lia.
  - assert (u64_add v step = v + step - 2 ^ 64) as ->.
    { unfold_u. symmetry. apply (Z.mod_unique_pos _ _ 1); lia. }
    apply IH; unfold_u; lia.
Qed.

Lemma fill_nonneg fuel mask v last step m :
  0 <= mask -> 0 <= v -> fill fuel mask v last step = Some m -> 0 <= m.
Proof.
  revert mask v. induction fuel as [|f IH]; intros mask v Hm Hv; cbn; [done|].
  destruct (v <=? last); [|by intros [= <-]]. apply IH; [|apply u64_wrap_range].
  apply Z.lor_nonneg. split; [done|]. apply Z.shiftl_nonneg. lia.
Qed.

Lemma parse_u64_range l n : parse_u64 l = Some n -> is_u64 n.
Proof. apply parse_uint_range. Qed.

Ltac inv_ok :=
  repeat match goal with
  | H : context [ok_or ?e ?o] |- _ => destruct o eqn:?; cbn [ok_or] in H
  | H : context [_ ≫= _] |- _ => progress cbn [mbind result_bind] in H
  end.

Lemma parse_term_range lo hi term t :
  0 <= lo -> parse_term lo hi term = Ok t ->
  lo <= t.1.1 <= t.1.2 /\ t.1.2 <= hi /\ 1 <= t.2 <= u64_max.
Proof.
  intros Hlo. unfold parse_term, parse_range. intros E.
  destruct (match cut "/"%char term with Some _ => _ | None => _ end) as [[r n]|] eqn:En; [|done].
  assert (0 <= n <= u64_max) as Hn.
  { destruct (cut _ term) as [[r' s]|].
    - destruct (parse_u64 s) eqn:Es; [|done]. apply parse_u64_range in Es. by injection En as <- <-.
    - injection En as <- <-. unfold u64_max. lia. }
  cbn in E. destruct (Z.eqb_spec n 0) as [|Hn0]; [done|].
  destruct (if decide (r = ["*"%char]) then _ else _) as [[s e]|] eqn:Er; [|done].
  cbn in E. destruct ((s <? lo) || (hi <? e) || (e <? s)) eqn:Eb; [done|].
  injection E as <-. cbn. apply orb_false_iff in Eb as [[? ?]%orb_false_iff ?]. lia.
Qed.

(** The values a field stands for. *)
Definition field_has (lo hi : Z) (field : list char) (v : Z) : Prop :=
  exists term t, term ∈ split_char ","%char field /\ parse_term lo hi term = Ok t /\ in_term t v.
Definition steps_fit (lo hi : Z) (field : list char) : Prop :=
  forall term t, term ∈ split_char ","%char field -> parse_term lo hi term = Ok t -> no_wrap t.

Lemma parse_terms_spec lo hi mask terms m :
  0 <= lo -> 0 <= mask ->
  (forall term t, term ∈ terms -> parse_term lo hi term = Ok t -> no_wrap t) ->
  parse_terms lo hi mask terms = Ok m ->
  0 <= m /\ forall i, 0 <= i -> Z.testbit m i = true <->
    Z.testbit mask i = true \/ exists term t, term ∈ terms /\ parse_term lo hi term = Ok t /\ in_term t i.
Proof.
  intros Hlo. revert mask. induction terms as [|term rest IH]; intros mask Hm Hw E.
  - injection E as <-. split; [done|]. intros i Hi. split; [by left|].
    intros [?|(term & t & Hin & _)]; [done|by apply not_elem_of_nil in Hin].
  - cbn [parse_terms] in E. destruct (parse_term lo hi term) as [t|] eqn:Et; [|done].
    cbn [mbind result_bind] in E. pose proof (parse_term_range _ _ _ _ Hlo Et) as Hr.
    destruct (fill 65 mask t.1.1 t.1.2 t.2) as [m1|] eqn:Ef; [|done].
    cbn [ok_or mbind result_bind] in E.
    assert (no_wrap t) as Hnw by (eapply Hw; [by left|done]).
    assert (0 <= m1) as Hm1 by (eapply fill_nonneg; [..|done]; lia).
    destruct (IH m1 Hm1 ltac:(intros; eapply Hw; [by right|done]) E) as [Hm0 Hi].
    split; [done|]. intros i Hi0. rewrite (Hi i Hi0).
    rewrite (fill_spec 65 mask t.1.1 t.1.2 t.2 m1 ltac:(lia) ltac:(lia) Hnw Ef i Hi0).
    destruct t as [[s e] st]. cbn [fst snd] in *. setoid_rewrite elem_of_cons. split.
    + intros [[?|?]|(term' & t' & ? & ? & ?)]; [by left|right|right].
      * exists term, (s, e, st). auto.
      * exists term', t'. auto.
    + intros [?|(term' & t' & [->|?] & Et' & Hin)]; [by do 2 left| |right; eauto].
      left. right. rewrite Et in Et'. by injection Et' as <-.
Qed.

Lemma parse_field_bits lo hi field m v :
  0 <= lo -> parse_field lo hi field = Ok m -> steps_fit lo hi field -> 0 <= v < 64 ->
  bit m v = true <-> field_has lo hi field v.
Proof.
  intros Hlo E Hw Hv. unfold parse_field in E. destruct field as [|a field]; [done|].
  destruct (parse_terms_spec _ _ 0 _ _ Hlo (Z.le_refl 0) Hw E) as [Hm Hb].
  rewrite bit_testbit by done. rewrite (Hb v) by lia. rewrite Z.bits_0. unfold field_has.
  split; [intros [?|?]; done|by right].
Qed.

Lemma fill_term lo hi mask t :
  0 <= lo -> hi < 64 -> lo <= t.1.1 <= t.1.2 -> t.1.2 <= hi -> 1 <= t.2 <= u64_max -> hi < 61 ->
  fill 65 mask t.1.1 t.1.2 t.2 <> None.
Proof. intros. apply fill_total; unfold_u; lia. Qed.

Lemma parse_range_fuel lo hi r : parse_range lo hi r <> Err NoFuel.
Proof.
  unfold parse_range. destruct (decide _); [done|]. destruct (cut _ r) as [[a b]|].
  - destruct (parse_u64 a); cbn; [|done]. by destruct (parse_u64 b).
  - by destruct (parse_u64 r).
Qed.

Lemma parse_term_fuel lo hi term : parse_term lo hi term <> Err NoFuel.
Proof.
  unfold parse_term. set (p := match cut _ term with Some _ => _ | None => _ end).
  assert (p <> Err NoFuel) as Hp.
  { unfold p. destruct (cut _ term) as [[r s]|]; [|done]. by destruct (parse_u64 s). }
  destruct p as [[r n]|]; cbn; [|congruence]. destruct (n =? 0); [done|].
  pose proof (parse_range_fuel lo hi r). destruct (parse_range lo hi r); cbn; [|congruence].
  by case_match.
Qed.

(** reading a field always ends: no value, list, range or step (a step
    that wraps the 64-bit counter included) makes the loop over its values run
    out of its fuel, for every field of a cron expression. *)
Theorem parse_field_total lo hi field :
  0 <= lo -> hi <= 59 -> parse_field lo hi field <> Err NoFuel.
Proof.
  intros Hlo Hhi. unfold parse_field. destruct field as [|a field]; [done|].
  generalize 0%Z as mask. induction (split_char _ _) as [|term rest IH]; intros mask; [done|].
  cbn [parse_terms]. destruct (parse_term lo hi term) as [t|e] eqn:Et.
  - cbn [mbind result_bind]. destruct (parse_term_range _ _ _ _ Hlo Et) as (H1 & H2 & H3).
    pose proof (fill_term lo hi mask t) as Hf.
    destruct (fill 65 mask t.1.1 t.1.2 t.2) as [m1|] eqn:Ef; [apply IH|exfalso; apply Hf; auto; lia].
  - cbn [mbind result_bind]. intros [= ->]. by apply parse_term_fuel in Et.
Qed.

(** ** An instant *)

Lemma decompose_range secs :
  0 <= secs ->
  let tm := decompose secs in
  0 <= t_minute tm <= 59 /\ 0 <= t_hour tm <= 23 /\ 1 <= t_dom tm <= 31 /\ 1 <= t_month tm <= 12 /\
  0 <= t_dow tm <= 6.
Proof.
  intros Hs. unfold decompose. pose proof (civil_from_days_spec (secs / 86400)) as Hc.
  destruct (civil_from_days (secs / 86400)) as [[y m] d]. destruct Hc as (Hm & Hd & _). cbn.
  clear y. split_and!; Z.to_euclidean_division_equations; lia.
Qed.

(** ** The search *)

Lemma search_spec c n t :
  0 <= t -> t + 60 * Z.of_nat n <= u64_max ->
  match search c n t with
  | Some u => exists k, 0 <= k < Z.of_nat n /\ u = t + 60 * k /\ cron_matches c u = true /\
      forall j, 0 <= j < k -> cron_matches c (t + 60 * j) = false
  | None => forall j, 0 <= j < Z.of_nat n -> cron_matches c (t + 60 * j) = false
  end.
Proof.
  revert t. induction n as [|n IH]; intros t Ht Hm; cbn [search]; [lia|].
  destruct (cron_matches c t) eqn:E.
  - exists 0. split_and!; lia || done.
  - rewrite u64_add_small by (unfold_u; lia). specialize (IH (t + 60) ltac:(lia) ltac:(lia)).
    assert (forall j, 1 <= j -> t + 60 * j = t + 60 + 60 * (j - 1)) as Hshift by lia.
    destruct (search c n (t + 60)) as [u|].
    + destruct IH as (k & Hk & -> & Hmk & Hj). exists (k + 1). split; [lia|split; [lia|split; [done|]]].
      intros j Hjk. destruct (decide (j = 0)) as [->|]; [by rewrite Z.mul_0_r, Z.add_0_r|].
      rewrite Hshift by lia. apply Hj. lia.
    + intros j Hjn. destruct (decide (j = 0)) as [->|]; [by rewrite Z.mul_0_r, Z.add_0_r|].
      rewrite Hshift by lia. apply IH. lia.
Qed.

Lemma first_minute_spec after :
  0 <= after <= 2 ^ 63 -> first_minute after = (after / 60 + 1) * 60.
Proof.
  intros Ha. unfold first_minute, u64_mul, u64_add.
  assert (0 <= after / 60 <= 2 ^ 63) by (Z.to_euclidean_division_equations; lia).
  rewrite (u64_wrap_small (after / 60 + 1)) by (unfold_u; lia). apply u64_wrap_small.
  unfold_u. Z.to_euclidean_division_equations; lia.
Qed.

(** A minute boundary after [after], within the search. *)
Definition ahead (after t : Z) : Prop :=
  after < t /\ t mod 60 = 0 /\ t < (after / 60 + 1) * 60 + 60 * HORIZON.

Lemma ahead_index after t :
  ahead after t <-> exists k, 0 <= k < HORIZON /\ t = (after / 60 + 1) * 60 + 60 * k.
Proof.
  unfold ahead. split.
  - intros (H1 & H2 & H3). exists (t / 60 - (after / 60 + 1)).
    revert H3. generalize HORIZON. intros h H3. Z.to_euclidean_division_equations; lia.
  - intros (k & Hk & ->). generalize dependent HORIZON. intros h Hk.
    Z.to_euclidean_division_equations; lia.
Qed.

Lemma next_after_search c after :
  0 <= after <= 2 ^ 63 ->
  match next_after c after with
  | Some t => ahead after t /\ cron_matches c t = true /\
      forall u, ahead after u -> u < t -> cron_matches c u = false
  | None => forall u, ahead after u -> cron_matches c u = false
  end.
Proof.
  intros Ha. unfold next_after. rewrite first_minute_spec by done.
  assert (0 <= (after / 60 + 1) * 60 <= 2 ^ 63 + 60) as Hb
    by (Z.to_euclidean_division_equations; lia).
  pose proof (search_spec c (Z.to_nat HORIZON) ((after / 60 + 1) * 60)) as Hs.
  rewrite Z2Nat.id in Hs by done. specialize (Hs ltac:(lia)).
  assert (HORIZON = 2108160) as Hh by reflexivity.
  specialize (Hs ltac:(rewrite Hh; unfold u64_max; lia)).
  destruct (search _ _ _) as [t|].
  - destruct Hs as (k & Hk & -> & Hm & Hj). split; [apply ahead_index; by exists k|split; [done|]].
    intros u (j & Hj1 & ->)%ahead_index Hlt. apply Hj. lia.
  - intros u (j & Hj & ->)%ahead_index. by apply Hs.
Qed.

(** C10: the next firing is the next one: [next_after] answers an instant
    exactly when it is the first minute boundary strictly after [after], among
    the four years ahead, at which the expression matches, and answers nothing
    exactly when none of them does. *)
Theorem next_after_first c after :
  0 <= after <= 2 ^ 63 ->
  (forall t, next_after c after = Some t <->
     ahead after t /\ cron_matches c t = true /\
     forall u, ahead after u -> u < t -> cron_matches c u = false) /\
  (next_after c after = None <-> forall u, ahead after u -> cron_matches c u = false).
Proof.
  intros Ha. pose proof (next_after_search c after Ha) as Hs.
  destruct (next_after c after) as [t|]; split.
  - intros t'. split; [by intros [= <-]|]. intros (Hd & Hm & Hmin). f_equal.
    destruct Hs as (Hd' & Hm' & Hmin').
    destruct (Z.lt_trichotomy t t') as [Hlt|[->|Hlt]]; [|done|].
    + by rewrite (Hmin t Hd' Hlt) in Hm'.
    + by rewrite (Hmin' t' Hd Hlt) in Hm.
  - split; [done|]. intros Hn. destruct Hs as (Hd & Hm & _). by rewrite (Hn t Hd) in Hm.
  - intros t'. split; [done|]. intros (Hd & Hm & _). by rewrite (Hs t' Hd) in Hm.
  - done.
Qed.

(** ** Samples *)

Lemma parse_field_total_witness : parse_field 0 59 (chars "5/18446744073709551615") <> Err NoFuel.
Proof. apply (parse_field_total 0 59); lia. Defined.

Lemma next_after_first_witness :
  let c := mkCron 1 512 4294967294 8190 62 false true in
  (forall t, next_after c 1704067200 = Some t <->
     ahead 1704067200 t /\ cron_matches c t = true /\
     forall u, ahead 1704067200 u -> u < t -> cron_matches c u = false) /\
  (next_after c 1704067200 = None <-> forall u, ahead 1704067200 u -> cron_matches c u = false).
Proof. apply next_after_first. lia. Defined.

(** A step near 2^64 wraps the counter: [5/18446744073709551615] takes minute
    3, though no value from 5 up to 5 is 3. *)
Lemma huge_step_wraps :
  parse_field 0 59 (chars "5/18446744073709551615") = Ok 63 /\ bit 63 3 = true.
Proof. split; vm_compute; reflexivity. Qed.

(** No 29 February lies within the four years after the one of 2096 (2100
    is no leap year): [0 0 29 2 *] then has no next firing, though 2104 has one. *)
Definition leap_day : CronExpr := mkCron 1 1 536870912 4 127 true false.
Definition leap_2096 : Z := 86400 * 46080.

Lemma no_leap_day : forallb (fun k =>
    let '(_, m, d) := civil_from_days (46081 + Z.of_nat k) in
    negb (bit (month leap_day) m && bit (dom leap_day) d)) (seq 0 1464) = true.
Proof. vm_compute. reflexivity. Qed.

Lemma leap_day_missed :
  cron_matches leap_day leap_2096 = true /\ next_after leap_day leap_2096 = None /\
  cron_matches leap_day (86400 * (46080 + 2921)) = true.
Proof.
  split; [vm_compute; reflexivity|]. split; [|vm_compute; reflexivity].
  pose proof (next_after_search leap_day leap_2096 ltac:(unfold leap_2096; lia)) as Hs.
  destruct (next_after leap_day leap_2096) as [t|]; [|done]. exfalso.
  destruct Hs as ((H1 & H2 & H3) & Hm & _). change HORIZON with 2108160 in H3.
  unfold leap_2096 in *. revert Hm.
  unfold cron_matches, decompose.
  assert (46080 <= t / 86400 <= 46080 + 1464) as Hd by (Z.to_euclidean_division_equations; lia).
  set (day := t / 86400) in *.
  destruct (decide (day = 46080)) as [Heq|Hne].
  - intros Hm. assert (60 <= t mod 86400 < 86400) as Hsod.
    { unfold day in *. Z.to_euclidean_division_equations; lia. }
    rewrite Heq in Hm. set (sod := t mod 86400) in *. clearbody sod. vm_compute (civil_from_days _) in Hm.
    revert Hm. cbn [minute hour month leap_day t_minute t_hour t_month].
    assert (1 <= sod / 3600 \/ 1 <= (sod mod 3600) / 60) as Hor by (Z.to_euclidean_division_equations; lia).
    assert (forall v, 1 <= v < 64 -> bit 1 v = false) as Hb.
    { intros v Hv. rewrite bit_testbit by lia. apply Z.testbit_false; [lia|].
      rewrite Z.div_small; [done|]. split; [lia|]. apply Z.pow_gt_1; lia. }
    assert (0 <= sod / 3600 < 64 /\ 0 <= (sod mod 3600) / 60 < 64) by (Z.to_euclidean_division_equations; lia).
    destruct Hor; [rewrite (Hb (sod / 3600)) by lia|rewrite (Hb (_ / 60)) by lia];
      by rewrite ?andb_false_r.
  - pose proof no_leap_day as Hn. rewrite forallb_forall in Hn.
    specialize (Hn (Z.to_nat (day - 46081))). rewrite Z2Nat.id in Hn by lia.
    replace (46081 + (day - 46081)) with day in Hn by lia.
    specialize (Hn ltac:(apply in_seq; lia)). destruct (civil_from_days day) as [[y m] d].
    apply negb_true_iff in Hn. cbn [t_minute t_hour t_month t_dom dom_restricted dow_restricted leap_day].
    destruct (bit _ _ && bit _ _ && bit (month leap_day) m) eqn:E; [|done].
    apply andb_true_iff in E as [_ E]. rewrite E in Hn. cbn [negb andb] in Hn |- *. by rewrite Hn.
Qed.
