(* ===== verification/CronProps.v ===== *)
(** * What a cron expression means

    A meaning of the five fields stated apart from the code of [Cron]: the
    forms a term is written in, the values each stands for, and the instants of
    the calendar counted day by day from 1970-01-01, a Thursday. *)

From S2P Require Export Cron.
Open Scope Z_scope.

(** ** Numbers, ranges and terms as they are written *)

Fixpoint place_value (ds : list char) : Z :=
  match ds with
  | [] => 0
  | c :: rest => digit_val c * 10 ^ Z.of_nat (length rest) + place_value rest
  end.

(** Digits, after a plus sign or not, of a number of 64 bits. *)
Definition numeral (s : list char) (n : Z) : Prop :=
  exists ds, (s = ds \/ s = "+"%char :: ds) /\ ds <> [] /\ Forall (fun c => is_digit c = true) ds /\
    n = place_value ds /\ n <= u64_max.

(** [*] is every value of the field, a number that value, [a-b] those between. *)
Inductive range_of (lo hi : Z) : list char -> Z -> Z -> Prop :=
  | range_every : range_of lo hi ["*"%char] lo hi
  | range_value s v : numeral s v -> range_of lo hi s v v
  | range_span s t a b : numeral s a -> numeral t b -> range_of lo hi (s ++ "-"%char :: t) a b.

(** A range, every value of it or with [/n] every n-th from the first. *)
Inductive term_of (lo hi : Z) : list char -> Z -> Z -> Z -> Prop :=
  | term_plain r a b : range_of lo hi r a b -> term_of lo hi r a b 1
  | term_step r s a b n :
      range_of lo hi r a b -> numeral s n -> term_of lo hi (r ++ "/"%char :: s) a b n.

Definition good_term (lo hi : Z) (term : list char) : Prop :=
  exists a b n, term_of lo hi term a b n /\ n <> 0 /\ lo <= a <= b /\ b <= hi.
Definition good_field (lo hi : Z) (field : list char) : Prop :=
  field <> [] /\ forall term, term ∈ split_char ","%char field -> good_term lo hi term.

Definition stands_for (lo hi : Z) (field : list char) (v : Z) : Prop :=
  exists term a b n, term ∈ split_char ","%char field /\ term_of lo hi term a b n /\
    a <= v <= b /\ (n | v - a).

(** ** Instants *)

(** The day of the week, Sunday 0: day 0 was a Thursday. *)
Definition weekday_at (n : nat) : Z := Nat.iter n (fun w => if w =? 6 then 0 else w + 1) 4.

(** The UTC day, hour and minute an instant falls in. *)
Definition falls_in (secs : Z) (day : nat) (h mi : Z) : Prop :=
  exists s, secs = Z.of_nat day * 86400 + h * 3600 + mi * 60 + s /\
    0 <= h < 24 /\ 0 <= mi < 60 /\ 0 <= s < 60.

(** ** Expressions *)

Definition well_written (fields : list (list char)) : Prop :=
  match fields with
  | [mi; h; d; mo; w] =>
      good_field 0 59 mi /\ good_field 0 23 h /\ good_field 1 31 d /\ good_field 1 12 mo /\ good_field 0 6 w
  | _ => False
  end.

(** The minute, hour and month are in their fields; the day is in the field of
    the two that is restricted, or in either when both are. *)
Definition fires (fields : list (list char)) (secs : Z) : Prop :=
  match fields with
  | [mi; h; d; mo; w] =>
      exists day hour minute, falls_in secs day hour minute /\
      let '(_, m, dd) := date_at day in
      let on_dom := stands_for 1 31 d dd in
      let on_dow := stands_for 0 6 w (weekday_at day) in
      stands_for 0 59 mi minute /\ stands_for 0 23 h hour /\ stands_for 1 12 mo m /\
      (d = star /\ w = star \/ d = star /\ w <> star /\ on_dow \/ d <> star /\ w = star /\ on_dom \/
       d <> star /\ w <> star /\ (on_dom \/ on_dow))
  | _ => False
  end.

(** No step is within a field's length of the end of 64 bits. *)
Definition no_huge_step (fields : list (list char)) : Prop :=
  forall field term r s n, field ∈ fields -> term ∈ split_char ","%char field ->
    term = r ++ "/"%char :: s -> numeral s n -> n <= u64_max - 59.

(** ** The parser reads what is written *)

Lemma eval_place ds : eval ds = place_value ds.
Proof.
  induction ds as [|c ds IH]; [done|]. cbn [place_value]. rewrite <- IH.
  change (eval (c :: ds)) with (eval_from (0 * 10 + digit_val c) ds). rewrite eval_from_val. lia.
Qed.

Lemma parse_u64_numeral s n : parse_u64 s = Some n <-> numeral s n.
Proof.
  unfold parse_u64, parse_uint, numeral. split.
  - destruct (match s with [] => [] | _ => _ end) as [|c ds] eqn:Eds; [done|].
    destruct (forallb is_digit (c :: ds) && _) eqn:E; [|done]. intros [= <-].
    apply andb_true_iff in E as [Hd Hm]. rewrite forallb_forall in Hd. exists (c :: ds). rewrite <- eval_place.
    split_and!; try done.
    + destruct s as [|a s]; [done|]. destruct (decide (a = "+"%char)) as [->|]; [right|left]; congruence.
    + apply Forall_forall. intros x Hx%list_elem_of_In. by apply Hd.
    + lia.
  - intros (ds & Hs & Hne & Hd & -> & Hm).
    assert ((match s with a :: s' => if decide (a = "+"%char) then s' else s | [] => [] end) = ds) as ->.
    { destruct Hs as [->| ->]; [|by rewrite decide_True]. destruct ds as [|a ds]; [done|].
      by rewrite decide_False by (by eapply digits_no_plus). }
    destruct ds as [|a ds]; [done|]. rewrite <- eval_place in *.
    assert (forallb is_digit (a :: ds) = true) as ->; [|by rewrite (proj2 (Z.leb_le _ _) Hm)].
    rewrite forallb_forall. rewrite Forall_forall in Hd. intros x Hx%list_elem_of_In. by apply Hd.
Qed.

Lemma numeral_chars s n c : numeral s n -> c ∈ s -> is_digit c = true \/ c = "+"%char.
Proof.
  intros (ds & Hs & _ & Hd & _). rewrite Forall_forall in Hd.
  destruct Hs as [->| ->]; [by left; apply Hd|]. intros [->|?]%elem_of_cons; [by right|left; by apply Hd].
Qed.
Lemma numeral_no c s n : numeral s n -> is_digit c = false -> c <> "+"%char -> c ∉ s.
Proof. intros Hs Hc Hp [?|?]%(numeral_chars s n c Hs); congruence. Qed.

Lemma parse_range_spec lo hi r a b : parse_range lo hi r = Ok (a, b) <-> range_of lo hi r a b.
Proof.
  unfold parse_range. split.
  - case_decide as Hr; [intros [= <- <-]; subst; constructor|].
    destruct (cut "-"%char r) as [[s t]|] eqn:Ec.
    + destruct (parse_u64 s) eqn:Es; [|done]. destruct (parse_u64 t) eqn:Et; [|done]. intros [= -> ->].
      apply cut_Some in Ec as [-> _]. constructor; by apply parse_u64_numeral.
    + destruct (parse_u64 r) eqn:Es; [|done]. intros [= -> ->]. constructor. by apply parse_u64_numeral.
  - intros [|s v Hs|s t x y Hs Ht].
    + by rewrite decide_True.
    + rewrite decide_False. { rewrite (proj2 (cut_None _ _)) by (by eapply numeral_no).
        by rewrite (proj2 (parse_u64_numeral _ _) Hs). }
      intros ->. by destruct (numeral_chars _ _ "*"%char Hs ltac:(by left)).
    + rewrite decide_False. { rewrite cut_app by (by eapply numeral_no).
        by rewrite (proj2 (parse_u64_numeral _ _) Hs), (proj2 (parse_u64_numeral _ _) Ht). }
      intros E. by destruct s as [|c [|]].
Qed.

Lemma range_no_slash lo hi r a b : range_of lo hi r a b -> "/"%char ∉ r.
Proof.
  intros [|s v Hs|s t x y Hs Ht].
  - by intros H%list_elem_of_singleton.
  - by eapply numeral_no.
  - rewrite elem_of_app, elem_of_cons. intros [H|[H|H]]; [revert H; by eapply numeral_no|done|revert H; by eapply numeral_no].
Qed.

(** The two parts [parse_term] reads. *)
Definition step_part (term : list char) : result CronError (list char * Z) :=
  match cut "/"%char term with
  | Some (r, s) => n ← ok_or (BadStep term) (parse_u64 s); Ok (r, n)
  | None => Ok (term, 1)
  end.

Lemma term_of_parts lo hi term a b n :
  term_of lo hi term a b n <->
  exists r, step_part term = Ok (r, n) /\ parse_range lo hi r = Ok (a, b).
Proof.
  unfold step_part. split.
  - intros [r x y Hr|r s x y k Hr Hs]; exists r; (split; [|by apply parse_range_spec]).
    + by rewrite (proj2 (cut_None _ _)) by (by eapply range_no_slash).
    + rewrite cut_app by (by eapply range_no_slash). by rewrite (proj2 (parse_u64_numeral _ _) Hs).
  - intros (r & E & Hr%parse_range_spec). destruct (cut "/"%char term) as [[r' s]|] eqn:Ec.
    + destruct (parse_u64 s) as [k|] eqn:Es; [|done]. injection E as -> ->.
      apply cut_Some in Ec as [-> _]. constructor; [done|by apply parse_u64_numeral].
    + injection E as -> <-. by constructor.
Qed.

Lemma parse_term_spec lo hi term a b n :
  parse_term lo hi term = Ok (a, b, n) <-> term_of lo hi term a b n /\ n <> 0 /\ lo <= a <= b /\ b <= hi.
Proof.
  rewrite term_of_parts. unfold parse_term. fold (step_part term). split.
  - intros E. destruct (step_part term) as [[r k]|]; [|done]. cbn [mbind result_bind snd fst] in E.
    destruct (Z.eqb_spec k 0) as [|Hk]; [done|].
    destruct (parse_range lo hi r) as [[x y]|] eqn:Er; [|done]. cbn [mbind result_bind fst snd] in E.
    destruct ((x <? lo) || (hi <? y) || (y <? x)) eqn:Eb; [done|]. injection E as -> -> ->.
    split; [by exists r|]. lia.
  - intros ((r & -> & Er) & Hn & Ha & Hb). cbn [mbind result_bind snd fst]. rewrite Er.
    destruct (Z.eqb_spec n 0) as [|_]; [lia|]. cbn [mbind result_bind snd fst].
    by destruct (Z.ltb_spec a lo), (Z.ltb_spec hi b), (Z.ltb_spec b a); try lia.
Qed.

Lemma term_of_fun lo hi term a b n a' b' n' :
  term_of lo hi term a b n -> term_of lo hi term a' b' n' -> a = a' /\ b = b' /\ n = n'.
Proof.
  rewrite !term_of_parts. intros (r & E & Er) (r' & E' & Er').
  rewrite E in E'. injection E' as <- <-. rewrite Er in Er'. by injection Er' as <- <-.
Qed.

Lemma term_of_step lo hi term a b n : term_of lo hi term a b n -> n = 1 \/ exists r s, term = r ++ "/"%char :: s /\ numeral s n.
Proof. intros [|r s x y k _ Hs]; [by left|right; by exists r, s]. Qed.
Lemma term_of_nonneg lo hi term a b n : term_of lo hi term a b n -> 0 <= n.
Proof.
  intros [->|(r & s & _ & Hs)]%term_of_step; [done|].
  by apply parse_u64_numeral, parse_u64_range in Hs as [? _].
Qed.

Lemma in_term_iff a b n v : 1 <= n -> in_term (a, b, n) v <-> a <= v <= b /\ (n | v - a).
Proof.
  intros Hn. unfold in_term. cbn [fst snd]. split.
  - intros (k & Hk & -> & Hl). split; [nia|]. exists k. lia.
  - intros [Hv [k Hk]]. exists k. nia.
Qed.

Lemma field_has_iff lo hi field v :
  good_field lo hi field -> field_has lo hi field v <-> stands_for lo hi field v.
Proof.
  intros [_ Hg]. split.
  - intros (term & [[a b] n] & Hin & Et & Hv). apply parse_term_spec in Et as (Ht & Hn & _).
    apply term_of_nonneg in Ht as Hp. apply in_term_iff in Hv; [|lia]. by exists term, a, b, n.
  - intros (term & a & b & n & Hin & Ht & Hv). destruct (Hg term Hin) as (a' & b' & n' & Ht' & Hr').
    pose proof (proj2 (parse_term_spec lo hi term a' b' n') (conj Ht' Hr')) as E'.
    destruct (term_of_fun lo hi term a b n a' b' n' Ht Ht') as (-> & -> & ->).
    exists term, (a', b', n'). split_and!; [done..|]. apply term_of_nonneg in Ht. apply in_term_iff; [lia|done].
Qed.

Lemma parse_terms_Ok lo hi terms mask m :
  parse_terms lo hi mask terms = Ok m -> forall term, term ∈ terms -> good_term lo hi term.
Proof.
  revert mask. induction terms as [|t0 rest IH]; intros mask E term Hin; [by apply elem_of_nil in Hin|].
  cbn [parse_terms] in E. destruct (parse_term lo hi t0) as [[[a b] n]|] eqn:Et; [|done].
  cbn [mbind result_bind] in E. destruct (fill 65 _ _ _ _) eqn:Ef; [|done]. cbn [ok_or mbind result_bind] in E.
  apply elem_of_cons in Hin as [->|Hin]; [|by eapply IH]. apply parse_term_spec in Et. by exists a, b, n.
Qed.

Lemma parse_terms_good lo hi terms mask :
  0 <= lo -> hi <= 59 -> (forall term, term ∈ terms -> good_term lo hi term) ->
  exists m, parse_terms lo hi mask terms = Ok m.
Proof.
  intros Hlo Hhi. revert mask. induction terms as [|t0 rest IH]; intros mask Hg; [by exists mask|].
  destruct (Hg t0 ltac:(by left)) as (a & b & n & Ht%parse_term_spec). cbn [parse_terms]. rewrite Ht.
  cbn [mbind result_bind]. destruct (parse_term_range _ _ _ _ Hlo Ht) as (H1 & H2 & H3).
  pose proof (fill_term lo hi mask (a, b, n)) as Hf. cbn [fst snd] in *.
  destruct (fill 65 mask a b n) as [m1|]; [|exfalso; apply Hf; auto; lia].
  cbn [ok_or mbind result_bind]. apply IH. intros term Hin. apply Hg. by right.
Qed.

Definition is_Ok {E A} (r : result E A) : Prop := exists a, r = Ok a.

(** A field reads exactly when it is well written, ... *)
Lemma parse_field_good lo hi field :
  0 <= lo -> hi <= 59 -> good_field lo hi field <-> is_Ok (parse_field lo hi field).
Proof.
  intros Hlo Hhi. unfold good_field, parse_field. split.
  - intros [Hne Hg]. destruct field as [|c field]; [done|]. by apply parse_terms_good.
  - intros [m E]. destruct field as [|c field]; [done|]. split; [done|]. by eapply parse_terms_Ok.
Qed.

Lemma no_huge_fits lo hi field :
  hi <= 59 -> (forall term r s n, term ∈ split_char ","%char field -> term = r ++ "/"%char :: s -> numeral s n ->
    n <= u64_max - 59) -> steps_fit lo hi field.
Proof.
  intros Hhi Hn term [[a b] n] Hin Et. unfold no_wrap. cbn [fst snd].
  apply parse_term_spec in Et as (Ht & _ & _ & Hb).
  apply term_of_step in Ht as [->|(r & s & E & Hs)]; [unfold u64_max; lia|].
  specialize (Hn term r s n Hin E Hs). lia.
Qed.

(** ... and its bits are then the values it stands for. *)
Lemma field_bit lo hi field m v :
  0 <= lo -> hi <= 59 -> parse_field lo hi field = Ok m ->
  (forall term r s n, term ∈ split_char ","%char field -> term = r ++ "/"%char :: s -> numeral s n ->
    n <= u64_max - 59) -> 0 <= v < 64 -> bit m v = true <-> stands_for lo hi field v.
Proof.
  intros Hlo Hhi E Hn Hv. rewrite (parse_field_bits lo hi field m v Hlo E); [|by apply no_huge_fits|done].
  apply field_has_iff. apply parse_field_good; [done..|by exists m].
Qed.

(** ** The instants are the calendar's *)

Lemma weekday_counts n : (Z.of_nat n + 4) mod 7 = weekday_at n.
Proof.
  induction n as [|n IH]; [done|].
  change (weekday_at (S n)) with (if weekday_at n =? 6 then 0 else weekday_at n + 1). rewrite <- IH.
  destruct (Z.eqb_spec ((Z.of_nat n + 4) mod 7) 6); Z.to_euclidean_division_equations; lia.
Qed.

Lemma falls_in_iff secs day h mi :
  falls_in secs day h mi <->
  Z.of_nat day = secs / 86400 /\ h = secs mod 86400 / 3600 /\ mi = secs mod 86400 mod 3600 / 60.
Proof.
  unfold falls_in. split.
  - intros (s & -> & Hh & Hm & Hs). Z.to_euclidean_division_equations. lia.
  - intros (Hd & -> & ->). exists (secs mod 60). Z.to_euclidean_division_equations. lia.
Qed.

Lemma decompose_at secs day h mi :
  falls_in secs day h mi ->
  decompose secs = let '(_, m, d) := date_at day in mkTm mi h d m (weekday_at day).
Proof.
  intros (Hd & -> & ->)%falls_in_iff. unfold decompose. rewrite <- Hd, civil_counts.
  destruct (date_at day) as [[y m] d]. by rewrite weekday_counts.
Qed.

Lemma falls_in_fun secs day h mi day' h' mi' :
  falls_in secs day h mi -> falls_in secs day' h' mi' -> day = day' /\ h = h' /\ mi = mi'.
Proof. rewrite !falls_in_iff. intros (E1 & -> & ->) (E2 & -> & ->). split_and!; lia. Qed.

(** ** What an expression means *)

Lemma day_rule (f2 f4 : list char) (od ow : bool) (D W : Prop) :
  (od = true <-> D) -> (ow = true <-> W) ->
  (match negb (bool_decide (f2 = star)), negb (bool_decide (f4 = star)) with
   | true, true => od || ow | true, false => od | false, true => ow | false, false => true end = true <->
   f2 = star /\ f4 = star \/ f2 = star /\ f4 <> star /\ W \/ f2 <> star /\ f4 = star /\ D \/
   f2 <> star /\ f4 <> star /\ (D \/ W)).
Proof.
  intros <- <-. destruct (bool_decide_reflect (f2 = star)), (bool_decide_reflect (f4 = star)), od, ow;
    cbn; intuition congruence.
Qed.

(** C9: a cron expression means what its five fields say.  It reads exactly
    when it has five fields and each is a list of terms of the field's range:
    every value, one value, the values between two, or every n-th of those from
    the first. When it reads (and no step is within 59 of 2^64), an instant
    matches exactly when its minute and hour, and the month and day that
    counting the Gregorian calendar from Thursday 1970-01-01 gives it, are
    values the fields stand for: the day in the day-of-month or the day-of-week
    field, in the one that is restricted, or in either when both are. *)
Theorem cron_meaning expr :
  let fields := split_whitespace expr in
  match cron_parse expr with
  | Ok c => well_written fields /\
      (no_huge_step fields -> forall secs, 0 <= secs -> cron_matches c secs = true <-> fires fields secs)
  | Err _ => ~ well_written fields
  end.
Proof.
  cbv zeta. unfold cron_parse. destruct (split_whitespace expr) as [|f0 [|f1 [|f2 [|f3 [|f4 [|]]]]]]; try by intros [].
  assert (well_written [f0; f1; f2; f3; f4] <->
    is_Ok (parse_field 0 59 f0) /\ is_Ok (parse_field 0 23 f1) /\ is_Ok (parse_field 1 31 f2) /\
    is_Ok (parse_field 1 12 f3) /\ is_Ok (parse_field 0 6 f4)) as Hww
    by (unfold well_written; by rewrite !parse_field_good by lia).
  destruct (parse_field 0 59 f0) as [mi|] eqn:E0; [|by intros ([? [=]] & _)%Hww]. cbn [mbind result_bind].
  destruct (parse_field 0 23 f1) as [h|] eqn:E1; [|by intros (_ & [? [=]] & _)%Hww]. cbn [mbind result_bind].
  destruct (parse_field 1 31 f2) as [d|] eqn:E2; [|by intros (_ & _ & [? [=]] & _)%Hww]. cbn [mbind result_bind].
  destruct (parse_field 1 12 f3) as [mo|] eqn:E3; [|by intros (_ & _ & _ & [? [=]] & _)%Hww]. cbn [mbind result_bind].
  destruct (parse_field 0 6 f4) as [w|] eqn:E4; [|by intros (_ & _ & _ & _ & [? [=]])%Hww]. cbn [mbind result_bind].
  split; [apply Hww; unfold is_Ok; split_and!; eauto|]. intros Hn secs Hs. pose proof (decompose_range secs Hs) as Hr. cbv zeta in Hr.
  set (day := Z.to_nat (secs / 86400)).
  assert (falls_in secs day (secs mod 86400 / 3600) (secs mod 86400 mod 3600 / 60)) as Hf.
  { apply falls_in_iff. unfold day. rewrite Z2Nat.id by (apply Z.div_pos; lia). done. }
  assert (forall lo hi f m v, f ∈ [f0; f1; f2; f3; f4] -> 0 <= lo -> hi <= 59 -> parse_field lo hi f = Ok m ->
    0 <= v < 64 -> bit m v = true <-> stands_for lo hi f v) as Hb.
  { intros lo hi f m v Hin Hlo Hhi E Hv. apply field_bit; try done.
    intros term r s n Ht Eq Hs'. by eapply Hn. }
  unfold cron_matches. rewrite (decompose_at _ _ _ _ Hf) in *. unfold fires.
  destruct (date_at day) as [[y m] dd] eqn:Ed. cbn [t_minute t_hour t_dom t_month t_dow Cron.minute Cron.hour Cron.dom
    Cron.month Cron.dow dom_restricted dow_restricted] in *.
  pose proof (day_rule f2 f4 _ _ _ _ (Hb 1 31 f2 d dd ltac:(set_solver) ltac:(lia) ltac:(lia) E2 ltac:(lia))
    (Hb 0 6 f4 w (weekday_at day) ltac:(set_solver) ltac:(lia) ltac:(lia) E4 ltac:(lia))) as Hday.
  pose proof (Hb 0 59 f0 mi (secs mod 86400 mod 3600 / 60) ltac:(set_solver) ltac:(lia) ltac:(lia) E0 ltac:(lia)) as Bm.
  pose proof (Hb 0 23 f1 h (secs mod 86400 / 3600) ltac:(set_solver) ltac:(lia) ltac:(lia) E1 ltac:(lia)) as Bh.
  pose proof (Hb 1 12 f3 mo m ltac:(set_solver) ltac:(lia) ltac:(lia) E3 ltac:(lia)) as Bmo.
  split.
  - destruct (bit mi _) eqn:G0; [|done]. destruct (bit h _) eqn:G1; [|done]. destruct (bit mo _) eqn:G2; [|done].
    cbn [andb negb]. intros G. exists day, (secs mod 86400 / 3600), (secs mod 86400 mod 3600 / 60).
    split; [done|]. rewrite Ed. split_and!; [by apply Bm|by apply Bh|by apply Bmo|by apply Hday].
  - intros (day' & h' & mi' & Hf' & G). destruct (falls_in_fun _ _ _ _ _ _ _ Hf Hf') as (<- & <- & <-).
    rewrite Ed in G. destruct G as (G0%Bm & G1%Bh & G2%Bmo & G3%Hday). by rewrite G0, G1, G2.
Qed.

(** ** A sample *)

Definition weekday_nine : list char := chars "0 9 * * 1-5".

Lemma split_char_elem c l term : term ∈ split_char c l -> forall a, a ∈ term -> a ∈ l.
Proof.
  revert term. induction l as [|x l IH]; cbn; intros term Hin a Ha.
  - apply list_elem_of_singleton in Hin as ->. by apply elem_of_nil in Ha.
  - case_decide.
    + apply elem_of_cons in Hin as [->|Hin]; [by apply elem_of_nil in Ha|right; by eapply IH].
    + destruct (split_char c l) as [|t ts].
      * apply list_elem_of_singleton in Hin as ->. apply list_elem_of_singleton in Ha as ->. by left.
      * apply elem_of_cons in Hin as [->|Hin]; [|right; eapply IH; [by right|done]].
        apply elem_of_cons in Ha as [->|Ha]; [by left|right; eapply IH; [by left|done]].
Qed.

Lemma no_step_fits fields : forallb (fun f => negb (bool_decide ("/"%char ∈ f))) fields = true -> no_huge_step fields.
Proof.
  intros Hall field term r s n Hf Ht -> _. exfalso. rewrite forallb_forall in Hall.
  specialize (Hall field (proj1 (list_elem_of_In _ _) Hf)). apply negb_true_iff, bool_decide_eq_false in Hall.
  apply Hall, (split_char_elem _ _ _ Ht). apply elem_of_app. right. by left.
Qed.

(** 2024-01-01 was a Monday: nine o'clock that day is one of its instants. *)
Lemma cron_meaning_witness :
  well_written (split_whitespace weekday_nine) /\ fires (split_whitespace weekday_nine) 1704099600.
Proof.
  pose proof (cron_meaning weekday_nine) as H. cbv zeta in H.
  assert (cron_parse weekday_nine = Ok (mkCron 1 512 4294967294 8190 62 false true)) as E by (vm_compute; reflexivity).
  rewrite E in H. destruct H as [Hw Hf]. split; [exact Hw|].
  apply (Hf (no_step_fits (split_whitespace weekday_nine) ltac:(vm_compute; reflexivity)) 1704099600); [lia|vm_compute; reflexivity].
Defined.
