(* ===== verification/Breaker.v ===== *)
(** * The circuit breaker ([runtime/breaker.rs]) and durations

    The breaker's durable state is a JSON object, kept as the code keeps it;
    [circuit_of] reads it as the abstract machine (closed, open, half-open with
    a live probe), which [gate] and [record] are shown to implement. *)

From S2P Require Export Json Text.
Open Scope Z_scope.

(** ** Durations ([config::parse_duration]) *)

Inductive DurationError : Type :=
  | EmptyDuration
  | InvalidDuration (s : list char)
  | UnknownUnit (unit s : list char).

(** [s.find(is_ascii_alphabetic)] and the split there. *)
Fixpoint split_alpha (l : list char) : option (list char * list char) :=
  match l with
  | [] => None
  | a :: l' =>
      if is_alpha a then Some ([], l)
      else match split_alpha l' with Some (x, y) => Some (a :: x, y) | None => None end
  end.

(** The duration in milliseconds; a multiplication that overflows wraps. *)
Definition parse_duration (s : list char) : result DurationError Z :=
  let s := trim s in
  match s with
  | [] => Err EmptyDuration
  | _ =>
      let '(num, unit) := default (s, ["s"%char]) (split_alpha s) in
      n ← ok_or (InvalidDuration s) (parse_u64 num);
      if decide (unit = chars "ms") then Ok n
      else if decide (unit = chars "s") then Ok (1000 * n)
      else if decide (unit = chars "m") then Ok (1000 * u64_mul n 60)
      else if decide (unit = chars "h") then Ok (1000 * u64_mul n 3600)
      else if decide (unit = chars "d") then Ok (1000 * u64_mul n 86400)
      else if decide (unit = chars "w") then Ok (1000 * u64_mul n 604800)
      else Err (UnknownUnit unit s)
  end.

(** ** The machine *)

Record Config := mkConfig { failures : Z; cooldown_ms : Z }.

Definition config_of (b : option Value) : option Config :=
  b ← b;
  n ← get "failures" b ≫= as_u64;
  d ← get "cooldown" b ≫= as_str;
  ms ← ok (parse_duration (chars d));
  if 1 <=? u32_wrap n then Some (mkConfig (u32_wrap n) (u64_wrap ms)) else None.

Inductive Gate : Type :=
  | Proceed
  | Probe
  | FastFail (retry_in_ms : Z).

(** A number field of the state, 0 when there is none. *)
Definition u (v : Value) (k : string) : Z := default 0 (get k v ≫= as_u64).
Definition is_open (v : Value) : bool := bool_decide (get "state" v ≫= as_str = Some "open").

(** [v[k] = x] on an object or null (on any other value it panics). *)
Definition set_key (k : string) (x v : Value) : Value :=
  match v with
  | VObj o => VObj (obj_insert k x o)
  | VNull => VObj [(k, x)]
  | _ => v
  end.

Definition gate (cfg : Config) (now : Z) (state : Value) : Value * Gate :=
  if negb (is_open state) then (state, Proceed)
  else
    let opened := u state "opened_ms" in
    if now <? u64_sat_add opened (cooldown_ms cfg)
    then (state, FastFail (u64_wrap (opened + cooldown_ms cfg - now)))
    else
      let probe := u state "probe_ms" in
      if negb (probe =? 0) && (u64_sat_sub now probe <? cooldown_ms cfg)
      then (state, FastFail (u64_wrap (probe + cooldown_ms cfg - now)))
      else (set_key "probe_ms" (ju64 now) state, Probe).

Inductive Transition : Type :=
  | NoTransition
  | Opened (fails : Z)
  | Reopened
  | TClosed.

Definition record (cfg : Config) (success : bool) (now : Z) (state : Value) : Value * Transition :=
  let was_open := is_open state in
  let probing := negb (u state "probe_ms" =? 0) in
  if success then
    (jobj [("state", VStr "closed"); ("fails", ju64 0)], if was_open then TClosed else NoTransition)
  else if was_open && probing then
    (jobj [("state", VStr "open"); ("fails", ju64 (u state "fails")); ("opened_ms", ju64 now)],
     Reopened)
  else
    let fails := u32_wrap (u32_wrap (u state "fails") + 1) in
    if (failures cfg <=? fails) && negb was_open then
      (jobj [("state", VStr "open"); ("fails", ju64 fails); ("opened_ms", ju64 now)], Opened fails)
    else
      (set_key "state" (VStr (if was_open then "open" else "closed"))
         (set_key "fails" (ju64 fails) state), NoTransition).

(** The durable key: the step's id past its last fan-out scope. *)
Fixpoint after_last (p l cur : list char) : list char :=
  match l with
  | [] => cur
  | _ :: l' => after_last p l' (if decide (take (length p) l = p) then drop (length p) l else cur)
  end.
Definition key (workflow step_id : string) : string :=
  workflow +:+ "/" +:+ text (after_last (chars "].") (chars step_id) (chars step_id)).

(** ** The circuit it stands for *)

Inductive Circuit : Type :=
  | Closed (fails : Z)
  | Open (fails opened : Z)
  | HalfOpen (fails opened probe : Z).

Definition circuit_of (v : Value) : Circuit :=
  if is_open v then
    if u v "probe_ms" =? 0 then Open (u v "fails") (u v "opened_ms")
    else HalfOpen (u v "fails") (u v "opened_ms") (u v "probe_ms")
  else Closed (u v "fails").

(** Closed calls pass; an open circuit refuses for a cooldown, then lets one
    call through, and another when that one is a cooldown old. *)
Definition spec_gate (cfg : Config) (now : Z) (c : Circuit) : Circuit * Gate :=
  match c with
  | Closed _ => (c, Proceed)
  | Open n opened =>
      if now <? opened + cooldown_ms cfg then (c, FastFail (opened + cooldown_ms cfg - now))
      else (HalfOpen n opened now, Probe)
  | HalfOpen n opened probe =>
      if now <? opened + cooldown_ms cfg then (c, FastFail (opened + cooldown_ms cfg - now))
      else if now <? probe + cooldown_ms cfg then (c, FastFail (probe + cooldown_ms cfg - now))
      else (HalfOpen n opened now, Probe)
  end.

Definition spec_record (cfg : Config) (success : bool) (now : Z) (c : Circuit) : Circuit * Transition :=
  match success, c with
  | true, Closed _ => (Closed 0, NoTransition)
  | true, _ => (Closed 0, TClosed)
  | false, Closed n =>
      if failures cfg <=? n + 1 then (Open (n + 1) now, Opened (n + 1)) else (Closed (n + 1), NoTransition)
  | false, Open n opened => (Open (n + 1) opened, NoTransition)
  | false, HalfOpen n opened _ => (Open n now, Reopened)
  end.

(** *** Refinement *)

(** A state the breaker keeps: an object, its times and counts in range. *)
Definition state_ok (cfg : Config) (now : Z) (v : Value) : Prop :=
  (v = VNull \/ exists o, v = VObj o) /\
  0 <= u v "fails" < u32_max /\ 0 <= u v "opened_ms" <= now /\ 0 <= u v "probe_ms" <= now /\
  (is_open v = false -> u v "probe_ms" = 0) /\
  0 <= cooldown_ms cfg /\ 0 < now /\ now + cooldown_ms cfg <= u64_max.

Lemma get_set_key k j x v :
  v = VNull \/ (exists o, v = VObj o) ->
  get j (set_key k x v) = if decide (j = k) then Some x else get j v.
Proof.
  intros [->|[o ->]]; unfold get; cbn.
  - by case_decide.
  - case_decide; [subst; apply obj_get_insert_eq|by apply obj_get_insert_ne].
Qed.

Lemma set_key_object k x v :
  v = VNull \/ (exists o, v = VObj o) -> exists o, set_key k x v = VObj o.
Proof. intros [->|[o ->]]; cbn; eauto. Qed.

Lemma gate_refines cfg now v :
  state_ok cfg now v ->
  let '(v', g) := gate cfg now v in
  (circuit_of v', g) = spec_gate cfg now (circuit_of v) /\ state_ok cfg now v'.
Proof.
  intros Hok. pose proof Hok as (Hv & Hf & Ho & Hp & Hc & Hcd & Hn0 & Hn).
  unfold gate, spec_gate, circuit_of. destruct (is_open v) eqn:Eo; cbn [negb].
  2: { rewrite Eo. by split. }
  assert (u64_sat_add (u v "opened_ms") (cooldown_ms cfg) = u v "opened_ms" + cooldown_ms cfg) as ->
    by (unfold_u; lia).
  assert (forall t, t <= now < t + cooldown_ms cfg ->
    u64_wrap (t + cooldown_ms cfg - now) = t + cooldown_ms cfg - now) as Hw
    by (intros; apply u64_wrap_small; unfold_u; lia).
  assert (is_open (set_key "probe_ms" (ju64 now) v) = true /\
    u (set_key "probe_ms" (ju64 now) v) "probe_ms" = now /\
    u (set_key "probe_ms" (ju64 now) v) "fails" = u v "fails" /\
    u (set_key "probe_ms" (ju64 now) v) "opened_ms" = u v "opened_ms") as (S1 & S2 & S3 & S4).
  { unfold is_open, u in *. rewrite !get_set_key by done. cbn. done. }
  assert (state_ok cfg now (set_key "probe_ms" (ju64 now) v)) as Hok'.
  { unfold state_ok. rewrite S1, S2, S3, S4. split; [right; by apply set_key_object|].
    split_and!; try lia; done. }
  unfold u64_sat_sub. destruct (Z.eqb_spec (u v "probe_ms") 0) as [E0|E0]; cbn [negb andb];
    destruct (Z.ltb_spec now (u v "opened_ms" + cooldown_ms cfg)) as [Hlt|Hge].
  - rewrite Eo, (Hw (u v "opened_ms")), E0 by lia. by split.
  - rewrite S1, S2, S3, S4. by destruct (Z.eqb_spec now 0); [lia|].
  - rewrite Eo, (Hw (u v "opened_ms")) by lia. by destruct (Z.eqb_spec (u v "probe_ms") 0).
  - replace (Z.max (now - u v "probe_ms") 0 <? cooldown_ms cfg) with
      (now <? u v "probe_ms" + cooldown_ms cfg) by lia.
    destruct (Z.ltb_spec now (u v "probe_ms" + cooldown_ms cfg)).
    + rewrite Eo, (Hw (u v "probe_ms")) by lia. by destruct (Z.eqb_spec (u v "probe_ms") 0).
    + rewrite S1, S2, S3, S4. by destruct (Z.eqb_spec now 0); [lia|].
Qed.

(** *** The three states [record] leaves *)

Definition opened_state (n now : Z) : Value :=
  jobj [("state", VStr "open"); ("fails", ju64 n); ("opened_ms", ju64 now)].
Definition closed_state : Value := jobj [("state", VStr "closed"); ("fails", ju64 0)].
Definition counted_state (opn : bool) (n : Z) (v : Value) : Value :=
  set_key "state" (VStr (if opn then "open" else "closed")) (set_key "fails" (ju64 n) v).

(** What is read of a state, in one go. *)
Definition reads (v : Value) (opn : bool) (n opened probe : Z) : Prop :=
  (v = VNull \/ exists o, v = VObj o) /\
  is_open v = opn /\ u v "fails" = n /\ u v "opened_ms" = opened /\ u v "probe_ms" = probe.

Lemma opened_reads n now : reads (opened_state n now) true n now 0.
Proof.
  unfold reads, is_open, u, opened_state. obj_simpl. split; [right; by eexists|]. by split_and!.
Qed.

Lemma closed_reads : reads closed_state false 0 0 0.
Proof.
  unfold reads, is_open, u, closed_state. obj_simpl. split; [right; by eexists|]. by split_and!.
Qed.

Lemma counted_reads opn n v opn' n' opened probe :
  reads v opn' n' opened probe -> reads (counted_state opn n v) opn n opened probe.
Proof.
  intros (Hv & _ & _ & Ho & Hp). unfold counted_state.
  assert (exists o, set_key "fails" (ju64 n) v = VObj o) as Hf by (by apply set_key_object).
  unfold reads, is_open, u in *. rewrite !get_set_key by eauto.
  split; [right; apply set_key_object; eauto|]. cbn. split; [by destruct opn|]. by split_and!.
Qed.

Lemma reads_circuit v opn n opened probe :
  reads v opn n opened probe ->
  circuit_of v = if opn then if probe =? 0 then Open n opened else HalfOpen n opened probe
                 else Closed n.
Proof. intros (_ & E1 & E2 & E3 & E4). unfold circuit_of. by rewrite E1, E2, E3, E4. Qed.

Lemma reads_ok cfg now v opn n opened probe :
  reads v opn n opened probe -> 0 <= n < u32_max -> 0 <= opened <= now -> 0 <= probe <= now ->
  (opn = false -> probe = 0) -> 0 <= cooldown_ms cfg -> 0 < now -> now + cooldown_ms cfg <= u64_max ->
  state_ok cfg now v.
Proof. intros (Hv & <- & <- & <- & <-). unfold state_ok. tauto. Qed.

Lemma state_ok_reads cfg now v :
  state_ok cfg now v -> reads v (is_open v) (u v "fails") (u v "opened_ms") (u v "probe_ms").
Proof. intros (Hv & _). by split. Qed.

Lemma record_cases cfg success now v :
  state_ok cfg now v ->
  let n := u v "fails" in
  record cfg success now v =
    if success then (closed_state, if is_open v then TClosed else NoTransition)
    else if is_open v && negb (u v "probe_ms" =? 0) then (opened_state n now, Reopened)
    else if (failures cfg <=? n + 1) && negb (is_open v)
    then (opened_state (n + 1) now, Opened (n + 1))
    else (counted_state (is_open v) (n + 1) v, NoTransition).
Proof.
  intros (_ & Hf & _). unfold record.
  assert (u32_wrap (u32_wrap (u v "fails") + 1) = u v "fails" + 1) as ->; [|done].
  unfold u32_wrap. rewrite (Z.mod_small (u v "fails")) by (unfold_u; lia).
  apply Z.mod_small. unfold_u; lia.
Qed.

Lemma record_refines cfg success now v :
  state_ok cfg now v -> u v "fails" + 1 < u32_max ->
  let '(v', t) := record cfg success now v in
  (circuit_of v', t) = spec_record cfg success now (circuit_of v) /\
  state_ok cfg now v' /\ u v' "fails" <= u v "fails" + 1.
Proof.
  intros Hok Hlt. rewrite record_cases by done. cbv zeta.
  pose proof (state_ok_reads _ _ _ Hok) as Hr. rewrite (reads_circuit _ _ _ _ _ Hr).
  pose proof Hok as (_ & Hf & Ho & Hp & Hc & Hcd & Hn0 & Hn).
  assert (forall v' opn n opened probe, reads v' opn n opened probe ->
    0 <= n <= u v "fails" + 1 -> 0 <= opened <= now -> 0 <= probe <= now -> (opn = false -> probe = 0) ->
    state_ok cfg now v' /\ u v' "fails" <= u v "fails" + 1) as Hend.
  { intros v' opn n opened probe Hr' Hn' Ho' Hp' Hc'. split; [eapply reads_ok; eauto; lia|].
    destruct Hr' as (_ & _ & -> & _). lia. }
  destruct success; [|destruct (is_open v); cbn [andb negb]].
  - rewrite (reads_circuit _ _ _ _ _ closed_reads). split; [|eapply Hend; [apply closed_reads|lia..|done]].
    destruct (is_open v); [by destruct (_ =? 0)|done].
  - destruct (Z.eqb_spec (u v "probe_ms") 0) as [E0|E0]; cbn [negb].
    + rewrite andb_false_r. pose proof (counted_reads true (u v "fails" + 1) _ _ _ _ _ Hr) as Hr'.
      rewrite (reads_circuit _ _ _ _ _ Hr'), E0. split; [done|].
      eapply Hend; [done|lia..|done].
    + pose proof (opened_reads (u v "fails") now) as Hr'.
      rewrite (reads_circuit _ _ _ _ _ Hr'). split; [done|]. eapply Hend; [done|lia..|done].
  - rewrite andb_true_r. cbn [spec_record]. destruct (failures cfg <=? u v "fails" + 1).
    + pose proof (opened_reads (u v "fails" + 1) now) as Hr'.
      rewrite (reads_circuit _ _ _ _ _ Hr'). split; [done|]. eapply Hend; [done|lia..|done].
    + pose proof (counted_reads false (u v "fails" + 1) _ _ _ _ _ Hr) as Hr'.
      rewrite (reads_circuit _ _ _ _ _ Hr'). split; [done|]. eapply Hend; [done|lia..|done].
Qed.

(** ** Runs *)

(** A call asking to pass, or the outcome of one, each with its time. *)
Inductive Event : Type :=
  | Ask (at_ms : Z)
  | Outcome (success : bool) (at_ms : Z).
Inductive Answer : Type :=
  | AGate (g : Gate)
  | ATransition (t : Transition).

Definition at_ms (e : Event) : Z := match e with Ask t | Outcome _ t => t end.

Definition step (cfg : Config) (v : Value) (e : Event) : Value * Answer :=
  match e with
  | Ask t => let '(v', g) := gate cfg t v in (v', AGate g)
  | Outcome ok t => let '(v', r) := record cfg ok t v in (v', ATransition r)
  end.
Definition spec_step (cfg : Config) (c : Circuit) (e : Event) : Circuit * Answer :=
  match e with
  | Ask t => let '(c', g) := spec_gate cfg t c in (c', AGate g)
  | Outcome ok t => let '(c', r) := spec_record cfg ok t c in (c', ATransition r)
  end.

Fixpoint run {A} (f : A -> Event -> A * Answer) (a : A) (es : list Event) : A * list Answer :=
  match es with
  | [] => (a, [])
  | e :: es' => let '(a1, x) := f a e in let '(a2, xs) := run f a1 es' in (a2, x :: xs)
  end.

(** Times that never go back, from [t] to at most [last]. *)
Fixpoint in_order (t last : Z) (es : list Event) : Prop :=
  match es with
  | [] => t <= last
  | e :: es' => t <= at_ms e /\ in_order (at_ms e) last es'
  end.

Lemma in_order_last t last es : in_order t last es -> t <= last.
Proof. revert t. induction es as [|e es IH]; intros t; [done|]. intros [H1 H2%IH]. lia. Qed.

Lemma state_ok_later cfg now now' v :
  state_ok cfg now v -> now <= now' -> now' + cooldown_ms cfg <= u64_max -> state_ok cfg now' v.
Proof. unfold state_ok. intuition lia. Qed.

Lemma gate_keeps cfg now v :
  v = VNull \/ (exists o, v = VObj o) ->
  u (gate cfg now v).1 "fails" = u v "fails" /\
  ((gate cfg now v).2 <> Probe -> (gate cfg now v).1 = v).
Proof.
  intros Hv. unfold gate. destruct (is_open v); [|done]. cbn [negb]. destruct (now <? _); [done|].
  destruct (negb _ && _); [done|]. split; [|done]. cbn. unfold u. by rewrite get_set_key.
Qed.

Lemma step_refines cfg now v e :
  state_ok cfg now v -> now <= at_ms e -> at_ms e + cooldown_ms cfg <= u64_max ->
  u v "fails" + 1 < u32_max ->
  let '(v', a) := step cfg v e in
  spec_step cfg (circuit_of v) e = (circuit_of v', a) /\ state_ok cfg (at_ms e) v' /\
  u v' "fails" <= u v "fails" + 1.
Proof.
  intros Hok Hle Hmax Hlt. pose proof (state_ok_later _ _ _ _ Hok Hle Hmax) as Hok'.
  destruct e as [t|success t]; cbn [step spec_step at_ms] in *.
  - pose proof (gate_refines cfg t v Hok') as Hg. pose proof (gate_keeps cfg t v (proj1 Hok)) as [Hf _].
    destruct (gate cfg t v) as [v' g]. destruct Hg as [<- Hg]. cbn in Hf. rewrite Hf.
    split_and!; [done|done|lia].
  - pose proof (record_refines cfg success t v Hok' Hlt) as Hg.
    destruct (record cfg success t v) as [v' r]. by destruct Hg as [<- Hg].
Qed.

Lemma run_refines cfg last now v es :
  state_ok cfg now v -> in_order now last es -> last + cooldown_ms cfg <= u64_max ->
  u v "fails" + Z.of_nat (length es) < u32_max ->
  run (spec_step cfg) (circuit_of v) es = (circuit_of (run (step cfg) v es).1, (run (step cfg) v es).2) /\
  exists now', state_ok cfg now' (run (step cfg) v es).1.
Proof.
  revert now v. induction es as [|e es IH]; intros now v Hok Hord Hmax Hlt; cbn [run].
  { split; [done|by exists now]. }
  destruct Hord as [Hle Hord]. pose proof (in_order_last _ _ _ Hord) as Hlast. cbn [length] in Hlt.
  pose proof (step_refines cfg now v e Hok Hle ltac:(lia) ltac:(lia)) as Hs.
  destruct (step cfg v e) as [v1 a]. destruct Hs as (-> & Hok1 & Hf).
  destruct (IH (at_ms e) v1 Hok1 Hord Hmax ltac:(lia)) as [-> Hend].
  destruct (run (step cfg) v1 es). by split.
Qed.

(** C11: the breaker is its state machine: over any sequence of asks and
    outcomes in the order of time, the JSON object the code keeps stands for the
    circuit the abstract machine is in and every answer is the machine's: closed
    passes and counts consecutive failures, open refuses for a cooldown with the
    time left, half-open has one live probe whose outcome closes or reopens. *)
Theorem breaker_refines cfg last now v es :
  state_ok cfg now v -> in_order now last es -> last + cooldown_ms cfg <= u64_max ->
  u v "fails" + Z.of_nat (length es) < u32_max ->
  let '(v', answers) := run (step cfg) v es in
  run (spec_step cfg) (circuit_of v) es = (circuit_of v', answers).
Proof.
  intros Hok Hord Hmax Hlt. destruct (run_refines cfg last now v es Hok Hord Hmax Hlt) as [E _].
  by destruct (run (step cfg) v es).
Qed.

(** One probe at a time: once a call was let through as the probe, every
    call that asks before its outcome is recorded and within a cooldown is
    refused and changes nothing; and the circuit never wedges: a cooldown after
    it opened and after its last probe, a call is let through. *)
Theorem one_probe cfg now v v1 :
  state_ok cfg now v -> gate cfg now v = (v1, Probe) ->
  (forall t, now <= t < now + cooldown_ms cfg -> t + cooldown_ms cfg <= u64_max ->
     exists left, gate cfg t v1 = (v1, FastFail left) /\ 0 < left <= cooldown_ms cfg) /\
  (forall t, now + cooldown_ms cfg <= t -> t + cooldown_ms cfg <= u64_max ->
     (gate cfg t v1).2 = Probe).
Proof.
  intros Hok E. pose proof (gate_refines cfg now v Hok) as Hg. rewrite E in Hg.
  destruct Hg as [Hc Hok1].
  assert (exists n opened, circuit_of v1 = HalfOpen n opened now /\ opened + cooldown_ms cfg <= now)
    as (n & opened & Hv1 & Hopen).
  { unfold spec_gate in Hc. repeat case_match; simplify_eq; do 2 eexists; split; try done; lia. }
  assert (0 <= cooldown_ms cfg) by apply Hok.
  split; intros t Ht Hmax; pose proof (gate_refines cfg t v1) as Hg;
    specialize (Hg (state_ok_later cfg now t v1 Hok1 ltac:(lia) Hmax)); rewrite Hv1 in Hg;
    cbn [spec_gate] in Hg; rewrite (proj2 (Z.ltb_ge t (opened + cooldown_ms cfg))) in Hg by lia.
  - rewrite (proj2 (Z.ltb_lt t (now + cooldown_ms cfg))) in Hg by lia.
    pose proof (gate_keeps cfg t v1 (proj1 Hok1)) as [_ Hk].
    destruct (gate cfg t v1) as [v' g]. destruct Hg as [[= _ ->] _]. cbn in Hk.
    rewrite Hk by done. eexists. split; [done|lia].
  - rewrite (proj2 (Z.ltb_ge t (now + cooldown_ms cfg))) in Hg by lia.
    destruct (gate cfg t v1) as [v' g]. by destruct Hg as [[= _ ->] _].
Qed.

(** *** Samples *)

Definition cfg3 : Config := mkConfig 3 1000.
Definition tripped : Value := opened_state 3 30.

Lemma tripped_ok : state_ok cfg3 1100 tripped.
Proof.
  eapply reads_ok; [apply opened_reads|..]; unfold cfg3, u32_max, u64_max; cbn; lia || done.
Qed.

Definition outage : list Event :=
  [Outcome false 10; Outcome false 20; Ask 25; Outcome false 30; Ask 500; Ask 1100; Ask 1101;
   Outcome true 1200; Ask 1300].

Lemma breaker_refines_witness :
  let '(v', answers) := run (step cfg3) (VObj []) outage in
  run (spec_step cfg3) (circuit_of (VObj [])) outage = (circuit_of v', answers).
Proof.
  refine (breaker_refines cfg3 1300 5 (VObj []) outage _ _ _ _).
  - unfold state_ok. split; [right; by eexists|]. vm_compute. split_and!; congruence || done.
  - cbn. lia.
  - unfold u64_max. cbn. lia.
  - vm_compute. reflexivity.
Defined.

Lemma one_probe_witness :
  let v1 := set_key "probe_ms" (ju64 1100) tripped in
  (forall t, 1100 <= t < 1100 + 1000 -> t + 1000 <= u64_max ->
     exists left, gate cfg3 t v1 = (v1, FastFail left) /\ 0 < left <= 1000) /\
  (forall t, 1100 + 1000 <= t -> t + 1000 <= u64_max -> (gate cfg3 t v1).2 = Probe).
Proof.
  refine (one_probe cfg3 1100 tripped _ tripped_ok _). vm_compute. reflexivity.
Defined.
