(* ===== verification/Tasks.v ===== *)
(** * A2A tasks ([a2a/tasks.rs])

    The durable record of a unit of work: its state and status message, the
    bounded history of transitions, the bounded conversation, who may see it.
    The fields no operation here reads are kept as JSON. *)

From S2P Require Export Json.
Open Scope Z_scope.

Inductive TaskState : Type :=
  | Submitted | Working | InputRequired | AuthRequired | Completed | Failed | Canceled | Rejected.

#[export] Instance task_state_eq_dec : EqDecision TaskState.
Proof. solve_decision. Defined.

Definition wire (s : TaskState) : string :=
  match s with
  | Submitted => "TASK_STATE_SUBMITTED"
  | Working => "TASK_STATE_WORKING"
  | InputRequired => "TASK_STATE_INPUT_REQUIRED"
  | AuthRequired => "TASK_STATE_AUTH_REQUIRED"
  | Completed => "TASK_STATE_COMPLETED"
  | Failed => "TASK_STATE_FAILED"
  | Canceled => "TASK_STATE_CANCELED"
  | Rejected => "TASK_STATE_REJECTED"
  end.

Definition is_terminal (s : TaskState) : bool :=
  match s with Completed | Failed | Canceled | Rejected => true | _ => false end.

(** The task state a run status maps to. *)
Definition from_run (status : string) : TaskState :=
  if decide (status = "completed") then Completed
  else if decide (status = "refused") then Rejected
  else if decide (status = "cancelled") then Canceled
  else if decide (status ∈ ["running"; "suspended"; "paused"; "pending"]) then Working
  else Failed.

Inductive Link : Type :=
  | LRun (id : string)
  | LSubagent (handle : string)
  | LTurn (ctx : string).

Inductive TaskMessage : Type :=
  | Inbound (message : Value)
  | Status (seq : Z) (text : string).

Definition message_to_value (m : TaskMessage) : Value :=
  match m with
  | Inbound v => jobj [("inbound", jobj [("message", v)])]
  | Status n t => jobj [("status", jobj [("seq", ju64 n); ("text", VStr t)])]
  end.

Definition MAX_TASK_MESSAGES : nat := 64.
Definition MAX_TASK_MESSAGE_BYTES : Z := 256 * 1024.

(** What the record holds beside its conversation: gates, links out, push
    targets; no operation below looks inside. *)
Record Extras := mkExtras {
  ask_schema : option Value;
  ask_channel : option string;
  security_gate : bool;
  consent_gate : option Value;
  sign_in_link : option Value;
  sign_in : option Value;
  company_gate : option Value;
  mcp_sign_in : option Value;
  mcp_question : option string;
  command : option string;
  push : list Value;
}.

Record Task := mkTask {
  t_id : string;
  context_id : string;
  conversation : string;
  t_state : TaskState;
  principal : option string;
  link : Link;
  message : option string;
  result_ : option Value;
  created : Z;
  updated : Z;
  history : list Value;
  messages : list TaskMessage;
  status_seq : Z;
  trace : option Value;
  dirty : bool;
  unread : bool;
  extras : Extras;
}.

Definition no_extras : Extras :=
  mkExtras None None false None None None None None None None [].

(** An entry of the transition history. *)
Definition entry (s : TaskState) (now : Z) : Value :=
  jobj [("state", VStr (wire s)); ("ts", ju64 now)].

Definition new (id context_id : string) (principal : option string) (link : Link) (now : Z) : Task :=
  mkTask id context_id context_id Submitted principal link None None now now [entry Submitted now] []
    0 None true false no_extras.

(** A caller, as far as a task asks: its id, and whether it is an operator. *)
Record Principal := mkPrincipal { p_id : string; p_operator : bool }.

Definition is_visible_to (p : Principal) (t : Task) : bool :=
  p_operator p || bool_decide (principal t = Some (p_id p)).

Definition matches_context (id : string) (operator : bool) (t : Task) : bool :=
  bool_decide (context_id t = id) || (operator && bool_decide (conversation t = id)).

Section tasks.
Context `{JsonLen}.

Definition bytes (m : TaskMessage) : Z := json_len (message_to_value m).

(** [while len > 1 && (len > MAX || total > MAX) { total -= remove(0) }]. *)
Fixpoint drop_oldest (total : Z) (l : list TaskMessage) : list TaskMessage :=
  match l with
  | m :: ((_ :: _) as rest) =>
      if (MAX_TASK_MESSAGES <? length l)%nat || (MAX_TASK_MESSAGE_BYTES <? total)
      then drop_oldest (total - bytes m) rest else l
  | _ => l
  end.

Definition total (l : list TaskMessage) : Z := list_sum (bytes <$> l).

Definition set_conv (msgs : list TaskMessage) (seq : Z) (msg : option string) (t : Task) : Task :=
  mkTask (t_id t) (context_id t) (conversation t) (t_state t) (principal t) (link t) msg (result_ t)
    (created t) (updated t) (history t) msgs seq (trace t) true (unread t) (extras t).

Definition push_message (m : TaskMessage) (t : Task) : Task :=
  let l := messages t ++ [m] in
  set_conv (drop_oldest (total l) l) (status_seq t) (message t) t.

(** The end of every transition: the state, the time, one more entry of the
    history, of which the oldest goes past 64. *)
Definition enter (s : TaskState) (now : Z) (t : Task) : Task :=
  let h := history t ++ [entry s now] in
  mkTask (t_id t) (context_id t) (conversation t) s (principal t) (link t) (message t) (result_ t)
    (created t) now (if (64 <? length h)%nat then drop 1 h else h) (messages t) (status_seq t)
    (trace t) true (unread t) (extras t).

Definition transition (s : TaskState) (msg : option string) (now : Z) (t : Task) : Task :=
  if decide (t_state t = s /\ message t = msg) then t
  else
    let t :=
      match msg with
      | Some text =>
          if decide (message t = Some text) then t
          else
            let seq := u64_add (status_seq t) 1 in
            let t := push_message (Status seq text) (set_conv (messages t) seq (message t) t) in
            set_conv (messages t) seq (Some text) t
      | None => t
      end in
    enter s now t.

Definition transition_unrecorded (s : TaskState) (text : string) (now : Z) (t : Task) : Task :=
  enter s now (set_conv (messages t) (u64_add (status_seq t) 1) (Some text) t).

Definition record_inbound (v : Value) (t : Task) : Task :=
  match v with
  | VObj o =>
      let o := obj_insert "role" (VStr "ROLE_USER") o in
      let o := obj_insert "taskId" (VStr (t_id t)) o in
      let o := obj_insert "contextId" (VStr (context_id t)) o in
      push_message (Inbound (VObj o)) t
  | _ => t
  end.

Definition holds_inbound (message_id : string) (t : Task) : bool :=
  existsb (fun m => match m with
    | Inbound v => bool_decide (idx "messageId" v = VStr message_id)
    | Status _ _ => false
    end) (messages t).

Definition set_result (v : Value) (now : Z) (t : Task) : Task :=
  mkTask (t_id t) (context_id t) (conversation t) (t_state t) (principal t) (link t) (message t)
    (Some v) (created t) now (history t) (messages t) (status_seq t) (trace t) true (unread t) (extras t).

Definition set_trace (v : Value) (t : Task) : Task :=
  match trace t with
  | Some _ => t
  | None => mkTask (t_id t) (context_id t) (conversation t) (t_state t) (principal t) (link t)
      (message t) (result_ t) (created t) (updated t) (history t) (messages t) (status_seq t) (Some v)
      true (unread t) (extras t)
  end.

Definition set_conversation (key wire_id : string) (t : Task) : Task :=
  mkTask (t_id t) wire_id key (t_state t) (principal t)
    (match link t with
     | LTurn ctx => if decide (ctx = key) then LTurn wire_id else link t
     | l => l
     end)
    (message t) (result_ t) (created t) (updated t) (history t) (messages t) (status_seq t) (trace t)
    true (unread t) (extras t).

(** ** The conversation's bounds *)

Definition fits (l : list TaskMessage) : Prop :=
  (length l <= 1)%nat \/ ((length l <= MAX_TASK_MESSAGES)%nat /\ total l <= MAX_TASK_MESSAGE_BYTES).

Lemma total_cons m l : total (m :: l) = bytes m + total l.
Proof. done. Qed.

Lemma drop_oldest_cons t m m2 l :
  drop_oldest t (m :: m2 :: l) =
    if (MAX_TASK_MESSAGES <? length (m :: m2 :: l))%nat || (MAX_TASK_MESSAGE_BYTES <? t)
    then drop_oldest (t - bytes m) (m2 :: l) else m :: m2 :: l.
Proof. done. Qed.

(** What is kept is the longest end of the conversation that fits. *)
Lemma drop_oldest_spec l :
  exists gone, l = gone ++ drop_oldest (total l) l /\ fits (drop_oldest (total l) l) /\
    (l <> [] -> drop_oldest (total l) l <> []) /\
    forall older m rest, gone = older ++ [m] -> rest = drop_oldest (total l) l -> ~ fits (m :: rest).
Proof.
  induction l as [|m l IH].
  - exists []. cbn. split; [done|split; [left; cbn; lia|split; [done|]]]. intros older m rest E. destruct (app_cons_not_nil _ _ _ E).
  - destruct l as [|m2 l].
    { exists []. cbn. split; [done|split; [left; cbn; lia|split; [done|]]]. intros older m0 rest E. destruct (app_cons_not_nil _ _ _ E). }
    rewrite drop_oldest_cons. destruct (_ || _) eqn:E.
    + replace (total (m :: m2 :: l) - bytes m) with (total (m2 :: l)) by (rewrite !total_cons; lia).
      destruct IH as (gone & Hl & Hf & Hne & Hmin). exists (m :: gone). split_and!.
      * change (m :: m2 :: l = m :: gone ++ drop_oldest (total (m2 :: l)) (m2 :: l)). by rewrite <- Hl.
      * done.
      * intros _. by apply Hne.
      * intros older m0 rest Eg Er. rewrite Er. destruct older as [|o older].
        -- injection Eg as <- ->. cbn [app] in Hl. rewrite <- Hl. unfold fits.
           unfold MAX_TASK_MESSAGES in *. cbn [length] in *. intros [?|[? ?]]; [lia|].
           apply orb_true_iff in E as [E|E]; [apply Nat.ltb_lt in E|]; lia.
        -- injection Eg as <- ->. by eapply Hmin.
    + apply orb_false_iff in E as [E1 E2]. exists []. split; [done|split; [|split; [done|]]].
      * right. apply Nat.ltb_ge in E1. split; [done|lia].
      * intros older m0 rest Eg. destruct (app_cons_not_nil _ _ _ Eg).
Qed.
End tasks.

(** ** A task's life *)

Inductive TaskOp : Type :=
  | OpTransition (s : TaskState) (msg : option string) (now : Z)
  | OpUnrecorded (s : TaskState) (text : string) (now : Z)
  | OpInbound (v : Value)
  | OpResult (v : Value) (now : Z)
  | OpTrace (v : Value)
  | OpConversation (key wire_id : string).

Section life.
Context `{JsonLen}.

Definition apply_op (t : Task) (o : TaskOp) : Task :=
  match o with
  | OpTransition s msg now => transition s msg now t
  | OpUnrecorded s text now => transition_unrecorded s text now t
  | OpInbound v => record_inbound v t
  | OpResult v now => set_result v now t
  | OpTrace v => set_trace v t
  | OpConversation k w => set_conversation k w t
  end.

(** The numbers of the conversation's status messages, and their texts. *)
Definition ids (l : list TaskMessage) : list Z :=
  omap (fun m => match m with Status n _ => Some n | Inbound _ => None end) l.
Definition texts (l : list TaskMessage) : list string :=
  omap (fun m => match m with Status _ s => Some s | Inbound _ => None end) l.
(** The texts said with [transition]. *)
Definition said (l : list TaskOp) : list string :=
  omap (fun o => match o with OpTransition _ (Some s) _ => Some s | _ => None end) l.

Fixpoint increasing (lo : Z) (l : list Z) (hi : Z) : Prop :=
  match l with
  | [] => lo <= hi
  | x :: l' => lo < x /\ increasing x l' hi
  end.

Lemma increasing_weaken lo lo' l hi hi' :
  increasing lo l hi -> lo' <= lo -> hi <= hi' -> increasing lo' l hi'.
Proof.
  revert lo lo'. induction l as [|x l IH]; cbn; intros lo lo' Hl H1 H2; [lia|].
  destruct Hl as [Hx Hl]. split; [lia|]. by eapply IH; [done|lia|].
Qed.

Lemma increasing_end lo a b hi : increasing lo (a ++ b) hi -> increasing lo b hi.
Proof.
  revert lo. induction a as [|x a IH]; cbn; intros lo Hl; [done|]. destruct Hl as [Hx Hl%IH].
  eapply increasing_weaken; [done|lia|lia].
Qed.

Lemma increasing_snoc lo l hi x : increasing lo l hi -> hi < x -> increasing lo (l ++ [x]) x.
Proof.
  revert lo. induction l as [|y l IH]; cbn; intros lo Hl Hx; [lia|].
  destruct Hl as [Hy Hl]. split; [done|]. by apply IH.
Qed.

(** What holds of a task that has been through [ops]. *)
Record well_kept (ops : list TaskOp) (t : Task) : Prop := {
  wk_fits : fits (messages t);
  wk_history : (1 <= length (history t) <= 64)%nat;
  wk_last : exists ts, last (history t) = Some (entry (t_state t) ts);
  wk_ids : increasing 0 (ids (messages t)) (status_seq t);
  wk_seq : status_seq t <= Z.of_nat (length ops);
  wk_said : texts (messages t) ⊆ said ops;
}.

Lemma drop_oldest_kept ops l n :
  increasing 0 (ids l) n -> texts l ⊆ said ops ->
  let l' := drop_oldest (total l) l in
  fits l' /\ increasing 0 (ids l') n /\ texts l' ⊆ said ops.
Proof.
  intros Hi Ht. cbv zeta. destruct (drop_oldest_spec l) as (gone & Hl & Hf & _ & _).
  set (l' := drop_oldest (total l) l) in *. clearbody l'. subst l. unfold ids, texts in *.
  rewrite omap_app in Hi. rewrite omap_app in Ht. split; [done|]. split; [by eapply increasing_end|set_solver].
Qed.

(** Entering a state keeps the history's bounds. *)
Lemma enter_history s now t :
  (1 <= length (history t) <= 64)%nat ->
  (1 <= length (history (enter s now t)) <= 64)%nat /\
  last (history (enter s now t)) = Some (entry s now).
Proof.
  intros Hh. unfold enter. cbn [history]. destruct (Nat.ltb_spec 64 (length (history t ++ [entry s now]))) as [Hlt|Hge].
  - rewrite length_drop, length_app in *. cbn in *. split; [lia|].
    destruct (history t) as [|e h]; [cbn in *; lia|]. cbn [app drop]. apply last_snoc.
  - rewrite length_app in *. cbn in *. split; [lia|]. apply last_snoc.
Qed.

Lemma enter_kept ops s now t :
  well_kept ops t \/ (fits (messages t) /\ (1 <= length (history t) <= 64)%nat /\
    increasing 0 (ids (messages t)) (status_seq t) /\ status_seq t <= Z.of_nat (length ops) /\
    texts (messages t) ⊆ said ops) ->
  well_kept ops (enter s now t).
Proof.
  intros Ht.
  assert (fits (messages t) /\ (1 <= length (history t) <= 64)%nat /\
    increasing 0 (ids (messages t)) (status_seq t) /\ status_seq t <= Z.of_nat (length ops) /\
    texts (messages t) ⊆ said ops) as (Hf & Hh & Hi & Hs & Hx) by (destruct Ht as [[]|Ht]; tauto).
  pose proof (enter_history s now t Hh) as [Hh' Hl]. split; try done. by exists now.
Qed.

Lemma apply_kept ops o t :
  well_kept ops t -> Z.of_nat (length ops) < u64_max -> well_kept (ops ++ [o]) (apply_op t o).
Proof.
  intros [Hf Hh Hl Hi Hs Hx] Hmax.
  assert (texts (messages t) ⊆ said (ops ++ [o])) as Hx'.
  { unfold said. rewrite omap_app. set_solver. }
  assert (Z.of_nat (length (ops ++ [o])) = Z.of_nat (length ops) + 1) as Hlen
    by (rewrite length_app; cbn; lia).
  assert (0 <= status_seq t) as H0.
  { clear -Hi. revert Hi. generalize 0. induction (ids (messages t)) as [|x l IH]; cbn; intros lo; [lia|].
    intros [? ?%IH]. lia. }
  assert (u64_add (status_seq t) 1 = status_seq t + 1) as Hadd by (apply u64_add_small; unfold_u; lia).
  destruct o as [s msg now|s text now|v|v now|v|k w]; cbn [apply_op].
  - unfold transition. destruct (decide _); [split; try done; lia|]. apply enter_kept. right.
    destruct msg as [text|]; [|repeat split; done || lia].
    destruct (decide (message t = Some text)); [repeat split; done || lia|].
    rewrite Hadd. cbn [push_message set_conv messages status_seq history].
    destruct (drop_oldest_kept (ops ++ [OpTransition s (Some text) now])
      (messages t ++ [Status (status_seq t + 1) text]) (status_seq t + 1)) as (K1 & K2 & K3).
    + unfold ids. rewrite omap_app. apply increasing_snoc with (status_seq t); [done|lia].
    + unfold texts, said in *. rewrite !omap_app in *. set_solver.
    + repeat split; done || lia.
  - unfold transition_unrecorded. rewrite Hadd. apply enter_kept. right.
    cbn [set_conv messages status_seq history].
    split; [done|split; [done|split; [|split; [lia|done]]]]. eapply increasing_weaken; [done|lia|lia].
  - unfold record_inbound. destruct v; try (split; done || lia).
    set (x := VObj (obj_insert "contextId" _ _)).
    destruct (drop_oldest_kept (ops ++ [OpInbound (VObj o)]) (messages t ++ [Inbound x]) (status_seq t))
      as (K1 & K2 & K3).
    + unfold ids. rewrite omap_app. cbn. by rewrite app_nil_r.
    + unfold texts. rewrite omap_app. cbn. by rewrite app_nil_r.
    + split; cbn [set_conv push_message messages history t_state status_seq]; try done; lia.
  - split; cbn [set_result messages history t_state status_seq]; try done; lia.
  - unfold set_trace. destruct (trace t); split; cbn; try done; lia.
  - split; cbn; try done; lia.
Qed.

(** C12: a task's record is well kept through its life: after any sequence of
    operations on a new task, its transition history has between 1 and 64
    entries and ends with its state, its conversation is within 64 messages and
    256 KiB (or a single message), the numbers of its status messages only go up
    and none is reused, and every status text in the conversation was said with
    [transition], never only shown with [transition_unrecorded]. *)
Theorem task_well_kept id ctx who l now ops :
  Z.of_nat (length ops) <= u64_max ->
  well_kept ops (fold_left apply_op ops (new id ctx who l now)).
Proof.
  induction ops as [|o ops IH] using rev_ind; intros Hmax.
  - split; cbn; [left; cbn; lia|lia|by eexists|lia|lia|done].
  - rewrite fold_left_app. cbn. rewrite length_app in Hmax. cbn in Hmax.
    apply apply_kept; [apply IH|]; lia.
Qed.

(** the conversation drops its oldest entries and no more: after a
    message is added the conversation is an end of the old one with the message
    last, it is within both bounds (or that message alone), and one entry more
    would not be. *)
Theorem conversation_longest_end m t :
  exists gone, messages t ++ [m] = gone ++ messages (push_message m t) /\
    fits (messages (push_message m t)) /\ last (messages (push_message m t)) = Some m /\
    forall older x, gone = older ++ [x] -> ~ fits (x :: messages (push_message m t)).
Proof.
  destruct (drop_oldest_spec (messages t ++ [m])) as (gone & Hl & Hf & Hne & Hmin).
  exists gone. unfold push_message. cbn [set_conv messages]. split_and!; try done.
  - destruct (exists_last (Hne ltac:(by destruct (messages t)))) as (l & x & Hx).
    rewrite Hx in *. rewrite app_assoc in Hl. apply app_inj_tail in Hl as [_ <-]. apply last_snoc.
  - intros older x Hg. by eapply Hmin.
Qed.
End life.

(** ** A sample *)

Module TaskSample.
#[export] Instance size : JsonLen := fun _ => 100.
Definition ops : list TaskOp :=
  [OpInbound (jobj [("messageId", VStr "m0")]); OpTransition Working (Some "on it") 2;
   OpUnrecorded AuthRequired "the code WDJB-MJHT" 3; OpTransition Working (Some "signed in") 4;
   OpResult (VStr "42") 5; OpTransition Completed None 6].
End TaskSample.
Import TaskSample.

Lemma task_well_kept_witness :
  well_kept ops (fold_left apply_op ops (new "t" "c" (Some "user:a") (LRun "r") 1)).
Proof. apply (task_well_kept "t" "c" (Some "user:a") (LRun "r") 1 ops). vm_compute. congruence. Defined.

(** A transition without a text is not idempotent once the task has one: the
    same state is entered again. *)
Lemma silent_transition_repeats :
  let t := transition Working None 5 (transition Working (Some "on it") 4
             (new "t" "c" None (LRun "r") 1)) in
  length (history t) = 3%nat /\ length (history (transition Working None 6 t)) = 4%nat.
Proof. split; vm_compute; reflexivity. Qed.
