(* ===== verification/Timers.v ===== *)
(** * The durable timer wheel ([runtime/timers.rs])

    A timer's row in the store outlives its firing: [fire] hands the record
    over and only the [settle] at the head of the next [fire] deletes it.  The
    wheel carries the façade it arms through; the id [ulid::new] makes is an
    argument of [arm]. *)

From S2P Require Export DurableProps Memory.

Record Timers (S : Type) := mkTimers {
  t_durable : Durable S;
  t_map : gmap string TimerRecord;
  settling : list TimerRecord;
}.
Arguments mkTimers {S}.
Arguments t_durable {S}.
Arguments t_map {S}.
Arguments settling {S}.

Section timers.
Context {S : Type} `{Store S} `{Clock} `{JsonLen}.
Implicit Types (tm : Timers S).

Abbreviation timM := (stM (Timers S) StoreError).

Definition timers_new (d : Durable S) : Timers S := mkTimers d ∅ [].

Definition set_t_durable (d : Durable S) tm : Timers S := mkTimers d (t_map tm) (settling tm).
Definition set_map (m : gmap string TimerRecord) tm : Timers S := mkTimers (t_durable tm) m (settling tm).
Definition set_settling (l : list TimerRecord) tm : Timers S := mkTimers (t_durable tm) (t_map tm) l.

Definition with_durable {A} (m : stM (Durable S) StoreError A) : timM A :=
  fun tm => let '(d, r) := m (t_durable tm) in (set_t_durable d tm, r).

(** Adopt restored records. *)
Definition timers_restore (records : list TimerRecord) tm : Timers S :=
  fold_left (fun tm r => set_map (<[timer_id r := r]> (t_map tm)) tm) records tm.

Definition arm (id : string) (deadline : Z) (owner payload : Value) : timM string :=
  let rec := mkTimer id deadline owner payload in
  _ ← with_durable (timer_arm rec);
  _ ← modify (fun tm => set_map (<[id := rec]> (t_map tm)) tm);
  mret id.

Definition has_id (id : string) (r : TimerRecord) : bool := bool_decide (timer_id r = id).

Definition disarm (id : string) : timM unit :=
  armed ← gets (fun tm => bool_decide (is_Some (t_map tm !! id)));
  was_settling ← gets (fun tm => existsb (has_id id) (settling tm));
  _ ← modify (fun tm => set_settling (List.filter (fun r => negb (has_id id r)) (settling tm))
        (set_map (delete id (t_map tm)) tm));
  if (armed || was_settling)%bool then with_durable (timer_disarm id) else mret tt.

(** Delete the rows of the timers whose effect was checkpointed; a deletion
    that fails is dropped. *)
Definition settle_one (u : unit) (r : TimerRecord) : timM unit :=
  _ ← attempt (with_durable (timer_disarm (timer_id r)));
  mret u.
Definition settle : timM unit :=
  l ← gets settling;
  _ ← modify (set_settling []);
  for_each settle_one l tt.

Definition is_due (now : Z) (r : TimerRecord) : bool := (deadline_ms r <=? now)%Z.

(** Every due timer, off the wheel, its row kept. *)
Definition take_due (out : list TimerRecord) (id : string) : timM (list TimerRecord) :=
  m ← gets t_map;
  match m !! id with
  | None => mret out
  | Some r =>
      _ ← modify (fun tm => set_settling (settling tm ++ [r]) (set_map (delete id (t_map tm)) tm));
      mret (out ++ [r])
  end.
Definition fire (now : Z) : timM (list TimerRecord) :=
  _ ← settle;
  due ← gets (fun tm => fst <$> List.filter (fun p => is_due now p.2) (entries (t_map tm)));
  for_each take_due due [].

Definition contains (id : string) tm : bool := bool_decide (is_Some (t_map tm !! id)).
Definition armed_of_kind (kind : string) tm : list string :=
  fst <$> List.filter (fun p => bool_decide (idx "kind" (owner p.2) = VStr kind)) (entries (t_map tm)).
Definition next_deadline tm : option Z :=
  foldr (fun r acc => Some (match acc with Some y => Z.min (deadline_ms r) y | None => deadline_ms r end))
    None (vals (t_map tm)).
Definition owned_by (pred : Value -> bool) tm : list string :=
  timer_id <$> List.filter (fun r => pred (owner r)) (vals (t_map tm) ++ settling tm).

(** ** Rows *)

Context `{!StoreOk S}.

(** The record's row in the store, as it would be read back. *)
Definition row (d : Durable S) (r : TimerRecord) : Prop :=
  exists env, stored d Timer (timer_id r) env /\ from_value (env_state env) = Some r.

(** A change of the store that leaves the row of [id] as it was. *)
Definition kept_key (d d' : Durable S) (id : string) : Prop :=
  static d d' /\ dview d' !! d_key d Timer id = dview d !! d_key d Timer id.

Lemma row_kept d d' r : kept_key d d' (timer_id r) -> row d r -> row d' r.
Proof.
  intros [Hs Hk] (env & (q & v & [Hl Ht] & Hf) & Hr). exists env. split; [|done].
  exists q, v. rewrite (d_key_static _ _ _ _ Hs). split; [|done]. split; [|done]. by rewrite Hk.
Qed.

Lemma timer_arm_row r d :
  on_error (d_policy d) = Halt ->
  let '(d', res) := timer_arm r d in
  static d d' /\ (forall id, id <> timer_id r -> kept_key d d' id) /\
  match res with Ok _ => row d' r | Err _ => True end.
Proof.
  intros Hh. unfold timer_arm. pose proof (put_spec Timer (timer_id r) (to_value r) None d) as Hp.
  destruct (put Timer (timer_id r) (to_value r) None d) as [d' res]. destruct Hp as (Hs & Hm & Hw).
  assert (forall id, id <> timer_id r -> d_key d Timer (timer_id r) <> d_key d Timer id) as Hne.
  { intros id Hid Ek. by apply d_key_inj in Ek. }
  split; [done|]. split.
  - intros id Hid. split; [done|]. destruct Hm as [->|(seq & ts & ->)]; [done|].
    by rewrite lookup_insert_ne by auto.
  - destruct res as [q|]; [|done]. destruct Hw as [_ [(_ & _ & ts & Hv)|(_ & ? & _)]]; [|congruence].
    set (env := mkEnvelope (kind_as_str Timer) (timer_id r) q ts (d_instance d) None (to_value r)) in *.
    exists env. split; [|apply (from_to_value r)]. exists q, (to_value env).
    rewrite (d_key_static _ _ _ _ Hs), Hv. split; [|apply from_to_value].
    split; [by rewrite lookup_insert_eq|]. by rewrite value_tombstone_envelope.
Qed.

Lemma timer_disarm_keeps id d :
  let '(d', _) := timer_disarm id d in
  static d d' /\ forall j, j <> id -> kept_key d d' j.
Proof.
  unfold timer_disarm. pose proof (delete_spec Timer id d) as Hd.
  destruct (delete_entity Timer id d) as [d' res]. destruct Hd as (Hs & Hk & _).
  split; [done|]. intros j Hj. split; [done|]. apply Hk. intros Ek. by apply d_key_inj in Ek.
Qed.

(** *** The wheel's steps *)

Lemma settle_one_run u r tm :
  settle_one u r tm = (set_t_durable (timer_disarm (timer_id r) (t_durable tm)).1 tm, Ok u).
Proof. unfold settle_one, with_durable. run_st. by destruct (timer_disarm _ _). Qed.

Lemma settle_loop l tm :
  exists d', for_each settle_one l tt tm = (set_t_durable d' tm, Ok tt) /\
    static (t_durable tm) d' /\
    forall id, id ∉ timer_id <$> l -> kept_key (t_durable tm) d' id.
Proof.
  revert tm. induction l as [|r l IH]; intros tm.
  - exists (t_durable tm). destruct tm. by split_and!.
  - rewrite for_each_cons, settle_one_run. pose proof (timer_disarm_keeps (timer_id r) (t_durable tm)) as Hk.
    destruct (timer_disarm (timer_id r) (t_durable tm)) as [d1 res]. destruct Hk as [Hs1 Hk1]. cbn [fst].
    destruct (IH (set_t_durable d1 tm)) as (d' & -> & Hs & Hk). cbn [t_durable set_t_durable] in *.
    exists d'. split; [done|]. split; [by etrans|]. intros id Hid.
    rewrite fmap_cons, not_elem_of_cons in Hid. destruct Hid as [Hne Hid].
    destruct (Hk1 id Hne) as [_ E1]. destruct (Hk id Hid) as [_ E2]. split; [by etrans|].
    rewrite (d_key_static _ _ _ _ Hs1) in E2. congruence.
Qed.

Lemma settle_spec tm :
  exists d', settle tm = (mkTimers d' (t_map tm) [], Ok tt) /\ static (t_durable tm) d' /\
    forall id, id ∉ timer_id <$> settling tm -> kept_key (t_durable tm) d' id.
Proof.
  unfold settle. run_st. destruct (settle_loop (settling tm) (set_settling [] tm)) as (d' & -> & Hs & Hk).
  by exists d'.
Qed.

Lemma take_due_run out k r tm :
  t_map tm !! k = Some r ->
  take_due out k tm = (set_settling (settling tm ++ [r]) (set_map (delete k (t_map tm)) tm), Ok (out ++ [r])).
Proof. intros Hk. unfold take_due. run_st. by rewrite Hk. Qed.

Lemma take_due_loop (l : list (string * TimerRecord)) out tm :
  NoDup l.*1 -> (forall p, p ∈ l -> t_map tm !! p.1 = Some p.2) ->
  exists m', for_each take_due l.*1 out tm =
      (mkTimers (t_durable tm) m' (settling tm ++ l.*2), Ok (out ++ l.*2)) /\
    forall k, m' !! k = if decide (k ∈ l.*1) then None else t_map tm !! k.
Proof.
  revert out tm. induction l as [|[k r] l IH]; intros out tm Hnd Hl.
  - exists (t_map tm). rewrite !app_nil_r. destruct tm. split; [done|].
    intros k. by rewrite decide_False by apply not_elem_of_nil.
  - apply NoDup_cons in Hnd as [Hk Hnd]. change ((k, r) :: l).*1 with (k :: l.*1).
    rewrite for_each_cons, (take_due_run out k r tm (Hl (k, r) ltac:(by left))).
    destruct (IH (out ++ [r]) (set_settling (settling tm ++ [r]) (set_map (delete k (t_map tm)) tm)))
      as (m' & -> & Hm'); [done| |].
    { intros p Hp. cbn. rewrite lookup_delete_ne; [apply Hl; by right|].
      intros ->. apply Hk, list_elem_of_fmap. by exists p. }
    exists m'. cbn [t_durable settling set_settling set_map t_map] in *. split.
    + cbn. by rewrite <- !app_assoc.
    + intros j. rewrite Hm'. destruct (decide (j = k)) as [->|Hne].
      * rewrite (decide_True (P := k ∈ (k :: l.*1))) by by left. rewrite lookup_delete_eq. by case_decide.
      * rewrite lookup_delete_ne by done.
        destruct (decide (j ∈ l.*1)) as [Hj|Hj]; [by rewrite decide_True by by right|].
        rewrite decide_False; [done|]. by intros [|]%elem_of_cons.
Qed.

Lemma filter_entries (f : TimerRecord -> bool) (m : gmap string TimerRecord) :
  (List.filter (fun p => f p.2) (entries m)).*2 = List.filter f (vals m).
Proof.
  unfold vals. induction (entries m) as [|[k r] l IH]; [done|]. cbn. destruct (f r); cbn; by rewrite <- IH.
Qed.

Lemma fire_spec now tm :
  exists d' m', let due := List.filter (is_due now) (vals (t_map tm)) in
    fire now tm = (mkTimers d' m' due, Ok due) /\ static (t_durable tm) d' /\
    (forall id, id ∉ timer_id <$> settling tm -> kept_key (t_durable tm) d' id) /\
    forall k, m' !! k = match t_map tm !! k with
      | Some r => if is_due now r then None else Some r
      | None => None
      end.
Proof.
  unfold fire. run_st. destruct (settle_spec tm) as (d' & -> & Hs & Hk). cbn [t_map].
  set (l := List.filter (fun p => is_due now p.2) (entries (t_map tm))).
  assert (forall p, p ∈ l <-> t_map tm !! p.1 = Some p.2 /\ is_due now p.2 = true) as Hl.
  { intros [k r]. unfold l. rewrite list_elem_of_In, List.filter_In, <- list_elem_of_In.
    by rewrite elem_of_entries. }
  assert (NoDup l.*1) as Hnd.
  { assert (forall f (e : list (string * TimerRecord)), NoDup e.*1 -> NoDup (List.filter f e).*1) as Hf.
    { intros f e. induction e as [|p e IH]; [done|]. cbn [List.filter fmap list_fmap].
      intros [Hp He]%NoDup_cons. destruct (f p); [|by apply IH]. cbn. constructor; [|by apply IH].
      intros (q & E & Hq)%list_elem_of_fmap. apply Hp. rewrite E. apply list_elem_of_fmap. exists q.
      split; [done|]. apply list_elem_of_In in Hq. apply List.filter_In in Hq as [Hq _].
      by apply list_elem_of_In. }
    apply Hf, NoDup_keys. }
  destruct (take_due_loop l [] (mkTimers d' (t_map tm) []) Hnd) as (m' & E & Hm').
  { intros p Hp. by apply Hl in Hp as [? _]. }
  exists d', m'. cbn zeta. change (fst <$> l) with l.*1. rewrite E. cbn [t_durable settling app].
  rewrite <- filter_entries. split; [done|]. split; [done|]. split; [done|].
  intros k. rewrite Hm'. cbn [t_map]. destruct (t_map tm !! k) as [r|] eqn:Er; [|by case_decide].
  destruct (is_due now r) eqn:Ed.
  - rewrite decide_True; [done|]. apply list_elem_of_fmap. exists (k, r). split; [done|]. by apply Hl.
  - rewrite decide_False; [done|]. intros ([k' r'] & -> & Hp)%list_elem_of_fmap.
    apply Hl in Hp as [Hp1 Hp2]. cbn in *. congruence.
Qed.
End timers.

(** ** Through a life *)

Inductive TimerOp : Type :=
  | TArm (id : string) (deadline : Z) (owner payload : Value)
  | TDisarm (id : string)
  | TFire (now : Z).

(** The ids a list of operations arms. *)
Definition arms (ops : list TimerOp) : list string :=
  omap (fun o => match o with TArm id _ _ _ => Some id | _ => None end) ops.

Section life.
Context {S : Type} `{StoreOk S} `{Clock} `{JsonLen}.
Implicit Types (tm : Timers S).

Definition timer_op (tm : Timers S) (o : TimerOp) : Timers S :=
  match o with
  | TArm id deadline owner payload => (arm id deadline owner payload tm).1
  | TDisarm id => (disarm id tm).1
  | TFire now => (fire now tm).1
  end.

(** Waiting, or fired and not settled. *)
Definition owed tm (r : TimerRecord) : Prop :=
  (exists k, t_map tm !! k = Some r) \/ r ∈ settling tm.

Record rows_ok (used : list string) tm : Prop := {
  ro_halt : on_error (d_policy (t_durable tm)) = Halt;
  ro_keys : forall k r, t_map tm !! k = Some r -> timer_id r = k;
  ro_row : forall r, owed tm r -> row (t_durable tm) r;
  ro_apart : forall r, r ∈ settling tm -> t_map tm !! timer_id r = None;
  ro_used : forall r, owed tm r -> timer_id r ∈ used;
}.

Lemma arm_rows used id deadline owner payload tm :
  id ∉ used -> rows_ok used tm -> rows_ok (used ++ [id]) (arm id deadline owner payload tm).1.
Proof.
  intros Hid [Hh Hk Hr Ha Hu]. unfold arm, with_durable. run_st.
  set (rec := mkTimer id deadline owner payload).
  pose proof (timer_arm_row rec (t_durable tm) Hh) as Hp.
  destruct (timer_arm rec (t_durable tm)) as [d' res]. destruct Hp as (Hs & Hkept & Hrow).
  assert (on_error (d_policy d') = Halt) as Hh' by (by destruct Hs as (_ & _ & -> & _)).
  assert (forall r, owed tm r -> timer_id r <> id) as Hne.
  { intros r Ho E. apply Hid. rewrite <- E. by apply Hu. }
  assert (forall r, owed tm r -> row d' r) as Hr'.
  { intros r Ho. eapply row_kept; [apply Hkept; cbn; by apply Hne|by apply Hr]. }
  assert (forall r, owed tm r -> timer_id r ∈ used ++ [id]) as Hu' by (intros r Ho; set_solver).
  destruct res as [q|e]; cbn [fst]; split; try done; cbn [t_map t_durable settling set_map set_t_durable].
  - intros k r. destruct (decide (k = id)) as [->|Hki].
    + rewrite lookup_insert_eq. by intros [= <-].
    + rewrite lookup_insert_ne by done. apply Hk.
  - intros r [[k Hkr]|Hset]; [|apply Hr'; by right].
    cbn in Hkr. destruct (decide (k = id)) as [->|Hki].
    + rewrite lookup_insert_eq in Hkr. injection Hkr as <-. apply Hrow.
    + rewrite lookup_insert_ne in Hkr by done. apply Hr'. left. by exists k.
  - intros r Hset. rewrite lookup_insert_ne; [by apply Ha|]. intros E. by apply (Hne r); [right|].
  - intros r [[k Hkr]|Hset]; [|apply Hu'; by right].
    cbn in Hkr. destruct (decide (k = id)) as [->|Hki].
    + rewrite lookup_insert_eq in Hkr. injection Hkr as <-. cbn. set_solver.
    + rewrite lookup_insert_ne in Hkr by done. apply Hu'. left. by exists k.
Qed.

Lemma in_filter_not_id id r l :
  r ∈ List.filter (fun r => negb (has_id id r)) l <-> r ∈ l /\ timer_id r <> id.
Proof.
  rewrite list_elem_of_In, List.filter_In, <- list_elem_of_In. unfold has_id.
  by rewrite negb_true_iff, bool_decide_eq_false.
Qed.

Lemma disarm_rows used id tm : rows_ok used tm -> rows_ok used (disarm id tm).1.
Proof.
  intros [Hh Hk Hr Ha Hu]. unfold disarm, with_durable. run_st.
  assert (forall d', static (t_durable tm) d' ->
    (forall j, j <> id -> kept_key (t_durable tm) d' j) ->
    rows_ok used (mkTimers d' (delete id (t_map tm))
      (List.filter (fun r => negb (has_id id r)) (settling tm)))) as Hend.
  { intros d' Hs Hkept.
    assert (forall r, owed (mkTimers d' (delete id (t_map tm))
      (List.filter (fun r => negb (has_id id r)) (settling tm))) r -> owed tm r /\ timer_id r <> id) as Ho.
    { intros r [[k Hkr]|Hset]; cbn in *.
      - apply lookup_delete_Some in Hkr as [Hne Hkr]. split; [left; by exists k|].
        rewrite (Hk k r Hkr). auto.
      - apply in_filter_not_id in Hset as [? ?]. split; [by right|done]. }
    split; cbn.
    - by destruct Hs as (_ & _ & -> & _).
    - intros k r [_ Hkr]%lookup_delete_Some. by apply Hk.
    - intros r [Ho1 Ho2]%Ho. eapply row_kept; [by apply Hkept|by apply Hr].
    - intros r [Hset _]%in_filter_not_id. apply lookup_delete_None. right. by apply Ha.
    - intros r [Ho1 _]%Ho. by apply Hu. }
  destruct (_ || _)%bool.
  - cbn [t_durable set_settling set_map]. pose proof (timer_disarm_keeps id (t_durable tm)) as Hd.
    destruct (timer_disarm id (t_durable tm)) as [d' res]. destruct Hd as [Hs Hkept]. by apply Hend.
  - cbn. apply Hend; [done|]. by intros j _.
Qed.

Lemma fire_rows used now tm : rows_ok used tm -> rows_ok used (fire now tm).1.
Proof.
  intros [Hh Hk Hr Ha Hu]. destruct (fire_spec now tm) as (d' & m' & E & Hs & Hkept & Hm').
  rewrite E. cbn [fst].
  assert (forall r, r ∈ List.filter (is_due now) (vals (t_map tm)) <->
    t_map tm !! timer_id r = Some r /\ is_due now r = true) as Hdue.
  { intros r. rewrite list_elem_of_In, List.filter_In, <- list_elem_of_In, elem_of_vals. split.
    - intros [[k Hkr] Hd]. by rewrite (Hk k r Hkr).
    - intros [Hkr Hd]. split; [by exists (timer_id r)|done]. }
  assert (forall r, owed (mkTimers d' m' (List.filter (is_due now) (vals (t_map tm)))) r ->
    t_map tm !! timer_id r = Some r) as Ho.
  { intros r [[k Hkr]|Hset]; cbn in *; [|by apply Hdue in Hset as [? _]].
    rewrite Hm' in Hkr. destruct (t_map tm !! k) as [r'|] eqn:Er; [|done].
    destruct (is_due now r'); [done|]. injection Hkr as <-. by rewrite (Hk k r' Er). }
  split; cbn.
  - by destruct Hs as (_ & _ & -> & _).
  - intros k r Hkr. rewrite Hm' in Hkr. destruct (t_map tm !! k) as [r'|] eqn:Er; [|done].
    destruct (is_due now r'); [done|]. injection Hkr as <-. by apply Hk.
  - intros r Hkr%Ho. eapply row_kept; [|apply Hr; left; by exists (timer_id r)]. apply Hkept.
    intros (r' & Eid & Hset)%list_elem_of_fmap. specialize (Ha r' Hset). congruence.
  - intros r [Hkr Hd]%Hdue. by rewrite Hm', Hkr, Hd.
  - intros r Hkr%Ho. apply Hu. left. by exists (timer_id r).
Qed.

Lemma life_rows d ops :
  on_error (d_policy d) = Halt -> NoDup (arms ops) ->
  rows_ok (arms ops) (fold_left timer_op ops (timers_new d)) /\
  static d (t_durable (fold_left timer_op ops (timers_new d))).
Proof.
  intros Hh. induction ops as [|o ops IH] using rev_ind; intros Hnd.
  - assert (forall r, ~ owed (timers_new d) r) as Hno.
    { intros r [[k Hk]|Hs]; cbn in *; [by rewrite lookup_empty in Hk|by apply not_elem_of_nil in Hs]. }
    split; [|done]. split; cbn; [done| | | |].
    + intros k r Hk. by rewrite lookup_empty in Hk.
    + by intros r Ho%Hno.
    + intros r Hs. by apply not_elem_of_nil in Hs.
    + by intros r Ho%Hno.
  - unfold arms in *. rewrite omap_app in *. apply NoDup_app in Hnd as (Hnd & Hnew & _).
    destruct (IH Hnd) as [Hrows Hst]. rewrite fold_left_app. cbn [fold_left].
    set (tm := fold_left timer_op ops (timers_new d)) in *. clearbody tm.
    destruct o as [id deadline owner payload|id|now]; cbn [timer_op].
    + split; [apply arm_rows; [|done]; intros Hin; apply (Hnew id Hin); cbn; set_solver|].
      etrans; [apply Hst|]. unfold arm, with_durable. run_st.
      pose proof (timer_arm_row (mkTimer id deadline owner payload) (t_durable tm) (ro_halt _ _ Hrows)) as Hp.
      destruct (timer_arm _ _) as [d' [q|]]; by destruct Hp.
    + rewrite app_nil_r. split; [by apply disarm_rows|]. etrans; [apply Hst|].
      unfold disarm, with_durable. run_st. destruct (_ || _)%bool; [|done].
      cbn [t_durable set_settling set_map]. pose proof (timer_disarm_keeps id (t_durable tm)) as Hd.
      destruct (timer_disarm id (t_durable tm)). by destruct Hd.
    + rewrite app_nil_r. split; [by apply fire_rows|]. etrans; [apply Hst|].
      destruct (fire_spec now tm) as (d' & m' & -> & Hs & _). done.
Qed.

(** C13: a timer is never lost over a store with [list] whose policy halts on
    a failed write.  Whatever a life that began with an empty wheel armed,
    disarmed, fired and settled, no id armed twice (ids are fresh ULIDs), every
    timer it owes, still waiting or fired with its effect not yet settled, is
    among the timers the next life restores, with its deadline, owner and
    payload, unless the manifest found lists its id as retired; and whether or
    not that manifest, as it was when the process died, indexed the timer. *)
Theorem timers_survive_crash d ops p digest d3 out r :
  lists_supported S -> on_error (d_policy d) = Halt -> NoDup (arms ops) ->
  let tm := fold_left timer_op ops (timers_new d) in
  let d2 := durable_new (d_store (t_durable tm)) (d_prefix d) (d_instance d) p false digest in
  owed tm r -> ("timer", timer_id r) ∉ refs (m_retired (prior d2)) ->
  restore d2 = (d3, Ok out) -> r ∈ timers out.
Proof.
  intros Hl Hh Hnd tm d2 Ho Hnr E. destruct (life_rows d ops Hh Hnd) as [Hrows Hst]. fold tm in Hrows, Hst.
  destruct (ro_row _ _ Hrows r Ho) as (env & (q & v & Hlive & Hf) & Hr).
  assert (stored d2 Timer (timer_id r) env) as Hstored.
  { exists q, v. split; [|done]. unfold d_key in *. destruct Hst as (Hp & Hi & _).
    rewrite Hp, Hi in Hlive. exact Hlive. }
  pose proof (restore_resumed d2 Hl eq_refl) as Hres. rewrite E in Hres.
  destruct (s_adopted _ _ _ Hres Timer (timer_id r) env) as [Hin _]; [unfold RECONCILED; set_solver|done|done|].
  unfold timers. apply list_elem_of_omap. by exists env.
Qed.

(** Firing hands over exactly the due timers, each once: [fire] answers,
    in the order of their ids, the waiting timers whose deadline has come; they
    leave the wheel and are what the next settlement deletes, every other timer
    stays armed, and no row but those of the timers fired before is touched. *)
Theorem fire_exactly_due now tm :
  exists tm', let due := List.filter (is_due now) (vals (t_map tm)) in
    fire now tm = (tm', Ok due) /\ settling tm' = due /\
    (forall k r, t_map tm' !! k = Some r <-> t_map tm !! k = Some r /\ (now < deadline_ms r)%Z) /\
    (forall r, timer_id r ∉ timer_id <$> settling tm -> row (t_durable tm) r -> row (t_durable tm') r) /\
    (forall later, (fire later tm').2 = Ok (List.filter (is_due later) (vals (t_map tm')))).
Proof.
  destruct (fire_spec now tm) as (d' & m' & E & Hs & Hkept & Hm'). eexists. split; [apply E|].
  split; [done|]. cbn [t_map t_durable]. split; [|split].
  - intros k r. rewrite Hm'. unfold is_due. destruct (t_map tm !! k) as [r'|]; [|naive_solver].
    destruct (Z.leb_spec (deadline_ms r') now); naive_solver lia.
  - intros r Hid. apply row_kept. by apply Hkept.
  - intros later. destruct (fire_spec later (mkTimers d' m' (List.filter (is_due now) (vals (t_map tm)))))
      as (d2 & m2 & -> & _). done.
Qed.
End life.

(** ** A sample *)

Import DurableProps.Sample.

Module TimerSample.
Definition ops : list TimerOp :=
  [TArm "01A" 1000 (VStr "step a") VNull; TArm "01B" 5000 (VStr "step b") VNull; TFire 2000].
Definition wheel : Timers MemoryStore := fold_left timer_op ops (timers_new first).
Definition next_life : Durable MemoryStore := life (d_store (t_durable wheel)) false.
Definition fired : TimerRecord := mkTimer "01A" 1000 (VStr "step a") VNull.
Definition restored_timers : Restored :=
  match (restore next_life).2 with Ok out => out | Err _ => restored_default end.
End TimerSample.

Lemma timers_survive_crash_witness : TimerSample.fired ∈ timers TimerSample.restored_timers.
Proof.
  refine (timers_survive_crash DurableProps.Sample.first TimerSample.ops policy_default ∅
    (restore TimerSample.next_life).1 TimerSample.restored_timers TimerSample.fired
    memory_lists _ _ _ _ _).
  - reflexivity.
  - vm_compute. repeat constructor; set_solver.
  - right. vm_compute. by left.
  - apply not_elem_of_nil.
  - vm_compute; reflexivity.
Defined.
