(* ===== verification/Failover.v ===== *)
(** * Endpoint health and failover ([intel/health.rs], [intel/endpoints.rs], [intel/failover.rs])

    The breaker of an endpoint, the order endpoints are tried in, and the one
    bounded sweep of a completion.  What a dial answers and when is the
    environment's: a [Dial] per endpoint, since a sweep dials each at most once. *)

From S2P Require Export Prelude F64.
Open Scope Z_scope.

(** ** Health *)

Inductive BreakerState : Type := BClosed | BOpen | BHalfOpen.
#[export] Instance breaker_state_eq_dec : EqDecision BreakerState.
Proof. solve_decision. Defined.

Inductive ErrKind : Type := KNone | KRefused | KReset | KTimeout | KHttp5xx | KHttp429 | KProbe.

Definition err_kind_as_str (k : ErrKind) : string :=
  match k with
  | KNone => "none" | KRefused => "refused" | KReset => "reset" | KTimeout => "timeout"
  | KHttp5xx => "5xx" | KHttp429 => "429" | KProbe => "probe"
  end.
Definition breaker_as_str (s : BreakerState) : string :=
  match s with BClosed => "closed" | BOpen => "open" | BHalfOpen => "half-open" end.

(** Durations in milliseconds. *)
Record BreakerConfig := mkBreaker { open_threshold : Z; cooldown_base : Z; cooldown_max : Z }.
Definition breaker_default : BreakerConfig := mkBreaker 3 5000 60000.

Record HealthRecord := mkHealth {
  h_state : BreakerState;
  consec_fail : Z;
  total_calls : Z;
  total_fail : Z;
  ewma_latency_us : Z;
  last_ok_unix_ms : Z;
  last_err_unix_ms : Z;
  last_err_kind : ErrKind;
  opened_unix_ms : Z;
  open_count : Z;
  not_before_unix_ms : Z;
}.

Definition health_new : HealthRecord := mkHealth BClosed 0 0 0 0 0 0 KNone 0 0 0.

Definition set_h_state (s : BreakerState) (h : HealthRecord) : HealthRecord :=
  mkHealth s (consec_fail h) (total_calls h) (total_fail h) (ewma_latency_us h) (last_ok_unix_ms h)
    (last_err_unix_ms h) (last_err_kind h) (opened_unix_ms h) (open_count h) (not_before_unix_ms h).

Definition hold_for (wait now : Z) (h : HealthRecord) : HealthRecord :=
  mkHealth (h_state h) (consec_fail h) (total_calls h) (total_fail h) (ewma_latency_us h)
    (last_ok_unix_ms h) (last_err_unix_ms h) (last_err_kind h) (opened_unix_ms h) (open_count h)
    (u64_sat_add now (u64_wrap wait)).

Definition error_rate (h : HealthRecord) : f64 :=
  if total_calls h =? 0 then f64_of_Z 0
  else f64_div (f64_of_Z (total_fail h)) (f64_of_Z (total_calls h)).
Definition ewma_latency_ms (h : HealthRecord) : Z := ewma_latency_us h / 1000.
Definition last_ok_ms_ago (now : Z) (h : HealthRecord) : option Z :=
  if last_ok_unix_ms h =? 0 then None else Some (u64_sat_sub now (last_ok_unix_ms h)).
Definition opened_ms_ago (now : Z) (h : HealthRecord) : option Z :=
  if opened_unix_ms h =? 0 then None else Some (u64_sat_sub now (opened_unix_ms h)).

(** [Duration::MAX] in milliseconds. *)
Definition DURATION_MAX : Z := u64_max * 1000 + 999.
Definition cooldown (cfg : BreakerConfig) (h : HealthRecord) : Z :=
  let n := Z.max (open_count h - 1) 0 in
  let shift := Z.min n 20 in
  Z.min (Z.min (cooldown_base cfg * 2 ^ shift) DURATION_MAX) (cooldown_max cfg).

(** Usable now; a cooled-down breaker is promoted to half-open. *)
Definition available (cfg : BreakerConfig) (now : Z) (h : HealthRecord) : HealthRecord * bool :=
  if now <? not_before_unix_ms h then (h, false)
  else
    match h_state h with
    | BClosed | BHalfOpen => (h, true)
    | BOpen =>
        if u64_wrap (cooldown cfg h) <=? default 0 (opened_ms_ago now h)
        then (set_h_state BHalfOpen h, true) else (h, false)
    end.

Definition is_up (h : HealthRecord) : bool := negb (bool_decide (h_state h = BOpen)).

Definition update_ewma (sample prev : Z) : Z :=
  if prev =? 0 then sample
  else if prev <=? sample then prev + (sample - prev) / 8 else prev - (prev - sample) / 8.

Inductive BreakerTransition : Type := TOpened | TClosed.

(** [latency] in microseconds. *)
Definition record_success (latency now : Z) (h : HealthRecord) : HealthRecord * option BreakerTransition :=
  let closed := bool_decide (h_state h = BClosed) in
  (mkHealth BClosed 0 (u64_add (total_calls h) 1) (total_fail h)
     (update_ewma (u64_wrap latency) (ewma_latency_us h)) now (last_err_unix_ms h) (last_err_kind h)
     (if closed then opened_unix_ms h else 0) (if closed then open_count h else 0) (not_before_unix_ms h),
   if closed then None else Some TClosed).

Definition open_breaker (now : Z) (h : HealthRecord) : HealthRecord :=
  mkHealth BOpen (consec_fail h) (total_calls h) (total_fail h) (ewma_latency_us h) (last_ok_unix_ms h)
    (last_err_unix_ms h) (last_err_kind h) now (u32_wrap (open_count h + 1)) (not_before_unix_ms h).

Definition record_failure (kind : ErrKind) (cfg : BreakerConfig) (now : Z) (h : HealthRecord) :
    HealthRecord * option BreakerTransition :=
  let run := u32_wrap (consec_fail h + 1) in
  let h' := mkHealth (h_state h) run (u64_add (total_calls h) 1) (u64_add (total_fail h) 1)
    (ewma_latency_us h) (last_ok_unix_ms h) now kind (opened_unix_ms h) (open_count h)
    (not_before_unix_ms h) in
  if bool_decide (h_state h = BHalfOpen) || (open_threshold cfg <=? run)
  then (open_breaker now h', Some TOpened) else (h', None).

(** ** Errors *)

(** The kinds of an I/O error the classification tells apart. *)
Inductive IoKind : Type :=
  | ConnectionRefused | ConnectionReset | ConnectionAborted | BrokenPipe | TimedOut | WouldBlock
  | OtherIo.

Inductive IntelError : Type :=
  | Transport (k : IoKind)
  | Http (code : Z) (body : string)
  | Parse (m : string)
  | Unsupported (m : string)
  | AllEndpointsDown (cause : option IntelError)
  | Credential (m : string).

Inductive FailoverClass : Type :=
  | Failover (k : ErrKind)
  | Fatal.

Definition is_5xx (c : Z) : bool := (500 <=? c) && (c <? 600).

Definition classify (e : IntelError) : FailoverClass :=
  match e with
  | Transport k =>
      Failover match k with
               | ConnectionRefused => KRefused
               | ConnectionReset | ConnectionAborted | BrokenPipe => KReset
               | TimedOut | WouldBlock => KTimeout
               | OtherIo => KRefused
               end
  | Http code _ =>
      if (code =? 500) || (code =? 502) || (code =? 503) || (code =? 504) then Failover KHttp5xx
      else if code =? 429 then Failover KHttp429
      else if is_5xx code then Failover KHttp5xx
      else Fatal
  | _ => Fatal
  end.

Definition is_auth (e : IntelError) : bool :=
  match e with
  | Http code _ => (code =? 401) || (code =? 403)
  | Credential _ => true
  | _ => false
  end.

Definition is_transient_status (code : Z) : bool := (code =? 429) || is_5xx code.

Definition deadline_passed : IntelError := Transport TimedOut.

(** ** The list *)

Record EndpointList := mkList {
  eps : list HealthRecord;
  active : nat;
  breaker : BreakerConfig;
}.

Definition ep (i : nat) (l : EndpointList) : HealthRecord := nth i (eps l) health_new.
Definition set_ep (i : nat) (h : HealthRecord) (l : EndpointList) : EndpointList :=
  mkList (<[i := h]> (eps l)) (active l) (breaker l).

(** Consult one endpoint, promoting it. *)
Definition consult (now : Z) (i : nat) (l : EndpointList) : EndpointList * bool :=
  let '(h, up) := available (breaker l) now (ep i l) in (set_ep i h l, up).

Fixpoint consult_all (now : Z) (todo : list nat) (l : EndpointList) : EndpointList * list nat :=
  match todo with
  | [] => (l, [])
  | i :: todo' =>
      let '(l1, up) := consult now i l in
      let '(l2, order) := consult_all now todo' l1 in
      (l2, if up then i :: order else order)
  end.

(** The active endpoint first, then the others in list order. *)
Definition candidates (l : EndpointList) : list nat :=
  active l :: List.filter (fun i => negb (i =? active l)%nat) (seq 0 (length (eps l))).
Definition attempt_order (now : Z) (l : EndpointList) : EndpointList * list nat :=
  consult_all now (candidates l) l.

Definition set_list_active (i : nat) (l : EndpointList) : EndpointList * option nat :=
  if decide (i = active l) then (l, None) else (mkList (eps l) i (breaker l), Some i).

Definition lowest_up (l : EndpointList) : option nat := fst <$> list_find (fun h => is_up h = true) (eps l).
Definition prefer_lowest_healthy (l : EndpointList) : EndpointList * option nat :=
  match lowest_up l with
  | Some t => set_list_active t l
  | None => (l, None)
  end.

(** ** The sweep *)

(** What one endpoint's attempt meets: whether the run's deadline has passed
    before it and after it, the answer with its latency, the wait the provider
    asked for, and the clock as the outcome is recorded. *)
Record Dial (R : Type) := mkDial {
  passed_before : bool;
  outcome : result IntelError (R * Z);
  asked_wait : option Z;
  passed_after : bool;
  dial_now : Z;
}.
Arguments mkDial {R}.
Arguments passed_before {R}.
Arguments outcome {R}.
Arguments asked_wait {R}.
Arguments passed_after {R}.
Arguments dial_now {R}.

Record SweepResult (R : Type) := mkSweep {
  s_outcome : result IntelError R;
  s_failover : option (nat * nat);
  s_changes : list (nat * BreakerTransition);
  s_active : option nat;
  s_served : option nat;
}.
Arguments mkSweep {R}.
Arguments s_outcome {R}.
Arguments s_failover {R}.
Arguments s_changes {R}.
Arguments s_active {R}.
Arguments s_served {R}.

Section sweep.
Context {R : Type} (dial : nat -> Dial R).

Definition ended_by_deadline (failover : option (nat * nat)) (changes : list (nat * BreakerTransition)) :
    SweepResult R := mkSweep (Err deadline_passed) failover changes None None.

Definition note (i : nat) (t : option BreakerTransition) : list (nat * BreakerTransition) :=
  match t with Some t => [(i, t)] | None => [] end.

(** The endpoint after the dial: a wait the provider asked for is kept. *)
Definition dialled (i : nat) (l : EndpointList) : EndpointList :=
  match asked_wait (dial i) with
  | Some w => set_ep i (hold_for w (dial_now (dial i)) (ep i l)) l
  | None => l
  end.

Fixpoint sweep (order : list nat) (prev : option nat) (failover : option (nat * nat))
    (changes : list (nat * BreakerTransition)) (last_err : option IntelError) (l : EndpointList) :
    EndpointList * SweepResult R :=
  match order with
  | [] => (l, mkSweep (Err (AllEndpointsDown last_err)) failover changes None None)
  | i :: rest =>
      let d := dial i in
      if passed_before d then (l, ended_by_deadline failover changes)
      else
        let failover :=
          match prev with
          | Some p => if decide (p = i) then failover else Some (p, i)
          | None => failover
          end in
        let l := dialled i l in
        match outcome d with
        | Ok (resp, latency) =>
            let '(h, t) := record_success latency (dial_now d) (ep i l) in
            let '(l, change) := set_list_active i (set_ep i h l) in
            let '(l, snapped) := prefer_lowest_healthy l in
            (l, mkSweep (Ok resp) failover (changes ++ note i t)
                  (match snapped with Some s => Some s | None => change end) (Some i))
        | Err e =>
            if passed_after d then (l, ended_by_deadline failover changes)
            else
              match classify e with
              | Failover kind =>
                  let '(h, t) := record_failure kind (breaker l) (dial_now d) (ep i l) in
                  sweep rest (Some i) failover (changes ++ note i t) (Some e) (set_ep i h l)
              | Fatal => (l, mkSweep (Err e) failover changes None None)
              end
        end
  end.

Definition complete_resilient (now : Z) (l : EndpointList) : EndpointList * SweepResult R :=
  let '(l, order) := attempt_order now l in
  match order with
  | [] => (l, mkSweep (Err (AllEndpointsDown None)) None [] None None)
  | _ => sweep order None None [] None l
  end.
End sweep.

Definition all_down (now : Z) (l : EndpointList) : bool :=
  match (attempt_order now l).2 with [] => true | _ => false end.

(** ** The breaker of an endpoint *)

(** What happens to an endpoint, with the clock as it happens. *)
Inductive HealthOp : Type :=
  | HSuccess (latency now : Z)
  | HFailure (kind : ErrKind) (now : Z)
  | HConsult (now : Z)
  | HHold (wait now : Z).

Definition health_op (cfg : BreakerConfig) (h : HealthRecord) (o : HealthOp) : HealthRecord :=
  match o with
  | HSuccess latency now => (record_success latency now h).1
  | HFailure kind now => (record_failure kind cfg now h).1
  | HConsult now => (available cfg now h).1
  | HHold wait now => hold_for wait now h
  end.

Definition op_now (o : HealthOp) : Z :=
  match o with HSuccess _ now | HFailure _ now | HConsult now | HHold _ now => now end.

(** What holds of an endpoint after [n] operations. *)
Record health_ok (cfg : BreakerConfig) (n : Z) (h : HealthRecord) : Prop := {
  ho_fails : 0 <= consec_fail h <= n;
  ho_count : 0 <= open_count h <= n;
  ho_closed : h_state h = BClosed -> consec_fail h < open_threshold cfg /\ open_count h = 0;
  ho_open : h_state h <> BClosed -> 1 <= open_count h /\ 0 < opened_unix_ms h;
}.

Lemma health_new_ok cfg : 1 <= open_threshold cfg -> health_ok cfg 0 health_new.
Proof. intros Ht. by split; cbn; try lia. Qed.

Lemma health_op_ok cfg n h o :
  health_ok cfg n h -> 0 < op_now o -> n + 1 <= u32_max -> 1 <= open_threshold cfg ->
  health_ok cfg (n + 1) (health_op cfg h o).
Proof.
  intros [Hf Hc Hcl Hop] Hnow Hmax Hth. destruct o as [lat now|kind now|now|w now]; cbn in Hnow |- *.
  - destruct (bool_decide_reflect (h_state h = BClosed)) as [E|E]; [destruct (Hcl E) as [_ E0]; rewrite E0|];
      split; cbn; lia || done.
  - unfold record_failure. assert (u32_wrap (consec_fail h + 1) = consec_fail h + 1) as ->
      by (apply Z.mod_small; unfold_u; lia).
    destruct (_ || _) eqn:E; cbn [fst].
    + assert (u32_wrap (open_count h + 1) = open_count h + 1) as Eo
        by (apply Z.mod_small; unfold_u; lia).
      split; cbn; rewrite ?Eo; lia || done.
    + apply orb_false_iff in E as [E1 E2]. apply bool_decide_eq_false in E1. split; cbn; try lia.
      * intros Es. specialize (Hcl Es). lia.
      * intros Es. specialize (Hop Es). lia.
  - assert (health_ok cfg (n + 1) h) as Hsame by (split; done || lia).
    unfold available. destruct (now <? _); [done|]. destruct (h_state h) eqn:Es; [done| |done].
    destruct (_ <=? _); [|done]. cbn [fst]. split; cbn; try lia; [done|]. intros _. by apply Hop.
  - split; cbn; done || lia.
Qed.

Lemma health_run_ok cfg ops :
  1 <= open_threshold cfg -> Forall (fun o => 0 < op_now o) ops ->
  Z.of_nat (length ops) <= u32_max ->
  health_ok cfg (Z.of_nat (length ops)) (fold_left (health_op cfg) ops health_new).
Proof.
  intros Ht. induction ops as [|o ops IH] using rev_ind; intros Hn Hl; [by apply health_new_ok|].
  rewrite length_app in Hl |- *. cbn in Hl |- *. apply Forall_app in Hn as [Hn Ho]. apply Forall_inv in Ho.
  rewrite fold_left_app. cbn. replace (Z.of_nat (length ops + 1)) with (Z.of_nat (length ops) + 1) by lia.
  apply health_op_ok; [apply IH; [done|lia]|exact Ho|lia|exact Ht].
Qed.

(** A configuration whose durations fit. *)
Definition config_ok (cfg : BreakerConfig) : Prop :=
  1 <= open_threshold cfg /\ 0 <= cooldown_base cfg /\ 0 <= cooldown_max cfg <= u64_max.

Lemma cooldown_bounds cfg h : config_ok cfg -> 0 <= cooldown cfg h <= cooldown_max cfg.
Proof.
  intros (_ & Hb & Hm). unfold cooldown.
  assert (0 <= cooldown_base cfg * 2 ^ Z.min (Z.max (open_count h - 1) 0) 20)
    by (apply Z.mul_nonneg_nonneg; [done|apply Z.pow_nonneg; lia]).
  unfold DURATION_MAX, u64_max. lia.
Qed.

Lemma available_open cfg now h :
  config_ok cfg -> h_state h = BOpen -> 0 < opened_unix_ms h -> not_before_unix_ms h <= now ->
  (available cfg now h).2 = bool_decide (opened_unix_ms h + cooldown cfg h <= Z.max now (opened_unix_ms h)).
Proof.
  intros Hc Hs Ho Hn. unfold available, opened_ms_ago. rewrite Hs.
  destruct (Z.ltb_spec now (not_before_unix_ms h)); [lia|].
  destruct (Z.eqb_spec (opened_unix_ms h) 0); [lia|]. cbn [from_option id].
  pose proof (cooldown_bounds cfg h Hc). destruct Hc as (_ & _ & Hm).
  rewrite u64_wrap_small by (unfold_u; lia). unfold u64_sat_sub.
  destruct (cooldown cfg h <=? _) eqn:E; [apply Z.leb_le in E|apply Z.leb_gt in E]; cbn [snd];
    symmetry; [apply bool_decide_eq_true|apply bool_decide_eq_false]; lia.
Qed.

(** An endpoint always comes back: whatever succeeded, failed, was asked
    to wait or was consulted, an endpoint is usable once the wait its provider
    asked for is over and the longest cooldown has passed since its breaker
    opened; while open it is refused for exactly its cooldown, the base doubled
    at each reopening up to the cap; and a closed one has failed fewer times in a
    row than the threshold. *)
Theorem endpoint_returns cfg ops :
  config_ok cfg -> Forall (fun o => 0 < op_now o) ops -> Z.of_nat (length ops) < u32_max ->
  let h := fold_left (health_op cfg) ops health_new in
  (forall now, not_before_unix_ms h <= now -> opened_unix_ms h + cooldown_max cfg <= now ->
     (available cfg now h).2 = true) /\
  (h_state h = BOpen -> forall now, not_before_unix_ms h <= now -> opened_unix_ms h <= now ->
     (available cfg now h).2 = true <-> opened_unix_ms h + cooldown cfg h <= now) /\
  (h_state h = BClosed -> consec_fail h < open_threshold cfg) /\
  (h_state h = BHalfOpen -> forall kind now,
     let h' := (record_failure kind cfg now h).1 in
     h_state h' = BOpen /\ opened_unix_ms h' = now /\
     cooldown cfg h <= cooldown cfg h' <= cooldown_max cfg).
Proof.
  intros Hc Hn Hl h. pose proof (health_run_ok cfg ops (proj1 Hc) Hn ltac:(lia)) as Hok. fold h in Hok.
  destruct Hok as [Hf Hcount Hclosed Hopen]. split; [|split; [|split]].
  - intros now H1 H2. destruct (h_state h) eqn:Es.
    + unfold available. rewrite Es. by destruct (Z.ltb_spec now (not_before_unix_ms h)); [lia|].
    + destruct Hopen as [_ Ho]; [done|]. rewrite available_open by done.
      apply bool_decide_eq_true. pose proof (cooldown_bounds cfg h Hc). lia.
    + unfold available. rewrite Es. by destruct (Z.ltb_spec now (not_before_unix_ms h)); [lia|].
  - intros Es now H1 H2. destruct Hopen as [_ Ho]; [congruence|]. rewrite available_open by done.
    rewrite bool_decide_eq_true. lia.
  - intros Es. by apply Hclosed.
  - intros Es kind now. destruct Hopen as [H1 _]; [congruence|]. cbn zeta. unfold record_failure.
    rewrite Es. rewrite bool_decide_true by done. cbn [orb fst]. split; [done|]. split; [done|].
    match goal with |- _ <= cooldown _ ?h' <= _ => pose proof (cooldown_bounds cfg h' Hc) end.
    split; [|lia]. unfold cooldown. cbn [open_breaker open_count].
    assert (u32_wrap (open_count h + 1) = open_count h + 1) as ->
      by (apply Z.mod_small; unfold_u; lia).
    assert (2 ^ Z.min (Z.max (open_count h - 1) 0) 20 <= 2 ^ Z.min (Z.max (open_count h + 1 - 1) 0) 20)
      by (apply Z.pow_le_mono_r; lia).
    destruct Hc as (_ & Hb & _). nia.
Qed.

(** ** The order of a sweep *)

Lemma ep_set_ep i j h l :
  (i < length (eps l))%nat -> ep j (set_ep i h l) = if decide (j = i) then h else ep j l.
Proof.
  intros Hi. unfold ep, set_ep. cbn. rewrite !nth_lookup. case_decide as Hj.
  - subst. by rewrite list_lookup_insert_eq.
  - by rewrite list_lookup_insert_ne by done.
Qed.

Lemma set_ep_length i h l : length (eps (set_ep i h l)) = length (eps l).
Proof. apply length_insert. Qed.

Definition usable (now : Z) (l : EndpointList) (i : nat) : bool := (available (breaker l) now (ep i l)).2.

Lemma consult_all_spec now todo l :
  NoDup todo -> Forall (fun i => (i < length (eps l))%nat) todo ->
  let '(l', order) := consult_all now todo l in
  order = List.filter (usable now l) todo /\
  length (eps l') = length (eps l) /\ active l' = active l /\ breaker l' = breaker l /\
  forall j, ep j l' = if decide (j ∈ todo) then (available (breaker l) now (ep j l)).1 else ep j l.
Proof.
  revert l. induction todo as [|i todo IH]; intros l Hnd Hin; cbn [consult_all].
  { split_and!; done || intros j; by rewrite decide_False by apply not_elem_of_nil. }
  apply NoDup_cons in Hnd as [Hni Hnd]. apply Forall_cons in Hin as [Hi Hin]. unfold consult.
  destruct (available (breaker l) now (ep i l)) as [h up] eqn:Ea.
  specialize (IH (set_ep i h l) Hnd ltac:(by rewrite set_ep_length)).
  destruct (consult_all now todo (set_ep i h l)) as [l2 order].
  destruct IH as (-> & Hl & Ha & Hb & Hep). rewrite set_ep_length in Hl.
  assert (List.filter (usable now (set_ep i h l)) todo = List.filter (usable now l) todo) as ->.
  { clear -Hni Hi. induction todo as [|j todo IH]; [done|]. cbn.
    apply not_elem_of_cons in Hni as [Hj Hni]. rewrite (IH Hni).
    assert (usable now (set_ep i h l) j = usable now l j) as ->; [|done].
    unfold usable. rewrite ep_set_ep by done. by rewrite decide_False by auto. }
  split_and!; try done.
  - assert (usable now l i = up) as Hu by (unfold usable; by rewrite Ea). cbn. by rewrite Hu.
  - intros j. rewrite Hep, ep_set_ep by done. destruct (decide (j = i)) as [->|Hj].
    + rewrite decide_False by done. rewrite (decide_True (P := i ∈ i :: todo)) by by left. by rewrite Ea.
    + destruct (decide (j ∈ todo)); [by rewrite decide_True by by right|].
      rewrite decide_False; [done|]. by intros [|]%elem_of_cons.
Qed.

Definition list_ok (l : EndpointList) : Prop := (active l < length (eps l))%nat.

Lemma candidates_spec l :
  list_ok l ->
  NoDup (candidates l) /\ forall i, i ∈ candidates l <-> (i < length (eps l))%nat.
Proof.
  intros Ha. unfold candidates.
  assert (forall i, i ∈ List.filter (fun i => negb (i =? active l)%nat) (seq 0 (length (eps l))) <->
    (i < length (eps l))%nat /\ i <> active l) as Hf.
  { intros i. rewrite list_elem_of_In, List.filter_In, in_seq, negb_true_iff, Nat.eqb_neq. lia. }
  split.
  - constructor; [rewrite Hf; tauto|]. apply NoDup_ListNoDup, List.NoDup_filter, seq_NoDup.
  - intros i. rewrite elem_of_cons, Hf. unfold list_ok in Ha. destruct (decide (i = active l)); lia.
Qed.

Lemma attempt_order_spec now l :
  list_ok l ->
  let '(l', order) := attempt_order now l in
  order = List.filter (usable now l) (candidates l) /\ NoDup order /\
  length (eps l') = length (eps l) /\ active l' = active l /\ breaker l' = breaker l /\
  forall j, (j < length (eps l))%nat -> ep j l' = (available (breaker l) now (ep j l)).1.
Proof.
  intros Ha. destruct (candidates_spec l Ha) as [Hnd Hin].
  pose proof (consult_all_spec now (candidates l) l Hnd) as Hc. unfold attempt_order.
  destruct (consult_all now (candidates l) l) as [l' order]. destruct Hc as (-> & Hl & Hact & Hb & Hep).
  { apply Forall_forall. intros i. by rewrite Hin. }
  split_and!; try done.
  - apply NoDup_ListNoDup, List.NoDup_filter, NoDup_ListNoDup. done.
  - intros j Hj. rewrite Hep, decide_True; [done|]. by apply Hin.
Qed.

(** ** What a sweep answers *)

Section outcome.
Context {R : Type} (dial : nat -> Dial R).

(** An attempt that fails in a way another endpoint may not. *)
Definition fails_over (i : nat) (e : IntelError) : Prop :=
  passed_before (dial i) = false /\ passed_after (dial i) = false /\ outcome (dial i) = Err e /\
  exists kind, classify e = Failover kind.

(** The list after endpoints other than [tried] kept their records. *)
Definition others_kept (tried : list nat) (l l' : EndpointList) : Prop :=
  length (eps l') = length (eps l) /\ active l' = active l /\ breaker l' = breaker l /\
  forall j, j ∉ tried -> ep j l' = ep j l.

Lemma set_ep_kept i h l : (i < length (eps l))%nat -> others_kept [i] l (set_ep i h l).
Proof.
  intros Hi. split_and!; [apply set_ep_length|done|done|]. intros j Hj. rewrite ep_set_ep by done.
  rewrite decide_False; [done|]. intros ->. set_solver.
Qed.

Lemma others_kept_trans t1 t2 l1 l2 l3 :
  others_kept t1 l1 l2 -> others_kept t2 l2 l3 -> others_kept (t1 ++ t2) l1 l3.
Proof.
  intros (H1 & H2 & H3 & H4) (K1 & K2 & K3 & K4). split_and!; try congruence.
  intros j [Hj1 Hj2]%not_elem_of_app. rewrite K4 by done. by apply H4.
Qed.

Lemma others_kept_self t1 t2 l1 l2 : t1 ⊆ t2 -> others_kept t1 l1 l2 -> others_kept t2 l1 l2.
Proof. intros Ht (H1 & H2 & H3 & H4). split_and!; try done. intros j Hj. apply H4. set_solver. Qed.

Lemma dialled_kept i l : (i < length (eps l))%nat -> others_kept [i] l (dialled dial i l).
Proof.
  intros Hi. unfold dialled. destruct (asked_wait (dial i)); [by apply set_ep_kept|]. by split_and!.
Qed.

(** Through a run of failing endpoints. *)
Lemma sweep_tried tried errs rest prev failover changes last_err l :
  Forall2 fails_over tried errs -> Forall (fun i => (i < length (eps l))%nat) tried ->
  exists failover' changes' l',
    sweep dial (tried ++ rest) prev failover changes last_err l =
      sweep dial rest (match last tried with Some t => Some t | None => prev end) failover' changes'
        (match last errs with Some e => Some e | None => last_err end) l' /\
    others_kept tried l l' /\ (tried = [] -> failover' = failover).
Proof.
  intros Hf. revert prev failover changes last_err l.
  induction Hf as [|i e tried errs Hi Hf IH]; intros prev failover changes last_err l Hin.
  { exists failover, changes, l. by split_and!. }
  apply Forall_cons in Hin as [Hlt Hin]. destruct Hi as (Hb & Ha & Ho & kind & Hk).
  cbn [app sweep]. rewrite Hb, Ho, Ha, Hk.
  pose proof (dialled_kept i l Hlt) as Hd. set (l1 := dialled dial i l) in *. clearbody l1.
  destruct (record_failure kind (breaker l1) (dial_now (dial i)) (ep i l1)) as [h t].
  assert (i < length (eps l1))%nat as Hlt1 by (destruct Hd as (-> & _); done).
  pose proof (others_kept_trans _ _ _ _ _ Hd (set_ep_kept i h l1 Hlt1)) as Hk1.
  match goal with |- context [sweep dial _ (Some i) ?f ?c _ _] =>
    destruct (IH (Some i) f c (Some e) (set_ep i h l1)) as (f' & c' & l' & -> & Hk2 & _) end.
  { destruct Hk1 as (-> & _). done. }
  exists f', c', l'. split; [|split; [|done]].
  - rewrite !last_cons. by destruct (last tried), (last errs).
  - eapply others_kept_self; [|by eapply others_kept_trans]. set_solver.
Qed.

(** The failover a success reports: from the endpoint tried before it. *)
Definition advance (tried : list nat) (i : nat) : option (nat * nat) :=
  (fun p => (p, i)) <$> last tried.

Lemma lowest_up_spec l i :
  lowest_up l = Some i <->
  (i < length (eps l))%nat /\ is_up (ep i l) = true /\ forall j, (j < i)%nat -> is_up (ep j l) = false.
Proof.
  unfold lowest_up, ep. rewrite fmap_Some. split.
  - intros ([i' h] & (Hi & Hup & Hmin)%list_find_Some & ->). cbn in *.
    assert (i' < length (eps l))%nat as Hlt by (by apply lookup_lt_Some in Hi).
    rewrite nth_lookup, Hi. split_and!; try done. intros j Hj.
    destruct (lookup_lt_is_Some_2 (eps l) j ltac:(lia)) as [h' Hj'].
    rewrite nth_lookup, Hj'. cbn. apply not_true_is_false. by eapply Hmin.
  - intros (Hlt & Hup & Hmin). destruct (lookup_lt_is_Some_2 (eps l) i Hlt) as [h Hi].
    exists (i, h). split; [|done]. apply list_find_Some. rewrite nth_lookup, Hi in Hup.
    split_and!; try done. intros j h' Hj Hlt'. specialize (Hmin j Hlt').
    rewrite nth_lookup, Hj in Hmin. cbn in Hmin. congruence.
Qed.

Lemma prefer_spec l :
  let '(l', _) := prefer_lowest_healthy l in
  eps l' = eps l /\ breaker l' = breaker l /\
  active l' = match lowest_up l with Some i => i | None => active l end.
Proof.
  unfold prefer_lowest_healthy, set_list_active. destruct (lowest_up l) as [i|]; [|done].
  by destruct (decide (i = active l)).
Qed.

Lemma sweep_all_fail order errs e l1 l' r :
  Forall (fun i => (i < length (eps l1))%nat) order -> Forall2 fails_over order errs ->
  last errs = Some e -> sweep dial order None None [] None l1 = (l', r) ->
  s_outcome r = Err (AllEndpointsDown (Some e)) /\ s_served r = None /\ active l' = active l1.
Proof.
  intros Hin Hf Hlast E.
  destruct (sweep_tried order errs [] None None [] None l1 Hf Hin) as (f' & c' & l2 & E2 & Hk & _).
  rewrite app_nil_r, E in E2. cbn [sweep] in E2. rewrite Hlast in E2. injection E2 as -> ->. cbn.
  by destruct Hk as (_ & -> & _).
Qed.

(** The endpoint that serves, once its success is recorded. *)
Lemma serve_spec i lat now l3 l5 h t change snapped l4 :
  (i < length (eps l3))%nat -> record_success lat now (ep i l3) = (h, t) ->
  set_list_active i (set_ep i h l3) = (l4, change) -> prefer_lowest_healthy l4 = (l5, snapped) ->
  h_state (ep i l5) = BClosed /\ consec_fail (ep i l5) = 0 /\
  (forall j, j <> i -> ep j l5 = ep j l3) /\ lowest_up l5 = Some (active l5).
Proof.
  intros Hi3 Eh E4 E5. assert (h_state h = BClosed /\ consec_fail h = 0) as [Hc1 Hc2] by (by injection Eh as <- _).
  assert (eps l4 = eps (set_ep i h l3)) as He4
    by (unfold set_list_active in E4; destruct (decide _); by simplify_eq).
  pose proof (prefer_spec l4) as Hp. rewrite E5 in Hp. destruct Hp as (He5 & _ & Ha5).
  assert (forall j, ep j l5 = ep j (set_ep i h l3)) as Hep by (intros j; unfold ep; by rewrite He5, He4).
  rewrite Hep, ep_set_ep, decide_True by done. split; [done|]. split; [done|]. split.
  - intros j Hj. by rewrite Hep, ep_set_ep, decide_False by done.
  - assert (lowest_up l5 = lowest_up l4) as Hl5 by (unfold lowest_up; by rewrite He5).
    destruct (lowest_up l4) as [k|] eqn:El4; [by rewrite Hl5, Ha5|]. exfalso.
    unfold lowest_up in El4. apply fmap_None, list_find_None in El4.
    rewrite He4 in El4. cbn in El4. rewrite Forall_lookup in El4. apply (El4 i h).
    + by apply list_lookup_insert_eq.
    + unfold is_up. by rewrite Hc1.
Qed.

Lemma sweep_served tried errs i rest resp lat l1 l' r :
  NoDup (tried ++ i :: rest) -> Forall (fun i => (i < length (eps l1))%nat) (tried ++ i :: rest) ->
  Forall2 fails_over tried errs -> passed_before (dial i) = false -> outcome (dial i) = Ok (resp, lat) ->
  sweep dial (tried ++ i :: rest) None None [] None l1 = (l', r) ->
  s_outcome r = Ok resp /\ s_served r = Some i /\ s_failover r = advance tried i /\
  h_state (ep i l') = BClosed /\ consec_fail (ep i l') = 0 /\
  (forall j, j ∉ tried ++ [i] -> ep j l' = ep j l1) /\ lowest_up l' = Some (active l').
Proof.
  intros Hnd Hin Hf Hb Hout E. apply Forall_app in Hin as [Hin Hin2]. apply Forall_cons in Hin2 as [Hi _].
  destruct (sweep_tried tried errs (i :: rest) None None [] None l1 Hf Hin)
    as (f' & c' & l2 & E2 & Hk & Hf').
  rewrite E in E2. cbn [sweep] in E2. rewrite Hb, Hout in E2.
  assert (i < length (eps l2))%nat as Hi2 by (destruct Hk as (-> & _); done).
  pose proof (dialled_kept i l2 Hi2) as Hd. set (l3 := dialled dial i l2) in *. clearbody l3.
  assert (i < length (eps l3))%nat as Hi3 by (destruct Hd as (-> & _); done).
  destruct (record_success lat (dial_now (dial i)) (ep i l3)) as [h t] eqn:Eh.
  destruct (set_list_active i (set_ep i h l3)) as [l4 change] eqn:E4.
  destruct (prefer_lowest_healthy l4) as [l5 snapped] eqn:E5.
  destruct (serve_spec _ _ _ _ _ _ _ _ _ _ Hi3 Eh E4 E5) as (S1 & S2 & S3 & S4).
  injection E2 as -> ->. cbn. split; [done|]. split; [done|]. split.
  { unfold advance. destruct (last tried) as [p|] eqn:El; cbn.
    - destruct (decide (p = i)) as [->|]; [|done]. exfalso.
      apply NoDup_app in Hnd as (_ & Hd2 & _). apply last_Some_elem_of in El. by apply (Hd2 i El); left.
    - apply last_None in El. by rewrite Hf'. }
  split_and!; try done. intros j [Hj1 Hj2]%not_elem_of_app. rewrite S3 by (intros ->; set_solver).
  destruct Hd as (_ & _ & _ & ->); [|done]. by destruct Hk as (_ & _ & _ & ->).
Qed.

Lemma sweep_fatal tried errs i rest e l1 l' r :
  NoDup (tried ++ i :: rest) -> Forall (fun i => (i < length (eps l1))%nat) (tried ++ i :: rest) ->
  Forall2 fails_over tried errs -> passed_before (dial i) = false -> passed_after (dial i) = false ->
  outcome (dial i) = Err e -> classify e = Fatal ->
  sweep dial (tried ++ i :: rest) None None [] None l1 = (l', r) ->
  s_outcome r = Err e /\ s_served r = None /\ (forall j, j ∉ tried ++ [i] -> ep j l' = ep j l1) /\
  h_state (ep i l') = h_state (ep i l1) /\ consec_fail (ep i l') = consec_fail (ep i l1).
Proof.
  intros Hnd Hin Hf Hb Ha Hout Hcl E. apply Forall_app in Hin as [Hin Hin2].
  apply Forall_cons in Hin2 as [Hi _].
  destruct (sweep_tried tried errs (i :: rest) None None [] None l1 Hf Hin)
    as (f' & c' & l2 & E2 & Hk & _).
  rewrite E in E2. cbn [sweep] in E2. rewrite Hb, Hout, Ha, Hcl in E2. injection E2 as -> ->. cbn.
  assert (i < length (eps l2))%nat as Hi2 by (destruct Hk as (-> & _); done).
  pose proof (dialled_kept i l2 Hi2) as Hd. destruct Hk as (_ & _ & _ & Hk).
  split; [done|]. split; [done|].
  assert (ep i l2 = ep i l1) as Hei.
  { apply Hk. apply NoDup_app in Hnd as (_ & Hd2 & _). intros Hin3. by apply (Hd2 i Hin3); left. }
  split.
  - intros j [Hj1 Hj2]%not_elem_of_app. destruct Hd as (_ & _ & _ & ->); [|done]. by apply Hk.
  - rewrite <- Hei. unfold dialled. destruct (asked_wait (dial i)) as [w|]; [|done].
    rewrite ep_set_ep, decide_True by done. done.
Qed.

(** C14: one completion sweeps the list once and answers from the first
    endpoint that settles it: with no usable endpoint it says all are down; if
    every usable endpoint fails in a way another may not, it says all are down
    with the last cause; an endpoint that answers after such failures serves the
    call, closes its breaker, and the active endpoint becomes the lowest one
    whose breaker is not open; an error every endpoint would give (bad request,
    credential) comes back at once, counted against no breaker; and no endpoint
    after the one that settled it is touched. *)
Theorem sweep_answers now l :
  list_ok l ->
  let '(l1, order) := attempt_order now l in
  let '(l', r) := complete_resilient dial now l in
  (order = [] -> l' = l1 /\ s_outcome r = Err (AllEndpointsDown None)) /\
  (forall errs e, Forall2 fails_over order errs -> last errs = Some e ->
     s_outcome r = Err (AllEndpointsDown (Some e)) /\ s_served r = None /\ active l' = active l) /\
  (forall tried errs i rest resp latency, order = tried ++ i :: rest -> Forall2 fails_over tried errs ->
     passed_before (dial i) = false -> outcome (dial i) = Ok (resp, latency) ->
     s_outcome r = Ok resp /\ s_served r = Some i /\ s_failover r = advance tried i /\
     h_state (ep i l') = BClosed /\ consec_fail (ep i l') = 0 /\
     (forall j, j ∉ tried ++ [i] -> ep j l' = ep j l1) /\ lowest_up l' = Some (active l')) /\
  (forall tried errs i rest e, order = tried ++ i :: rest -> Forall2 fails_over tried errs ->
     passed_before (dial i) = false -> passed_after (dial i) = false ->
     outcome (dial i) = Err e -> classify e = Fatal ->
     s_outcome r = Err e /\ s_served r = None /\ (forall j, j ∉ tried ++ [i] -> ep j l' = ep j l1) /\
     h_state (ep i l') = h_state (ep i l1) /\ consec_fail (ep i l') = consec_fail (ep i l1)).
Proof.
  intros Hok. pose proof (attempt_order_spec now l Hok) as Hao. unfold complete_resilient.
  destruct (attempt_order now l) as [l1 order]. destruct Hao as (Ho & Hnd & Hlen & Hact & _ & _).
  assert (Forall (fun i => (i < length (eps l1))%nat) order) as Hin.
  { apply Forall_forall. intros i Hi. rewrite Hlen. apply (candidates_spec l Hok). subst order.
    apply list_elem_of_In in Hi. apply List.filter_In in Hi as [Hi _]. by apply list_elem_of_In. }
  clear Ho. destruct (decide (order = [])) as [->|Hne].
  { split_and!; try done.
    - intros errs e Hf. inversion Hf; subst. done.
    - intros tried errs i rest resp lat E. by destruct tried.
    - intros tried errs i rest e E. by destruct tried. }
  assert (match order with [] => (l1, mkSweep (Err (AllEndpointsDown None)) None [] None None)
          | _ :: _ => sweep dial order None None [] None l1 end = sweep dial order None None [] None l1)
    as -> by (by destruct order).
  destruct (sweep dial order None None [] None l1) as [l' r] eqn:E. split; [done|]. split; [|split].
  - intros errs e Hf Hlast. rewrite <- Hact. by eapply sweep_all_fail.
  - intros tried errs i rest resp lat -> Hf Hb Hout. by eapply sweep_served.
  - intros tried errs i rest e -> Hf Hb Ha Hout Hcl. by eapply sweep_fatal.
Qed.
End outcome.

(** ** Samples *)

Module FailoverSample.
Definition two : EndpointList := mkList [health_new; health_new] 0 breaker_default.
(** The primary is down, its sibling answers. *)
Definition dial (i : nat) : Dial string :=
  match i with
  | O => mkDial false (Err (Http 503 "busy")) (Some 2000) false 1000
  | _ => mkDial false (Ok ("hello", 1500)) None false 1200
  end.
Definition outage : list HealthOp :=
  [HFailure KTimeout 10; HFailure KTimeout 20; HFailure KTimeout 30; HConsult 6000; HFailure KRefused 6010].
End FailoverSample.
Import FailoverSample.

Example sample_sweep :
  let '(l, r) := complete_resilient dial 900 two in
  s_outcome r = Ok "hello" /\ s_failover r = Some (0%nat, 1%nat) /\ active l = 0%nat.
Proof. vm_compute. done. Qed.

Lemma endpoint_returns_witness :
  let h := fold_left (health_op breaker_default) outage health_new in
  (forall now, not_before_unix_ms h <= now -> opened_unix_ms h + 60000 <= now ->
     (available breaker_default now h).2 = true) /\
  (h_state h = BOpen -> forall now, not_before_unix_ms h <= now -> opened_unix_ms h <= now ->
     (available breaker_default now h).2 = true <-> opened_unix_ms h + cooldown breaker_default h <= now) /\
  (h_state h = BClosed -> consec_fail h < 3) /\
  (h_state h = BHalfOpen -> forall kind now,
     let h' := (record_failure kind breaker_default now h).1 in
     h_state h' = BOpen /\ opened_unix_ms h' = now /\
     cooldown breaker_default h <= cooldown breaker_default h' <= 60000).
Proof.
  refine (endpoint_returns breaker_default outage _ _ _).
  - vm_compute. split_and!; congruence.
  - repeat constructor.
  - vm_compute. reflexivity.
Defined.

Lemma sweep_answers_witness :
  let '(l1, order) := attempt_order 900 two in
  let '(l', r) := complete_resilient dial 900 two in
  (order = [] -> l' = l1 /\ s_outcome r = Err (AllEndpointsDown None)) /\
  (forall errs e, Forall2 (fails_over dial) order errs -> last errs = Some e ->
     s_outcome r = Err (AllEndpointsDown (Some e)) /\ s_served r = None /\ active l' = active two) /\
  (forall tried errs i rest resp latency, order = tried ++ i :: rest ->
     Forall2 (fails_over dial) tried errs ->
     passed_before (dial i) = false -> outcome (dial i) = Ok (resp, latency) ->
     s_outcome r = Ok resp /\ s_served r = Some i /\ s_failover r = advance tried i /\
     h_state (ep i l') = BClosed /\ consec_fail (ep i l') = 0 /\
     (forall j, j ∉ tried ++ [i] -> ep j l' = ep j l1) /\ lowest_up l' = Some (active l')) /\
  (forall tried errs i rest e, order = tried ++ i :: rest -> Forall2 (fails_over dial) tried errs ->
     passed_before (dial i) = false -> passed_after (dial i) = false ->
     outcome (dial i) = Err e -> classify e = Fatal ->
     s_outcome r = Err e /\ s_served r = None /\ (forall j, j ∉ tried ++ [i] -> ep j l' = ep j l1) /\
     h_state (ep i l') = h_state (ep i l1) /\ consec_fail (ep i l') = consec_fail (ep i l1)).
Proof. apply (sweep_answers dial 900 two). unfold list_ok. cbn. lia. Defined.

(** The active endpoint goes back to the primary as soon as its cooldown is
    over, before any call has closed its breaker: consulting it for the sweep
    promotes it to half-open, which counts as up. *)
Definition cooled_primary : EndpointList :=
  mkList [set_h_state BOpen (open_breaker 1000 health_new); health_new] 1 breaker_default.
Lemma snap_back_before_close :
  let '(l, r) := complete_resilient (fun _ => mkDial false (Ok ("hello", 1500)) None false 9000) 9000
                   cooled_primary in
  s_served r = Some 1%nat /\ active l = 0%nat /\ h_state (ep 0 l) = BHalfOpen.
Proof. vm_compute. done. Qed.
