(* ===== verification/Workflow.v ===== *)
(** * Workflows ([engine/model.rs])

    A workflow as the parser leaves it: its steps with their bodies and
    branches, the catalogue of step kinds, the orders and walks over its
    graph and the checks that decide whether the definition is accepted.
    A [BTreeMap] nested in a step is its entries in key order; an error is a
    constructor with the values its text interpolates. *)

From S2P Require Export Json Text.
From S2P Require Breaker.
Open Scope Z_scope.

(** ** Steps *)

Inductive OnError : Type :=
  | Fail_
  | Continue
  | Goto (target : string).

#[export] Instance on_error_eq_dec : EqDecision OnError.
Proof. solve_decision. Defined.

(** [OnError::parse]; [s["goto:".len()..].trim()]. *)
Inductive OnErrorParse : Type :=
  | GotoNeedsStep
  | NotAPolicy.

Definition on_error_parse (v : Value) : result OnErrorParse OnError :=
  match as_str v with
  | Some s =>
      if decide (s = "fail") then Ok Fail_
      else if decide (s = "continue") then Ok Continue
      else match strip_prefix "goto:" s with
           | Some rest =>
               match trim (chars rest) with
               | [] => Err GotoNeedsStep
               | t => Ok (Goto (text t))
               end
           | None => Err NotAPolicy
           end
  | None => Err NotAPolicy
  end.

Inductive OnReplay : Type := RRetry | RSkip | RFail.

Record Retry := mkRetry { retry_max : Z; backoff_ms : Z }.

Inductive Step : Type := mkStep {
  id : string;
  kind : string;
  depends_on : list string;
  when : option string;
  guard : option string;
  guarding : option string;
  retry : option Retry;
  timeout_ms : option Z;
  on_error : OnError;
  idempotent : bool;
  on_replay : OnReplay;
  output_schema : option Value;
  cache : option Value;
  step_budget : option Z;
  skills : list string;
  description : option string;
  spec : list (string * Value);
  body : option Body;
  branches : list (string * Body);
}
with Body : Type := mkBody {
  body_steps : list (string * Step);
}.

(** ** The catalogue *)

Record KindInfo := mkKindInfo {
  name : string;
  start : bool;
  fields : list string;
  required : list string;
  implemented : bool;
  nested : bool;
}.

Definition k : string -> bool -> list string -> list string -> bool -> bool -> KindInfo :=
  mkKindInfo.

Definition START_KINDS : list KindInfo :=
  [k "once" true ["policy"; "inputs"]
     [] true false;
   k "manual" true ["inputs"]
     [] true false;
   k "loop" true ["interval"; "delay"; "until"; "max_iterations"; "backoff"; "inputs"]
     [] true false;
   k "schedule" true ["cron"; "every"; "at"; "inputs"]
     [] true false;
   k "subscribe" true ["server"; "uri"; "debounce_ms"; "filter"; "window"; "inputs"]
     ["server"; "uri"] true false;
   k "stream" true ["stream"; "subject"; "filter"; "from"; "rate"; "batch"; "inputs"]
     ["stream"] true false;
   k "correlate" true ["stream"; "on"; "by"; "window"; "on_incomplete"; "filter"; "max_pending"; "inputs"]
     ["stream"; "on"] true false;
   k "signal" true ["name"; "filter"; "inputs"]
     ["name"] true false;
   k "event" true ["on"; "filter"; "inputs"]
     ["on"] true false;
   k "a2a" true ["command"; "roles"; "inputs"; "schema"; "into"]
     [] true false;
   k "webhook" true ["path"; "methods"; "auth"; "parallelism"; "on_overflow"; "rate"; "idempotency";
      "respond"; "filter"; "inputs"; "signal"; "into"]
     ["path"] true false].

Definition CONTROL_KINDS : list KindInfo :=
  [k "switch" false ["on"; "cases"; "default"; "on_no_match"]
     ["on"; "cases"] true false;
   k "parallel" false ["branches"; "on_error"; "min_success"]
     ["branches"] true true;
   k "foreach" false ["over"; "body"; "batch"; "collect"; "on_error"; "as"]
     ["over"; "body"] true true;
   k "batch" false ["over"; "body"; "by"; "size"; "parallel"; "rate"; "collect"; "on_error"]
     ["over"; "body"] true true;
   k "iterate" false ["body"; "while"; "until"; "max_iterations"; "collect"]
     ["body"] true true;
   k "race" false ["branches"; "timeout"]
     ["branches"] true true;
   k "join" false ["handles"; "timeout"; "min"; "partials"]
     ["handles"] true false;
   k "subgraph" false ["body"]
     ["body"] true true;
   k "workflow" false ["name"; "inputs"; "mode"; "start"; "version"; "cascade"]
     ["name"] true false;
   k "wait" false ["on"; "server"; "registry"; "version"; "uri"; "condition"; "signal"; "run";
      "subagent"; "conversation"; "from"; "webhook"; "stream"; "subject"; "subscribe";
      "match"; "task"; "timeout"; "on_timeout"]
     ["on"] true false;
   k "sleep" false ["duration"]
     ["duration"] true false;
   k "assert" false ["condition"; "message"]
     ["condition"] true false;
   k "fail" false ["message"; "code"]
     [] true false;
   k "noop" false []
     [] true false;
   k "checkpoint" false ["name"]
     [] true false;
   k "finish" false ["status"; "output"; "reason"]
     [] true false].

Definition DATA_KINDS : list KindInfo :=
  [k "assign" false ["value"; "writes"; "mode"]
     ["value"] true false;
   k "transform" false ["value"; "writes"; "mode"]
     ["value"] true false;
   k "map" false ["over"; "expr"; "as"]
     ["over"; "expr"] true false;
   k "filter" false ["over"; "expr"; "as"]
     ["over"; "expr"] true false;
   k "reduce" false ["over"; "expr"; "initial"; "as"; "acc"]
     ["over"; "expr"] true false;
   k "sort" false ["over"; "by"; "order"]
     ["over"] true false;
   k "dedupe" false ["over"; "by"]
     ["over"] true false;
   k "chunk" false ["value"; "by"; "size"; "overlap"]
     ["value"; "size"] true false;
   k "template" false ["text"; "value"]
     [] true false;
   k "parse" false ["text"; "format"]
     ["text"] true false;
   k "validate" false ["value"; "schema"]
     ["value"; "schema"] true false;
   k "memory.get" false ["key"]
     ["key"] true false;
   k "memory.set" false ["key"; "value"; "ttl"]
     ["key"; "value"] true false;
   k "memory.list" false ["prefix"; "limit"]
     [] true false;
   k "memory.push" false ["key"; "value"]
     ["key"; "value"] true false;
   k "memory.shift" false ["key"]
     ["key"] true false;
   k "memory.pop" false ["key"]
     ["key"] true false;
   k "memory.delete" false ["key"]
     ["key"] true false;
   k "artifact.create" false ["name"; "mime"; "content"; "from_step"; "sensitive"]
     ["name"] true false;
   k "artifact.get" false ["id"]
     ["id"] true false;
   k "artifact.delete" false ["id"]
     ["id"] true false;
   k "knowledge.search" false ["query"; "top_k"; "filters"]
     ["query"] true false;
   k "knowledge.get" false ["id"; "uri"]
     [] true false;
   k "search.query" false ["query"; "kind"; "limit"; "freshness"]
     ["query"] true false;
   k "search.fetch" false ["url"; "max_bytes"]
     ["url"] true false].

Definition INTEGRATION_KINDS : list KindInfo :=
  [k "mcp.tool" false ["server"; "registry"; "version"; "tool"; "args"; "idempotency"; "breaker"; "rate";
      "detach"; "input"; "payment"]
     ["server"; "tool"] true false;
   k "mcp.resource" false ["server"; "registry"; "version"; "op"; "uri"; "name"; "arguments"; "reference";
      "argument"]
     ["server"; "op"] true false;
   k "tool" false ["name"; "args"; "detach"; "input"]
     ["name"] true false;
   k "http" false ["method"; "url"; "endpoint"; "headers"; "query"; "body"; "json"; "timeout";
      "expect"; "allow_private"; "sign"; "idempotency"; "breaker"; "rate"; "auth";
      "payment"]
     ["url"] true false;
   k "a2a.send" false ["to"; "parts"; "command"; "args"; "context"; "timeout"; "idempotency"; "breaker";
      "rate"; "payment"]
     ["to"] true false;
   k "a2a.delegate" false ["peer"; "objective"; "command"; "args"; "output_contract"; "timeout";
      "idempotency"; "breaker"; "rate"; "auth_to"; "auth_timeout"; "payment"]
     ["peer"] true false;
   k "a2a.wait" false ["conversation"; "from"; "timeout"]
     ["from"] true false;
   k "message" false ["to"; "text"; "parts"; "wait"; "timeout"; "on_timeout"]
     ["to"] true false;
   k "workflow.signal" false ["name"; "payload"; "run"]
     ["name"] true false;
   k "workflow.wait" false ["run"; "timeout"]
     ["run"] true false;
   k "workflow.cancel" false ["run"; "reason"]
     ["run"] true false;
   k "emit" false ["note"; "audit"; "value"; "stream"; "subject"; "data"; "correlation"; "forward"]
     [] true false].

Definition AGENT_KINDS : list KindInfo :=
  [k "think" false ["prompt"; "output_schema"; "reads"; "check"; "retries"; "skills"; "system";
      "model"; "effort"]
     ["prompt"] true false;
   k "classify" false ["input"; "classes"; "prompt"; "skills"; "model"; "confidence"; "on_unsure"]
     ["input"; "classes"] true false;
   k "extract" false ["input"; "output_schema"; "prompt"; "skills"; "model"]
     ["input"; "output_schema"] true false;
   k "summarize" false ["input"; "length"; "prompt"; "skills"; "model"]
     ["input"] true false;
   k "judge" false ["input"; "rubric"; "levels"; "prompt"; "skills"; "model"; "confidence";
      "on_unsure"]
     ["input"; "rubric"] true false;
   k "route" false ["input"; "choices"; "prompt"; "skills"; "model"; "confidence"; "on_unsure"]
     ["input"; "choices"] true false;
   k "decide" false ["state"; "questions"; "model"; "confidence"; "on_unsure"]
     ["state"; "questions"] true false;
   k "agent" false ["instruction"; "output_contract"; "output_schema"; "tools"; "servers"; "limits";
      "context"; "skills"; "system"; "model"; "effort"]
     ["instruction"] true false;
   k "subagent" false ["instruction"; "template"; "params"; "mode"; "tools"; "servers"; "limits";
      "priority"; "context"; "output_contract"; "output_schema"; "skills"; "durable"]
     [] true false;
   k "human" false ["question"; "schema"; "to"; "timeout"; "reply_uri"]
     ["question"] true false].

Definition KINDS : list KindInfo :=
  START_KINDS ++ CONTROL_KINDS ++ DATA_KINDS ++ INTEGRATION_KINDS ++ AGENT_KINDS.

Definition COMMON_FIELDS : list string :=
  ["kind"; "depends_on"; "when"; "retry"; "timeout"; "on_error"; "idempotent"; "on_replay";
   "output_schema"; "cache"; "budget"; "skills"; "otel"; "description"].

Definition kind_info (n : string) : option KindInfo :=
  snd <$> list_find (fun i => name i = n) KINDS.

Definition implemented_kinds : list string :=
  name <$> List.filter implemented KINDS.

Definition mem (s : string) (l : list string) : bool := bool_decide (s ∈ l).

Definition pure_data_kind (kind : string) : bool :=
  mem kind ["assign"; "map"; "filter"; "reduce"; "sort"; "dedupe"; "chunk"; "parse"; "switch";
            "noop"; "assert"; "validate"].

Definition ONE_SHOT_STARTS : list string := ["once"; "manual"].
Definition start_kinds : list string := name <$> List.filter start KINDS.
Definition is_long_lived_start (kind : string) : bool :=
  existsb (fun i => start i && bool_decide (name i = kind)) KINDS && negb (mem kind ONE_SHOT_STARTS).

Definition RAW_FIELDS : list (string * string) :=
  [("assert", "condition"); ("validate", "schema"); ("map", "expr"); ("filter", "expr");
   ("reduce", "expr"); ("iterate", "while"); ("iterate", "until"); ("iterate", "body");
   ("foreach", "body"); ("batch", "body"); ("subgraph", "body"); ("parallel", "branches");
   ("race", "branches"); ("subscribe", "filter"); ("signal", "filter"); ("event", "filter");
   ("wait", "condition"); ("wait", "match"); ("think", "check"); ("switch", "cases");
   ("await", "condition")].
Definition is_raw_field (kind field : string) : bool :=
  bool_decide ((kind, field) ∈ RAW_FIELDS).

(** ** A step's own questions *)

Definition step_info (s : Step) : option KindInfo := kind_info (kind s).
Definition is_start (s : Step) : bool :=
  match step_info s with Some i => start i | None => false end.
Definition spec_field (n : string) (s : Step) : option Value := obj_get n (spec s).
Definition field_str (n : string) (s : Step) : option string := obj_get n (spec s) ≫= as_str.

(** The values of a [switch]'s [cases]. *)
Definition cases (s : Step) : list Value :=
  match obj_get "cases" (spec s) ≫= as_object with Some c => c.*2 | None => [] end.

Definition routes_to (s : Step) (target : string) : bool :=
  bool_decide (field_str "on_timeout" s = Some target)
  || bool_decide (on_error s = Goto target)
  || (bool_decide (kind s = "switch")
      && (bool_decide (field_str "default" s = Some target)
          || existsb (fun v => bool_decide (as_str v = Some target)) (cases s))).

(** ** The dependency order

    One pass adds, in key order, every step whose dependencies are all in;
    the passes stop when one adds nothing or every step is in.  A pass that
    goes on adds a step, so as many passes as there are steps are enough
    ([topo_order_complete]). *)

Fixpoint topo_pass (l : list (string * Step)) (done : gset string) (out : list string)
    (progress : bool) : gset string * list string * bool :=
  match l with
  | [] => (done, out, progress)
  | (id, s) :: l' =>
      if bool_decide (id ∉ done) && forallb (fun d => bool_decide (d ∈ done)) (depends_on s)
      then topo_pass l' ({[id]} ∪ done) (out ++ [id]) true
      else topo_pass l' done out progress
  end.

Fixpoint topo_loop (fuel : nat) (l : list (string * Step)) (done : gset string)
    (out : list string) : list string :=
  match fuel with
  | O => out
  | S fuel' =>
      if (length out <? length l)%nat then
        let '(done', out', progress) := topo_pass l done out false in
        if progress then topo_loop fuel' l done' out' else out'
      else out
  end.

Definition topo_steps (l : list (string * Step)) : list string := topo_loop (length l) l ∅ [].

Definition body_topo_order (b : Body) : list string := topo_steps (body_steps b).

(** [any(|s| s.depends_on.iter().any(|d| d == id))]. *)
Definition depended_on (l : list Step) (id : string) : bool :=
  existsb (fun s => mem id (depends_on s)) l.

Definition sinks (b : Body) : list string :=
  List.filter (fun id => negb (depended_on (body_steps b).*2 id)) (body_steps b).*1.

(** ** The definition *)

Inductive OnOverflow : Type := Queue | Drop | Replace.
Inductive ConcurrencyScope : Type := ByWorkflow | ByKey.

Record Concurrency := mkConcurrency {
  max_runs : Z;
  on_overflow : OnOverflow;
  scope : ConcurrencyScope;
}.
Definition concurrency_default : Concurrency := mkConcurrency 4 Queue ByWorkflow.

Record WorkflowLimits := mkLimits {
  limit_steps : option Z;
  limit_tokens : option Z;
  deadline_ms : option Z;
  limit_budget : option Value;
}.
Definition limits_default : WorkflowLimits := mkLimits None None None None.

Inductive WorkflowToolMode : Type := Sync | Async.
Record WorkflowToolGrant := mkGrant {
  g_root : bool; g_workflows : bool; g_subagents : bool; g_user : bool; g_agent : bool;
}.
Definition grant_default : WorkflowToolGrant := mkGrant true true false false false.
Record WorkflowTool := mkTool {
  tool_name : string;
  tool_mode : WorkflowToolMode;
  tool_grant : WorkflowToolGrant;
}.

Record StateDecl := mkStateDecl { schema : option Value; reducer : option string }.

Inductive UnloadPolicy : Type := Drain | UCancel | Detach.
Record Unload := mkUnload { policy : UnloadPolicy; unload_timeout_ms : option Z }.
Definition unload_default : Unload := mkUnload Drain None.
Definition unload_policy_as_str (p : UnloadPolicy) : string :=
  match p with Drain => "drain" | UCancel => "cancel" | Detach => "detach" end.

Inductive Priority : Type := Low | Normal | High.
Definition priority_as_str (p : Priority) : string :=
  match p with Low => "low" | Normal => "normal" | High => "high" end.

(** [Priority::from_spec]; the refused value is the error. *)
Definition priority_from_spec (v : option Value) : result Value Priority :=
  match v with
  | None => Ok Normal
  | Some v =>
      match as_str v with
      | Some s =>
          if decide (s = "low") then Ok Low
          else if decide (s = "normal") then Ok Normal
          else if decide (s = "high") then Ok High
          else Err v
      | None => Err v
      end
  end.
Definition nice (p : Priority) : option Z :=
  match p with Low => Some 10 | Normal => None | High => Some (-5) end.

Inductive Via : Type := Ciba | Standing.
Definition via_parse (s : string) : option Via :=
  if decide (s = "ciba") then Some Ciba
  else if decide (s = "standing") then Some Standing else None.

Record ActForPrincipal := mkActForPrincipal {
  af_source : string;
  af_issuer : option string;
  af_sub : option string;
  af_id : option string;
}.
Record ActFor := mkActFor { af_principal : ActForPrincipal; af_via : Via }.

Record Workflow := mkWorkflow {
  wf_name : string;
  priority : Priority;
  unload : Unload;
  durable : option bool;
  state : gmap string StateDecl;
  wf_description : option string;
  armed : bool;
  inputs_schema : option Value;
  concurrency : Concurrency;
  key : option string;
  tool : option WorkflowTool;
  limits : WorkflowLimits;
  outputs_schema : option Value;
  steps : gmap string Step;
  hash : string;
  definition : Value;
  gate_channels : gmap string string;
  document : bool;
  configured : bool;
  act_for : option ActFor;
}.

Definition start_steps (wf : Workflow) : list Step := List.filter is_start (vals (steps wf)).

(** [manual], else the first. *)
Definition default_start (wf : Workflow) : option Step :=
  match List.find (fun s => bool_decide (kind s = "manual")) (start_steps wf) with
  | Some s => Some s
  | None => head (start_steps wf)
  end.

Definition default_start_admits (wf : Workflow) (role : string) : bool :=
  match default_start wf ≫= (fun s => obj_get "roles" (spec s) ≫= as_array) with
  | None => true
  | Some roles =>
      match roles with
      | [] => true
      | _ => existsb (fun r => bool_decide (as_str r = Some role)) roles
      end
  end.

Definition dependents (wf : Workflow) (id : string) : list Step :=
  List.filter (fun s => mem id (depends_on s)) (vals (steps wf)).

Definition is_long_lived (wf : Workflow) : bool :=
  existsb (fun s => is_long_lived_start (kind s)) (start_steps wf).

Definition topo_order (wf : Workflow) : list string := topo_steps (entries (steps wf)).

(** ** Names, durations and routes *)

Definition MAX_ID_LEN : Z := 64.

Definition valid_id (s : string) : bool :=
  match chars s with
  | [] => false
  | c :: cs =>
      (is_alpha c || bool_decide (c = "_"%char))
      && (Z.of_nat (length (c :: cs)) <=? MAX_ID_LEN)
      && forallb (fun c => is_alnum c || bool_decide (c = "_"%char) || bool_decide (c = "-"%char)) cs
  end.

Inductive DurationField : Type :=
  | NotNonNegative
  | BadDuration (e : Breaker.DurationError)
  | NotMsObject
  | NotADuration.

(** Seconds, text or [{ms: n}]; a number of seconds past the width wraps. *)
Definition duration_ms (v : Value) : result DurationField Z :=
  match v with
  | VNum n => s ← ok_or NotNonNegative (as_u64 (VNum n)); Ok (u64_mul s 1000)
  | VStr s => match Breaker.parse_duration (chars s) with
              | Ok d => Ok (u64_wrap d)
              | Err e => Err (BadDuration e)
              end
  | VObj o => ok_or NotMsObject (obj_get "ms" o ≫= as_u64)
  | _ => Err NotADuration
  end.
Definition duration_ms_opt (v : Value) : option Z := ok (duration_ms v).

(** What a step of a kind opens on the webhook listener. *)
Inductive Opener : Type := WebhookStart | WebhookWait.
Definition route_opener (kind : string) (on : option string) : option Opener :=
  if decide (kind = "webhook") then Some WebhookStart
  else if decide (kind = "wait" /\ on = Some "webhook") then Some WebhookWait
  else None.

Record InboundRoute := mkInboundRoute {
  ir_step : string;
  ir_what : Opener;
  ir_auth : option Value;
  ir_route : option Value;
}.

(** The routes a step opens itself. *)
Definition own_route (step : string) (st : Value) : list InboundRoute :=
  let kind := default nil_str (get "kind" st ≫= as_str) in
  match route_opener kind (get "on" st ≫= as_str) with
  | Some what =>
      let route := if decide (kind = "webhook") then Some st else get "webhook" st in
      [mkInboundRoute step what (route ≫= get "auth") route]
  | None => []
  end.

(** [walk]: the steps of an object, their bodies and branches; the fuel is
    the depth of the document ([value_depth]). *)
Fixpoint walk_routes (fuel : nat) (steps : Value) (prefix : string) : list InboundRoute :=
  match fuel, as_object steps with
  | S fuel', Some o =>
      mjoin ((fun p : string * Value =>
        let '(id, st) := p in
        let step := prefix +:+ id in
        own_route step st
        ++ match get "body" st ≫= get "steps" with
           | Some b => walk_routes fuel' b (step +:+ "/")
           | None => []
           end
        ++ mjoin ((fun q : string * Value =>
             match get "steps" q.2 with
             | Some b => walk_routes fuel' b (step +:+ "/" +:+ q.1 +:+ "/")
             | None => []
             end) <$> default [] (get "branches" st ≫= as_object))) <$> o)
  | _, _ => []
  end.

Definition list_max_nat : list nat -> nat := foldr Nat.max O.

Fixpoint value_depth (v : Value) : nat :=
  match v with
  | VArr l => S (list_max_nat (value_depth <$> l))
  | VObj o => S (list_max_nat ((fun p => value_depth p.2) <$> o))
  | _ => O
  end.

Definition inbound_routes (def : Value) : list InboundRoute :=
  match get "steps" def with
  | Some s => walk_routes (value_depth s) s nil_str
  | None => []
  end.

(** ** A small workflow, for the examples *)

Definition plain (id kind : string) (deps : list string) (spec : list (string * Value)) : Step :=
  mkStep id kind deps None None None None None Fail_ false RRetry None None None [] None spec None [].

Definition of_steps (l : list Step) : Workflow :=
  mkWorkflow "w" Normal unload_default None ∅ None true None concurrency_default None None
    limits_default None (list_to_map ((fun s => (id s, s)) <$> l)) "h" VNull ∅ false false None.

(** [go] starts two branches that both append to [log]; [wait] routes its
    timeout to [late]; [f] finishes. *)
Definition sample : Workflow := of_steps
  [plain "go" "once" [] [];
   plain "a" "assign" ["go"] [("mode", VStr "append"); ("writes", VStr "log")];
   plain "b" "assign" ["go"] [("mode", VStr "append"); ("writes", VStr "log")];
   plain "w" "wait" ["a"; "b"] [("on_timeout", VStr "late")];
   plain "late" "noop" [] [];
   plain "f" "finish" ["w"; "late"] []].

Example sample_order : topo_order sample = ["go"; "late"; "a"; "b"; "w"; "f"].
Proof. vm_compute. reflexivity. Qed.
Example sample_start : default_start_admits sample "anyone" = true.
Proof. vm_compute. reflexivity. Qed.
Example valid_ids : (valid_id "fetch_1", valid_id "1st", valid_id nil_str) = (true, false, false).
Proof. reflexivity. Qed.
Example goto_trims : on_error_parse (VStr "goto: fix ") = Ok (Goto "fix").
Proof. reflexivity. Qed.
Example minutes : duration_ms (VStr "5m") = Ok 300000.
Proof. vm_compute. reflexivity. Qed.
