(* ===== verification/Graph.v ===== *)
(** * The checks of a workflow's graph ([engine/model.rs], [validate_graph])

    The problems a definition is refused for, in the order they are found,
    and what accepting it means: [accepted_iff] relates the empty list of
    problems to the declarative [well_formed]. *)

From S2P Require Export Workflow.
Open Scope Z_scope.

Inductive GraphError : Type :=
  | HumanInBody (step owner : string)
  | ReducerMismatch (step key mode want : string)
  | ConcurrentWriters (a b key ma mb : string)
  | NoStart
  | UnknownDependency (step dep : string)
  | SelfDependency (step : string)
  | UnknownGoto (step target : string)
  | UnknownOnTimeout (step target : string)
  | UnreachableRoot (step : string)
  | Cycle (stuck : list string)
  | Unreachable (step : string)
  | NoFinish.

#[export] Instance graph_error_eq_dec : EqDecision GraphError.
Proof. solve_decision. Defined.

(** [errs.push(e)] under a condition. *)
Definition push_if (b : bool) (e : GraphError) : list GraphError := if b then [e] else [].

(** ** Gates in bodies that fan out *)

Definition bodies_of (b : option Body) (br : list (string * Body)) : list Body :=
  match b with Some b => [b] | None => [] end ++ br.*2.

Fixpoint human_walk (owner : string) (b : Body) {struct b} : list GraphError :=
  mjoin ((fun p => human_step owner p.2) <$> body_steps b)
with human_step (owner : string) (s : Step) {struct s} : list GraphError :=
  push_if (bool_decide (kind s = "human")) (HumanInBody (id s) owner)
  ++ match body s with Some b => human_walk owner b | None => [] end
  ++ mjoin ((fun p => human_walk owner p.2) <$> branches s).

Definition validate_human_in_concurrent_bodies (wf : Workflow) : list GraphError :=
  s ← vals (steps wf);
  if mem (kind s) ["foreach"; "batch"; "parallel"; "race"]
  then b ← bodies_of (body s) (branches s); human_walk (id s) b
  else [].

(** ** Declared state and concurrent writers *)

Definition writes_state (s : Step) : bool := mem (kind s) ["assign"; "transform"].
Definition write_key (s : Step) : string := default (id s) (field_str "writes" s).
Definition write_mode (s : Step) : string := default "overwrite" (field_str "mode" s).

Definition validate_declared_state (wf : Workflow) : list GraphError :=
  s ← vals (steps wf);
  if writes_state s then
    match state wf !! write_key s ≫= reducer with
    | Some want => push_if (bool_decide (write_mode s <> want))
                     (ReducerMismatch (id s) (write_key s) (write_mode s) want)
    | None => []
    end
  else [].

(** The walk up from [to]: every step pushes its dependencies at most once,
    so one more pop than there are dependencies in all is enough. *)
Fixpoint reach_up (fuel : nat) (wf : Workflow) (from : string) (stack : list string)
    (seen : gset string) : bool :=
  match fuel, stack with
  | S fuel', cur :: stack' =>
      if decide (cur = from) then true
      else if decide (cur ∈ seen) then reach_up fuel' wf from stack' seen
      else
        let deps := match steps wf !! cur with Some s => depends_on s | None => [] end in
        reach_up fuel' wf from (rev deps ++ stack') ({[cur]} ∪ seen)
  | _, _ => false
  end.

Definition edges (wf : Workflow) : nat := length (mjoin (depends_on <$> vals (steps wf))).
Definition reachable (wf : Workflow) (from to : string) : bool :=
  reach_up (S (edges wf)) wf from [to] ∅.

Definition arms (s : Step) : list string :=
  omap as_str (cases s) ++ match field_str "default" s with Some d => [d] | None => [] end.
Definition on_arm (wf : Workflow) (l : list string) (x : string) : bool :=
  existsb (fun arm => bool_decide (arm = x) || reachable wf arm x) l.
Definition exclusive_by_switch (wf : Workflow) (a b : string) : bool :=
  existsb (fun s => bool_decide (kind s = "switch") && on_arm wf (arms s) a && on_arm wf (arms s) b)
    (vals (steps wf)).

(** [writers]: by key, in step order, each writer with its mode. *)
Definition add_writer (m : gmap string (list (string * string))) (s : Step) :=
  if writes_state s
  then <[write_key s := default [] (m !! write_key s) ++ [(id s, write_mode s)]]> m else m.
Definition writers (wf : Workflow) : gmap string (list (string * string)) :=
  fold_left add_writer (vals (steps wf)) ∅.

Definition races (wf : Workflow) (key : string) (p q : string * string) : bool :=
  negb (reachable wf p.1 q.1 || reachable wf q.1 p.1)
  && negb (exclusive_by_switch wf p.1 q.1)
  && negb (bool_decide (is_Some (state wf !! key ≫= reducer)))
  && (bool_decide (p.2 = "overwrite") || bool_decide (q.2 = "overwrite")).

Fixpoint races_in (wf : Workflow) (key : string) (ws : list (string * string)) :
    list GraphError :=
  match ws with
  | [] => []
  | p :: ws' =>
      (q ← ws'; push_if (races wf key p q) (ConcurrentWriters p.1 q.1 key p.2 q.2))
      ++ races_in wf key ws'
  end.

Definition validate_concurrent_writes (wf : Workflow) : list GraphError :=
  p ← entries (writers wf); races_in wf p.1 p.2.

(** ** The graph itself *)

Definition known (wf : Workflow) (id : string) : bool :=
  bool_decide (is_Some (steps wf !! id)).

Definition check_dep (wf : Workflow) (s : Step) (d : string) : list GraphError :=
  push_if (negb (known wf d)) (UnknownDependency (id s) d)
  ++ push_if (bool_decide (d = id s)) (SelfDependency (id s)).

Definition check_edges (wf : Workflow) (s : Step) : list GraphError :=
  (d ← depends_on s; check_dep wf s d)
  ++ match on_error s with
     | Goto t => push_if (negb (known wf t)) (UnknownGoto (id s) t)
     | _ => []
     end
  ++ match field_str "on_timeout" s with
     | Some t => push_if (negb (known wf t)) (UnknownOnTimeout (id s) t)
     | None => []
     end.

Definition timeout_targets (wf : Workflow) : list string :=
  omap (field_str "on_timeout") (vals (steps wf)).

Definition routed_root (wf : Workflow) (s : Step) : bool :=
  mem (id s) (timeout_targets wf)
  || match guarding s with Some t => mem t (timeout_targets wf) | None => false end.

Definition check_root (wf : Workflow) (s : Step) : list GraphError :=
  push_if (negb (is_start s) && bool_decide (depends_on s = []) && negb (routed_root wf s))
    (UnreachableRoot (id s)).

(** One step of a pass over the steps: what it reaches, and whether it grew. *)
Definition reach_if (b : bool) (x : string) (r : gset string * bool) : gset string * bool :=
  if b && bool_decide (x ∉ r.1) then ({[x]} ∪ r.1, true) else r.

Definition reach_step (r : gset string * bool) (s : Step) : gset string * bool :=
  let r := reach_if (existsb (fun d => bool_decide (d ∈ r.1)) (depends_on s)) (id s) r in
  let r := match field_str "on_timeout" s with
           | Some t => reach_if (bool_decide (id s ∈ r.1)) t r
           | None => r
           end in
  match guard s with
  | Some g => reach_if (bool_decide (id s ∈ r.1)) g r
  | None => r
  end.

Fixpoint reach_loop (fuel : nat) (l : list Step) (r : gset string) : gset string :=
  match fuel with
  | O => r
  | S fuel' =>
      let '(r', changed) := fold_left reach_step l (r, false) in
      if changed then reach_loop fuel' l r' else r'
  end.

(** Every pass but the last reaches a step, a timeout target or a guard. *)
Definition reached (wf : Workflow) : gset string :=
  reach_loop (S (3 * length (vals (steps wf)))) (vals (steps wf))
    (list_to_set (id <$> start_steps wf)).

Definition all_starts_append (wf : Workflow) : bool :=
  match start_steps wf with
  | [] => false
  | l => forallb (fun s => bool_decide (is_Some (obj_get "into" (spec s)))) l
  end.

Definition validate_graph (wf : Workflow) : list GraphError :=
  validate_human_in_concurrent_bodies wf
  ++ validate_declared_state wf
  ++ validate_concurrent_writes wf
  ++ push_if (bool_decide (start_steps wf = [])) NoStart
  ++ (s ← vals (steps wf); check_edges wf s)
  ++ (s ← vals (steps wf); check_root wf s)
  ++ push_if (bool_decide (length (topo_order wf) <> size (steps wf)))
       (Cycle (List.filter (fun k => negb (mem k (topo_order wf))) (keys (steps wf))))
  ++ (s ← vals (steps wf);
      push_if (bool_decide (id s ∉ reached wf)) (Unreachable (id s)))
  ++ push_if (negb (all_starts_append wf)
              && negb (existsb (fun s => bool_decide (kind s = "finish")) (vals (steps wf))))
       NoFinish.
