(* ===== verification/GraphProps.v ===== *)
(** * What an accepted workflow is

    The dependency order lists exactly the steps that can be reached without
    a cycle or an unknown dependency, each once and after what it depends on;
    the two walks of the validator compute the relations they stand for; and
    a definition is accepted exactly when it is [well_formed]. *)

From S2P Require Export Graph.

(** ** The dependency order *)

(** A step all of whose dependencies are grounded steps. *)
Inductive grounded (l : list (string * Step)) : string -> Prop :=
  | grounded_step id s :
      (id, s) ∈ l -> (forall d, d ∈ depends_on s -> grounded l d) -> grounded l id.

(** Each step of the order comes after its dependencies. *)
Definition deps_first (l : list (string * Step)) (out : list string) : Prop :=
  forall pre id post, out = pre ++ id :: post ->
  exists s, (id, s) ∈ l /\ forall d, d ∈ depends_on s -> d ∈ pre.

(** What the passes keep. *)
Record topo_inv (l : list (string * Step)) (seen : gset string) (out : list string) : Prop := {
  topo_done : forall x, x ∈ seen <-> x ∈ out;
  topo_nodup : NoDup out;
  topo_first : deps_first l out;
}.

Lemma deps_first_snoc l out id s :
  deps_first l out -> (id, s) ∈ l -> (forall d, d ∈ depends_on s -> d ∈ out) ->
  deps_first l (out ++ [id]).
Proof.
  intros Hf Hin Hd pre x post E. destruct post as [|y post _] using rev_ind.
  - apply app_inj_tail in E as [-> ->]. by exists s.
  - rewrite app_comm_cons, app_assoc in E. apply app_inj_tail in E as [E _].
    apply (Hf pre x post E).
Qed.

Lemma deps_first_grounded l out x : deps_first l out -> x ∈ out -> grounded l x.
Proof.
  intros Hf Hx. apply list_elem_of_split in Hx as (pre & post & ->).
  remember (length pre) as n eqn:En. revert pre x post En Hf.
  induction n as [n IH] using lt_wf_ind. intros pre x post En Hf.
  destruct (Hf pre x post eq_refl) as (s & Hin & Hd). apply (grounded_step _ _ _ Hin).
  intros d Hdd. specialize (Hd d Hdd). apply list_elem_of_split in Hd as (p1 & p2 & ->).
  apply (IH (length p1)) with (pre := p1) (post := p2 ++ x :: post); [|done|].
  - subst n. rewrite length_app. cbn. lia.
  - by rewrite <- app_assoc in Hf.
Qed.

(** A step the pass must list. *)
Definition ready_step (l : list (string * Step)) (seen : gset string) (id : string) : Prop :=
  id ∉ seen /\ exists s, (id, s) ∈ l /\ forall d, d ∈ depends_on s -> d ∈ seen.

Lemma topo_pass_mono l seen out : (topo_pass l seen out true).2 = true.
Proof.
  revert seen out. induction l as [|[x s] l IH]; intros seen out; cbn [topo_pass]; [done|].
  case_match; apply IH.
Qed.

Lemma deps_in (s : Step) (seen : gset string) :
  forallb (fun d => bool_decide (d ∈ seen)) (depends_on s) = true <->
  forall d, d ∈ depends_on s -> d ∈ seen.
Proof.
  rewrite forallb_forall. setoid_rewrite bool_decide_eq_true.
  by setoid_rewrite list_elem_of_In.
Qed.

Lemma topo_inv_add l seen out x s :
  topo_inv l seen out -> (x, s) ∈ l -> x ∉ seen -> (forall d, d ∈ depends_on s -> d ∈ seen) ->
  topo_inv l ({[x]} ∪ seen) (out ++ [x]).
Proof.
  intros [H1 H2 H3] Hin Hx Hd. split.
  - intros y. rewrite elem_of_union, elem_of_singleton, elem_of_app, list_elem_of_singleton, H1.
    tauto.
  - apply NoDup_app. split_and!; [done| |apply NoDup_singleton].
    intros y Hy ->%list_elem_of_singleton. by apply Hx, H1.
  - apply (deps_first_snoc _ _ _ s); [done|done|]. intros d Hdd. by apply H1, Hd.
Qed.

Lemma topo_pass_spec l l0 seen out p :
  (forall x, x ∈ l -> x ∈ l0) -> topo_inv l0 seen out ->
  let '(seen', out', p') := topo_pass l seen out p in
  topo_inv l0 seen' out' /\
  (p' = true -> p = true \/ length out < length out')%nat /\
  (length out <= length out')%nat /\
  (p' = false -> seen' = seen /\ out' = out /\ forall id, ~ ready_step l seen id).
Proof.
  revert seen out p. induction l as [|[x s] l IH]; intros seen out p Hsub Hinv; cbn [topo_pass].
  { split_and!; try done; [auto|]. intros ->. split_and!; try done.
    intros id (_ & s & Hs & _). by apply elem_of_nil in Hs. }
  assert (Hsub' : forall y, y ∈ l -> y ∈ l0) by (intros; apply Hsub; by right).
  destruct (bool_decide (x ∉ seen) && forallb _ (depends_on s)) eqn:E.
  - apply andb_true_iff in E as [Hx%bool_decide_eq_true Hd0].
    assert (Hd := proj1 (deps_in s seen) Hd0).
    assert (Hinv' := topo_inv_add _ _ _ _ _ Hinv (Hsub (x, s) (list_elem_of_here _ _)) Hx Hd).
    pose proof (topo_pass_mono l ({[x]} ∪ seen) (out ++ [x])) as Hm.
    specialize (IH ({[x]} ∪ seen) (out ++ [x]) true Hsub' Hinv').
    destruct (topo_pass l _ _ true) as [[seen' out'] p']. cbn in Hm. subst p'.
    rewrite length_app in IH. cbn in IH. destruct IH as (A & _ & B & _).
    split_and!; [done|intros _; right; lia|lia|done].
  - specialize (IH seen out p Hsub' Hinv).
    destruct (topo_pass l seen out p) as [[seen' out'] p']. destruct IH as (A & B & C & D).
    split_and!; [done|done|done|]. intros Hp. destruct (D Hp) as (-> & -> & Hn).
    split_and!; [done|done|]. intros id (Hid & s' & Hin & Hdd).
    apply elem_of_cons in Hin as [[= -> ->]|Hin]; [|apply (Hn id); split; eauto].
    apply andb_false_iff in E as [E%bool_decide_eq_false|E]; [done|].
    by rewrite (proj2 (deps_in s seen)) in E.
Qed.

(** The order when the loop stops: what the invariant says, and nothing
    grounded is missing. *)
Lemma topo_loop_spec l fuel seen out :
  NoDup l.*1 -> topo_inv l seen out -> (length l <= length out + fuel)%nat ->
  exists seen', topo_inv l seen' (topo_loop fuel l seen out) /\
    ((length l <= length (topo_loop fuel l seen out))%nat \/ forall id, ~ ready_step l seen' id).
Proof.
  intros Hnd. revert seen out. induction fuel as [|fuel IH]; intros seen out Hinv Hf; cbn [topo_loop].
  { exists seen. split; [done|left; lia]. }
  destruct (Nat.ltb_spec (length out) (length l)); [|by exists seen; split; [|left]].
  pose proof (topo_pass_spec l l seen out false (fun _ H => H) Hinv) as Hp.
  destruct (topo_pass l seen out false) as [[seen' out'] p']. destruct Hp as (A & B & C & D).
  destruct p'.
  - destruct (B eq_refl) as [|?]; [done|]. apply IH; [done|lia].
  - destruct (D eq_refl) as (-> & -> & Hn). exists seen. by split; [|right].
Qed.

Lemma topo_inv_empty l : topo_inv l ∅ [].
Proof.
  split; [set_solver|constructor|]. intros pre id post E. by destruct pre.
Qed.

Lemma topo_elem l out x : deps_first l out -> x ∈ out -> x ∈ l.*1.
Proof.
  intros Hf (pre & post & ->)%list_elem_of_split. destruct (Hf pre x post eq_refl) as (s & Hin & _).
  apply list_elem_of_fmap. by exists (x, s).
Qed.

(** The order is complete: the bound on the passes is enough. *)
Lemma topo_steps_spec l :
  NoDup l.*1 ->
  NoDup (topo_steps l) /\ deps_first l (topo_steps l) /\
  forall x, x ∈ topo_steps l <-> grounded l x.
Proof.
  intros Hnd. unfold topo_steps.
  destruct (topo_loop_spec l (length l) ∅ [] Hnd (topo_inv_empty l)) as (seen & [H1 H2 H3] & Hend);
    [cbn; lia|].
  split_and!; [done|done|]. intros x. split; [by apply deps_first_grounded|].
  destruct Hend as [Hlen|Hn].
  - intros [y s Hin _].
    assert (E : topo_steps l ≡ₚ l.*1).
    { apply submseteq_length_Permutation.
      - apply NoDup_submseteq; [done|]. intros z. by apply topo_elem.
      - rewrite length_fmap. done. }
    change (topo_loop (length l) l ∅ []) with (topo_steps l). rewrite E.
    apply list_elem_of_fmap. by exists (y, s).
  - intros Hx. apply H1. induction Hx as [y s Hin _ IH]. apply dec_stable. intros Hy.
    apply (Hn y). split; [done|]. by exists s.
Qed.

(** ** Ancestors *)

(** [a] is a dependency of the step [b]. *)
Definition dep_edge (wf : Workflow) (a b : string) : Prop :=
  exists s, steps wf !! b = Some s /\ a ∈ depends_on s.

(** The dependencies of the steps not yet seen. *)
Definition pending_of (seen : gset string) (p : string * Step) : list string :=
  if decide (p.1 ∈ seen) then [] else depends_on p.2.
Definition pending (l : list (string * Step)) (seen : gset string) : nat :=
  length (mjoin (pending_of seen <$> l)).

Lemma pending_cons p l seen :
  pending (p :: l) seen = (length (pending_of seen p) + pending l seen)%nat.
Proof. unfold pending. rewrite fmap_cons. cbn. by rewrite length_app. Qed.

Lemma pending_skip l seen cur : cur ∉ l.*1 -> pending l ({[cur]} ∪ seen) = pending l seen.
Proof.
  induction l as [|[k s] l IH]; intros Hn; [done|]. rewrite !pending_cons, IH by set_solver.
  unfold pending_of. cbn. destruct (decide (k ∈ seen)) as [H|H].
  - by rewrite decide_True by set_solver.
  - rewrite decide_False; [done|]. cbn in Hn. set_solver.
Qed.

Lemma pending_see l seen cur s :
  NoDup l.*1 -> (cur, s) ∈ l -> cur ∉ seen ->
  (pending l ({[cur]} ∪ seen) + length (depends_on s) = pending l seen)%nat.
Proof.
  intros Hnd Hin Hcur. induction l as [|[k x] l IH]; [by apply elem_of_nil in Hin|].
  apply NoDup_cons in Hnd as [Hk Hnd]. rewrite !pending_cons.
  apply elem_of_cons in Hin as [[= -> ->]|Hin].
  - rewrite pending_skip by done. unfold pending_of. cbn.
    rewrite decide_True by set_solver. rewrite decide_False by done. cbn. lia.
  - rewrite <- (IH Hnd Hin). unfold pending_of. cbn.
    assert (k <> cur).
    { intros ->. apply Hk, list_elem_of_fmap. by exists (cur, s). }
    destruct (decide (k ∈ seen)) as [H'|H'].
    + rewrite decide_True by set_solver. cbn. lia.
    + rewrite decide_False by set_solver. lia.
Qed.

Lemma pending_empty l : pending l ∅ = length (mjoin (depends_on <$> l.*2)).
Proof.
  induction l as [|[k s] l IH]; [done|]. rewrite pending_cons, IH. cbn.
  rewrite length_app. unfold pending_of. by rewrite decide_False by set_solver.
Qed.

Lemma reach_up_sound fuel wf from stack seen :
  reach_up fuel wf from stack seen = true -> exists x, x ∈ stack /\ rtc (dep_edge wf) from x.
Proof.
  revert stack seen. induction fuel as [|fuel IH]; intros stack seen H; cbn [reach_up] in H; [done|].
  destruct stack as [|cur stack]; [done|]. case_decide as E.
  { exists cur. split; [by left|]. by rewrite E. }
  case_decide as E2.
  { apply IH in H as (x & Hx & Hr). exists x. split; [by right|done]. }
  apply IH in H as (x & Hx & Hr). apply elem_of_app in Hx as [Hx|Hx].
  - destruct (steps wf !! cur) as [s|] eqn:Es; [|by apply elem_of_nil in Hx].
    apply list_elem_of_In, in_rev, list_elem_of_In in Hx.
    exists cur. split; [by left|]. eapply rtc_r; [done|]. by exists s.
  - exists x. split; [by right|done].
Qed.

(** What was seen is closed but for what waits on the stack. *)
Definition closed_upto (wf : Workflow) (seen : gset string) (stack : list string) : Prop :=
  forall a b, b ∈ seen -> dep_edge wf a b -> a ∈ seen \/ a ∈ stack.

Lemma closed_end wf seen from x :
  closed_upto wf seen [] -> rtc (dep_edge wf) from x -> x ∈ seen -> from ∈ seen.
Proof.
  intros Hc. induction 1 as [|a b c Hab Hr IH]; [done|]. intros Hx.
  destruct (Hc a b (IH Hx) Hab) as [?|Hn]; [done|by apply elem_of_nil in Hn].
Qed.

Definition deps_of (wf : Workflow) (cur : string) : list string :=
  match steps wf !! cur with Some s => depends_on s | None => [] end.

Lemma dep_edge_deps wf a b : dep_edge wf a b <-> a ∈ deps_of wf b.
Proof.
  unfold dep_edge, deps_of. destruct (steps wf !! b) as [s|].
  - split; [by intros (? & [= <-] & ?)|by exists s].
  - split; [by intros (? & ? & _)|by intros ?%elem_of_nil].
Qed.

Lemma closed_upto_see wf seen cur stack :
  closed_upto wf seen (cur :: stack) ->
  closed_upto wf ({[cur]} ∪ seen) (rev (deps_of wf cur) ++ stack).
Proof.
  intros Hc a b Hb Hab. rewrite elem_of_app.
  apply elem_of_union in Hb as [->%elem_of_singleton|Hb].
  - right. left. apply list_elem_of_In, in_rev. rewrite rev_involutive.
    by apply list_elem_of_In, dep_edge_deps.
  - destruct (Hc a b Hb Hab) as [?|[->|?]%elem_of_cons]; set_solver.
Qed.

Lemma pending_visit wf seen cur :
  cur ∉ seen ->
  (pending (entries (steps wf)) ({[cur]} ∪ seen) + length (deps_of wf cur)
   <= pending (entries (steps wf)) seen)%nat.
Proof.
  intros Hcur. unfold deps_of. destruct (steps wf !! cur) as [s|] eqn:Es.
  - rewrite (pending_see _ _ _ s); [lia|apply NoDup_keys|by apply elem_of_entries|done].
  - rewrite pending_skip; [cbn; lia|]. intros Hin%elem_of_keys. rewrite Es in Hin. by destruct Hin.
Qed.

Lemma reach_up_complete fuel wf from stack seen :
  closed_upto wf seen stack -> from ∉ seen ->
  (length stack + pending (entries (steps wf)) seen <= fuel)%nat ->
  reach_up fuel wf from stack seen = false ->
  forall x, x ∈ stack -> ~ rtc (dep_edge wf) from x.
Proof.
  intros Hc Hfrom Hf H x Hx Hr.
  assert (G : x ∈ stack \/ x ∈ seen) by auto. clear Hx. revert stack seen Hc Hfrom Hf H G.
  induction fuel as [|fuel IH]; intros stack seen Hc Hfrom Hf H G.
  - destruct stack; [|cbn in Hf; lia]. destruct G as [Hx|Hx]; [by apply elem_of_nil in Hx|].
    by apply Hfrom, (closed_end wf _ _ x).
  - destruct stack as [|cur stack].
    { destruct G as [Hx|Hx]; [by apply elem_of_nil in Hx|]. by apply Hfrom, (closed_end wf _ _ x). }
    cbn [reach_up] in H. cbn [length] in Hf. case_decide as E1; [done|]. case_decide as E2.
    + apply (IH stack seen); [|done|lia|done|set_solver].
      intros a b Hb Hab. destruct (Hc a b Hb Hab) as [?|[->|?]%elem_of_cons]; auto.
    + fold (deps_of wf cur) in H.
      apply (IH (rev (deps_of wf cur) ++ stack) ({[cur]} ∪ seen)); [| | |done|].
      * by apply closed_upto_see.
      * set_solver.
      * rewrite length_app, length_rev. pose proof (pending_visit wf seen cur E2). lia.
      * rewrite elem_of_app. set_solver.
Qed.

(** The walk up computes ancestry. *)
Lemma reachable_spec wf a b : reachable wf a b = true <-> rtc (dep_edge wf) a b.
Proof.
  unfold reachable. split.
  - intros (x & ->%list_elem_of_singleton & Hr)%reach_up_sound. done.
  - intros Hr. apply not_false_is_true. intros H.
    refine (reach_up_complete _ wf a [b] ∅ _ _ _ H b _ Hr); [|set_solver| |set_solver].
    + intros x y Hy. set_solver.
    + rewrite pending_empty. unfold edges, vals. cbn. lia.
Qed.

Lemma reachable_false wf a b : reachable wf a b = false <-> ~ rtc (dep_edge wf) a b.
Proof. rewrite <- reachable_spec. by destruct (reachable wf a b). Qed.

(** ** What the validator's second walk reaches *)

(** A step reached from the starts: below a reached step, routed to by a
    reached step's [on_timeout], or the decision guard of one. *)
Inductive reaches (wf : Workflow) : string -> Prop :=
  | reaches_start s : s ∈ start_steps wf -> reaches wf (id s)
  | reaches_dep s d : s ∈ vals (steps wf) -> d ∈ depends_on s -> reaches wf d -> reaches wf (id s)
  | reaches_timeout s t :
      s ∈ vals (steps wf) -> field_str "on_timeout" s = Some t -> reaches wf (id s) -> reaches wf t
  | reaches_guard s g :
      s ∈ vals (steps wf) -> guard s = Some g -> reaches wf (id s) -> reaches wf g.

(** The names a walk can add. *)
Definition names_of (s : Step) : list string :=
  id s :: option_list (field_str "on_timeout" s) ++ option_list (guard s).

(** A pass from [r]: it only grows, stays inside [P] when [P] is closed, says
    whether it grew, and when it did not the set is closed under the step. *)
Definition step_closed (r : gset string) (s : Step) : Prop :=
  ((exists d, d ∈ depends_on s /\ d ∈ r) -> id s ∈ r) /\
  (forall t, field_str "on_timeout" s = Some t -> id s ∈ r -> t ∈ r) /\
  (forall g, guard s = Some g -> id s ∈ r -> g ∈ r).

(** A pass part: the set and the flag grow together. *)
Record grows (r r' : gset string * bool) : Prop := {
  grows_sub : r.1 ⊆ r'.1;
  grows_flag : r.2 = true -> r'.2 = true;
  grows_new : r'.2 = true -> r.2 = true \/ (size r.1 < size r'.1)%nat;
  grows_same : r'.2 = false -> r' = r;
}.

#[export] Instance grows_preorder : PreOrder grows.
Proof.
  split.
  - intros r. split; [done|done|auto|done].
  - intros r1 r2 r3 [A1 A2 A3 A4] [B1 B2 B3 B4]. split; [set_solver|auto| |].
    + intros H. destruct (B3 H) as [H2|H2].
      * destruct (A3 H2) as [?|?]; [by left|]. right.
        pose proof (subseteq_size _ _ B1). lia.
      * right. pose proof (subseteq_size _ _ A1). lia.
    + intros H. rewrite (B4 H). apply A4. by rewrite <- (B4 H).
Qed.

Lemma reach_if_grows b x r : grows r (reach_if b x r).
Proof.
  unfold reach_if. destruct b; cbn; [|reflexivity].
  case_bool_decide as E; [|reflexivity]. split; cbn; [set_solver|done| |done].
  intros _. right. rewrite size_union by set_solver. rewrite size_singleton. lia.
Qed.

Lemma reach_if_elem b x r y : y ∈ (reach_if b x r).1 -> y ∈ r.1 \/ y = x /\ b = true.
Proof.
  unfold reach_if. destruct b; cbn; [|auto]. case_bool_decide; cbn; [set_solver|auto].
Qed.

Lemma reach_if_closed b x r : (reach_if b x r).2 = false -> b = true -> x ∈ r.1.
Proof.
  unfold reach_if. intros H ->. revert H. cbn. case_bool_decide as E; cbn; [done|].
  intros _. by destruct (decide (x ∈ r.1)).
Qed.

Lemma reach_step_grows r s : grows r (reach_step r s).
Proof.
  unfold reach_step.
  destruct (field_str "on_timeout" s), (guard s);
    repeat (etrans; [|apply reach_if_grows]); reflexivity.
Qed.

Lemma existsb_elem (l : list string) (r : gset string) :
  existsb (fun d => bool_decide (d ∈ r)) l = true <-> exists d, d ∈ l /\ d ∈ r.
Proof.
  rewrite existsb_exists. setoid_rewrite bool_decide_eq_true.
  by setoid_rewrite list_elem_of_In.
Qed.

(** What a step adds is named by it, and reached when the set was. *)
Lemma reach_step_elem r s y :
  y ∈ (reach_step r s).1 -> y ∈ r.1 \/ y ∈ names_of s.
Proof.
  unfold reach_step, names_of. intros H.
  destruct (guard s) as [g|], (field_str "on_timeout" s) as [t|]; cbn;
    repeat match goal with
    | H : _ ∈ (reach_if _ _ _).1 |- _ => apply reach_if_elem in H as [H|[-> _]]
    end; set_solver.
Qed.

Lemma reach_step_sound wf r s :
  s ∈ vals (steps wf) -> (forall y, y ∈ r.1 -> reaches wf y) ->
  forall y, y ∈ (reach_step r s).1 -> reaches wf y.
Proof.
  intros Hs Hr. unfold reach_step.
  set (r1 := reach_if (existsb _ (depends_on s)) (id s) r).
  assert (H1 : forall y, y ∈ r1.1 -> reaches wf y).
  { intros y [Hy|[-> (d & Hd & Hdr)%existsb_elem]]%reach_if_elem; [by apply Hr|].
    apply (reaches_dep wf s d); [done|done|by apply Hr]. }
  set (r2 := match field_str "on_timeout" s with Some t => _ | None => r1 end).
  assert (H2 : forall y, y ∈ r2.1 -> reaches wf y).
  { subst r2. destruct (field_str "on_timeout" s) as [t|] eqn:Et; [|done].
    intros y [Hy|[-> Hb%bool_decide_eq_true]]%reach_if_elem; [by apply H1|].
    apply (reaches_timeout wf s t); [done|done|by apply H1]. }
  destruct (guard s) as [g|] eqn:Eg; [|done].
  intros y [Hy|[-> Hb%bool_decide_eq_true]]%reach_if_elem; [by apply H2|].
  apply (reaches_guard wf s g); [done|done|by apply H2].
Qed.

Lemma reach_step_closed r s : (reach_step r s).2 = false -> step_closed r.1 s.
Proof.
  intros H. pose proof (grows_same _ _ (reach_step_grows r s) H) as E.
  unfold reach_step in *. revert H E.
  set (r1 := reach_if (existsb _ (depends_on s)) (id s) r).
  set (r2 := match field_str "on_timeout" s with Some t => _ | None => r1 end).
  intros H _.
  assert (G2 : r2.2 = false).
  { destruct (guard s); [|done]. destruct (r2.2) eqn:E; [|done].
    by rewrite (grows_flag _ _ (reach_if_grows _ _ r2) E) in H. }
  assert (G1 : r1.2 = false).
  { subst r2. destruct (field_str "on_timeout" s); [|done]. destruct (r1.2) eqn:E; [|done].
    by rewrite (grows_flag _ _ (reach_if_grows _ _ r1) E) in G2. }
  assert (E1 : r1 = r) by (apply (grows_same _ _ (reach_if_grows _ _ r)); done).
  assert (E2 : r2 = r).
  { rewrite <- E1. subst r2. destruct (field_str "on_timeout" s); [|done].
    by apply (grows_same _ _ (reach_if_grows _ _ r1)). }
  split_and!.
  - intros Hd%existsb_elem. by apply (reach_if_closed _ _ _ G1).
  - intros t Et Hid. subst r2. rewrite Et in *. rewrite E1 in *.
    apply (reach_if_closed _ _ _ G2). by apply bool_decide_eq_true.
  - intros g Eg Hid. rewrite Eg in *. rewrite E2 in *.
    apply (reach_if_closed _ _ _ H). by apply bool_decide_eq_true.
Qed.

Lemma reach_pass_grows l r : grows r (fold_left reach_step l r).
Proof.
  revert r. induction l as [|s l IH]; intros r; [reflexivity|]. cbn.
  etrans; [apply reach_step_grows|apply IH].
Qed.

Lemma reach_pass_elem l r y :
  y ∈ (fold_left reach_step l r).1 -> y ∈ r.1 \/ y ∈ mjoin (names_of <$> l).
Proof.
  revert r. induction l as [|s l IH]; intros r Hy; [by left|]. cbn in Hy.
  assert (mjoin (names_of <$> s :: l) = names_of s ++ mjoin (names_of <$> l)) as -> by done.
  rewrite elem_of_app. apply IH in Hy as [Hy|Hy]; [|auto].
  apply reach_step_elem in Hy. tauto.
Qed.

Lemma reach_pass_sound wf l r :
  (forall s, s ∈ l -> s ∈ vals (steps wf)) -> (forall y, y ∈ r.1 -> reaches wf y) ->
  forall y, y ∈ (fold_left reach_step l r).1 -> reaches wf y.
Proof.
  revert r. induction l as [|s l IH]; intros r Hl Hr; [done|]. cbn.
  apply IH; [intros; apply Hl; by right|]. apply reach_step_sound; [apply Hl; by left|done].
Qed.

Lemma reach_pass_closed l r :
  (fold_left reach_step l r).2 = false -> forall s, s ∈ l -> step_closed r.1 s.
Proof.
  revert r. induction l as [|a l IH]; intros r H s Hs; [by apply elem_of_nil in Hs|]. cbn in H.
  assert (Ha : (reach_step r a).2 = false).
  { destruct ((reach_step r a).2) eqn:E; [|done].
    by rewrite (grows_flag _ _ (reach_pass_grows l _) E) in H. }
  apply elem_of_cons in Hs as [->|Hs]; [by apply reach_step_closed|].
  rewrite <- (grows_same _ _ (reach_step_grows r a) Ha). by apply IH.
Qed.

Lemma reach_loop_sound wf fuel l r :
  (forall s, s ∈ l -> s ∈ vals (steps wf)) -> (forall y, y ∈ r -> reaches wf y) ->
  forall y, y ∈ reach_loop fuel l r -> reaches wf y.
Proof.
  intros Hl. revert r. induction fuel as [|fuel IH]; intros r Hr; [done|]. cbn [reach_loop].
  pose proof (reach_pass_sound wf l (r, false) Hl Hr) as Hp.
  destruct (fold_left reach_step l (r, false)) as [r' []]; [by apply IH|done].
Qed.

Lemma reach_loop_mono fuel l r : r ⊆ reach_loop fuel l r.
Proof.
  revert r. induction fuel as [|fuel IH]; intros r; [done|]. cbn [reach_loop].
  pose proof (grows_sub _ _ (reach_pass_grows l (r, false))) as Hp.
  destruct (fold_left reach_step l (r, false)) as [r' []]; [|done]. cbn in Hp.
  etrans; [exact Hp|apply IH].
Qed.

(** The loop stops closed: a set inside [univ] can grow only so often. *)
Lemma reach_loop_closed fuel l r (univ : gset string) :
  (forall y, y ∈ mjoin (names_of <$> l) -> y ∈ univ) -> r ⊆ univ -> (size univ < size r + fuel)%nat ->
  forall s, s ∈ l -> step_closed (reach_loop fuel l r) s.
Proof.
  intros Hu. revert r. induction fuel as [|fuel IH]; intros r Hr Hf.
  { pose proof (subseteq_size _ _ Hr). lia. }
  cbn [reach_loop]. pose proof (reach_pass_grows l (r, false)) as G.
  pose proof (reach_pass_elem l (r, false)) as E. pose proof (reach_pass_closed l (r, false)) as C.
  destruct (fold_left reach_step l (r, false)) as [r' []]; cbn in *.
  - apply IH.
    + intros y Hy. destruct (E y Hy) as [?|?]; [by apply Hr|by apply Hu].
    + destruct (grows_new _ _ G eq_refl) as [?|?]; [done|]. cbn in *. lia.
  - assert (r' = r) as -> by (by injection (grows_same _ _ G eq_refl)). by apply C.
Qed.

Lemma names_length l : (length (mjoin (names_of <$> l)) <= 3 * length l)%nat.
Proof.
  assert (Ho : forall o : option string, (length (option_list o) <= 1)%nat) by (intros []; cbn; lia).
  induction l as [|s l IH]; [done|].
  assert (mjoin (names_of <$> s :: l) = names_of s ++ mjoin (names_of <$> l)) as -> by done.
  rewrite length_app. unfold names_of at 1. cbn [length]. rewrite length_app.
  pose proof (Ho (field_str "on_timeout" s)). pose proof (Ho (guard s)). lia.
Qed.

Lemma size_list_to_set_le (l : list string) : (size (list_to_set l : gset string) <= length l)%nat.
Proof.
  induction l as [|x l IH]; [by rewrite list_to_set_nil, size_empty|].
  rewrite list_to_set_cons, size_union_alt, size_singleton. cbn [length].
  pose proof (subseteq_size (list_to_set l ∖ {[x]}) (list_to_set l : gset string)).
  assert (size (list_to_set l ∖ {[x]}) <= size (list_to_set l : gset string))%nat
    by (apply subseteq_size; set_solver). lia.
Qed.

Lemma start_steps_elem wf s : s ∈ start_steps wf <-> s ∈ vals (steps wf) /\ is_start s = true.
Proof. unfold start_steps. by rewrite !list_elem_of_In, filter_In. Qed.

Lemma names_of_elem l s y : s ∈ l -> y ∈ names_of s -> y ∈ mjoin (names_of <$> l).
Proof.
  intros Hs Hy. apply list_elem_of_join. exists (names_of s). split; [done|].
  apply list_elem_of_fmap. by exists s.
Qed.

(** The walk computes what is reached from the starts. *)
Lemma reached_spec wf x : x ∈ reached wf <-> reaches wf x.
Proof.
  set (r0 := list_to_set (id <$> start_steps wf) : gset string).
  assert (H0 : forall y, y ∈ r0 <-> exists s, s ∈ start_steps wf /\ y = id s).
  { intros y. unfold r0. rewrite elem_of_list_to_set, list_elem_of_fmap.
    split; intros (s & ? & ?); eauto. }
  set (univ := list_to_set (mjoin (names_of <$> vals (steps wf))) : gset string).
  assert (Hc : forall s, s ∈ vals (steps wf) -> step_closed (reached wf) s).
  { apply (reach_loop_closed _ _ _ univ).
    - intros y Hy. by apply elem_of_list_to_set.
    - intros y (s & [Hs _]%start_steps_elem & ->)%H0. apply elem_of_list_to_set.
      apply (names_of_elem _ s); [done|by left].
    - pose proof (size_list_to_set_le (mjoin (names_of <$> vals (steps wf)))).
      pose proof (names_length (vals (steps wf))). fold univ in H. lia. }
  assert (Hm : r0 ⊆ reached wf) by apply reach_loop_mono. split.
  - apply reach_loop_sound; [done|]. intros y (s & Hs & ->)%H0. by apply reaches_start.
  - induction 1 as [s Hs|s d Hs Hd _ IH|s t Hs Ht _ IH|s g Hs Hg _ IH].
    + apply Hm, H0. eauto.
    + destruct (Hc s Hs) as (C & _ & _). eauto.
    + destruct (Hc s Hs) as (_ & C & _). by apply C.
    + destruct (Hc s Hs) as (_ & _ & C). by apply C.
Qed.

(** ** Concurrent writers *)

(** The targets a switch may route to. *)
Definition targets (sw : Step) (x : string) : Prop :=
  VStr x ∈ cases sw \/ field_str "default" sw = Some x.

(** Each of two steps is, or depends on, a target of one switch: the same target
    counts as well as two. *)
Definition below_one_switch (wf : Workflow) (a b : string) : Prop :=
  exists sw x y, sw ∈ vals (steps wf) /\ kind sw = "switch" /\ targets sw x /\ targets sw y /\
    rtc (dep_edge wf) x a /\ rtc (dep_edge wf) y b.

(** Two steps that no path orders, not below one switch, whose key declares no
    reducer, and one of which overwrites. *)
Definition conflict (wf : Workflow) (s t : Step) : Prop :=
  writes_state s = true /\ writes_state t = true /\ write_key s = write_key t /\
  ~ rtc (dep_edge wf) (id s) (id t) /\ ~ rtc (dep_edge wf) (id t) (id s) /\
  ~ below_one_switch wf (id s) (id t) /\
  (state wf !! write_key s ≫= reducer) = None /\
  (write_mode s = "overwrite" \/ write_mode t = "overwrite").

Definition writer (s : Step) : string * string := (id s, write_mode s).
Definition writes_to (key : string) (s : Step) : bool :=
  writes_state s && bool_decide (write_key s = key).

Lemma writers_fold l m key :
  fold_left add_writer l m !! key =
    match List.filter (writes_to key) l with
    | [] => m !! key
    | ws => Some (default [] (m !! key) ++ (writer <$> ws))
    end.
Proof.
  revert m. induction l as [|s l IH]; intros m; [done|]. cbn [fold_left List.filter].
  rewrite IH. unfold add_writer. destruct (writes_to key s) eqn:E.
  - apply andb_true_iff in E as [-> ->%bool_decide_eq_true]. rewrite lookup_insert_eq.
    destruct (List.filter (writes_to key) l); [done|]. cbn. by rewrite <- app_assoc.
  - destruct (writes_state s) eqn:Es; [|done].
    unfold writes_to in E. rewrite Es in E. cbn in E. apply bool_decide_eq_false in E.
    by rewrite lookup_insert_ne by done.
Qed.

Lemma writers_spec wf key ws :
  writers wf !! key = Some ws <->
  ws = writer <$> List.filter (writes_to key) (vals (steps wf)) /\ ws <> [].
Proof.
  unfold writers. rewrite writers_fold, lookup_empty.
  destruct (List.filter _ _) as [|s l]; cbn; split.
  - done.
  - by intros [-> ?].
  - intros [= <-]. done.
  - by intros [-> _].
Qed.

Lemma targets_arms sw x : x ∈ arms sw <-> targets sw x.
Proof.
  unfold arms, targets. rewrite elem_of_app, list_elem_of_omap.
  assert (forall A B C D : Prop, (A <-> C) -> (B <-> D) -> A \/ B <-> C \/ D) as Hor by tauto. apply Hor.
  - split; [|by exists (VStr x)]. intros (v & Hv & E). by destruct v; try done; injection E as <-.
  - destruct (field_str "default" sw) as [y|]; [|split; [by intros ?%elem_of_nil|done]].
    rewrite list_elem_of_singleton. naive_solver.
Qed.

Lemma on_arm_spec wf sw a :
  on_arm wf (arms sw) a = true <-> exists x, targets sw x /\ rtc (dep_edge wf) x a.
Proof.
  unfold on_arm. rewrite existsb_exists. split; intros (x & Hx & H); exists x.
  - split; [by apply targets_arms, list_elem_of_In|].
    by apply orb_true_iff in H as [->%bool_decide_eq_true|H%reachable_spec].
  - split; [by apply list_elem_of_In, targets_arms|]. apply orb_true_iff. right. by apply reachable_spec.
Qed.

Lemma exclusive_spec wf a b : exclusive_by_switch wf a b = false <-> ~ below_one_switch wf a b.
Proof.
  unfold exclusive_by_switch, below_one_switch.
  rewrite <- not_true_iff_false, existsb_exists. apply not_iff_compat. split.
  - intros (sw & Hsw & H). rewrite !andb_true_iff, bool_decide_eq_true, !on_arm_spec in H.
    destruct H as [[Hk (x & ? & ?)] (y & ? & ?)]. exists sw, x, y. by rewrite list_elem_of_In.
  - intros (sw & x & y & Hsw & Hk & H1 & H2 & H3 & H4). exists sw. split; [by apply list_elem_of_In|].
    rewrite !andb_true_iff, bool_decide_eq_true, !on_arm_spec. split_and!; [done|by exists x|by exists y].
Qed.

Lemma races_spec wf key p q :
  races wf key p q = true <->
  ~ rtc (dep_edge wf) p.1 q.1 /\ ~ rtc (dep_edge wf) q.1 p.1 /\
  ~ below_one_switch wf p.1 q.1 /\
  (state wf !! key ≫= reducer) = None /\ (p.2 = "overwrite" \/ q.2 = "overwrite").
Proof.
  unfold races. rewrite !andb_true_iff, !negb_true_iff, !orb_false_iff, !orb_true_iff,
    !reachable_false, exclusive_spec, bool_decide_eq_false, <- eq_None_not_Some, !bool_decide_eq_true. tauto.
Qed.

Lemma push_if_nil b e : push_if b e = [] <-> b = false.
Proof. by destruct b. Qed.

Lemma races_in_nil wf key ws :
  races_in wf key ws = [] <->
  forall i j p q, (i < j)%nat -> ws !! i = Some p -> ws !! j = Some q -> races wf key p q = false.
Proof.
  induction ws as [|a ws IH]; cbn [races_in]; [done|]. rewrite app_nil, IH, bind_nil.
  setoid_rewrite push_if_nil. split.
  - intros [Ha Hw] [|i] [|j] p q Hij Hp Hq; try lia; cbn in *.
    + injection Hp as ->. apply Ha. by apply list_elem_of_lookup_2 in Hq.
    + apply (Hw i j); [lia|done|done].
  - intros H. split.
    + intros q [j Hq]%list_elem_of_lookup. apply (H 0%nat (S j)); [lia|done|done].
    + intros i j p q Hij Hp Hq. apply (H (S i) (S j)); [lia|done|done].
Qed.

(** ** Acceptance *)

Definition fans_out (s : Step) : Prop := kind s ∈ ["foreach"; "batch"; "parallel"; "race"].

(** A [human] gate somewhere in a body. *)
Inductive gate_in : Body -> Prop :=
  | gate_here b p : p ∈ body_steps b -> kind p.2 = "human" -> gate_in b
  | gate_below b p b' :
      p ∈ body_steps b -> b' ∈ bodies_of (body p.2) (branches p.2) -> gate_in b' -> gate_in b.

(** The key of a step is its id. *)
Definition ids_match (wf : Workflow) : Prop :=
  forall k s, steps wf !! k = Some s -> id s = k.

Record well_formed (wf : Workflow) : Prop := {
  wf_no_gate : forall s b, s ∈ vals (steps wf) -> fans_out s ->
    b ∈ bodies_of (body s) (branches s) -> ~ gate_in b;
  wf_modes : forall s want, s ∈ vals (steps wf) -> writes_state s = true ->
    state wf !! write_key s ≫= reducer = Some want -> write_mode s = want;
  wf_race_free : forall s t, s ∈ vals (steps wf) -> t ∈ vals (steps wf) -> s <> t ->
    ~ conflict wf s t;
  wf_start : exists s, s ∈ vals (steps wf) /\ is_start s = true;
  wf_deps : forall s d, s ∈ vals (steps wf) -> d ∈ depends_on s ->
    is_Some (steps wf !! d) /\ d <> id s;
  wf_goto : forall s t, s ∈ vals (steps wf) -> on_error s = Goto t -> is_Some (steps wf !! t);
  wf_on_timeout : forall s t, s ∈ vals (steps wf) -> field_str "on_timeout" s = Some t ->
    is_Some (steps wf !! t);
  wf_roots : forall s, s ∈ vals (steps wf) -> is_start s = false -> depends_on s = [] ->
    exists r t, r ∈ vals (steps wf) /\ field_str "on_timeout" r = Some t /\
      (t = id s \/ guarding s = Some t);
  wf_acyclic : well_founded (dep_edge wf);
  wf_reached : forall s, s ∈ vals (steps wf) -> reaches wf (id s);
  wf_finish : all_starts_append wf = true \/
    exists s, s ∈ vals (steps wf) /\ kind s = "finish";
}.

Lemma human_walk_in owner l p e :
  p ∈ l -> e ∈ human_step owner p.2 -> e ∈ human_walk owner (mkBody l).
Proof.
  intros Hp He. cbn. apply list_elem_of_join. exists (human_step owner p.2). split; [done|].
  apply list_elem_of_fmap. by exists p.
Qed.

Lemma human_step_below owner s b e :
  b ∈ bodies_of (body s) (branches s) -> e ∈ human_walk owner b -> e ∈ human_step owner s.
Proof.
  intros Hb He. destruct s. cbn in *. apply elem_of_app. right. apply elem_of_app.
  apply elem_of_app in Hb as [Hb|Hb].
  - left. destruct body; [|by apply elem_of_nil in Hb].
    apply list_elem_of_singleton in Hb. by subst.
  - right. apply list_elem_of_fmap in Hb as (q & -> & Hq). apply list_elem_of_join.
    exists (human_walk owner q.2). split; [done|]. apply list_elem_of_fmap. by exists q.
Qed.

Lemma gate_walk owner b : gate_in b -> exists e, e ∈ human_walk owner b.
Proof.
  induction 1 as [[l] [k s] Hp Hk|[l] [k s] b' Hp Hb _ [e IH]].
  - exists (HumanInBody (id s) owner). apply (human_walk_in _ _ (k, s)); [done|].
    destruct s. cbn in *. subst. apply elem_of_app. left. by left.
  - exists e. apply (human_walk_in _ _ (k, s)); [done|]. by apply (human_step_below _ _ b').
Qed.

(** A problem of a step is its own gate or one in a body of it. *)
Lemma human_step_in owner s e :
  e ∈ human_step owner s ->
  kind s = "human" \/ exists b, b ∈ bodies_of (body s) (branches s) /\ e ∈ human_walk owner b.
Proof.
  destruct s as [i kd dp wh g gg rt tm oe idm orp os ca bu sk de sp bd br]. cbn.
  rewrite !elem_of_app. intros [He|[He|He]].
  - left. unfold push_if in He. case_bool_decide; [done|by apply elem_of_nil in He].
  - right. destruct bd as [b|]; [|by apply elem_of_nil in He]. exists b. split; [by left|done].
  - right. apply list_elem_of_join in He as (x & Hx & (q & -> & Hq)%list_elem_of_fmap).
    exists q.2. split; [|done]. apply elem_of_app. right. apply list_elem_of_fmap. by exists q.
Qed.

(** Induction on a body through the bodies of its steps. *)
Section body_ind.
Variable P : Body -> Prop.
Hypothesis Hbody : forall l,
  (forall p b, p ∈ l -> b ∈ bodies_of (body p.2) (branches p.2) -> P b) -> P (mkBody l).

Lemma body_ind_nested : forall b, P b.
Proof.
  fix IH 1. intros [l]. apply Hbody. induction l as [|[k s] l IHl]; intros p b Hp Hb.
  { exfalso. by apply elem_of_nil in Hp. }
  apply elem_of_cons in Hp as [->|Hp]; [|by apply (IHl p b)].
  destruct s as [i kd dp wh g gg rt tm oe idm orp os ca bu sk de sp bd br]. cbn in Hb.
  clear IHl. destruct bd as [b'|]; cbn in Hb.
  - apply elem_of_cons in Hb as [->|Hb]; [apply IH|].
    induction br as [|[kb bb] br IHbr]; [exfalso; by apply elem_of_nil in Hb|].
    apply elem_of_cons in Hb as [->|Hb]; [apply IH|by apply IHbr].
  - induction br as [|[kb bb] br IHbr]; [exfalso; by apply elem_of_nil in Hb|].
    apply elem_of_cons in Hb as [->|Hb]; [apply IH|by apply IHbr].
Qed.
End body_ind.

Lemma walk_gate owner b e : e ∈ human_walk owner b -> gate_in b.
Proof.
  revert e. induction b as [l IH] using body_ind_nested. intros e He.
  apply list_elem_of_join in He as (x & Hx & (p & -> & Hp)%list_elem_of_fmap).
  apply human_step_in in Hx as [Hk|(b & Hb & Hx)].
  - by apply (gate_here _ p).
  - apply (gate_below _ p b); [done|done|]. by apply (IH p b Hp Hb e).
Qed.

Lemma human_walk_nil owner b : human_walk owner b = [] <-> ~ gate_in b.
Proof.
  split.
  - intros H (e & He)%(gate_walk owner). rewrite H in He. by apply elem_of_nil in He.
  - intros H. destruct (human_walk owner b) as [|e l] eqn:E; [done|]. exfalso. apply H.
    apply (walk_gate owner _ e). rewrite E. by left.
Qed.

Lemma gates_nil wf :
  validate_human_in_concurrent_bodies wf = [] <->
  forall s b, s ∈ vals (steps wf) -> fans_out s -> b ∈ bodies_of (body s) (branches s) -> ~ gate_in b.
Proof.
  unfold validate_human_in_concurrent_bodies. rewrite bind_nil. unfold mem. split.
  - intros H s b Hs Hf Hb. specialize (H s Hs). rewrite bool_decide_true in H by done.
    apply (human_walk_nil (id s)). by apply (proj1 (bind_nil _ _) H).
  - intros H s Hs. case_bool_decide as Hf; [|done]. apply bind_nil. intros b Hb.
    apply human_walk_nil. by apply (H s b).
Qed.

Lemma modes_nil wf :
  validate_declared_state wf = [] <->
  forall s want, s ∈ vals (steps wf) -> writes_state s = true ->
    state wf !! write_key s ≫= reducer = Some want -> write_mode s = want.
Proof.
  unfold validate_declared_state. rewrite bind_nil. split.
  - intros H s want Hs Hw Hr. specialize (H s Hs). rewrite Hw, Hr in H.
    apply push_if_nil, bool_decide_eq_false in H. by apply dec_stable.
  - intros H s Hs. destruct (writes_state s) eqn:Hw; [|done].
    destruct (state wf !! write_key s ≫= reducer) as [want|] eqn:Hr; [|done].
    apply push_if_nil, bool_decide_eq_false. intros Hn. apply Hn. by apply H.
Qed.

Lemma below_one_switch_sym wf a b : below_one_switch wf a b -> below_one_switch wf b a.
Proof. intros (sw & x & y & ?). exists sw, y, x. tauto. Qed.

Lemma conflict_sym wf s t : conflict wf s t -> conflict wf t s.
Proof.
  intros (A & B & C & D & E & F & G & H). unfold conflict. rewrite <- C.
  pose proof (below_one_switch_sym wf (id t) (id s)). tauto.
Qed.

Lemma conflict_races wf s t :
  writes_state s = true -> writes_to (write_key s) t = true ->
  conflict wf s t <-> races wf (write_key s) (writer s) (writer t) = true.
Proof.
  intros Hs [Ht Hk%bool_decide_eq_true]%andb_true_iff. rewrite races_spec. unfold conflict, writer.
  cbn. rewrite Hs, Ht, Hk. tauto.
Qed.

Lemma vals_steps wf s :
  ids_match wf -> s ∈ vals (steps wf) <-> steps wf !! id s = Some s.
Proof.
  intros Hid. rewrite elem_of_vals. split.
  - intros [k Hk]. by rewrite (Hid k s Hk).
  - eauto.
Qed.

Lemma NoDup_vals wf : ids_match wf -> NoDup (vals (steps wf)).
Proof.
  intros Hid. unfold vals. apply (NoDup_fmap_1 id). rewrite <- list_fmap_compose.
  assert (E : (id ∘ snd) <$> entries (steps wf) = keys (steps wf)).
  { unfold keys. apply list_fmap_ext. intros i [k s] Hi. cbn. apply Hid.
    apply elem_of_entries. by apply list_elem_of_lookup_2 in Hi. }
  rewrite E. apply NoDup_keys.
Qed.

Definition writers_of (wf : Workflow) (key : string) : list Step :=
  List.filter (writes_to key) (vals (steps wf)).

Lemma writers_of_elem wf key s :
  s ∈ writers_of wf key <-> s ∈ vals (steps wf) /\ writes_to key s = true.
Proof. unfold writers_of. by rewrite !list_elem_of_In, filter_In. Qed.

Lemma NoDup_writers_of wf key : ids_match wf -> NoDup (writers_of wf key).
Proof.
  intros Hid. apply NoDup_ListNoDup, List.NoDup_filter, NoDup_ListNoDup. by apply NoDup_vals.
Qed.

(** No race at any two positions of any key's writers. *)
Lemma races_positions wf :
  validate_concurrent_writes wf = [] <->
  forall key i j s t, (i < j)%nat -> writers_of wf key !! i = Some s ->
    writers_of wf key !! j = Some t -> races wf key (writer s) (writer t) = false.
Proof.
  unfold validate_concurrent_writes. rewrite bind_nil. split.
  - intros H key i j s t Hij Hs Ht.
    assert (Ew : writers wf !! key = Some (writer <$> writers_of wf key)).
    { apply writers_spec. split; [done|]. intros E%fmap_nil_inv. by rewrite E in Hs. }
    specialize (H (key, writer <$> writers_of wf key) (proj2 (elem_of_entries _ _ _) Ew)).
    rewrite races_in_nil in H. apply (H i j); [done| |]; cbn; rewrite list_lookup_fmap.
    + by rewrite Hs.
    + by rewrite Ht.
  - intros H [key ws] [-> _]%elem_of_entries%writers_spec. cbn [fst snd]. apply races_in_nil.
    intros i j p q Hij Hp Hq. rewrite list_lookup_fmap in Hp, Hq.
    apply fmap_Some in Hp as (s & Hs & ->), Hq as (t & Ht & ->). by apply (H key i j).
Qed.

Lemma races_nil wf :
  ids_match wf ->
  validate_concurrent_writes wf = [] <->
  forall s t, s ∈ vals (steps wf) -> t ∈ vals (steps wf) -> s <> t -> ~ conflict wf s t.
Proof.
  intros Hid. rewrite races_positions. split.
  - intros H s t Hs Ht Hne Hc. pose proof Hc as (Ws & Wt & K & _).
    assert (Ws' : writes_to (write_key s) s = true) by (unfold writes_to; by rewrite Ws, bool_decide_true).
    assert (Wt' : writes_to (write_key s) t = true) by (unfold writes_to; by rewrite Wt, bool_decide_true).
    pose proof (proj2 (writers_of_elem wf _ s) (conj Hs Ws')) as Is.
    apply list_elem_of_lookup in Is as [i Hi].
    pose proof (proj2 (writers_of_elem wf _ t) (conj Ht Wt')) as It.
    apply list_elem_of_lookup in It as [j Hj].
    destruct (Nat.lt_trichotomy i j) as [Hij|[->|Hij]].
    + specialize (H _ i j s t Hij Hi Hj). apply conflict_races in Hc; congruence.
    + rewrite Hi in Hj. by injection Hj.
    + specialize (H _ j i t s Hij Hj Hi). rewrite K in H.
      apply conflict_sym, conflict_races in Hc; [congruence|done|by rewrite <- K].
  - intros H key i j s t Hij Hs Ht. apply not_true_is_false. intros Hr.
    pose proof (list_elem_of_lookup_2 _ _ _ Hs) as [Is Ws]%writers_of_elem.
    pose proof (list_elem_of_lookup_2 _ _ _ Ht) as [It Wt]%writers_of_elem.
    pose proof Ws as [Ws1 <-%bool_decide_eq_true]%andb_true_iff.
    apply (H s t Is It); [|by apply conflict_races]. intros ->.
    pose proof (NoDup_lookup (writers_of wf (write_key t)) i j t) as Hn.
    rewrite Hn in Hij; [lia|by apply NoDup_writers_of|done|done].
Qed.

(** ** The dependency order and cycles *)

Lemma grounded_acc wf x : grounded (entries (steps wf)) x -> Acc (dep_edge wf) x.
Proof.
  induction 1 as [x s Hin%elem_of_entries _ IH]. constructor. intros y (s' & Hs' & Hy).
  rewrite Hin in Hs'. injection Hs' as <-. by apply IH.
Qed.

Lemma acc_grounded wf x :
  (forall s d, s ∈ vals (steps wf) -> d ∈ depends_on s -> is_Some (steps wf !! d)) ->
  Acc (dep_edge wf) x -> is_Some (steps wf !! x) -> grounded (entries (steps wf)) x.
Proof.
  intros Hd. induction 1 as [x _ IH]. intros [s Hs].
  apply (grounded_step _ _ s); [by apply elem_of_entries|]. intros d Hdd. apply IH.
  - by exists s.
  - apply (Hd s); [|done]. apply elem_of_vals. by exists x.
Qed.

Lemma topo_order_elem wf x : x ∈ topo_order wf <-> grounded (entries (steps wf)) x.
Proof. apply topo_steps_spec, NoDup_keys. Qed.

Lemma topo_order_NoDup wf : NoDup (topo_order wf).
Proof. apply topo_steps_spec, NoDup_keys. Qed.

Lemma grounded_key wf x : grounded (entries (steps wf)) x -> x ∈ keys (steps wf).
Proof. intros [y s Hin%elem_of_entries _]. apply elem_of_keys. by exists s. Qed.

Lemma length_keys {A} (m : gmap string A) : length (keys m) = size m.
Proof. unfold keys. rewrite length_fmap, entries_perm. apply length_map_to_list. Qed.

(** The order is as long as the workflow exactly when it holds every step. *)
Lemma topo_length wf :
  length (topo_order wf) = size (steps wf) <->
  forall x, is_Some (steps wf !! x) -> grounded (entries (steps wf)) x.
Proof.
  rewrite <- length_keys. split.
  - intros E x Hx. apply topo_order_elem.
    assert (P : topo_order wf ≡ₚ keys (steps wf)).
    { apply submseteq_length_Permutation; [|by rewrite E].
      apply NoDup_submseteq; [apply topo_order_NoDup|]. intros y Hy%topo_order_elem.
      by apply grounded_key. }
    rewrite P. by apply elem_of_keys.
  - intros H. apply Permutation_length, NoDup_Permutation;
      [apply topo_order_NoDup|apply NoDup_keys|].
    intros x. rewrite topo_order_elem. split; [apply grounded_key|].
    intros Hx%elem_of_keys. by apply H.
Qed.

(** With every dependency known, the order is full exactly without a cycle. *)
Lemma topo_acyclic wf :
  (forall s d, s ∈ vals (steps wf) -> d ∈ depends_on s -> is_Some (steps wf !! d)) ->
  length (topo_order wf) = size (steps wf) <-> well_founded (dep_edge wf).
Proof.
  intros Hd. rewrite topo_length. split.
  - intros H x. destruct (steps wf !! x) as [s|] eqn:E.
    + apply grounded_acc, H. by exists s.
    + constructor. intros y (s & Hs & _). congruence.
  - intros H x Hx. by apply acc_grounded.
Qed.

Lemma known_spec wf x : negb (known wf x) = false <-> is_Some (steps wf !! x).
Proof. unfold known. rewrite negb_false_iff. apply bool_decide_eq_true. Qed.

Lemma check_dep_nil wf s d :
  check_dep wf s d = [] <-> is_Some (steps wf !! d) /\ d <> id s.
Proof.
  unfold check_dep. by rewrite app_nil, !push_if_nil, known_spec, bool_decide_eq_false.
Qed.

Lemma check_edges_nil wf s :
  check_edges wf s = [] <->
  (forall d, d ∈ depends_on s -> is_Some (steps wf !! d) /\ d <> id s) /\
  (forall t, on_error s = Goto t -> is_Some (steps wf !! t)) /\
  (forall t, field_str "on_timeout" s = Some t -> is_Some (steps wf !! t)).
Proof.
  unfold check_edges. rewrite !app_nil, bind_nil. setoid_rewrite check_dep_nil.
  assert (G : match on_error s with
              | Goto t => push_if (negb (known wf t)) (UnknownGoto (id s) t)
              | _ => []
              end = [] <-> forall t, on_error s = Goto t -> is_Some (steps wf !! t)).
  { destruct (on_error s); [done|done|]. rewrite push_if_nil, known_spec. naive_solver. }
  assert (T : match field_str "on_timeout" s with
              | Some t => push_if (negb (known wf t)) (UnknownOnTimeout (id s) t)
              | None => []
              end = [] <-> forall t, field_str "on_timeout" s = Some t -> is_Some (steps wf !! t)).
  { destruct (field_str "on_timeout" s); [|done]. rewrite push_if_nil, known_spec. naive_solver. }
  by rewrite G, T.
Qed.

Lemma timeout_target wf t :
  t ∈ timeout_targets wf <-> exists r, r ∈ vals (steps wf) /\ field_str "on_timeout" r = Some t.
Proof. unfold timeout_targets. apply list_elem_of_omap. Qed.

Lemma routed_root_spec wf s :
  routed_root wf s = true <->
  exists r t, r ∈ vals (steps wf) /\ field_str "on_timeout" r = Some t /\
    (t = id s \/ guarding s = Some t).
Proof.
  unfold routed_root, mem. rewrite orb_true_iff, bool_decide_eq_true, timeout_target. split.
  - intros [(r & Hr & Ht)|H]; [exists r, (id s); auto|].
    destruct (guarding s) as [t|] eqn:Eg; [|done].
    apply bool_decide_eq_true, timeout_target in H as (r & Hr & Ht). exists r, t. auto.
  - intros (r & t & Hr & Ht & [->|Hg]); [left; eauto|right]. rewrite Hg.
    apply bool_decide_eq_true, timeout_target. eauto.
Qed.

Lemma check_root_nil wf s :
  check_root wf s = [] <->
  (is_start s = false -> depends_on s = [] -> routed_root wf s = true).
Proof.
  unfold check_root. rewrite push_if_nil, !andb_false_iff, !negb_false_iff, bool_decide_eq_false.
  split.
  - intros [[?|?]|?] Hs Hd; congruence.
  - intros H. destruct (is_start s) eqn:Es; [by left; left|].
    destruct (decide (depends_on s = [])) as [E|E]; [|by left; right]. right. by apply H.
Qed.

Lemma starts_nil wf :
  push_if (bool_decide (start_steps wf = [])) NoStart = [] <->
  exists s, s ∈ vals (steps wf) /\ is_start s = true.
Proof.
  rewrite push_if_nil, bool_decide_eq_false. setoid_rewrite <- start_steps_elem.
  destruct (start_steps wf) as [|s l]; split; try done.
  - intros (s & Hs). by apply elem_of_nil in Hs.
  - exists s. by left.
Qed.

Lemma finish_nil wf :
  push_if (negb (all_starts_append wf)
           && negb (existsb (fun s => bool_decide (kind s = "finish")) (vals (steps wf)))) NoFinish
  = [] <->
  all_starts_append wf = true \/ exists s, s ∈ vals (steps wf) /\ kind s = "finish".
Proof.
  rewrite push_if_nil, andb_false_iff, !negb_false_iff, existsb_exists.
  setoid_rewrite bool_decide_eq_true. by setoid_rewrite list_elem_of_In.
Qed.

Lemma cycle_nil wf l :
  push_if (bool_decide (length (topo_order wf) <> size (steps wf))) (Cycle l) = [] <->
  length (topo_order wf) = size (steps wf).
Proof. rewrite push_if_nil, bool_decide_eq_false. split; [apply dec_stable|tauto]. Qed.

(** C15: a definition's graph is accepted exactly when it is well formed: no
    gate where copies of it would wait for one answer, declared reducers
    obeyed, no two steps that write a key without a reducer, one overwriting it,
    with no path between them and not both below one switch, a start, every
    dependency and routing target known, every root a start or routed to, no
    cycle, every step reached from a start, and a finish.  Steps below one switch
    are let through whether its arms separate them or one arm holds both, where
    both may run at once (EngineProps.same_arm_race). *)
Theorem accepted_iff wf :
  ids_match wf -> validate_graph wf = [] <-> well_formed wf.
Proof.
  intros Hid. unfold validate_graph.
  rewrite !app_nil, gates_nil, modes_nil, (races_nil wf Hid), starts_nil, !bind_nil, cycle_nil,
    finish_nil.
  setoid_rewrite check_edges_nil. setoid_rewrite check_root_nil.
  setoid_rewrite routed_root_spec. setoid_rewrite push_if_nil.
  setoid_rewrite bool_decide_eq_false.
  split.
  - intros (A & B & C & D & E & F & G & H & I).
    assert (Hd : forall s d, s ∈ vals (steps wf) -> d ∈ depends_on s -> is_Some (steps wf !! d)).
    { intros s d Hs Hdd. destruct (E s Hs) as (E1 & _). by apply E1. }
    split; [exact A|exact B|exact C|exact D| | | |exact F| | |exact I].
    + intros s d Hs. destruct (E s Hs) as (E1 & _). apply E1.
    + intros s t Hs. destruct (E s Hs) as (_ & E1 & _). apply E1.
    + intros s t Hs. destruct (E s Hs) as (_ & _ & E1). apply E1.
    + by apply (topo_acyclic wf Hd).
    + intros s Hs. apply reached_spec. destruct (decide (id s ∈ reached wf)) as [|N]; [done|].
      by destruct (H s Hs N).
  - intros [A B C D E E1 E2 F G H I].
    refine (conj A (conj B (conj C (conj D (conj _ (conj F (conj _ (conj _ I)))))))).
    + intros s Hs. split_and!; eauto.
    + apply topo_acyclic; [|done]. intros s d Hs Hdd. by apply (E s d).
    + intros s Hs Hn. apply Hn, reached_spec. by apply H.
Qed.

#[export] Instance ids_match_dec wf : Decision (ids_match wf).
Proof.
  refine (cast_if (decide (map_Forall (fun k s => id s = k) (steps wf)))); by unfold ids_match.
Defined.

Lemma accepted_iff_witness : ids_match sample /\ well_formed sample.
Proof.
  assert (H : ids_match sample) by (apply (bool_decide_unpack _); vm_compute; exact I).
  split; [exact H|]. apply (proj1 (accepted_iff sample H)). vm_compute. reflexivity.
Defined.

(** Two overwriters on parallel branches are refused. *)
Example race_refused :
  validate_graph (of_steps
    [plain "go" "once" [] []; plain "a" "assign" ["go"] [("writes", VStr "x")];
     plain "b" "assign" ["go"] [("writes", VStr "x")]; plain "f" "finish" ["a"; "b"] []])
  = [ConcurrentWriters "a" "b" "x" "overwrite" "overwrite"].
Proof. vm_compute. reflexivity. Qed.
