(* ===== verification/Engine.v ===== *)
(** * Runs and the scheduler ([engine/run.rs])

    A run's record and the operations on it, the scheduler that names the
    steps to start, and what a failed step's policy does.  The operations of
    one call take one reading [now] of the clock; a span id is an argument;
    the CEL evaluator is third-party code, the class [Cel]. *)

From S2P Require Export Workflow.
Open Scope Z_scope.

(** ** Steps of a run *)

Inductive StepStatus : Type :=
  | Pending
  | Running
  | Done
  | Failed
  | Skipped
  | Cancelled
  | Timeout
  | Suspended
  | Pruned.

#[export] Instance step_status_eq_dec : EqDecision StepStatus.
Proof. solve_decision. Defined.

Definition is_terminal (s : StepStatus) : bool :=
  match s with Done | Failed | Skipped | Pruned | Cancelled | Timeout => true | _ => false end.
Definition is_satisfied (s : StepStatus) : bool :=
  match s with Done | Skipped => true | _ => false end.
(** [matches!(s, Running | Suspended)]. *)
Definition busy (s : StepStatus) : bool :=
  match s with Running | Suspended => true | _ => false end.

Definition status_str (s : StepStatus) : string :=
  match s with
  | Pending => "pending"
  | Running => "running"
  | Done => "done"
  | Failed => "failed"
  | Skipped => "skipped"
  | Pruned => "pruned"
  | Cancelled => "cancelled"
  | Timeout => "timeout"
  | Suspended => "suspended"
  end.

Record StepState := mkStepState {
  status : StepStatus;
  attempt : Z;
  started : option Z;
  finished : option Z;
  output : option Value;
  error : option string;
  wait : option Value;
  cache_key : option string;
  worker : option string;
  forced : bool;
  span : option string;
  company : option string;
  server : option string;
}.

Definition step_default : StepState :=
  mkStepState Pending 0 None None None None None None None false None None None.

Definition set_status (s : StepStatus) (t : StepState) : StepState :=
  mkStepState s (attempt t) (started t) (finished t) (output t) (error t) (wait t) (cache_key t)
    (worker t) (forced t) (span t) (company t) (server t).
Definition set_forced (b : bool) (t : StepState) : StepState :=
  mkStepState (status t) (attempt t) (started t) (finished t) (output t) (error t) (wait t)
    (cache_key t) (worker t) b (span t) (company t) (server t).

(** ** Runs *)

Inductive RunStatus : Type :=
  | RPending | RRunning | RSuspended | RPaused | RCompleted | RFailed | RRefused | RCancelled
  | RStalled.

#[export] Instance run_status_eq_dec : EqDecision RunStatus.
Proof. solve_decision. Defined.

Definition run_is_terminal (s : RunStatus) : bool :=
  match s with RCompleted | RFailed | RRefused | RCancelled | RStalled => true | _ => false end.
Definition run_status_str (s : RunStatus) : string :=
  match s with
  | RPending => "pending"
  | RRunning => "running"
  | RSuspended => "suspended"
  | RPaused => "paused"
  | RCompleted => "completed"
  | RFailed => "failed"
  | RRefused => "refused"
  | RCancelled => "cancelled"
  | RStalled => "stalled"
  end.

Record Start := mkStart { node : string; payload : Value; ts : Z }.

(** The fields that no operation of this file reads: [break_before],
    [tokens], [subagent], [session], [unattended], [conversation],
    [children], [parent], [trace], [msg_depth], [key], [registry_pins]. *)
Definition RunRest : Type := list (string * Value).

Record RunState := mkRun {
  run_id : string;
  workflow : string;
  workflow_hash : string;
  inputs : Value;
  run_status : RunStatus;
  run_start : Start;
  run_steps : gmap string StepState;
  vars : gmap string Value;
  steps_run : Z;
  run_output : option Value;
  run_error : option string;
  run_task : option string;
  run_principal : option string;
  run_attempt : Z;
  created : Z;
  updated : Z;
  run_finished : option Z;
  run_deadline_ms : option Z;
  run_durable : bool;
  dirty : bool;
  rest : RunRest;
}.

Definition set_run_status (s : RunStatus) (r : RunState) : RunState :=
  mkRun (run_id r) (workflow r) (workflow_hash r) (inputs r) s (run_start r) (run_steps r) (vars r)
    (steps_run r) (run_output r) (run_error r) (run_task r) (run_principal r) (run_attempt r)
    (created r) (updated r) (run_finished r) (run_deadline_ms r) (run_durable r) (dirty r) (rest r).
Definition set_run_steps (m : gmap string StepState) (r : RunState) : RunState :=
  mkRun (run_id r) (workflow r) (workflow_hash r) (inputs r) (run_status r) (run_start r) m (vars r)
    (steps_run r) (run_output r) (run_error r) (run_task r) (run_principal r) (run_attempt r)
    (created r) (updated r) (run_finished r) (run_deadline_ms r) (run_durable r) (dirty r) (rest r).
Definition set_vars (m : gmap string Value) (r : RunState) : RunState :=
  mkRun (run_id r) (workflow r) (workflow_hash r) (inputs r) (run_status r) (run_start r)
    (run_steps r) m (steps_run r) (run_output r) (run_error r) (run_task r) (run_principal r)
    (run_attempt r) (created r) (updated r) (run_finished r) (run_deadline_ms r) (run_durable r)
    (dirty r) (rest r).
Definition set_steps_run (n : Z) (r : RunState) : RunState :=
  mkRun (run_id r) (workflow r) (workflow_hash r) (inputs r) (run_status r) (run_start r)
    (run_steps r) (vars r) n (run_output r) (run_error r) (run_task r) (run_principal r)
    (run_attempt r) (created r) (updated r) (run_finished r) (run_deadline_ms r) (run_durable r)
    (dirty r) (rest r).
Definition set_outcome (s : RunStatus) (out : option Value) (err : option string)
    (fin : option Z) (r : RunState) : RunState :=
  mkRun (run_id r) (workflow r) (workflow_hash r) (inputs r) s (run_start r) (run_steps r) (vars r)
    (steps_run r) out err (run_task r) (run_principal r) (run_attempt r) (created r) (updated r) fin
    (run_deadline_ms r) (run_durable r) (dirty r) (rest r).

Definition touch (now : Z) (r : RunState) : RunState :=
  mkRun (run_id r) (workflow r) (workflow_hash r) (inputs r) (run_status r) (run_start r)
    (run_steps r) (vars r) (steps_run r) (run_output r) (run_error r) (run_task r)
    (run_principal r) (run_attempt r) (created r) now (run_finished r) (run_deadline_ms r)
    (run_durable r) true (rest r).

(** [steps.get(id).cloned().unwrap_or_default()], [entry(id).or_default()]. *)
Definition step_state (id : string) (r : RunState) : StepState :=
  default step_default (run_steps r !! id).
Definition put_step (id : string) (t : StepState) (r : RunState) : RunState :=
  set_run_steps (<[id := t]> (run_steps r)) r.

(** [RunState::new]: the fired start is done, its siblings are skipped. *)
Definition start_state (start : Start) (now : Z) (fired : bool) (t : StepState) : StepState :=
  if fired
  then mkStepState Done 1 (Some now) (Some now) (Some (payload start)) (error t) (wait t)
         (cache_key t) (worker t) (forced t) (span t) (company t) (server t)
  else set_status Skipped t.
Definition start_one (start : Start) (now : Z) (m : gmap string StepState) (s : Step) :
    gmap string StepState :=
  <[id s := start_state start now (bool_decide (id s = node start))
              (default step_default (m !! id s))]> m.
Definition run_new (rid : string) (wf : Workflow) (start : Start) (inputs : Value) (now : Z) :
    RunState :=
  mkRun rid (wf_name wf) (hash wf) inputs RRunning start
    (fold_left (start_one start now) (start_steps wf) ((fun _ => step_default) <$> steps wf))
    ∅ 0 None None None None 1 now now None ((fun d => u64_add now d) <$> deadline_ms (limits wf))
    (default true (durable wf)) true [].

(** Mark a step running: the attempt goes on by one. *)
Definition kept_wait (w : option Value) : option Value :=
  w ← w; if decide (as_str (idx "kind" w) = Some "peer_auth") then Some w else None.
Definition begin_step (id sp : string) (now : Z) (r : RunState) : RunState * Z :=
  let t := step_state id r in
  let a := u32_wrap (attempt t + 1) in
  let t' := mkStepState Running a (Some now) None (output t) None (kept_wait (wait t)) None
              (worker t) (forced t) (Some sp) None None in
  let r := put_step id t' r in
  let r := if run_is_terminal (run_status r) then r else set_run_status RRunning r in
  (touch now r, a).

Definition ended (s : StepStatus) (out : option Value) (err : option string) (now : Z)
    (t : StepState) : StepState :=
  mkStepState s (attempt t) (started t) (Some now) out err None None None (forced t) (span t)
    (company t) (server t).
Definition end_step (id : string) (s : StepStatus) (out : option Value) (err : option string)
    (now : Z) (r : RunState) : RunState :=
  let r := put_step id (ended s out err now (step_state id r)) r in
  touch now (set_steps_run (u32_wrap (steps_run r + 1)) r).

Definition suspend_step (id : string) (w : Value) (now : Z) (r : RunState) : RunState :=
  let t := step_state id r in
  touch now (put_step id (mkStepState Suspended (attempt t) (started t) (finished t) (output t)
    (error t) (Some w) (cache_key t) (worker t) (forced t) (span t) (company t) (server t)) r).

Definition cancel_open (now : Z) (t : StepState) : StepState :=
  if is_terminal (status t) then t
  else mkStepState Cancelled (attempt t) (started t) (Some now) (output t) (error t) (wait t)
         (cache_key t) (worker t) (forced t) (span t) (company t) (server t).
Definition finish (s : RunStatus) (out : option Value) (err : option string) (now : Z)
    (r : RunState) : RunState :=
  let r := set_outcome s out err (Some now) r in
  touch now (set_run_steps (cancel_open now <$> run_steps r) r).

(** [a.push(v)] when no element equals it. *)
Definition push_new (a : list Value) (v : Value) : list Value :=
  if bool_decide (v ∈ a) then a else a ++ [v].

Definition reduced (mode : string) (cur : option Value) (value : Value) : Value :=
  if decide (mode = "append") then
    match cur, value with
    | Some (VArr a), VArr more => VArr (a ++ more)
    | Some (VArr a), other => VArr (a ++ [other])
    | Some other, _ => VArr [other; value]
    | None, VArr a => VArr a
    | None, other => VArr [other]
    end
  else if decide (mode = "merge") then
    match cur, value with
    | Some (VObj o), VObj more => VObj (fold_left (fun o p => obj_insert p.1 p.2 o) more o)
    | Some (VObj o), _ => VObj o
    | _, _ => value
    end
  else if decide (mode = "union") then
    match cur, value with
    | Some (VArr a), VArr more => VArr (fold_left push_new more a)
    | Some (VArr a), other => VArr (push_new a other)
    | _, _ => value
    end
  else value.
Definition write_var (key : string) (value : Value) (mode : string) (now : Z) (r : RunState) :
    RunState :=
  touch now (set_vars (<[key := reduced mode (vars r !! key) value]> (vars r)) r).

(** How many steps are in each status, by its name. *)
Definition count_status (m : gmap string Z) (t : StepState) : gmap string Z :=
  <[status_str (status t) := u32_wrap (default 0 (m !! status_str (status t)) + 1)]> m.
Definition progress (r : RunState) : Value :=
  to_value (fold_left count_status (vals (run_steps r)) ∅).

(** ** The data a template or an expression sees *)

Definition Data : Type := gmap string Value.

Definition start_to_value (s : Start) : Value :=
  jobj [("node", VStr (node s)); ("payload", payload s); ("ts", ju64 (ts s))].
Definition step_view (t : StepState) : Value :=
  jobj [("status", VStr (status_str (status t))); ("output", to_value (output t));
        ("error", to_value (error t)); ("attempt", ju64 (attempt t))].
Definition data (env memory : Value) (r : RunState) : Data :=
  let run := jobj [("id", VStr (run_id r)); ("workflow", VStr (workflow r));
    ("start", start_to_value (run_start r)); ("principal", to_value (run_principal r));
    ("task", to_value (run_task r)); ("attempt", ju64 (run_attempt r));
    ("status", VStr (run_status_str (run_status r)))] in
  <["memory" := memory]> (<["env" := env]> (<["vars" := VObj (entries (vars r))]>
    (<["steps" := VObj (prod_map (fun k => k) step_view <$> entries (run_steps r))]>
      (<["run" := run]> (<["inputs" := inputs r]> ∅))))).

(** ** Guards *)

(** [cel::eval_bool]: the evaluator of the [cel] feature; a build without it
    answers every expression with an error. *)
Class Cel := cel_bool : string -> Data -> result string bool.

(** [trim_start_matches("CEL:")]: every leading one. *)
Fixpoint strip_cel (fuel : nat) (s : string) : string :=
  match fuel, strip_prefix "CEL:" s with
  | S fuel', Some s' => strip_cel fuel' s'
  | _, _ => s
  end.
Definition trim_str (s : string) : string := text (trim (chars s)).
Definition when_expr (w : string) : string := trim_str (strip_cel (String.length w) (trim_str w)).

Section guards.
Context `{Cel}.

Definition when_holds (s : Step) (d : Data) : result string bool :=
  match when s with
  | None => Ok true
  | Some w => cel_bool (when_expr w) d
  end.
End guards.

Definition GUARD_QUESTION : string := "holds".
Definition GUARD_SUFFIX : string := ".when".
Definition f64_half : f64 := f64_ratio 1 2.

Definition guard_holds (output : option Value) : bool :=
  match output ≫= get GUARD_QUESTION with
  | None => false
  | Some a =>
      negb (bool_decide (get "unsure" a = Some (VBool true)))
      && match get "noul" a ≫= as_f64 with Some p => f64_leb f64_half p | None => false end
  end.

(** ** The scheduler *)

Inductive Next : Type :=
  | Ready (l : list string)
  | Waiting
  | Stalled
  | Terminal_.

(** [step {id:?}: when: {e}]. *)
Inductive ScheduleError : Type := WhenError (step e : string).

(** What one step of a pass does: it is in flight, it is left alone, it is
    pruned, its guard is asked, or it is ready. *)
Inductive Judgement : Type :=
  | InFlight
  | Leave
  | Prune
  | AskGuard (guard : string)
  | MakeReady
  | WhenFails (e : string).

Definition status_of (id : string) (r : RunState) : StepStatus := status (step_state id r).
Definition has_status (f : StepStatus -> bool) (r : RunState) (id : string) : bool :=
  match run_steps r !! id with Some t => f (status t) | None => false end.

(** A dependency-less step that an [on_timeout] names, or the guard of one. *)
Definition parked_name (s : Step) (id : string) : string := default id (guarding s).
Definition is_parked (wf : Workflow) (s : Step) (id : string) : bool :=
  bool_decide (depends_on s = []) && negb (is_start s)
  && existsb (fun o => bool_decide (field_str "on_timeout" o = Some (parked_name s id)))
       (vals (steps wf)).
Definition routers_ended (wf : Workflow) (r : RunState) (parked : string) : bool :=
  forallb (fun o => negb (routes_to o parked) || has_status is_terminal r (id o))
    (vals (steps wf)).
Definition is_routed (r : RunState) (parked : string) : bool :=
  match run_steps r !! parked with Some t => forced t | None => false end.

Definition all_pruned (r : RunState) (deps : list string) : bool :=
  negb (bool_decide (deps = []))
  && forallb (has_status (fun s => bool_decide (s = Pruned)) r) deps.
Definition dep_ok (s : StepStatus) : bool := is_satisfied s || bool_decide (s = Pruned).
Definition dep_failed (s : StepStatus) : bool :=
  match s with Failed | Cancelled | Timeout => true | _ => false end.
Definition guard_answered (r : RunState) (g : string) : bool :=
  match run_steps r !! g with
  | Some t => bool_decide (status t = Done) && guard_holds (output t)
  | None => false
  end.

Section schedule.
Context `{Cel}.

(** The [when] of a step that everything else lets run, and its guard's
    answer where it waits on one. *)
Definition judge_when (s : Step) (d : Data) (answered : bool) : Judgement :=
  match when_holds s d with
  | Err e => WhenFails e
  | Ok false => Prune
  | Ok true => if answered then MakeReady else Prune
  end.

Definition judge (wf : Workflow) (r : RunState) (d : Data) (id : string) (s : Step) : Judgement :=
  let t := step_state id r in
  if busy (status t) then InFlight
  else if is_terminal (status t) then Leave
  else if negb (forced t)
          && match guarding s with Some g => has_status is_terminal r g | None => false end
  then Prune
  else if forced t then
    match guard s with
    | Some g => AskGuard g
    | None => judge_when s d true
    end
  else if is_parked wf s id then
    if routers_ended wf r (parked_name s id) && negb (is_routed r (parked_name s id))
    then Prune else Leave
  else if all_pruned r (depends_on s) then Prune
  else if existsb (has_status dep_failed r) (depends_on s) then Leave
  else if negb (forallb (has_status dep_ok r) (depends_on s)) then Leave
  else judge_when s d (match guard s with Some g => guard_answered r g | None => true end).

(** The guard [g] of the routed step [id] is asked, forced in its turn. *)
Definition ask_guard (id g : string) (now : Z) (r : RunState) : RunState :=
  let t := step_state g r in
  let r := put_step g (if busy (status t) then t else set_forced true (set_status Pending t)) r in
  let r := match run_steps r !! id with
           | Some t => put_step id (set_forced false t) r
           | None => r
           end in
  touch now r.

(** A pass over the order: the run, the ready steps so far, whether work is
    in flight and whether anything changed. *)
Record Sched := mkSched {
  s_run : RunState;
  s_ready : list string;
  s_in_flight : bool;
  s_changed : bool;
}.

Definition visit (wf : Workflow) (d : Data) (now : Z) (a : Sched) (id : string) :
    Sched + (RunState * ScheduleError) :=
  match steps wf !! id with
  | None => inl a
  | Some s =>
      match judge wf (s_run a) d id s with
      | InFlight => inl (mkSched (s_run a) (s_ready a) true (s_changed a))
      | Leave => inl a
      | j =>
          if decide (id ∈ s_ready a) then inl a
          else match j with
          | Prune =>
              inl (mkSched (end_step id Pruned None None now (s_run a)) (s_ready a) (s_in_flight a) true)
          | AskGuard g =>
              inl (mkSched (ask_guard id g now (s_run a)) (s_ready a) (s_in_flight a) true)
          | MakeReady => inl (mkSched (s_run a) (s_ready a ++ [id]) (s_in_flight a) (s_changed a))
          | WhenFails e => inr (s_run a, WhenError id e)
          | _ => inl a
          end
      end
  end.

Fixpoint pass (wf : Workflow) (d : Data) (now : Z) (l : list string) (a : Sched) :
    Sched + (RunState * ScheduleError) :=
  match l with
  | [] => inl a
  | id :: l' => match visit wf d now a id with inl a' => pass wf d now l' a' | inr e => inr e end
  end.

(** [while changed]; [None] is a loop that the fuel did not see end. *)
Fixpoint sched_loop (fuel : nat) (wf : Workflow) (d : Data) (now : Z) (a : Sched) :
    option (Sched + (RunState * ScheduleError)) :=
  match fuel with
  | O => None
  | S fuel' =>
      match pass wf d now (topo_order wf) (mkSched (s_run a) (s_ready a) (s_in_flight a) false) with
      | inr e => Some (inr e)
      | inl a' => if s_changed a' then sched_loop fuel' wf d now a' else Some (inl a')
      end
  end.

(** Three passes for every step, and one that changes nothing. *)
Definition schedule_fuel (wf : Workflow) : nat := S (3 * length (topo_order wf)).

Definition schedule (wf : Workflow) (r : RunState) (d : Data) (now : Z) :
    option (RunState * result ScheduleError Next) :=
  if run_is_terminal (run_status r) then Some (r, Ok Terminal_)
  else
    res ← sched_loop (schedule_fuel wf) wf d now (mkSched r [] false true);
    Some match res with
    | inr (r', e) => (r', Err e)
    | inl a =>
        (s_run a,
         Ok (match s_ready a with
             | _ :: _ => Ready (s_ready a)
             | [] => if s_in_flight a then Waiting else Stalled
             end))
    end.
End schedule.

(** ** A failed step's policy *)

Inductive RouteError : Type :=
  | StepFailed (step error : string)
  | NoSuchTarget (step target : string).

Definition route_failure (wf : Workflow) (s : Step) (err : string) (now : Z) (r : RunState) :
    RunState * result RouteError (list string) :=
  match on_error s with
  | Fail_ => (r, Err (StepFailed (id s) err))
  | Continue =>
      let t := step_state (id s) r in
      let out := match output t with Some o => Some o | None => Some (jobj [("error", VStr err)]) end in
      let t' := mkStepState Done (attempt t) (started t) (finished t) out (Some err) (wait t)
                  (cache_key t) (worker t) (forced t) (span t) (company t) (server t) in
      (touch now (put_step (id s) t' r), Ok [])
  | Goto target =>
      match steps wf !! target with
      | None => (r, Err (NoSuchTarget (id s) target))
      | Some _ =>
          let t := set_forced true (set_status Pending (step_state target r)) in
          (touch now (put_step target t r), Ok [target])
      end
  end.

Definition deadline_passed (now : Z) (r : RunState) : bool :=
  match run_deadline_ms r with Some d => d <=? now | None => false end.

(** ** Examples *)

Definition sample_run : RunState := run_new "r1" sample (mkStart "go" VNull 5) VNull 5.

Definition no_cel : Cel := fun _ _ => Err "CEL expressions require the 'cel' build feature".

Example sample_first : exists r, @schedule no_cel sample sample_run ∅ 6 = Some (r, Ok (Ready ["a"; "b"])).
Proof. eexists. vm_compute. reflexivity. Qed.
