(* ===== verification/EngineProps.v ===== *)
(** * What the scheduler promises

    Scheduling ends, leaves a run it cannot change further, and names exactly
    the runnable steps of that run; a run's operations keep its records in
    shape; a routed failure reaches its target. *)

From S2P Require Export Engine GraphProps.

(** ** Records after an operation *)

Lemma run_steps_touch now r : run_steps (touch now r) = run_steps r.
Proof. done. Qed.

Lemma step_state_touch now r x : step_state x (touch now r) = step_state x r.
Proof. done. Qed.

Lemma lookup_put_step id t r x :
  run_steps (put_step id t r) !! x = if decide (x = id) then Some t else run_steps r !! x.
Proof.
  unfold put_step, set_run_steps. cbn. case_decide as E; [subst; apply lookup_insert_eq|].
  by apply lookup_insert_ne.
Qed.

Lemma step_state_put id t r x :
  step_state x (put_step id t r) = if decide (x = id) then t else step_state x r.
Proof. unfold step_state. rewrite lookup_put_step. by case_decide. Qed.

Lemma step_state_end id s out err now r x :
  step_state x (end_step id s out err now r) =
    if decide (x = id) then ended s out err now (step_state id r) else step_state x r.
Proof. etrans; [|apply step_state_put]. done. Qed.

Lemma run_steps_end id s out err now r :
  run_steps (end_step id s out err now r) = <[id := ended s out err now (step_state id r)]> (run_steps r).
Proof. done. Qed.

(** What asking a guard leaves: the guard armed and forced unless it is busy,
    the step's own mark taken off. *)
Definition armed_guard (t : StepState) : StepState :=
  if busy (status t) then t else set_forced true (set_status Pending t).

Lemma step_state_ask id g now r x :
  g <> id ->
  step_state x (ask_guard id g now r) =
    if decide (x = id) then set_forced false (step_state id r)
    else if decide (x = g) then armed_guard (step_state g r)
    else step_state x r.
Proof.
  intros Hne. unfold ask_guard. rewrite step_state_touch.
  fold (armed_guard (step_state g r)).
  rewrite lookup_put_step, decide_False by done.
  destruct (run_steps r !! id) as [t|] eqn:E.
  - rewrite step_state_put. case_decide; [|apply step_state_put].
    unfold step_state. by rewrite E.
  - rewrite step_state_put. case_decide as E2; [by rewrite decide_False by congruence|].
    case_decide as E3; [|done]. subst. unfold step_state. rewrite E. done.
Qed.

(** ** What can run *)

(** No guard is guarded itself. *)
Definition guards_plain (wf : Workflow) : Prop :=
  forall k s g gs, steps wf !! k = Some s -> guard s = Some g -> steps wf !! g = Some gs ->
    guard gs = None.

(** How the parser leaves decision guards: the guarded step depends on its
    guard alone; the guard is unguarded and knows the step. *)
Record guards_ok (wf : Workflow) : Prop := {
  go_step : forall k s g, steps wf !! k = Some s -> guard s = Some g ->
    depends_on s = [g] /\ exists gs, steps wf !! g = Some gs /\ guard gs = None;
  go_guard : forall g gs t, steps wf !! g = Some gs -> guarding gs = Some t ->
    guard gs = None /\ exists ts, steps wf !! t = Some ts /\ guard ts = Some g;
}.

Lemma guards_ok_plain wf : guards_ok wf -> guards_plain wf.
Proof.
  intros Hok k s g gs Hs Hg Hgs. destruct (go_step _ Hok k s g Hs Hg) as (_ & gs' & E & ?).
  congruence.
Qed.

Lemma guard_ne wf k s g :
  guards_plain wf -> steps wf !! k = Some s -> guard s = Some g -> g <> k.
Proof. intros Hp Hs Hg ->. specialize (Hp k s k s Hs Hg Hs). congruence. Qed.

(** The same, as a check. *)
Definition guarded_ok (wf : Workflow) (p : string * Step) : bool :=
  match guard p.2 with
  | Some g =>
      bool_decide (depends_on p.2 = [g])
      && match steps wf !! g with Some gs => bool_decide (guard gs = None) | None => false end
  | None => true
  end
  && match guarding p.2 with
     | Some t =>
         bool_decide (guard p.2 = None)
         && match steps wf !! t with Some ts => bool_decide (guard ts = Some p.1) | None => false end
     | None => true
     end.

Lemma guards_ok_check wf :
  forallb (guarded_ok wf) (entries (steps wf)) = true -> guards_ok wf.
Proof.
  intros H. rewrite forallb_forall in H.
  assert (G : forall k s, steps wf !! k = Some s -> guarded_ok wf (k, s) = true)
    by (intros k s Hs; apply H, list_elem_of_In, elem_of_entries, Hs).
  split.
  - intros k s g Hs Hg. specialize (G k s Hs). unfold guarded_ok in G. cbn in G. rewrite Hg in G.
    repeat apply andb_true_iff in G as [G ?]. split; [by apply bool_decide_eq_true in G|].
    destruct (steps wf !! g) as [gs|]; [|done]. exists gs. split; [done|].
    by apply (bool_decide_eq_true _).
  - intros g gs t Hg Ht. specialize (G g gs Hg). unfold guarded_ok in G. cbn in G.
    rewrite Ht in G. apply andb_true_iff in G as [_ [G1 G2]%andb_true_iff].
    split; [by apply bool_decide_eq_true in G1|]. destruct (steps wf !! t) as [ts|]; [|done].
    exists ts. split; [done|]. by apply bool_decide_eq_true in G2.
Qed.

Section sched_props.
Context {cel : Cel} (wf : Workflow) (d : Data) (now : Z).

(** A dependency that does not hold the step back. *)
Definition lets_run (r : RunState) (x : string) : Prop :=
  exists t, run_steps r !! x = Some t /\ dep_ok (status t) = true.
Definition live (r : RunState) (x : string) : Prop := status_of x r <> Pruned.

(** What must hold of an unrouted step: it does not wait to be routed to, its
    decision is still open, its dependencies let it run, one of them is live,
    and its guard holds. *)
Record due (r : RunState) (id : string) (s : Step) : Prop := {
  due_parked : is_parked wf s id = false;
  due_open : forall t, guarding s = Some t -> has_status is_terminal r t = false;
  due_deps : forall x, x ∈ depends_on s -> lets_run r x;
  due_live : depends_on s = [] \/ exists x, x ∈ depends_on s /\ live r x;
  due_guard : forall g, guard s = Some g -> guard_answered r g = true;
}.

(** A step the scheduler must start. *)
Definition runnable (r : RunState) (id : string) : Prop :=
  exists s, steps wf !! id = Some s /\ status_of id r = Pending /\ when_holds s d = Ok true /\
    (forced (step_state id r) = true /\ guard s = None \/
     forced (step_state id r) = false /\ due r id s).

Lemma all_pruned_false r deps :
  (forall x, x ∈ deps -> lets_run r x) ->
  all_pruned r deps = false <-> deps = [] \/ exists x, x ∈ deps /\ live r x.
Proof.
  intros Hl. unfold all_pruned, live, status_of, step_state.
  rewrite andb_false_iff, negb_false_iff, bool_decide_eq_true. apply or_iff_compat_l.
  induction deps as [|x deps IH]; cbn; [split; [done|by intros (? & ?%elem_of_nil & _)]|].
  destruct (Hl x) as (t & Ht & _); [by left|].
  unfold has_status at 1. rewrite Ht, andb_false_iff, IH by (intros; apply Hl; by right).
  rewrite bool_decide_eq_false. split.
  - intros [Hp|(y & Hy & Hp)]; [exists x|exists y]; rewrite ?Ht; split; try done; [by left|by right].
  - intros (y & [->|Hy]%elem_of_cons & Hp); [left; by rewrite Ht in Hp|right; eauto].
Qed.

Lemma busy_terminal_pending s : busy s = false -> is_terminal s = false -> s = Pending.
Proof. by destruct s. Qed.

Lemma lets_run_spec r deps :
  (forall x, x ∈ deps -> lets_run r x) <->
  existsb (has_status dep_failed r) deps = false /\ forallb (has_status dep_ok r) deps = true.
Proof.
  induction deps as [|x deps IH]; cbn; [split; [done|by intros _ y Hy%elem_of_nil]|].
  rewrite orb_false_iff, andb_true_iff. unfold has_status at 1 3, lets_run at 1. split.
  - intros Hl. destruct (Hl x) as (t & Ht & Ho); [by left|]. rewrite Ht.
    destruct (proj1 IH) as [A B]; [intros; apply Hl; by right|]. split_and!; try done.
    by destruct (status t).
  - intros [[Hf A] [Ho B]] y [->|Hy]%elem_of_cons; [|by apply (proj2 IH)].
    destruct (run_steps r !! x) as [t|]; [|done]. eauto.
Qed.

Lemma judge_when_ready s b :
  judge_when s d b = MakeReady <-> when_holds s d = Ok true /\ b = true.
Proof.
  unfold judge_when. destruct (when_holds s d) as [[]|]; [destruct b| |]; split; try done;
    try (by intros [??]); by intros [? ?].
Qed.

(** An unrouted pending step is ready exactly when it is due. *)
Lemma judge_due r id s :
  status_of id r = Pending -> forced (step_state id r) = false ->
  judge wf r d id s = MakeReady <-> when_holds s d = Ok true /\ due r id s.
Proof.
  unfold judge, status_of. intros -> ->. cbn [busy is_terminal negb andb].
  destruct (match guarding s with Some g => has_status is_terminal r g | None => false end) eqn:Eg.
  { split; [done|]. intros [_ D]. exfalso.
    destruct (guarding s) as [g|] eqn:E; [|done]. by rewrite (due_open _ _ _ D g E) in Eg. }
  destruct (is_parked wf s id) eqn:Ep.
  { split; [by destruct (_ && _)|]. intros [_ D]. by rewrite (due_parked _ _ _ D) in Ep. }
  destruct (all_pruned r (depends_on s)) eqn:Ea.
  { split; [done|]. intros [_ D].
    by rewrite (proj2 (all_pruned_false r _ (due_deps _ _ _ D)) (due_live _ _ _ D)) in Ea. }
  destruct (existsb (has_status dep_failed r) (depends_on s)) eqn:Ef.
  { split; [done|]. intros [_ D].
    pose proof (proj1 (lets_run_spec r _) (due_deps _ _ _ D)) as [? _]. congruence. }
  destruct (forallb (has_status dep_ok r) (depends_on s)) eqn:Eo; cbn [negb].
  2: { split; [done|]. intros [_ D].
    pose proof (proj1 (lets_run_spec r _) (due_deps _ _ _ D)) as [_ ?]. congruence. }
  rewrite judge_when_ready. split.
  - intros [Hw Hg]. split; [done|].
    pose proof (proj2 (lets_run_spec r (depends_on s)) (conj Ef Eo)) as Hl. split; [done| |done| |].
    + intros g E. by rewrite E in Eg.
    + by apply (all_pruned_false r _ Hl).
    + intros g E. by rewrite E in Hg.
  - intros [Hw D]. split; [done|]. destruct (guard s) as [g|] eqn:E; [by apply (due_guard _ _ _ D)|done].
Qed.

Lemma judge_forced r id s :
  status_of id r = Pending -> forced (step_state id r) = true ->
  judge wf r d id s = MakeReady <-> when_holds s d = Ok true /\ guard s = None.
Proof.
  unfold judge, status_of. intros -> ->. cbn [busy is_terminal negb andb].
  destruct (guard s); [split; [done|by intros [_ ?]]|]. rewrite judge_when_ready. tauto.
Qed.

(** The judgement names exactly the runnable steps. *)
Lemma judge_ready r id s :
  steps wf !! id = Some s -> judge wf r d id s = MakeReady <-> runnable r id.
Proof.
  intros Hs. unfold runnable. destruct (decide (status_of id r = Pending)) as [Ep|Ep].
  - destruct (forced (step_state id r)) eqn:Ef.
    + rewrite judge_forced by done. split; [intros [? ?]; eauto 10|].
      intros (s' & E & _ & Hw & [[_ ?]|[? _]]); [|done]. by replace s with s' by congruence.
    + rewrite judge_due by done. split; [intros [? ?]; exists s; auto 10|].
      intros (s' & E & _ & Hw & [[? _]|[_ ?]]); [done|]. by replace s with s' by congruence.
  - split; [|by intros (? & _ & ? & _)]. unfold judge, status_of in *.
    by destruct (status (step_state id r)).
Qed.

(** ** One change *)

(** The run after a step was pruned or its guard asked. *)
Inductive change (id : string) (r : RunState) : RunState -> Prop :=
  | change_prune s :
      steps wf !! id = Some s -> judge wf r d id s = Prune ->
      change id r (end_step id Pruned None None now r)
  | change_ask s g :
      steps wf !! id = Some s -> judge wf r d id s = AskGuard g ->
      change id r (ask_guard id g now r).

Lemma judge_prune r id s :
  judge wf r d id s = Prune ->
  status_of id r = Pending /\
  (forced (step_state id r) = true -> guard s = None) /\
  (forced (step_state id r) = false ->
    (exists g, guarding s = Some g) \/ is_parked wf s id = true \/
    all_pruned r (depends_on s) = true \/ forallb (has_status dep_ok r) (depends_on s) = true).
Proof.
  unfold judge, status_of. intros H.
  destruct (status (step_state id r)); cbn [busy is_terminal] in H; try done.
  destruct (forced (step_state id r)); cbn [negb andb] in H.
  - split_and!; [done|by destruct (guard s)|done].
  - split_and!; [done|done|]. intros _. destruct (guarding s) as [g|]; [left; eauto|].
    destruct (is_parked wf s id); [auto|]. destruct (all_pruned r (depends_on s)); [auto|].
    destruct (existsb _ (depends_on s)); [done|].
    destruct (forallb _ (depends_on s)); [auto|done].
Qed.

Lemma judge_ask r id s g :
  judge wf r d id s = AskGuard g ->
  status_of id r = Pending /\ forced (step_state id r) = true /\ guard s = Some g.
Proof.
  unfold judge, status_of. intros H.
  assert (W : forall s b, judge_when s d b <> AskGuard g)
    by (intros s' b; unfold judge_when; destruct (when_holds s' d) as [[]|]; by destruct b).
  destruct (status (step_state id r)); cbn [busy is_terminal] in H; try done.
  destruct (forced (step_state id r)); cbn [negb andb] in H.
  - destruct (guard s) as [g'|]; [by injection H as ->|by apply W in H].
  - exfalso. repeat case_match; try done; by apply W in H.
Qed.

Lemma judge_flight r id s :
  judge wf r d id s = InFlight <-> busy (status_of id r) = true.
Proof.
  unfold judge, status_of. destruct (busy (status (step_state id r))); [done|].
  assert (W : forall s b, judge_when s d b <> InFlight)
    by (intros s' b; unfold judge_when; destruct (when_holds s' d) as [[]|]; by destruct b).
  split; [|done]. intros H. exfalso. repeat case_match; try done; by apply W in H.
Qed.

(** The state of a step after a change to another. *)
Lemma change_other id r r' x :
  guards_plain wf -> change id r r' -> x <> id ->
  step_state x r' = step_state x r \/
  exists s, steps wf !! id = Some s /\ guard s = Some x /\ forced (step_state id r) = true /\
    step_state x r' = armed_guard (step_state x r).
Proof.
  intros Hp Hc Hx. destruct Hc as [s Hs Hj|s g Hs Hj].
  - left. by rewrite step_state_end, decide_False.
  - apply judge_ask in Hj as (_ & Hf & Hg). pose proof (guard_ne wf id s g Hp Hs Hg) as Hne.
    rewrite step_state_ask by done. rewrite decide_False by done. case_decide as E; [subst|by left].
    right. eauto.
Qed.

Lemma change_self id r r' :
  guards_plain wf -> change id r r' ->
  status_of id r = Pending /\
  (status_of id r' = Pruned /\ forced (step_state id r') = forced (step_state id r) \/
   status_of id r' = Pending /\ forced (step_state id r) = true /\
     forced (step_state id r') = false).
Proof.
  intros Hp Hc. unfold status_of. destruct Hc as [s Hs Hj|s g Hs Hj].
  - apply judge_prune in Hj as (E & _). split; [done|]. left.
    by rewrite step_state_end, decide_True.
  - apply judge_ask in Hj as (E & Hf & Hg). split; [done|]. right.
    rewrite step_state_ask by (by apply (guard_ne wf id s)). by rewrite decide_True.
Qed.

(** What runs or waits outside is never touched. *)
Lemma change_busy id r r' x :
  guards_plain wf -> change id r r' -> busy (status_of x r) = true ->
  step_state x r' = step_state x r.
Proof.
  intros Hp Hc Hb. destruct (decide (x = id)) as [->|Hx].
  - apply change_self in Hc as [E _]; [|done]. by rewrite E in Hb.
  - destruct (change_other id r r' x Hp Hc Hx) as [?|(s & _ & _ & _ & E)]; [done|].
    rewrite E. unfold armed_guard, status_of in *. by rewrite Hb.
Qed.

(** ** The loop ends *)

Definition tally (f : string -> bool) (l : list string) : nat := length (List.filter f l).

Lemma count_ext f g l : (forall x, x ∈ l -> f x = g x) -> tally f l = tally g l.
Proof.
  unfold tally. induction l as [|x l IH]; intros E; [done|]. cbn. rewrite (E x) by (by left).
  specialize (IH (fun y Hy => E y (list_elem_of_further _ _ _ Hy))). destruct (g x); cbn; lia.
Qed.

Lemma count_le f l : (tally f l <= length l)%nat.
Proof. unfold tally. induction l as [|x l IH]; cbn; [lia|]. destruct (f x); cbn; lia. Qed.

(** A predicate that changes at one place: by one where it is turned off. *)
Lemma count_off f g l x :
  NoDup l -> x ∈ l -> (forall y, y <> x -> g y = f y) -> f x = true -> g x = false ->
  tally f l = S (tally g l).
Proof.
  intros Hnd Hx E Ef Eg. apply list_elem_of_split in Hx as (a & b & ->).
  apply NoDup_app in Hnd as (_ & Hab & [Hb _]%NoDup_cons). unfold tally.
  rewrite !List.filter_app, !length_app. cbn. rewrite Ef, Eg. cbn.
  rewrite (List.filter_ext_in g f a), (List.filter_ext_in g f b); [lia| |];
    intros y Hy%list_elem_of_In; apply E; intros ->; [done|].
  apply (Hab x Hy). by left.
Qed.

Lemma count_upto f g l x :
  NoDup l -> (forall y, y <> x -> g y = f y) -> (tally g l <= S (tally f l))%nat.
Proof.
  intros Hnd E. destruct (decide (x ∈ l)) as [Hx|Hx].
  2: { rewrite (count_ext g f); [lia|]. intros y Hy. apply E. by intros ->. }
  destruct (f x) eqn:Ef, (g x) eqn:Eg.
  2: { rewrite (count_off f g l x Hnd Hx E Ef Eg). lia. }
  2: { rewrite (count_off g f l x Hnd Hx); [lia| |done|done]. intros y Hy. by rewrite E. }
  all: rewrite (count_ext g f); [lia|]; intros y _;
    destruct (decide (y = x)) as [->|]; [congruence|by apply E].
Qed.

(** The routed steps whose guard is still to be asked, and the open steps. *)
Definition to_ask (r : RunState) (x : string) : bool :=
  forced (step_state x r)
  && match steps wf !! x with Some s => bool_decide (is_Some (guard s)) | None => false end.
Definition is_open_step (r : RunState) (x : string) : bool :=
  negb (is_terminal (status_of x r)).
Definition measure (r : RunState) : nat :=
  2 * tally (to_ask r) (topo_order wf) + tally (is_open_step r) (topo_order wf).

Lemma measure_bound r : (measure r <= 3 * length (topo_order wf))%nat.
Proof.
  unfold measure. pose proof (count_le (to_ask r) (topo_order wf)).
  pose proof (count_le (is_open_step r) (topo_order wf)). lia.
Qed.

(** Every change makes the measure smaller: a pruned step is closed, and a
    guard that is asked can be opened again only once. *)
Lemma prune_measure id r :
  id ∈ topo_order wf -> status_of id r = Pending ->
  (measure (end_step id Pruned None None now r) < measure r)%nat.
Proof.
  intros Hid Es. unfold measure. set (r' := end_step id Pruned None None now r).
  rewrite (count_ext (to_ask r') (to_ask r)).
  2: { intros x _. unfold to_ask, r'. rewrite step_state_end. by case_decide; [subst|]. }
  rewrite (count_off (is_open_step r) (is_open_step r') (topo_order wf) id); [lia| |done| | |].
  - apply topo_order_NoDup.
  - intros y Hy. unfold is_open_step, status_of, r'. by rewrite step_state_end, decide_False.
  - unfold is_open_step. by rewrite Es.
  - unfold is_open_step, status_of, r'. by rewrite step_state_end, decide_True.
Qed.

Lemma ask_measure id s g r :
  guards_plain wf -> id ∈ topo_order wf -> steps wf !! id = Some s -> guard s = Some g ->
  forced (step_state id r) = true -> (measure (ask_guard id g now r) < measure r)%nat.
Proof.
  intros Hp Hid Hs Hg Hf. pose proof (guard_ne wf id s g Hp Hs Hg) as Hne.
  unfold measure. set (r' := ask_guard id g now r).
  assert (Hopen : (tally (is_open_step r') (topo_order wf)
                   <= S (tally (is_open_step r) (topo_order wf)))%nat).
  { apply (count_upto _ _ _ g); [apply topo_order_NoDup|]. intros y Hy.
    unfold is_open_step, status_of, r'. rewrite step_state_ask by done.
    case_decide; [by subst|]. by rewrite decide_False. }
  rewrite (count_off (to_ask r) (to_ask r') (topo_order wf) id); [lia|apply topo_order_NoDup|done| | |].
  - intros y Hy. unfold to_ask, r'. rewrite step_state_ask, decide_False by done.
    case_decide as E; [|done]. subst y.
    destruct (steps wf !! g) as [gs|] eqn:Egs; [|by rewrite !andb_false_r].
    rewrite (Hp id s g gs) by done. by rewrite !andb_false_r.
  - unfold to_ask. by rewrite Hf, Hs, Hg.
  - unfold to_ask, r'. by rewrite step_state_ask, decide_True by done.
Qed.

Lemma change_measure id r r' :
  guards_plain wf -> id ∈ topo_order wf -> change id r r' -> (measure r' < measure r)%nat.
Proof.
  intros Hp Hid [s Hs Hj|s g Hs Hj].
  - apply prune_measure; [done|]. by apply judge_prune in Hj as [? _].
  - apply judge_ask in Hj as (_ & Hf & Hg). by apply (ask_measure id s g).
Qed.

(** What visiting a step does to a pass. *)
Lemma visit_cases a id a' :
  visit wf d now a id = inl a' ->
  (s_run a' = s_run a /\ s_changed a' = s_changed a /\
     (s_ready a' = s_ready a /\ s_in_flight a' = s_in_flight a /\
        (id ∉ s_ready a -> forall s, steps wf !! id = Some s -> judge wf (s_run a) d id s = Leave) \/
      s_ready a' = s_ready a /\ s_in_flight a' = true /\
        (exists s, steps wf !! id = Some s /\ judge wf (s_run a) d id s = InFlight) \/
      s_ready a' = s_ready a ++ [id] /\ s_in_flight a' = s_in_flight a /\ id ∉ s_ready a /\
        runnable (s_run a) id)) \/
  (change id (s_run a) (s_run a') /\ s_changed a' = true /\ s_ready a' = s_ready a /\
     s_in_flight a' = s_in_flight a /\ id ∉ s_ready a).
Proof.
  unfold visit. destruct (steps wf !! id) as [s|] eqn:Hs; [|intros [= <-]; left; split_and!; [done..|by left]].
  destruct (judge wf (s_run a) d id s) as [| | |g| |e] eqn:Hj; try case_decide as E;
    intros [= <-]; cbn.
  - left. split_and!; [done..|]. right. left. split_and!; eauto.
  - left. split_and!; [done..|]. left. split_and!; [done..|]. by intros _ s' [= <-].
  - left. split_and!; [done..|]. by left.
  - right. split_and!; [|done..]. by apply (change_prune _ _ s).
  - left. split_and!; [done..|]. by left.
  - right. split_and!; [|done..]. by apply (change_ask _ _ s).
  - left. split_and!; [done..|]. by left.
  - left. split_and!; [done..|]. right. right. split_and!; [done..|]. by apply (judge_ready _ _ s).
  - left. split_and!; [done..|]. by left.
Qed.

(** ** A pass *)

(** What every change to the run keeps, a pass keeps. *)
Lemma pass_ind (I : Sched -> Prop) l a a' :
  (forall a id a', id ∈ l -> I a -> visit wf d now a id = inl a' -> I a') ->
  I a -> pass wf d now l a = inl a' -> I a'.
Proof.
  revert a. induction l as [|id l IH]; intros a Hv Ha H; cbn [pass] in H; [by injection H as <-|].
  destruct (visit wf d now a id) as [a1|] eqn:E; [|done].
  apply (IH a1); [|by apply (Hv a id); [left| |]|done].
  intros b x b' Hx. apply Hv. by right.
Qed.

(** A pass that changes something makes the measure smaller. *)
Lemma pass_measure a a' :
  guards_plain wf -> pass wf d now (topo_order wf) a = inl a' -> s_changed a = false ->
  (s_changed a' = true -> measure (s_run a') < measure (s_run a))%nat.
Proof.
  intros Hp H Hc. apply (pass_ind (fun b => (measure (s_run b) <= measure (s_run a))%nat /\
    (s_changed b = true -> measure (s_run b) < measure (s_run a))%nat) _ _ _) in H;
    [tauto| |split; [lia|congruence]].
  intros b id b' Hid [Hle Hlt] [(-> & -> & _)|(Hch & _)]%visit_cases; [done|].
  pose proof (change_measure id _ _ Hp Hid Hch). lia.
Qed.

Lemma sched_loop_some fuel a :
  guards_plain wf -> (measure (s_run a) < fuel)%nat -> is_Some (sched_loop fuel wf d now a).
Proof.
  intros Hp. revert a. induction fuel as [|fuel IH]; intros a Hm; [lia|]. cbn [sched_loop].
  destruct (pass wf d now (topo_order wf) _) as [a'|e] eqn:E; [|done].
  destruct (s_changed a') eqn:Ec; [|done]. apply IH.
  pose proof (pass_measure _ _ Hp E eq_refl Ec). cbn in *. lia.
Qed.

Lemma lookup_end id s out err r x :
  x <> id -> run_steps (end_step id s out err now r) !! x = run_steps r !! x.
Proof. intros Hx. rewrite run_steps_end. by apply lookup_insert_ne. Qed.

Lemma lookup_ask id g r x :
  x <> id -> x <> g -> run_steps (ask_guard id g now r) !! x = run_steps r !! x.
Proof.
  intros Hi Hg. unfold ask_guard. rewrite run_steps_touch.
  destruct (run_steps (put_step _ _ _) !! id); rewrite ?lookup_put_step, ?decide_False; done.
Qed.

Lemma has_status_state f r x : has_status f r x = true -> f (status_of x r) = true.
Proof. unfold has_status, status_of, step_state. by destruct (run_steps r !! x). Qed.

Lemma lets_run_status r x : lets_run r x -> dep_ok (status_of x r) = true.
Proof. intros (t & Ht & Ho). unfold status_of, step_state. by rewrite Ht. Qed.

(** A due step stays due when its dependencies' records do and the step it
    decides about is still open. *)
Lemma due_same r r' x s :
  guards_ok wf -> steps wf !! x = Some s -> due r x s ->
  (forall y, y ∈ depends_on s -> run_steps r' !! y = run_steps r !! y) ->
  (forall t, guarding s = Some t -> has_status is_terminal r' t = false) ->
  due r' x s.
Proof.
  intros Hok Hs [P O D L G] Hd Ho. split; [done|done| | |].
  - intros y Hy. unfold lets_run. rewrite Hd by done. by apply D.
  - destruct L as [?|(y & Hy & Hl)]; [by left|]. right. exists y. split; [done|].
    unfold live, status_of, step_state in *. by rewrite Hd.
  - intros g Eg. unfold guard_answered. rewrite Hd; [by apply G|].
    destruct (go_step _ Hok x s g Hs Eg) as [-> _]. by left.
Qed.

Lemma due_prune id sid r x s :
  guards_ok wf -> steps wf !! id = Some sid -> judge wf r d id sid = Prune ->
  steps wf !! x = Some s -> status_of x r = Pending -> x <> id -> due r x s ->
  due (end_step id Pruned None None now r) x s.
Proof.
  intros Hok Hid Hj Hs Hx Hne D. apply judge_prune in Hj as (Hp & Hf & Hu).
  apply (due_same r); [done|done|done| |].
  - intros y Hy. apply lookup_end. intros ->.
    pose proof (lets_run_status _ _ (due_deps _ _ _ D id Hy)) as E. by rewrite Hp in E.
  - intros t Et. destruct (decide (t = id)) as [->|Hn].
    2: { pose proof (due_open _ _ _ D t Et) as E. unfold has_status in *. by rewrite lookup_end. }
    exfalso. destruct (go_guard _ Hok x s id Hs Et) as [_ (sid' & E & Hg)].
    replace sid' with sid in Hg by congruence.
    destruct (forced (step_state id r)); [by rewrite Hf in Hg|].
    destruct (go_step _ Hok id sid x Hid Hg) as [Hdep _].
    destruct (Hu eq_refl) as [[t Ht]|[Hpk|[Ha|Ha]]].
    + destruct (go_guard _ Hok id sid t Hid Ht) as [? _]. congruence.
    + unfold is_parked in Hpk. by rewrite Hdep in Hpk.
    + unfold all_pruned in Ha. rewrite Hdep in Ha. cbn in Ha. rewrite andb_true_r in Ha.
      apply has_status_state in Ha. by rewrite Hx in Ha.
    + rewrite Hdep in Ha. cbn in Ha. rewrite andb_true_r in Ha.
      apply has_status_state in Ha. by rewrite Hx in Ha.
Qed.

Lemma due_ask id sid g r x s :
  guards_ok wf -> steps wf !! id = Some sid -> judge wf r d id sid = AskGuard g ->
  steps wf !! x = Some s -> g ∉ depends_on s -> due r x s -> due (ask_guard id g now r) x s.
Proof.
  intros Hok Hid Hj Hs Hne D. apply judge_ask in Hj as (Hp & Hf & Hg).
  pose proof (guard_ne wf id sid g (guards_ok_plain _ Hok) Hid Hg) as Hgi.
  apply (due_same r); [done|done|done| |].
  - intros y Hy. apply lookup_ask; intros ->.
    + pose proof (lets_run_status _ _ (due_deps _ _ _ D id Hy)) as E. by rewrite Hp in E.
    + done.
  - intros t Et. pose proof (due_open _ _ _ D t Et) as E.
    apply not_true_is_false. intros Ht%has_status_state. revert Ht. unfold status_of.
    rewrite step_state_ask by done. case_decide as E1.
    { subst t. cbn. unfold status_of in Hp. by rewrite Hp. }
    case_decide as E2.
    { subst t. unfold armed_guard. destruct (busy (status (step_state g r))) eqn:Eb; [|done].
      by destruct (status (step_state g r)). }
    unfold has_status, step_state in *. destruct (run_steps r !! t); [|done]. cbn in *. congruence.
Qed.

(** [x] depends on the decision guard of [k], another step. *)
Definition shares_guard (k x : string) : Prop :=
  k <> x /\ exists ks s g, steps wf !! k = Some ks /\ guard ks = Some g /\ steps wf !! x = Some s /\ g ∈ depends_on s.

(** Between [r0] and [r], the guard of a routed step was asked again, and [x]
    depends on it too. *)
Definition reopened (r0 r : RunState) (x : string) : Prop :=
  exists k, shares_guard k x /\ forced (step_state k r0) = true /\ forced (step_state k r) = false.

(** What is runnable stays so while other steps are pruned and guards asked,
    unless it depends on the guard asked. *)
Lemma runnable_change id r r' x :
  guards_ok wf -> change id r r' -> x <> id -> runnable r x ->
  runnable r' x \/
  shares_guard id x /\ forced (step_state id r) = true /\ forced (step_state id r') = false.
Proof.
  intros Hok Hc Hx (s & Hs & Hp & Hw & Hr).
  destruct (change_other id r r' x (guards_ok_plain _ Hok) Hc Hx) as [E|(sid & Hid & Hg & _ & E)].
  - assert (D : due r x s -> due r' x s \/
      shares_guard id x /\ forced (step_state id r) = true /\ forced (step_state id r') = false).
    { intros D. destruct Hc as [s' Hs' Hj|s' g Hs' Hj]; [left; by apply (due_prune id s')|].
      destruct (decide (g ∈ depends_on s)) as [Hin|Hn]; [|left; by apply (due_ask id s')].
      right. apply judge_ask in Hj as (_ & Hf & Hg). split_and!; [split; [done|by exists s', s, g]|done|].
      rewrite step_state_ask by (by apply (guard_ne wf id s'), Hg; [apply guards_ok_plain|]). by rewrite decide_True. }
    assert (K : forced (step_state x r) = true /\ guard s = None \/
      forced (step_state x r) = false /\ due r' x s -> runnable r' x).
    { intros K. exists s. unfold status_of in *. rewrite E. by split_and!. }
    destruct Hr as [?|[? [?|?]%D]]; auto.
  - destruct (go_step _ Hok id sid x Hid Hg) as [_ (gs & Hgs & Hn)]. left.
    exists s. unfold status_of in *. rewrite E. unfold armed_guard. rewrite Hp. cbn.
    split_and!; [done..|]. left. split; [done|]. congruence.
Qed.

(** A step with a guard is routed to only by a failure: no change forces it. *)
Lemma forced_before id r r' k ks :
  guards_ok wf -> change id r r' -> steps wf !! k = Some ks -> is_Some (guard ks) ->
  forced (step_state k r') = true -> forced (step_state k r) = true.
Proof.
  intros Hok Hc Hk [g Hg] Hf. pose proof (guards_ok_plain _ Hok) as Hp.
  destruct (decide (k = id)) as [->|Hne].
  - apply change_self in Hc as [_ [[_ E]|(_ & E & _)]]; [by rewrite <- E|done|done].
  - destruct (change_other id r r' k Hp Hc Hne) as [E|(s & Hs & Hgs & _)]; [by rewrite <- E|].
    by rewrite (Hp id s k ks Hs Hgs Hk) in Hg.
Qed.

(** The run scheduling began with, as far as routed steps go. *)
Definition routed_before (r0 r : RunState) : Prop :=
  forall k ks, steps wf !! k = Some ks -> is_Some (guard ks) ->
    forced (step_state k r) = true -> forced (step_state k r0) = true.

Lemma reopened_change r0 id r r' x : guards_ok wf -> change id r r' -> reopened r0 r x -> reopened r0 r' x.
Proof.
  intros Hok Hc (k & Hk & H0 & H1). exists k. split_and!; [done..|]. apply not_true_is_false. intros Ht.
  destruct Hk as (_ & ks & s & g & Hks & Hg & _).
  rewrite (forced_before id r r' k ks Hok Hc Hks ltac:(by exists g) Ht) in H1. done.
Qed.

(** The ready steps of a pass that began with [r0]: named once, in the order,
    and runnable, but for those whose dependency was asked again since. *)
Record ready_ok (r0 : RunState) (a : Sched) : Prop := {
  ro_nodup : NoDup (s_ready a);
  ro_order : forall x, x ∈ s_ready a -> x ∈ topo_order wf;
  ro_run : forall x, x ∈ s_ready a -> runnable (s_run a) x \/ reopened r0 (s_run a) x;
  ro_idle : forall x, x ∈ s_ready a -> busy (status_of x (s_run a)) = false;
  ro_flight : s_in_flight a = true ->
    exists x, x ∈ topo_order wf /\ busy (status_of x (s_run a)) = true;
  ro_before : routed_before r0 (s_run a);
}.

(** No change starts a step. *)
Lemma change_idle id r r' x :
  guards_plain wf -> change id r r' -> busy (status_of x r) = false -> busy (status_of x r') = false.
Proof.
  intros Hp Hc Hb. destruct (decide (x = id)) as [->|Hx].
  - by apply change_self in Hc as [_ [[-> _]|[-> _]]].
  - unfold status_of in *. destruct (change_other id r r' x Hp Hc Hx) as [->|(s & _ & _ & _ & ->)]; [done|].
    unfold armed_guard. by rewrite Hb.
Qed.

Lemma ready_ok_visit r0 a id a' :
  guards_ok wf -> id ∈ topo_order wf -> ready_ok r0 a -> visit wf d now a id = inl a' -> ready_ok r0 a'.
Proof.
  intros Hok Hid [N O R I F B] Hv. pose proof (guards_ok_plain _ Hok) as Hp.
  apply visit_cases in Hv as [(Er & _ & [(El & Ef & _)|[(El & Ef & s & Hs & Hj)|(El & Ef & Hn & Hr)]])
                             |(Hc & _ & El & Ef & Hn)].
  - split; by rewrite ?El, ?Ef, ?Er.
  - split; rewrite ?El, ?Ef, ?Er; try done. intros _. exists id. split; [done|]. by apply judge_flight in Hj.
  - split; rewrite ?El, ?Ef, ?Er; try done.
    + apply NoDup_app. split_and!; [done| |apply NoDup_singleton].
      by intros x Hx ->%list_elem_of_singleton.
    + intros x [Hx| ->%list_elem_of_singleton]%elem_of_app; auto.
    + intros x [Hx| ->%list_elem_of_singleton]%elem_of_app; auto.
    + intros x [Hx| ->%list_elem_of_singleton]%elem_of_app; [auto|]. destruct Hr as (s & _ & -> & _). done.
  - split; rewrite ?El, ?Ef; try done.
    + intros x Hx. destruct (R x Hx) as [Hr|Hr]; [|right; by apply (reopened_change r0 id (s_run a))].
      destruct (runnable_change id (s_run a) (s_run a') x) as [?|(Hk & H1 & H2)];
        [done|done|by intros ->|done|by left|].
      right. exists id. split_and!; [done| |done]. destruct Hk as (_ & ks & s & g & Hks & Hg & _).
      apply (B id ks); [done|by exists g|done].
    + intros x Hx. apply (change_idle id (s_run a)); auto.
    + intros Hfl. destruct (F Hfl) as (x & Hx & Hb). exists x. split; [done|].
      unfold status_of in *. by rewrite (change_busy id _ _ x Hp Hc Hb).
    + intros k ks Hk Hg Hf. apply (B k ks Hk Hg). by eapply (forced_before id).
Qed.

Lemma pass_ready r0 a a' :
  guards_ok wf -> ready_ok r0 a -> pass wf d now (topo_order wf) a = inl a' -> ready_ok r0 a'.
Proof.
  intros Hok Ha. apply (pass_ind (ready_ok r0)); [|done].
  intros b id b' Hid Hb. by apply ready_ok_visit.
Qed.

(** A pass that changed nothing judged every step in the run it leaves. *)
Lemma pass_settled l a a' :
  pass wf d now l a = inl a' -> s_changed a' = false ->
  s_changed a = false /\ s_run a' = s_run a /\ (forall x, x ∈ s_ready a -> x ∈ s_ready a') /\
  (s_in_flight a = true -> s_in_flight a' = true) /\
  forall x s, x ∈ l -> steps wf !! x = Some s ->
    x ∈ s_ready a' \/ judge wf (s_run a') d x s = Leave \/
    (judge wf (s_run a') d x s = InFlight /\ s_in_flight a' = true).
Proof.
  revert a. induction l as [|id l IH]; intros a H Hc; cbn [pass] in H.
  { injection H as <-. split_and!; try done. by intros x s ?%elem_of_nil. }
  destruct (visit wf d now a id) as [a1|] eqn:E; [|done].
  destruct (IH a1 H Hc) as (C & R & S & F & J).
  apply visit_cases in E as [(Er & Ec & Hcase)|(_ & Ec & _)]; [|congruence].
  assert (S1 : forall x, x ∈ s_ready a -> x ∈ s_ready a1)
    by (intros x Hx; destruct Hcase as [(-> & _)|[(-> & _)|(-> & _)]]; rewrite ?elem_of_app; auto).
  assert (F1 : s_in_flight a = true -> s_in_flight a1 = true)
    by (destruct Hcase as [(_ & -> & _)|[(_ & -> & _)|(_ & -> & _)]]; done).
  split_and!; [congruence|congruence|auto|auto|].
  intros x s Hx Hs. rewrite R, Er in *. apply elem_of_cons in Hx as [->|Hx]; [|by apply J].
  destruct Hcase as [(_ & _ & Hl)|[(_ & Hfl & s' & Hs' & Hj)|(Hr & _)]].
  - destruct (decide (id ∈ s_ready a)); [left; auto|right; left; auto].
  - right. right. replace s with s' by congruence. auto.
  - left. apply S. rewrite Hr. apply elem_of_app. right. by left.
Qed.

(** What the scheduler leaves: every runnable step is ready, the ready ones
    are runnable but for those whose dependency it asked again, and whether
    anything is in flight is known. *)
Definition settled (r0 : RunState) (a : Sched) : Prop :=
  NoDup (s_ready a) /\
  (forall x, x ∈ topo_order wf -> runnable (s_run a) x -> x ∈ s_ready a) /\
  (forall x, x ∈ s_ready a -> x ∈ topo_order wf /\ (runnable (s_run a) x \/ reopened r0 (s_run a) x)) /\
  (s_in_flight a = true <-> exists x, x ∈ topo_order wf /\ busy (status_of x (s_run a)) = true).

Lemma topo_order_step x : x ∈ topo_order wf -> is_Some (steps wf !! x).
Proof. intros Hx%topo_order_elem%grounded_key. by apply elem_of_keys. Qed.

Lemma judge_settled a x s :
  x ∈ s_ready a \/ judge wf (s_run a) d x s = Leave \/
    (judge wf (s_run a) d x s = InFlight /\ s_in_flight a = true) ->
  steps wf !! x = Some s -> runnable (s_run a) x -> x ∈ s_ready a.
Proof. intros HJ Hs Hr. apply (judge_ready _ x s Hs) in Hr. destruct HJ as [?|[?|[? _]]]; [done|congruence|congruence]. Qed.

Lemma loop_settled r0 fuel a a' :
  guards_ok wf -> ready_ok r0 a -> sched_loop fuel wf d now a = Some (inl a') -> settled r0 a'.
Proof.
  intros Hok. revert a. induction fuel as [|fuel IH]; intros a Ha H; [done|]. cbn [sched_loop] in H.
  destruct (pass wf d now (topo_order wf) _) as [a1|] eqn:E; [|done].
  assert (Ha0 : ready_ok r0 (mkSched (s_run a) (s_ready a) (s_in_flight a) false))
    by (by destruct Ha; split).
  pose proof (pass_ready r0 _ _ Hok Ha0 E) as Ha1.
  destruct (s_changed a1) eqn:Ec; [by apply (IH a1)|]. injection H as <-.
  destruct (pass_settled _ _ _ E Ec) as (_ & _ & _ & _ & J). destruct Ha1 as [N O R I F _].
  split_and!; [done| |auto|].
  - intros x Hx Hr. destruct (topo_order_step x Hx) as [s Hs]. by apply (judge_settled a1 x s (J x s Hx Hs)).
  - split; [done|]. intros (x & Hx & Hb). destruct (topo_order_step x Hx) as [s Hs].
    apply (judge_flight _ x s) in Hb as Hj.
    destruct (J x s Hx Hs) as [Hr%I|[?|[_ ?]]]; [congruence|congruence|done].
Qed.

(** A property of the run that every change keeps, the scheduler keeps. *)
Section run_ind.
Variable I : RunState -> Prop.
Hypothesis HI : forall id r r', id ∈ topo_order wf -> change id r r' -> I r -> I r'.

(** The run of either outcome of a pass. *)
Definition out_run (o : Sched + (RunState * ScheduleError)) : RunState :=
  match o with inl a => s_run a | inr (r, _) => r end.

Lemma visit_run_ind a id : id ∈ topo_order wf -> I (s_run a) -> I (out_run (visit wf d now a id)).
Proof.
  intros Hid Ha. destruct (visit wf d now a id) as [a'|[r e]] eqn:E; cbn [out_run].
  - apply visit_cases in E as [(-> & _)|(Hc & _)]; [done|by apply (HI id (s_run a))].
  - unfold visit in E. repeat case_match; simplify_eq. done.
Qed.

Lemma pass_run_ind l a :
  (forall x, x ∈ l -> x ∈ topo_order wf) -> I (s_run a) -> I (out_run (pass wf d now l a)).
Proof.
  revert a. induction l as [|id l IH]; intros a Hl Ha; cbn [pass]; [done|].
  pose proof (visit_run_ind a id (Hl id (list_elem_of_here _ _)) Ha) as Hv.
  destruct (visit wf d now a id) as [a1|[r e]]; [|done]. apply IH; [|done].
  intros x Hx. apply Hl. by right.
Qed.

Lemma loop_run_ind fuel a o :
  sched_loop fuel wf d now a = Some o -> I (s_run a) -> I (out_run o).
Proof.
  revert a. induction fuel as [|fuel IH]; intros a H Ha; [done|]. cbn [sched_loop] in H.
  pose proof (pass_run_ind (topo_order wf) (mkSched (s_run a) (s_ready a) (s_in_flight a) false)
    (fun _ Hx => Hx) Ha) as Hp.
  destruct (pass wf d now (topo_order wf) _) as [a1|e]; [|by injection H as <-].
  destruct (s_changed a1); [by apply (IH a1)|by injection H as <-].
Qed.

Lemma schedule_run_ind r r' res : schedule wf r d now = Some (r', res) -> I r -> I r'.
Proof.
  unfold schedule. destruct (run_is_terminal (run_status r)); [by intros [= <- _]|].
  destruct (sched_loop _ _ _ _ _) as [o|] eqn:E; [|done]. intros H Hr.
  apply (loop_run_ind _ _ _ E) in Hr. destruct o as [a|[r1 e]]; by injection H as <- _.
Qed.
End run_ind.

(** A step routed to that has no guard: scheduling leaves it so. *)
Definition routed (r : RunState) (x : string) : Prop :=
  exists s, steps wf !! x = Some s /\ status_of x r = Pending /\ when_holds s d = Ok true /\
    forced (step_state x r) = true /\ guard s = None.

Lemma routed_runnable r x : routed r x -> runnable r x.
Proof. intros (s & Hs & Hp & Hw & Hf & Hg). exists s. auto 10. Qed.

Lemma routed_stays id r r' x : guards_ok wf -> change id r r' -> routed r x -> routed r' x.
Proof.
  intros Hok Hc Hr. destruct (decide (x = id)) as [->|Hx].
  - exfalso. apply routed_runnable in Hr. destruct Hc as [s Hs Hj|s g Hs Hj]; apply (judge_ready r id s Hs) in Hr; congruence.
  - destruct Hr as (s & Hs & Hp & Hw & Hf & Hg). exists s. unfold status_of in *.
    destruct (change_other id r r' x (guards_ok_plain _ Hok) Hc Hx) as [->|(_ & _ & _ & _ & ->)]; [done|].
    unfold armed_guard. rewrite Hp. done.
Qed.

Lemma schedule_settled r r' next :
  guards_ok wf -> run_is_terminal (run_status r) = false ->
  schedule wf r d now = Some (r', Ok next) ->
  exists a, settled r a /\ s_run a = r' /\
    next = match s_ready a with
           | _ :: _ => Ready (s_ready a)
           | [] => if s_in_flight a then Waiting else Stalled
           end.
Proof.
  intros Hok Ht. unfold schedule. rewrite Ht.
  destruct (sched_loop _ _ _ _ _) as [o|] eqn:E; [|done]. intros H.
  destruct o as [a|[r1 e]]; [|done]. injection H as <- <-. exists a. split_and!; [|done..].
  apply (loop_settled r _ _ _ Hok) in E; [done|]. split; cbn; try done; [by apply NoDup_nil|..|by intros k ks _ _].
  all: intros x Hx; by apply elem_of_nil in Hx.
Qed.
End sched_props.

(** C16: scheduling ends. The loop over the order runs again only after a
    change, and every change either prunes an open step or asks a routed
    step's guard, which can reopen one step; three passes for every step and
    one more are enough. *)
Theorem schedule_returns {cel : Cel} wf d now r :
  guards_plain wf -> is_Some (schedule wf r d now).
Proof.
  intros Hp. unfold schedule. destruct (run_is_terminal (run_status r)); [done|].
  destruct (sched_loop_some wf d now (schedule_fuel wf) (mkSched r [] false true) Hp) as [o E].
  - pose proof (measure_bound wf r). unfold schedule_fuel. cbn [s_run]. lia.
  - rewrite E. by eexists.
Qed.

(** C17: what the scheduler answers, of a workflow whose decision guards are as
    the parser makes them.  Every step of the order that can run in the run it
    leaves is ready (pending, [when] true, and either routed to without a guard,
    or unrouted with every dependency satisfied or pruned, one of them live, and
    the decision guard holding).  The ready steps are those, each named once, and
    at most the ones that depend besides on the guard of another step, which was
    routed to and whose guard this very call asked again: in a workflow where
    only a step itself depends on its guard there are none.  With nothing ready,
    it waits exactly when a step is running or suspended, and otherwise the run
    has stalled. *)
Theorem schedule_meaning {cel : Cel} wf d now r r' next :
  guards_ok wf -> run_is_terminal (run_status r) = false ->
  schedule wf r d now = Some (r', Ok next) ->
  let can x := x ∈ topo_order wf /\ runnable wf d r' x in
  let flying := exists x, x ∈ topo_order wf /\ busy (status_of x r') = true in
  match next with
  | Ready l => l <> [] /\ NoDup l /\ (forall x, can x -> x ∈ l) /\
      (forall x, x ∈ l -> can x \/ x ∈ topo_order wf /\ reopened wf r r' x)
  | Waiting => (forall x, ~ can x) /\ flying
  | Stalled => (forall x, ~ can x) /\ ~ flying
  | Terminal_ => False
  end.
Proof.
  intros Hok Ht H. destruct (schedule_settled wf d now r r' next Hok Ht H) as (a & (N & C & R & F) & <- & ->).
  cbn zeta. destruct (s_ready a) as [|x l] eqn:E.
  - assert (G : forall x, ~ (x ∈ topo_order wf /\ runnable wf d (s_run a) x))
      by (intros x [Hx Hr]; specialize (C x Hx Hr); by apply elem_of_nil in C).
    destruct (s_in_flight a); [by split; [|apply F]|]. split; [done|]. by intros ?%F.
  - split_and!; [done|done|by intros y [? ?]; apply C|]. intros y [Hy Hr]%R. tauto.
Qed.

(** A step routed to is started. *)
Lemma routed_is_started {cel : Cel} wf d now r r' next x :
  guards_ok wf -> run_is_terminal (run_status r) = false ->
  x ∈ topo_order wf -> routed wf d r x ->
  schedule wf r d now = Some (r', Ok next) -> exists l, next = Ready l /\ x ∈ l.
Proof.
  intros Hok Ht Hx Hr H.
  assert (Hr' : routed wf d r' x).
  { apply (schedule_run_ind wf d now (fun r => routed wf d r x)) in H; [done| |done].
    intros id r1 r2 _ Hc. by apply (routed_stays wf d now id r1). }
  destruct (schedule_settled wf d now r r' next Hok Ht H) as (a & (_ & C & _) & <- & ->).
  pose proof (C x Hx (routed_runnable wf d _ x Hr')) as Hin. destruct (s_ready a) as [|y l] eqn:E.
  - by apply elem_of_nil in Hin.
  - by exists (y :: l).
Qed.

(** [x] is nobody's decision guard. *)
Definition not_a_guard (wf : Workflow) (x : string) : Prop :=
  forall k s, steps wf !! k = Some s -> guard s <> Some x.

Lemma change_terminal {cel : Cel} wf d now id r r' x :
  guards_plain wf -> not_a_guard wf x -> change wf d now id r r' ->
  is_terminal (status_of x r) = true -> step_state x r' = step_state x r.
Proof.
  intros Hp Hn Hc Ht. destruct (decide (x = id)) as [->|Hx].
  - apply change_self in Hc as [E _]; [|done]. by rewrite E in Ht.
  - destruct (change_other wf d now id r r' x Hp Hc Hx) as [?|(s & Hs & Hg & _)]; [done|].
    by destruct (Hn id s Hs).
Qed.

Lemma change_pending {cel : Cel} wf d now id r r' x :
  guards_plain wf -> not_a_guard wf x -> change wf d now id r r' ->
  status_of x r = Pending -> status_of x r' = Pending \/ status_of x r' = Pruned.
Proof.
  intros Hp Hn Hc Ht. destruct (decide (x = id)) as [->|Hx].
  - apply change_self in Hc as [_ [[? _]|[? _]]]; auto.
  - destruct (change_other wf d now id r r' x Hp Hc Hx) as [E|(s & Hs & Hg & _)].
    + left. unfold status_of in *. by rewrite E.
    + by destruct (Hn id s Hs).
Qed.

(** What the scheduler may change. A step that runs or is suspended keeps
    its whole record; so does an ended step, unless it is the decision guard
    of a routed step, which is asked again; an open step stays open or is
    pruned. *)
Theorem schedule_keeps {cel : Cel} wf d now r r' res x :
  guards_plain wf -> schedule wf r d now = Some (r', res) ->
  (busy (status_of x r) = true -> step_state x r' = step_state x r) /\
  (not_a_guard wf x ->
    (is_terminal (status_of x r) = true -> step_state x r' = step_state x r) /\
    (status_of x r = Pending -> status_of x r' = Pending \/ status_of x r' = Pruned)).
Proof.
  intros Hp H. split_and!.
  - intros Hb. apply (schedule_run_ind wf d now (fun q => step_state x q = step_state x r)) in H;
      [done| |done].
    intros id r1 r2 _ Hc E. rewrite <- E. apply (change_busy wf d now id); [done|done|].
    unfold status_of in *. by rewrite E.
  - intros Hn. split.
    + intros Hb. apply (schedule_run_ind wf d now (fun q => step_state x q = step_state x r)) in H;
        [done| |done].
      intros id r1 r2 _ Hc E. rewrite <- E. apply (change_terminal wf d now id); [done|done|done|].
      unfold status_of in *. by rewrite E.
    + intros Hb. apply (schedule_run_ind wf d now (fun q =>
        status_of x q = Pending \/ step_state x q = step_state x q /\ status_of x q = Pruned)) in H.
      * destruct H as [?|[_ ?]]; auto.
      * intros id r1 r2 _ Hc [E|[_ E]].
        -- destruct (change_pending wf d now id r1 r2 x Hp Hn Hc E); auto.
        -- right. split; [done|]. unfold status_of in *.
           rewrite (change_terminal wf d now id r1 r2 x Hp Hn Hc); [done|].
           unfold status_of. by rewrite E.
      * by left.
Qed.

(** ** The record's shape *)

(** The run holds the workflow's steps and no other. *)
Definition run_of (wf : Workflow) (r : RunState) : Prop := dom (run_steps r) = dom (steps wf).

Lemma run_of_put wf id t r :
  run_of wf r -> is_Some (steps wf !! id) -> run_of wf (put_step id t r).
Proof.
  unfold run_of. intros E Hid. unfold put_step, set_run_steps. cbn [run_steps].
  rewrite dom_insert_L, E. apply elem_of_dom in Hid. set_solver.
Qed.

Lemma run_of_schedule {cel : Cel} wf d now r r' res :
  guards_ok wf -> schedule wf r d now = Some (r', res) -> run_of wf r -> run_of wf r'.
Proof.
  intros Hok H. revert H. apply schedule_run_ind. intros id r1 r2 Hid Hc Hr.
  apply topo_order_step in Hid. destruct Hc as [s Hs Hj|s g Hs Hj].
  - by apply (run_of_put wf id).
  - apply judge_ask in Hj as (_ & _ & Hg).
    destruct (go_step _ Hok id s g Hs Hg) as [_ (gs & Hgs & _)].
    unfold ask_guard. unfold run_of. rewrite run_steps_touch.
    assert (G : run_of wf (put_step g (armed_guard (step_state g r1)) r1))
      by (apply run_of_put; [done|by exists gs]).
    fold (armed_guard (step_state g r1)).
    destruct (run_steps (put_step g _ r1) !! id); [by apply (run_of_put wf id)|done].
Qed.

Lemma run_of_new wf rid st inputs now :
  ids_match wf -> run_of wf (run_new rid wf st inputs now).
Proof.
  intros Hid. unfold run_of, run_new. cbn [run_steps].
  assert (G : forall l m, (forall s, s ∈ l -> id s ∈ dom (steps wf)) -> dom m = dom (steps wf) ->
    dom (fold_left (start_one st now) l m : gmap string StepState) = dom (steps wf)).
  { induction l as [|s l IH]; intros m Hl Hm; [done|]. cbn. apply IH.
    - intros s' Hs'. apply Hl. by right.
    - unfold start_one. rewrite dom_insert_L, Hm. pose proof (Hl s (list_elem_of_here _ _)). set_solver. }
  apply G; [|apply dom_fmap_L]. intros s [Hs _]%start_steps_elem.
  apply elem_of_dom. rewrite (proj1 (vals_steps wf s Hid) Hs). by eexists.
Qed.

(** C18: a run's record is typed by its workflow: it starts with exactly the
    workflow's steps, and beginning, suspending or ending one of them,
    scheduling, routing a failure and finishing keep it so. *)
Theorem run_is_typed {cel : Cel} wf d now rid st inputs :
  ids_match wf -> guards_ok wf ->
  run_of wf (run_new rid wf st inputs now) /\
  forall r, run_of wf r ->
    (forall k s, steps wf !! k = Some s ->
       (forall sp, run_of wf (begin_step k sp now r).1) /\
       (forall w, run_of wf (suspend_step k w now r)) /\
       (forall st out err, run_of wf (end_step k st out err now r)) /\
       (forall err, run_of wf (route_failure wf s err now r).1)) /\
    (forall st out err, run_of wf (finish st out err now r)) /\
    (forall r' res, schedule wf r d now = Some (r', res) -> run_of wf r').
Proof.
  intros Hid Hok. split; [by apply run_of_new|]. intros r Hr. split_and!.
  - intros k s Hs. assert (Hk : is_Some (steps wf !! k)) by by eexists. split_and!.
    + intros sp. unfold begin_step. cbn [fst].
      destruct (run_is_terminal _); by apply (run_of_put wf k).
    + intros w. by apply (run_of_put wf k).
    + intros s' out err. by apply (run_of_put wf k).
    + intros err. unfold route_failure. destruct (on_error s) as [| |t]; [done| |].
      * apply (run_of_put wf (id s)); [done|]. by rewrite (Hid k s Hs).
      * destruct (steps wf !! t) as [ts|] eqn:Et; [|done].
        apply (run_of_put wf t); [done|by exists ts].
  - intros s out err. unfold run_of, finish, touch, set_run_steps. cbn [run_steps set_outcome].
    by rewrite dom_fmap_L.
  - intros r' res H. by apply (run_of_schedule wf d now r r' res).
Qed.

(** C19: a failed step's [on_error: goto] is honoured. Unless the target is
    guarded, the next scheduling starts it whatever its dependencies came to,
    if its [when] holds. *)
Theorem goto_is_honoured {cel : Cel} wf d now s err t ts r r1 ids r2 next :
  guards_ok wf -> well_founded (dep_edge wf) ->
  (forall s d, s ∈ vals (steps wf) -> d ∈ depends_on s -> is_Some (steps wf !! d)) ->
  run_is_terminal (run_status r) = false ->
  on_error s = Goto t -> steps wf !! t = Some ts -> guard ts = None ->
  when_holds ts d = Ok true ->
  route_failure wf s err now r = (r1, Ok ids) ->
  schedule wf r1 d now = Some (r2, Ok next) -> exists l, next = Ready l /\ t ∈ l.
Proof.
  intros Hok Hwf Hdeps Hrun Hon Ht Hg Hw Hroute.
  unfold route_failure in Hroute. rewrite Hon, Ht in Hroute. injection Hroute as <- <-.
  apply (routed_is_started wf d now); [done|done| |].
  - apply topo_order_elem, acc_grounded; [done|apply Hwf|by exists ts].
  - exists ts. unfold status_of. rewrite step_state_touch, step_state_put, decide_True by done.
    cbn. by split_and!.
Qed.

(** ** Examples *)

(** [ask] decides whether [refund] runs; a failing [refund] is sent to [fix],
    which waits on a step that never ran. *)
Definition decision : Workflow := of_steps
  [plain "go" "once" [] [];
   mkStep "ask.when" "decide" ["go"] None None (Some "ask") None None Fail_ false RRetry None None
     None [] None [] None [];
   mkStep "ask" "noop" ["ask.when"] None (Some "ask.when") None None None (Goto "fix") false RRetry
     None None None [] None [] None [];
   plain "never" "wait" ["ask"] [];
   mkStep "fix" "noop" ["never"] (Some "CEL: ok") None None None None Fail_ false RRetry
     None None None [] None [] None [];
   plain "f" "finish" ["ask"; "fix"] []].

(** An evaluator for the examples: only [ok] holds. *)
Definition some_cel : Cel := fun e _ => Ok (bool_decide (e = "ok")).

Definition decision_run : RunState := run_new "r1" decision (mkStart "go" VNull 5) VNull 5.

(** The guard has said that the statement holds; the step failed. *)
Definition answered_run : RunState :=
  end_step "ask" Failed None (Some "boom") 9
    (end_step "ask.when" Done
       (Some (jobj [("holds", jobj [("noul", VNum (Float (f64_ratio 9 10)))])])) None 8 decision_run).

Lemma decision_guards : guards_ok decision.
Proof. apply guards_ok_check. vm_compute. reflexivity. Qed.

Lemma decision_accepted : validate_graph decision = [].
Proof. vm_compute. reflexivity. Qed.

Lemma decision_ids : ids_match decision.
Proof. apply (bool_decide_unpack _). vm_compute. exact I. Qed.

(** The ready step whose dependency the same call reopened.  [aside] depends on
    the guard of [ask]; the guard has answered, then [fail] failed and was sent
    to [ask]: one call starts [aside] and asks the guard again, and in the run it
    leaves [aside] cannot run, its dependency being open. *)
Definition shared_guard : Workflow := of_steps
  [plain "go" "once" [] [];
   mkStep "ask.when" "decide" ["go"] None None (Some "ask") None None Fail_ false RRetry None None
     None [] None [] None [];
   plain "aside" "noop" ["ask.when"] [];
   mkStep "ask" "noop" ["ask.when"] None (Some "ask.when") None None None Fail_ false RRetry
     None None None [] None [] None [];
   mkStep "fail" "noop" ["go"] None None None None None (Goto "ask") false RRetry
     None None None [] None [] None [];
   plain "f" "finish" ["ask"; "aside"; "fail"] []].
Definition fail_step : Step := default (plain "fail" "noop" [] []) (steps shared_guard !! "fail").
Definition rerouted_run : RunState :=
  (route_failure shared_guard fail_step "boom" 10
    (end_step "fail" Failed None (Some "boom") 9
      (end_step "ask.when" Done None None 8
        (run_new "r1" shared_guard (mkStart "go" VNull 5) VNull 5)))).1.

Lemma reopened_is_started :
  validate_graph shared_guard = [] /\ guards_ok shared_guard /\
  exists r', @schedule some_cel shared_guard rerouted_run ∅ 10 = Some (r', Ok (Ready ["aside"; "ask.when"])) /\
    ~ @runnable some_cel shared_guard ∅ r' "aside" /\ reopened shared_guard rerouted_run r' "aside".
Proof.
  split; [vm_compute; reflexivity|]. split; [apply guards_ok_check; vm_compute; reflexivity|].
  destruct (@schedule some_cel shared_guard rerouted_run ∅ 10) as [[r' res]|] eqn:E.
  2: { vm_compute in E. done. }
  exists r'. vm_compute in E. injection E as <- <-. split; [done|]. split.
  - intros Hr.
    apply (@judge_ready some_cel shared_guard ∅ _ "aside" (plain "aside" "noop" ["ask.when"] [])) in Hr;
      [vm_compute in Hr; done|vm_compute; reflexivity].
  - exists "ask". split_and!; [|vm_compute; reflexivity|vm_compute; reflexivity]. split; [done|].
    eexists _, _, "ask.when". split_and!; [vm_compute; reflexivity|done|vm_compute; reflexivity|by left].
Qed.

(** Two overwriters of a key below one arm of a switch: the definition is
    accepted, and once the arm is taken both are started together. *)
Definition same_arm : Workflow := of_steps
  [plain "go" "once" [] []; plain "sw" "switch" ["go"] [("default", VStr "x")];
   plain "x" "noop" ["sw"] []; plain "a" "assign" ["x"] [("writes", VStr "k")];
   plain "b" "assign" ["x"] [("writes", VStr "k")]; plain "f" "finish" ["a"; "b"] []].

Lemma same_arm_race :
  validate_graph same_arm = [] /\
  exists r', @schedule some_cel same_arm
    (end_step "x" Done None None 8 (end_step "sw" Done None None 7
      (run_new "r1" same_arm (mkStart "go" VNull 5) VNull 5))) ∅ 10 = Some (r', Ok (Ready ["a"; "b"])).
Proof. split; [vm_compute; reflexivity|]. eexists. vm_compute. reflexivity. Qed.

Lemma schedule_returns_witness :
  guards_plain decision /\ is_Some (@schedule some_cel decision answered_run ∅ 10).
Proof.
  assert (H : guards_plain decision) by apply guards_ok_plain, decision_guards.
  split; [exact H|]. exact (@schedule_returns some_cel decision ∅ 10 answered_run H).
Defined.

(** What scheduling the fresh run and the failed one give. *)
Definition after_schedule (r : RunState) : RunState :=
  match @schedule some_cel decision r ∅ 10 with Some (r', _) => r' | None => r end.

Lemma schedule_meaning_witness :
  guards_ok decision /\ ["ask.when"] <> [] /\ NoDup ["ask.when"] /\
  (forall x, x ∈ topo_order decision /\ @runnable some_cel decision ∅ (after_schedule decision_run) x ->
    x ∈ ["ask.when"]) /\
  (forall x, x ∈ ["ask.when"] ->
    (x ∈ topo_order decision /\ @runnable some_cel decision ∅ (after_schedule decision_run) x) \/
    x ∈ topo_order decision /\ reopened decision decision_run (after_schedule decision_run) x).
Proof.
  split; [exact decision_guards|].
  refine (@schedule_meaning some_cel decision ∅ 10 decision_run (after_schedule decision_run)
            (Ready ["ask.when"]) decision_guards eq_refl _).
  vm_compute. reflexivity.
Defined.

Lemma schedule_keeps_witness :
  status_of "ask" answered_run = Failed /\
  step_state "ask" (after_schedule answered_run) = step_state "ask" answered_run.
Proof.
  split; [vm_compute; reflexivity|].
  assert (Hn : not_a_guard decision "ask").
  { assert (H : map_Forall (fun _ s => guard s <> Some "ask") (steps decision)) by
      (apply (bool_decide_unpack _); vm_compute; exact I).
    intros k s Hs. exact (H k s Hs). }
  refine (proj1 (proj2 (@schedule_keeps some_cel decision ∅ 10 answered_run
    (after_schedule answered_run) (Ok Stalled) "ask" (guards_ok_plain _ decision_guards) _) Hn) _).
  - vm_compute. reflexivity.
  - vm_compute. reflexivity.
Defined.

Lemma run_is_typed_witness :
  guards_ok decision /\ run_of decision (run_new "r1" decision (mkStart "go" VNull 5) VNull 5).
Proof.
  split; [exact decision_guards|].
  exact (proj1 (@run_is_typed some_cel decision ∅ 5 "r1" (mkStart "go" VNull 5) VNull
    decision_ids decision_guards)).
Defined.

Lemma decision_deps :
  forall s d, s ∈ vals (steps decision) -> d ∈ depends_on s -> is_Some (steps decision !! d).
Proof.
  assert (H : Forall (fun s => Forall (fun d => is_Some (steps decision !! d)) (depends_on s))
    (vals (steps decision))) by (apply (bool_decide_unpack _); vm_compute; exact I).
  intros s d Hs Hd. rewrite Forall_forall in H. specialize (H s Hs). rewrite Forall_forall in H.
  by apply H.
Qed.

Lemma decision_acyclic : well_founded (dep_edge decision).
Proof. apply (topo_acyclic decision decision_deps). vm_compute. reflexivity. Qed.

(** The failed step's own record, and the run after its policy. *)
Definition ask_step : Step := default (plain "ask" "noop" [] []) (steps decision !! "ask").
Definition fix_step : Step := default (plain "fix" "noop" [] []) (steps decision !! "fix").
Definition routed_run : RunState := (route_failure decision ask_step "boom" 10 answered_run).1.

Lemma goto_is_honoured_witness :
  has_status (fun s => bool_decide (s = Pending)) routed_run "never" = true /\
  exists l, Ready ["fix"] = Ready l /\ "fix" ∈ l.
Proof.
  split; [vm_compute; reflexivity|].
  refine (@goto_is_honoured some_cel decision ∅ 10 ask_step "boom" "fix" fix_step answered_run
    routed_run ["fix"] (after_schedule routed_run) (Ready ["fix"])
    decision_guards decision_acyclic decision_deps _ _ _ _ _ _ _).
  all: vm_compute; reflexivity.
Defined.
