(* ===== verification/Principals.v ===== *)
(** * Principals and what they may do

    [a2a/principals/typed.rs] (the authenticated tuple and its keys),
    [a2a/principals/mod.rs] (the authorization matrix),
    [a2a/principals/addressee.rs] (who must answer a gate) and the table of
    command ops they read ([runtime/surface/ops.rs], [ext.rs]).  The ops'
    descriptions and JSON schemas are documentation and are left out. *)

From S2P Require Export Workflow.
Open Scope Z_scope.

(** ** Roles and floors *)

Inductive Role : Type := Operator | User | Agent | Anonymous.
#[export] Instance role_eq_dec : EqDecision Role.
Proof. solve_decision. Defined.

(** The serde name of a role. *)
Definition role_str (r : Role) : string :=
  match r with
  | Operator => "operator"
  | User => "user"
  | Agent => "agent"
  | Anonymous => "anonymous"
  end.

Inductive Floor : Type := FOperator | AnyNamed | Granted.
#[export] Instance floor_eq_dec : EqDecision Floor.
Proof. solve_decision. Defined.

Inductive Reply : Type := Message | Task_.
Inductive Scope : Type := ScInstance | ScCaller | ScOwner | ScWorkflow.
Inductive Gate : Type :=
  GAlways | GIntrospection | GDeviceGrant | GListener | GCompanies | GAllowances | GDelegation.
Inductive Handler : Type :=
  HRead | HWorkflow | HSubagent | HAdmin | HIntrospection | HAuth | HInstance | HCompany
  | HDelegation | HReserved.
#[export] Instance handler_eq_dec : EqDecision Handler.
Proof. solve_decision. Defined.

(** ** The command ops *)

Record OpSpec := mkOp {
  op_name : string;
  op_reply : Reply;
  op_floor : Floor;
  op_defaults : list Role;
  op_scope : Scope;
  op_gate : Gate;
  op_handler : Handler;
}.

Definition op : string -> Reply -> Floor -> list Role -> Scope -> Gate -> Handler -> OpSpec := mkOp.
Definition USER : list Role := [User].
Definition USER_AGENT : list Role := [User; Agent].

Definition OPS_WORK : list OpSpec :=
  [op "status" Message AnyNamed [] ScCaller GAlways HRead;
   op "config" Message FOperator [] ScInstance GAlways HRead;
   op "workflow.run" Task_ Granted USER_AGENT ScWorkflow GAlways HWorkflow;
   op "workflow.status" Message Granted USER_AGENT ScOwner GAlways HWorkflow;
   op "workflow.cancel" Task_ Granted USER ScOwner GAlways HWorkflow;
   op "workflow.signal" Task_ Granted [] ScOwner GAlways HWorkflow;
   op "subagent.send" Task_ Granted USER ScOwner GAlways HSubagent;
   op "subagent.kill" Task_ Granted [] ScOwner GAlways HSubagent;
   op "subagent.status" Message Granted USER ScOwner GAlways HSubagent;
   op "subagent.log" Message FOperator [] ScInstance GAlways HSubagent;
   op "plan.get" Message Granted USER ScOwner GAlways HRead;
   op "conversation.get" Message Granted USER ScOwner GIntrospection HIntrospection;
   op "run.get" Message Granted USER ScOwner GIntrospection HIntrospection;
   op "subagent.get" Message Granted USER ScOwner GIntrospection HIntrospection].

Definition OPS_ADMIN : list OpSpec :=
  [op "debug.events" Message FOperator [] ScInstance GIntrospection HIntrospection;
   op "admin.drain" Task_ FOperator [] ScInstance GAlways HAdmin;
   op "admin.pause" Task_ FOperator [] ScInstance GAlways HAdmin;
   op "admin.resume" Task_ FOperator [] ScInstance GAlways HAdmin;
   op "admin.cancel" Task_ FOperator [] ScInstance GAlways HAdmin;
   op "admin.set" Task_ FOperator [] ScInstance GAlways HAdmin;
   op "auth.device.pending" Message FOperator [] ScInstance GDeviceGrant HAuth;
   op "auth.device.approve" Task_ FOperator [] ScInstance GDeviceGrant HAuth;
   op "auth.device.deny" Task_ FOperator [] ScInstance GDeviceGrant HAuth;
   op "auth.sessions" Message FOperator [] ScInstance GListener HAuth;
   op "auth.sessions.revoke" Task_ FOperator [] ScInstance GListener HAuth].

Definition OPS_PEOPLE : list OpSpec :=
  [op "payment.allowances" Message FOperator [] ScInstance GAllowances HRead;
   op "company.status" Message FOperator [] ScInstance GCompanies HCompany;
   op "company.user_id.reset" Task_ FOperator [] ScInstance GCompanies HCompany;
   op "company.sign_in" Task_ FOperator [] ScInstance GCompanies HCompany;
   op "company.sign_out" Task_ FOperator [] ScInstance GCompanies HCompany;
   op "delegation.enrol" Task_ AnyNamed [] ScInstance GDelegation HDelegation;
   op "delegation.list" Message AnyNamed [] ScInstance GDelegation HDelegation;
   op "delegation.approve" Task_ AnyNamed [] ScInstance GDelegation HDelegation;
   op "delegation.deny" Task_ AnyNamed [] ScInstance GDelegation HDelegation;
   op "delegation.revoke" Task_ AnyNamed [] ScInstance GDelegation HDelegation;
   op "delegation.forget" Task_ FOperator [] ScInstance GDelegation HDelegation;
   op "delegation.audit" Task_ FOperator [] ScInstance GDelegation HDelegation;
   op "_instance." Task_ FOperator [] ScInstance GAlways HInstance;
   op "ask_human" Task_ FOperator [] ScInstance GAlways HReserved].

Definition OPS : list OpSpec := OPS_WORK ++ OPS_ADMIN ++ OPS_PEOPLE.
Definition INSTANCE_OPS : list string := ["_instance.result"; "_instance.emit"].

(** [str::ends_with]. *)
Definition ends_with (suf s : string) : bool :=
  bool_decide (drop (length (chars s) - length (chars suf)) (chars s) = chars suf)
  && (length (chars suf) <=? length (chars s))%nat.

Definition is_prefix (s : OpSpec) : bool := ends_with "." (op_name s).
Definition op_matches (s : OpSpec) (o : string) : bool :=
  if is_prefix s then starts_with (op_name s) o else bool_decide (o = op_name s).

(** Exact names before prefixes. *)
Definition op_spec (o : string) : option OpSpec :=
  match List.find (fun s => negb (is_prefix s) && op_matches s o) OPS with
  | Some s => Some s
  | None => List.find (fun s => is_prefix s && op_matches s o) OPS
  end.
Definition is_builtin_op (o : string) : bool := bool_decide (is_Some (op_spec o)).
Definition is_operator_floor (o : string) : bool :=
  match op_spec o with Some s => bool_decide (op_floor s = FOperator) | None => false end.
Definition is_read_op (o : string) : bool :=
  match op_spec o with Some s => match op_reply s with Message => true | _ => false end | None => false end.
Definition listable : list OpSpec :=
  List.filter (fun s => negb (is_prefix s) && negb (bool_decide (op_handler s = HReserved))) OPS.
Definition static_vocabulary : list string := op_name <$> listable.

Definition approval_name_ok (name : string) : bool :=
  let first c := ((97 <=? code c) && (code c <=? 122)) || is_digit c in
  match chars name with
  | [] => false
  | c :: cs =>
      (Z.of_nat (length (c :: cs)) <=? 64) && first c
      && forallb (fun c => first c || mem (text [c]) ["."; "_"; "-"]) cs
  end.

Definition EVENTS_METHOD : string := "agentd.events/SubscribeToEvents".
Definition EXTENSION_METHODS : list (string * Floor) := [(EVENTS_METHOD, AnyNamed)].
Definition extension_floor (method : string) : option Floor :=
  snd <$> List.find (fun p => bool_decide (p.1 = method)) EXTENSION_METHODS.

(** ** The authenticated tuple *)

Inductive Source : Type :=
  Oidc | X509 | Bearer | Device | Aauth | SOperator | Autonomous | SInstance.
#[export] Instance source_eq_dec : EqDecision Source.
Proof. solve_decision. Defined.

Definition source_as_str (s : Source) : string :=
  match s with
  | Oidc => "oidc"
  | X509 => "x509"
  | Bearer => "bearer"
  | Device => "device"
  | Aauth => "aauth"
  | SOperator => "operator"
  | Autonomous => "autonomous"
  | SInstance => "instance"
  end.

Definition AGENTD : string := "agentd".

Record PrincipalRef := mkRef {
  source : Source;
  issuer : string;
  tenant : option string;
  stable_id : string;
  client : option string;
}.
#[export] Instance principal_ref_eq_dec : EqDecision PrincipalRef.
Proof. solve_decision. Defined.

Definition local (s : Source) (sid : string) : PrincipalRef := mkRef s AGENTD None sid None.
Definition bare_operator : PrincipalRef := local SOperator nil_str.
Definition is_bare_operator (p : PrincipalRef) : bool :=
  bool_decide (source p = SOperator) && bool_decide (stable_id p = nil_str).

(** The preimage of a grant's key: each field behind its length, four bytes
    big-endian. *)
Definition be32 (n : Z) : list char :=
  let n := u32_wrap n in
  [Ascii.ascii_of_N (Z.to_N (n / 2 ^ 24)); Ascii.ascii_of_N (Z.to_N (n / 2 ^ 16 mod 256));
   Ascii.ascii_of_N (Z.to_N (n / 2 ^ 8 mod 256)); Ascii.ascii_of_N (Z.to_N (n mod 256))].
Definition enc (s : string) : list char := be32 (Z.of_nat (length (chars s))) ++ chars s.
Definition grant_parts (p : PrincipalRef) (idp_iss : string) : list string :=
  ["grant"; source_as_str (source p); issuer p; default nil_str (tenant p); stable_id p; idp_iss].
Definition grant_preimage (p : PrincipalRef) (idp_iss : string) : list char :=
  mjoin (enc <$> grant_parts p idp_iss).

(** [sha::sha256_hex]. *)
Class Sha := sha256_hex : list char -> string.
Definition grant_id {sha : Sha} (p : PrincipalRef) (idp_iss : string) : string :=
  sha256_hex (grant_preimage p idp_iss).

(** [t.replace('%', "%25").replace('/', "%2F")]. *)
Definition replace_char (c : char) (by_ : string) (s : string) : string :=
  text (mjoin ((fun a => if decide (a = c) then chars by_ else [a]) <$> chars s)).
Definition escape_tenant (t : string) : string :=
  replace_char "/" "%2F" (replace_char "%" "%25" t).

Definition display_untenanted (p : PrincipalRef) : string :=
  match source p with
  | Oidc => "user:oidc:" +:+ issuer p +:+ "#" +:+ stable_id p
  | X509 => "x509:" +:+ stable_id p
  | Bearer | Device => "user:" +:+ stable_id p
  | Aauth => "aauth:" +:+ stable_id p
  | SOperator => if decide (stable_id p = nil_str) then "operator" else "operator:" +:+ stable_id p
  | Autonomous => stable_id p
  | SInstance => "instance:" +:+ stable_id p
  end.
Definition display (p : PrincipalRef) : string :=
  match source p, tenant p with
  | Oidc, Some t =>
      "user:oidc:" +:+ issuer p +:+ "#" +:+ escape_tenant t +:+ "/" +:+ stable_id p
  | _, _ => display_untenanted p
  end.

(** ** Principals *)

Record Principal := mkPrincipal {
  p_id : string;
  role : Role;
  grants : list string;
  rate : option string;
  p_budget : option Value;
  labels : gmap string string;
  session : option string;
  typed : option PrincipalRef;
}.

Definition anonymous : Principal := mkPrincipal "anonymous" Anonymous [] None None ∅ None None.
Definition instance_principal (handle : string) : Principal :=
  mkPrincipal ("instance:" +:+ handle) Agent [] None None ∅ None (Some (local SInstance handle)).

Definition instance_handle (p : Principal) : option string :=
  t ← typed p; if decide (source t = SInstance) then Some (stable_id t) else None.
Definition is_instance (p : Principal) : bool := bool_decide (is_Some (instance_handle p)).
Definition is_operator (p : Principal) : bool := bool_decide (role p = Operator).
Definition is_anonymous (p : Principal) : bool := bool_decide (role p = Anonymous).

(** [registry::pattern_matches]: an exact name, or a prefix before a star. *)
Fixpoint strip_star (l : list char) : option (list char) :=
  match l with
  | [] => None
  | [c] => if decide (c = "*"%char) then Some [] else None
  | c :: l' => cons c <$> strip_star l'
  end.
Definition pattern_matches (pattern name : string) : bool :=
  let p := trim (chars pattern) in
  bool_decide (p = ["*"%char]) || bool_decide (p = chars name)
  || match strip_star p with Some prefix => starts_with (text prefix) name | None => false end.

(** [glob]: one star anywhere. *)
Definition glob (pattern s : string) : bool :=
  if decide (pattern = "*") then true
  else match cut "*" (chars pattern) with
       | Some (pre, post) =>
           starts_with (text pre) s && ends_with (text post) s
           && (length pre + length post <=? length (chars s))%nat
       | None => bool_decide (pattern = s)
       end.

Definition granted (p : Principal) (o : string) : bool :=
  existsb (fun g => pattern_matches g o) (grants p).
Definition scoped_run_grants (p : Principal) : list string :=
  List.filter (starts_with "workflow.run:") (grants p).

Definition may_command (p : Principal) (o : string) : bool :=
  if is_anonymous p then false
  else if is_instance p then mem o INSTANCE_OPS
  else match op_spec o with
  | None => is_operator p || granted p o
  | Some spec =>
      match op_floor spec with
      | FOperator => is_operator p
      | AnyNamed => true
      | Granted =>
          is_operator p || bool_decide (role p ∈ op_defaults spec) || granted p o
          || (bool_decide (o = "workflow.run") && negb (bool_decide (scoped_run_grants p = [])))
      end
  end.

Definition may_extension_method (p : Principal) (f : Floor) (o : option string) : bool :=
  if is_anonymous p || bool_decide (is_Some o) then false
  else match f with
  | FOperator => is_operator p
  | AnyNamed => true
  | Granted => is_operator p
  end.

Definition task_methods : list string :=
  ["SendMessage"; "SendStreamingMessage"; "GetTask"; "CancelTask"; "ListTasks"; "SubscribeToTask";
   "CreateTaskPushNotificationConfig"; "GetTaskPushNotificationConfig";
   "ListTaskPushNotificationConfigs"; "DeleteTaskPushNotificationConfig"; "GetExtendedAgentCard"].

Definition may (p : Principal) (method : string) (o : option string) : bool :=
  let op_ok := match o with None => true | Some o => may_command p o end in
  if is_instance p then bool_decide (method = "SendMessage") && op_ok
  else match role p with
  | Anonymous => false
  | Operator => true
  | _ =>
      match extension_floor method with
      | Some f => may_extension_method p f o
      | None => mem method task_methods && op_ok
      end
  end.

Definition may_run_workflow (p : Principal) (name : string) : bool :=
  if is_anonymous p then false
  else if is_operator p then true
  else match scoped_run_grants p with
  | [] => may_command p "workflow.run"
  | l => existsb (fun g => pattern_matches g ("workflow.run:" +:+ name)) l
  end.

Inductive Refusal : Type :=
  | NotGranted (op id : string)
  | WorkflowNotGranted (workflow id : string).

Definition workflow_name_of (data : Value) : option string := get "workflow" data ≫= as_str.
Definition authorize_command (p : Principal) (o : string) (data : Value) : result Refusal unit :=
  if negb (may_command p o) then Err (NotGranted o (p_id p))
  else match workflow_name_of data with
  | Some name =>
      if bool_decide (o = "workflow.run") && negb (may_run_workflow p name)
      then Err (WorkflowNotGranted name (p_id p)) else Ok tt
  | None => Ok tt
  end.

(** [Runtime::may_run]. *)
Definition may_run (p : Principal) (wf : Workflow) : bool :=
  may_run_workflow p (wf_name wf) && default_start_admits wf (role_str (role p)).

Definition scope_key_for (id : string) : string := "principal:" +:+ id.

(** ** Addressees *)

Record Addressee := mkAddressee {
  a_id : option string;
  a_role : option Role;
  a_labels : gmap string string;
}.

Inductive AddresseeError : Type :=
  | EmptyTo
  | UnknownToField (k : string)
  | ToAnonymous
  | UnknownToRole (r : string)
  | LabelsNotObject
  | LabelNotString (k : string)
  | NamesNobody
  | NotATo
  | NeverSees.

Definition addressee_is_empty (a : Addressee) : bool :=
  bool_decide (a_id a = None) && bool_decide (a_role a = None) && bool_decide (a_labels a = ∅).

Definition parse_role (v : option string) : result AddresseeError (option Role) :=
  match v with
  | None => Ok None
  | Some s =>
      if decide (s = "operator") then Ok (Some Operator)
      else if decide (s = "user") then Ok (Some User)
      else if decide (s = "agent") then Ok (Some Agent)
      else if decide (s = "anonymous") then Err ToAnonymous
      else Err (UnknownToRole s)
  end.

Fixpoint parse_labels (l : list (string * Value)) (m : gmap string string) :
    result AddresseeError (gmap string string) :=
  match l with
  | [] => Ok m
  | (k, v) :: l' =>
      match as_str v with
      | Some s => parse_labels l' (<[k := s]> m)
      | None => Err (LabelNotString k)
      end
  end.

Definition addressee_parse (v : Value) : result AddresseeError Addressee :=
  match v with
  | VStr s =>
      match trim (chars s) with
      | [] => Err EmptyTo
      | t => Ok (mkAddressee (Some (text t)) None ∅)
      end
  | VObj o =>
      match List.find (fun p => negb (mem p.1 ["id"; "role"; "labels"])) o with
      | Some (k, _) => Err (UnknownToField k)
      | None =>
          r ← parse_role (obj_get "role" o ≫= as_str);
          ls ← match obj_get "labels" o with
               | None => Ok ∅
               | Some m =>
                   match as_object m with
                   | Some m => parse_labels m ∅
                   | None => Err LabelsNotObject
                   end
               end;
          let id := s ← obj_get "id" o ≫= as_str;
                    match trim (chars s) with [] => None | t => Some (text t) end in
          let a := mkAddressee id r ls in
          if addressee_is_empty a then Err NamesNobody else Ok a
      end
  | _ => Err NotATo
  end.

Definition addressee_to_json (a : Addressee) : Value :=
  jobj (opt_field "id" (a_id a)
    ++ opt_field "role" (role_str <$> a_role a)
    ++ field_unless "labels" (bool_decide (a_labels a = ∅)) (a_labels a)).

Definition check_gate (a : Addressee) : result AddresseeError unit :=
  let operator_only :=
    match a_role a, a_id a with
    | Some Operator, None => true
    | Some Operator, Some pat => glob pat "operator"
    | Some _, _ => false
    | None, Some pat => negb (starts_with "*" pat) && glob pat "operator"
    | None, None => false
    end in
  if operator_only then Ok tt else Err NeverSees.

Definition addressee_matches (a : Addressee) (p : Principal) : bool :=
  match a_id a with Some pat => glob pat (p_id p) | None => true end
  && match a_role a with Some r => bool_decide (role p = r) | None => true end
  && forallb (fun kv => bool_decide (labels p !! kv.1 = Some kv.2)) (entries (a_labels a)).
