(* ===== verification/Resolver.v ===== *)
(** * Resolving a caller ([a2a/principals/resolve.rs], [runtime/surface/auth.rs])

    The listener's posture from its settings, the compiled rules, and the
    fixed order in which a request's evidence names a principal.  Resolving
    a secret reference (it reads the environment and files), telling a
    loopback address, and checking a session token are arguments. *)

From S2P Require Export Principals.
Open Scope Z_scope.

(** ** Settings *)

Record PrincipalMatch := mkMatch {
  san : option string;
  sub : option string;
  bearer_ref : option string;
  any : bool;
  uid : option Z;
  spki : option string;
  token_iss : option string;
}.

Record Quotas := mkQuotas { q_rate : option string; q_budget : option Value }.

(** [a2a.principals[]]. *)
Record PrincipalRule := mkRule {
  rule_id : option string;
  matcher : PrincipalMatch;
  rule_role : Role;
  rule_grants : list string;
  quotas : option Quotas;
  rule_labels : gmap string string;
}.

(** What of [a2a] the resolver and the posture read. *)
Record A2a := mkA2a {
  listen : option string;
  bearer : option string;
  principals : list PrincipalRule;
  client_ca : bool;
  device_grant : bool;
  login : bool;
  inbound_tokens : bool;
}.

(** ** The posture *)

Record ListenerAuth := mkAuth {
  la_bearer : bool;
  la_mtls : bool;
  la_device : bool;
  la_login : bool;
  la_tokens : bool;
  la_unix : bool;
  la_loopback_bind : bool;
  la_implicit_operator : bool;
  la_any_rule : bool;
  la_required : bool;
}.

Definition declares_any (l : ListenerAuth) : bool :=
  negb (la_unix l) && (la_bearer l || la_mtls l || la_device l || la_login l || la_tokens l).
Definition issues_sessions (l : ListenerAuth) : bool := la_device l || la_login l.

Definition unix_socket_path (s : string) : option string :=
  match strip_prefix "unix://" s with Some p => Some p | None => strip_prefix "unix:" s end.

(** The text before the last colon, [rsplit_once(':')]. *)
Definition before_last_colon (l : list char) : option (list char) :=
  match cut ":" (rev l) with Some (_, r) => Some (rev r) | None => None end.
Definition serve_host_of (authority : string) : string :=
  match strip_prefix "[" authority with
  | Some rest => match split_char "]" (chars rest) with h :: _ => text h | [] => rest end
  | None => match before_last_colon (chars authority) with Some h => text h | None => authority end
  end.

(** Whether a written host is the loopback: [localhost] or an address of it. *)
Class Loopback := is_loopback_host : string -> bool.

Inductive Listen : Type := ListenTcp (https : bool) (host : string) | ListenUnix.
Definition listen_of (l : string) : Listen :=
  match unix_socket_path l with
  | Some _ => ListenUnix
  | None =>
      let '(https, rest) :=
        match strip_prefix "https://" l with
        | Some rest => (true, rest)
        | None => (false, default l (strip_prefix "http://" l))
        end in
      let authority := match split_char "/" (chars rest) with a :: _ => text a | [] => rest end in
      ListenTcp https (serve_host_of authority)
  end.

Definition is_some {A} (o : option A) : bool := match o with Some _ => true | None => false end.

Definition listener_auth_of `{Loopback} (a : A2a) : ListenerAuth :=
  let l := listen_of <$> listen a in
  let unix := match l with Some ListenUnix => true | _ => false end in
  let '(https, loopback_bind) :=
    match l with
    | Some (ListenTcp https host) => (https, is_loopback_host host)
    | _ => (false, false)
    end in
  let bearer_ := is_some (bearer a) || existsb (fun p => is_some (bearer_ref (matcher p))) (principals a) in
  let mtls := https && client_ca a in
  let device := device_grant a in
  let login_ := login a && negb unix in
  let tokens := inbound_tokens a && negb unix in
  let implicit_operator :=
    unix
    || (loopback_bind && negb (is_some (bearer a)) && bool_decide (length (principals a) = 0%nat)
        && negb (client_ca a) && negb device && negb login_ && negb tokens) in
  let any_rule :=
    match List.find (fun p => any (matcher p)) (principals a) with
    | Some p => negb (bool_decide (rule_role p = Anonymous))
    | None => false
    end in
  mkAuth bearer_ mtls device login_ tokens unix loopback_bind implicit_operator any_rule
    (negb (implicit_operator || any_rule)).

(** ** Evidence *)

Record CertId := mkCert {
  subject : option string;
  sans : list string;
  spki_sha256 : option string;
}.

Record TokenId := mkToken {
  t_issuer : string;
  t_subject : string;
  t_client : string;
  t_user : bool;
  t_principal : string;
  t_typed : PrincipalRef;
  t_sid : string;
}.

Record Evidence := mkEvidence {
  e_bearer : option string;
  e_cert : option CertId;
  e_local : bool;
  e_origin : bool;
  e_uid : option Z;
  e_instance : option string;
  e_token : option (result string TokenId);
}.

Inductive Via : Type :=
  ViaBearer | ViaSession | ViaCert | ViaAnyRule | ViaUnix | ViaImplicit | ViaInstance | ViaToken.

Inductive Resolution : Type :=
  | Named (p : Principal) (v : Via)
  | Unauthenticated (presented : bool)
  | NoRole.

Inductive SessionCheck : Type := Valid (p : Principal) | Invalid.

Definition SESSION_TOKEN_PREFIX : string := "agentd_at_".

(** ** Rules *)

Record Compiled := mkCompiled {
  c_id : option string;
  c_matcher : PrincipalMatch;
  c_role : Role;
  c_grants : list string;
  c_rate : option string;
  c_budget : option Value;
  c_labels : gmap string string;
  bearer_secret : option string;
}.

Record Resolver := mkResolver {
  rules : list Compiled;
  server_bearer : option string;
  posture : ListenerAuth;
}.

Inductive BuildError : Type :=
  | ServerBearerUnresolved (e : string)
  | ServerBearerPrefixed
  | BearerRefUnresolved (e : string)
  | BearerRefPrefixed (i : nat)
  | BearerRefIsServers (i : nat)
  | BearerRefTwice (i : nat).

Section build.
Context `{Loopback} (resolve_secret : string -> result string string).

Definition compile_secret (server : option string) (done : list Compiled) (i : nat)
    (r : option string) : result BuildError (option string) :=
  match r with
  | None => Ok None
  | Some r =>
      s ← map_err BearerRefUnresolved (resolve_secret r);
      if starts_with SESSION_TOKEN_PREFIX s then Err (BearerRefPrefixed i)
      else if decide (server = Some s) then Err (BearerRefIsServers i)
      else if existsb (fun c => bool_decide (bearer_secret c = Some s)) done
      then Err (BearerRefTwice i)
      else Ok (Some s)
  end.

Definition compile_rule (p : PrincipalRule) (secret : option string) : Compiled :=
  mkCompiled (rule_id p) (matcher p) (rule_role p) (rule_grants p) (quotas p ≫= q_rate)
    (quotas p ≫= q_budget) (rule_labels p) secret.

Fixpoint compile_rules (server : option string) (done : list Compiled) (i : nat)
    (l : list PrincipalRule) : result BuildError (list Compiled) :=
  match l with
  | [] => Ok done
  | p :: l' =>
      s ← compile_secret server done i (bearer_ref (matcher p));
      compile_rules server (done ++ [compile_rule p s]) (S i) l'
  end.

Definition build (a : A2a) : result BuildError Resolver :=
  server ← match bearer a with
           | None => Ok None
           | Some b =>
               s ← map_err ServerBearerUnresolved (resolve_secret b);
               if starts_with SESSION_TOKEN_PREFIX s then Err ServerBearerPrefixed else Ok (Some s)
           end;
  rs ← compile_rules server [] 0 (principals a);
  Ok (mkResolver rs server (listener_auth_of a)).
End build.

(** The bare operator. *)
Definition operator : Principal :=
  mkPrincipal "operator" Operator ["*"] None None ∅ None (Some bare_operator).

Definition principal_id (r : Role) (declared : option string) (cert : option CertId) :
    option string :=
  match r with
  | Operator => Some "operator"
  | Anonymous => Some "anonymous"
  | _ =>
      let role_name := role_str r in
      name ← match declared, cert with
             | Some d, _ => Some d
             | None, Some c =>
                 match subject c, head (sans c) with
                 | Some cn, _ => Some ("cn=" +:+ cn)
                 | None, Some s => Some ("san=" +:+ s)
                 | None, None => None
                 end
             | None, None => None
             end;
      Some (role_name +:+ ":" +:+ name)
  end.

Definition cert_fields_match (m : PrincipalMatch) (c : CertId) : bool :=
  negb (match spki m with Some k => negb (bool_decide (spki_sha256 c = Some k)) | None => false end)
  && match san m with
     | Some g => existsb (glob g) (sans c) || match subject c with Some s => glob g s | None => false end
     | None => true
     end
  && match sub m with
     | Some g => match subject c with Some s => glob g s | None => false end
     | None => true
     end.

Definition matches_cert (m : PrincipalMatch) (c : CertId) : bool :=
  if is_some (token_iss m) then false
  else if any m then true
  else if negb (is_some (san m)) && negb (is_some (sub m)) && negb (is_some (spki m)) then false
  else cert_fields_match m c.

Definition rule_principal (c : Compiled) (cert : option CertId) : option Principal :=
  id ← match spki (c_matcher c), c_role c, c_id c with
       | Some _, Operator, Some declared => Some ("operator:" +:+ declared)
       | _, _, _ => principal_id (c_role c) (c_id c) cert
       end;
  let by_rule := local Bearer (default id (c_id c)) in
  let t := match cert with
           | Some ct =>
               if negb (is_some (bearer_secret c)) && negb (any (c_matcher c))
               then local X509 (default id (spki_sha256 ct)) else by_rule
           | None => by_rule
           end in
  Some (mkPrincipal id (c_role c) (c_grants c) (c_rate c) (c_budget c) (c_labels c) None (Some t)).

(** [ct_eq]: equal lengths, and no byte that differs. *)
Definition ct_eq (a b : list char) : bool :=
  bool_decide (length a = length b)
  && (foldr Z.lor 0 (zip_with (fun x y => Z.lxor (code x) (code y)) a b) =? 0).

(** ** Resolution *)

Definition token_principal (rs : list Compiled) (t : TokenId) : Resolution :=
  let mine := List.filter (fun c => bool_decide (token_iss (c_matcher c) = Some (t_issuer t))) rs in
  let fits r := if t_user t then bool_decide (r = User) else bool_decide (r = Agent) in
  let as_ r gr rt bu la :=
    Named (mkPrincipal (t_principal t) r gr rt bu la (Some (t_sid t)) (Some (t_typed t))) ViaToken in
  match List.find (fun c =>
      match sub (c_matcher c) with Some g => glob g (t_subject t) | None => true end
      && fits (c_role c)) mine with
  | Some c => as_ (c_role c) (c_grants c) (c_rate c) (c_budget c) (c_labels c)
  | None =>
      match mine with
      | [] => as_ (if t_user t then User else Agent) [] None None ∅
      | _ => NoRole
      end
  end.

(** A named principal, unless nobody was named or the rule makes it anonymous. *)
Definition named_or (o : option Principal) (v : Via) (otherwise : Resolution) : Resolution :=
  match o with
  | Some p => if decide (role p = Anonymous) then otherwise else Named p v
  | None => otherwise
  end.

Definition resolve_unix (r : Resolver) (ev : Evidence) : Resolution :=
  match List.find (fun c => is_some (uid (c_matcher c)) && bool_decide (uid (c_matcher c) = e_uid ev))
          (rules r) with
  | Some c =>
      match c_id c with
      | Some id =>
          Named (mkPrincipal ("operator:" +:+ id) Operator ["*"] None None (c_labels c) None
                   (Some (local SOperator id))) ViaUnix
      | None => Named operator ViaUnix
      end
  | None => Named operator ViaUnix
  end.

(** A bearer on a listener that can check one. *)
Definition check_bearer (r : Resolver) (ev : Evidence) (token : string) : Resolution :=
  if match server_bearer r with Some s => ct_eq (chars s) (chars token) | None => false end
  then Named operator ViaBearer
  else match List.find (fun c =>
      match bearer_secret c with Some s => ct_eq (chars s) (chars token) | None => false end)
      (rules r) with
  | Some c =>
      let m := c_matcher c in
      let cert_ok :=
        (negb (is_some (san m)) && negb (is_some (sub m)))
        || match e_cert ev with Some cert => cert_fields_match m cert | None => false end in
      if cert_ok then named_or (rule_principal c (e_cert ev)) ViaBearer (Unauthenticated true)
      else Unauthenticated true
  | None =>
      match e_token ev with
      | Some (Ok t) => token_principal (rules r) t
      | _ => Unauthenticated true
      end
  end.

(** The first rule that matches the certificate and names somebody. *)
Fixpoint cert_rule (l : list Compiled) (cert : CertId) : option Principal :=
  match l with
  | [] => None
  | c :: l' =>
      match (if matches_cert (c_matcher c) cert then rule_principal c (Some cert) else None) with
      | Some p => Some p
      | None => cert_rule l' cert
      end
  end.

Definition check_cert (r : Resolver) (cert : CertId) : Resolution :=
  match rules r with
  | [] => Named operator ViaCert
  | l => named_or (cert_rule l cert) ViaCert NoRole
  end.

Definition check_rest (r : Resolver) (ev : Evidence) : Resolution :=
  match List.find (fun c => any (c_matcher c)) (rules r) with
  | Some c => named_or (rule_principal c None) ViaAnyRule (Unauthenticated false)
  | None =>
      if e_local ev && la_implicit_operator (posture r) && negb (e_origin ev)
      then Named operator ViaImplicit
      else Unauthenticated false
  end.

Definition resolve (r : Resolver) (ev : Evidence) (unix : bool)
    (sessions : option (string -> SessionCheck)) : Resolution :=
  match e_instance ev with
  | Some h => Named (instance_principal h) ViaInstance
  | None =>
  if unix then resolve_unix r ev
  else
    let rest := match e_cert ev with Some cert => check_cert r cert | None => check_rest r ev end in
    match e_bearer ev with
    | Some token =>
        if starts_with SESSION_TOKEN_PREFIX token then
          match sessions with
          | Some verify =>
              match verify token with
              | Valid p => Named p ViaSession
              | Invalid => Unauthenticated true
              end
          | None => Unauthenticated true
          end
        else if la_bearer (posture r) || issues_sessions (posture r) || la_tokens (posture r)
        then check_bearer r ev token
        else rest
    | None => rest
    end
  end.

(** The principals the rules name before anybody presents anything. *)
Definition declare (m : gmap string Principal) (p : PrincipalRule) : gmap string Principal :=
  match principal_id (rule_role p) (rule_id p) None with
  | None => m
  | Some id =>
      if bool_decide (rule_role p = Operator) || bool_decide (rule_role p = Anonymous)
         || is_some (m !! id)
      then m
      else <[id := mkPrincipal id (rule_role p) (rule_grants p) (quotas p ≫= q_rate)
                     (quotas p ≫= q_budget) (rule_labels p) None
                     (Some (local Bearer (default nil_str (rule_id p))))]> m
  end.
Definition declared_principals (a : A2a) : gmap string Principal :=
  fold_left declare (principals a) {["operator" := operator]}.

Definition rule_of (r : Resolver) (p : Principal) : option string :=
  if is_operator p then None
  else head (omap (fun c =>
    id ← c_id c;
    if bool_decide (c_role c = role p)
       && bool_decide (principal_id (c_role c) (Some id) None = Some (p_id p))
    then Some id else None) (rules r)).
