(* ===== verification/AccessProps.v ===== *)
(** * What the access rules guarantee

    Who becomes the operator and on what evidence, that one secret names one
    principal, that a grant's key is the tuple and nothing less, that an
    operator's op is out of every grant's reach and that a gate is decided by
    an operator. *)

From S2P Require Export Resolver.
Open Scope Z_scope.

(** ** Bytes *)

Lemma lor_zero a b : Z.lor a b = 0 <-> a = 0 /\ b = 0.
Proof. apply Z.lor_eq_0_iff. Qed.

(** The comparison in constant time is equality. *)
Lemma ct_eq_spec a b : ct_eq a b = true <-> a = b.
Proof.
  unfold ct_eq. rewrite andb_true_iff, bool_decide_eq_true, Z.eqb_eq. split.
  - intros [Hl Hd]. revert b Hl Hd. induction a as [|x a IH]; intros [|y b] Hl Hd; try done.
    cbn in Hd. apply lor_zero in Hd as [Hx Hd]. apply Z.lxor_eq, code_inj in Hx. subst.
    f_equal. apply IH; [by injection Hl|done].
  - intros <-. split; [done|]. induction a as [|x a IH]; cbn; [done|].
    by rewrite Z.lxor_nilpotent.
Qed.

Lemma ct_eq_str s t : ct_eq (chars s) (chars t) = true <-> s = t.
Proof. rewrite ct_eq_spec. split; [apply chars_inj|by intros ->]. Qed.

Lemma starts_with_app p s : starts_with p (p +:+ s) = true.
Proof. unfold starts_with. by rewrite strip_prefix_app. Qed.

Lemma starts_with_spec p s : starts_with p s = true <-> exists r, s = p +:+ r.
Proof.
  unfold starts_with. destruct (strip_prefix p s) as [r|] eqn:E.
  - split; [|done]. intros _. exists r. by apply strip_prefix_Some.
  - split; [done|]. intros [r ->]. by rewrite strip_prefix_app in E.
Qed.

Lemma find_Some {A} (f : A -> bool) l x :
  List.find f l = Some x -> x ∈ l /\ f x = true.
Proof. intros [Hx Hf]%List.find_some. by apply list_elem_of_In in Hx. Qed.

(** ** The operator *)

(** The certificate, when there is one, satisfies what the rule names. *)
Definition cert_admitted (c : Compiled) (ev : Evidence) : Prop :=
  (san (c_matcher c) = None /\ sub (c_matcher c) = None) \/
  exists cert, e_cert ev = Some cert /\ cert_fields_match (c_matcher c) cert = true.

(** What makes a caller the operator. *)
Inductive operator_evidence (r : Resolver) (ev : Evidence) (unix : bool)
    (sessions : option (string -> SessionCheck)) : Via -> Prop :=
  | oe_unix : unix = true -> operator_evidence r ev unix sessions ViaUnix
  | oe_server_bearer t :
      unix = false -> e_bearer ev = Some t -> server_bearer r = Some t ->
      operator_evidence r ev unix sessions ViaBearer
  | oe_rule_bearer t c :
      unix = false -> e_bearer ev = Some t -> c ∈ rules r -> bearer_secret c = Some t ->
      c_role c = Operator -> cert_admitted c ev -> operator_evidence r ev unix sessions ViaBearer
  | oe_session t verify p :
      unix = false -> e_bearer ev = Some t -> starts_with SESSION_TOKEN_PREFIX t = true ->
      sessions = Some verify -> verify t = Valid p -> role p = Operator ->
      operator_evidence r ev unix sessions ViaSession
  | oe_cert_no_rules cert :
      unix = false -> e_cert ev = Some cert -> rules r = [] ->
      operator_evidence r ev unix sessions ViaCert
  | oe_cert_rule cert c :
      unix = false -> e_cert ev = Some cert -> c ∈ rules r -> c_role c = Operator ->
      matches_cert (c_matcher c) cert = true -> operator_evidence r ev unix sessions ViaCert
  | oe_any c :
      unix = false -> c ∈ rules r -> any (c_matcher c) = true -> c_role c = Operator ->
      e_cert ev = None -> operator_evidence r ev unix sessions ViaAnyRule
  | oe_implicit :
      unix = false -> e_local ev = true -> e_origin ev = false -> e_cert ev = None ->
      la_implicit_operator (posture r) = true -> operator_evidence r ev unix sessions ViaImplicit.

Lemma rule_principal_role c cert p : rule_principal c cert = Some p -> role p = c_role c.
Proof.
  unfold rule_principal. intros H. apply bind_Some in H as (id & _ & H). by injection H as <-.
Qed.

Lemma named_or_named o v other p w :
  named_or o v other = Named p w ->
  (o = Some p /\ w = v /\ role p <> Anonymous) \/ other = Named p w.
Proof.
  unfold named_or. destruct o as [q|]; [|auto]. case_decide; [auto|]. intros [= -> ->]. auto.
Qed.

Lemma token_not_operator rs t p v :
  token_principal rs t = Named p v -> role p <> Operator.
Proof.
  unfold token_principal. destruct (List.find _ _) as [c|] eqn:E.
  - intros [= <- _]. cbn. apply find_Some in E as [_ [_ E]%andb_true_iff].
    destruct (t_user t); apply bool_decide_eq_true in E; rewrite E; done.
  - destruct (List.filter _ _); [|done]. intros [= <- _]. cbn. by destruct (t_user t).
Qed.

Lemma cert_rule_Some l cert p :
  cert_rule l cert = Some p ->
  exists c, c ∈ l /\ matches_cert (c_matcher c) cert = true /\ role p = c_role c.
Proof.
  induction l as [|c l IH]; cbn; [done|].
  destruct (matches_cert (c_matcher c) cert) eqn:Em.
  - destruct (rule_principal c (Some cert)) as [q|] eqn:Eq.
    + intros [= <-]. exists c. split; [by left|]. by rewrite (rule_principal_role _ _ _ Eq).
    + intros (c' & ? & ?)%IH. exists c'. split; [by right|done].
  - intros (c' & ? & ?)%IH. exists c'. split; [by right|done].
Qed.

Section operator.
Context (r : Resolver) (ev : Evidence) (sessions : option (string -> SessionCheck)).

Lemma check_bearer_operator t p v :
  e_bearer ev = Some t -> check_bearer r ev t = Named p v -> role p = Operator ->
  operator_evidence r ev false sessions v.
Proof.
  intros Hb. unfold check_bearer.
  destruct (match server_bearer r with Some s => _ | None => false end) eqn:Es.
  - intros [= <- <-] _. destruct (server_bearer r) as [s|] eqn:E; [|done].
    apply ct_eq_str in Es as ->. by apply (oe_server_bearer _ _ _ _ t).
  - destruct (List.find _ _) as [c|] eqn:Ec.
    + apply find_Some in Ec as [Hc Hs]. destruct (bearer_secret c) as [s|] eqn:E; [|done].
      apply ct_eq_str in Hs as ->. destruct (_ || _) eqn:Eo; [|done].
      intros [(Hp & -> & _)|?]%named_or_named Hr; [|done].
      apply (oe_rule_bearer _ _ _ _ t c); try done; [by rewrite <- Hr, (rule_principal_role _ _ _ Hp)|].
      apply orb_true_iff in Eo as [[Ha Hb']%andb_true_iff|Eo]; [left|right].
      * split; [by destruct (san _)|by destruct (sub _)].
      * destruct (e_cert ev) as [cert|]; [|done]. by exists cert.
    + destruct (e_token ev) as [[tk|]|]; try done.
      intros H%token_not_operator Hr. done.
Qed.

Lemma check_cert_operator cert p v :
  e_cert ev = Some cert -> check_cert r cert = Named p v -> role p = Operator ->
  operator_evidence r ev false sessions v.
Proof.
  intros He. unfold check_cert. destruct (rules r) as [|c0 l] eqn:Er.
  - intros [= <- <-] _. by apply (oe_cert_no_rules _ _ _ _ cert).
  - rewrite <- Er. intros [(Hp & -> & _)|?]%named_or_named Hr; [|done].
    apply cert_rule_Some in Hp as (c & Hc & Hm & Hrole).
    apply (oe_cert_rule _ _ _ _ cert c); try done. congruence.
Qed.

Lemma check_rest_operator p v :
  e_cert ev = None -> check_rest r ev = Named p v -> role p = Operator ->
  operator_evidence r ev false sessions v.
Proof.
  intros He. unfold check_rest. destruct (List.find _ _) as [c|] eqn:Ec.
  - apply find_Some in Ec as [Hc Ha]. intros [(Hp & -> & _)|?]%named_or_named Hr; [|done].
    apply (oe_any _ _ _ _ c); try done. by rewrite <- Hr, (rule_principal_role _ _ _ Hp).
  - destruct (_ && _) eqn:E; [|done]. intros [= <- <-] _.
    apply andb_true_iff in E as [[El Ei]%andb_true_iff Eo%negb_true_iff]. by apply oe_implicit.
Qed.
End operator.

(** C20: nobody becomes the operator but on an operator's evidence: the unix
    socket; the server's bearer; the secret of an operator rule, beside a
    certificate that rule's names match; a session the verifier says is the
    operator's; a certificate under no rules at all, or one an operator rule
    matches; an operator [any] rule; or being local, no browser, and without
    a certificate on a listener whose posture grants it. *)
Theorem operator_on_evidence r ev unix sessions p v :
  resolve r ev unix sessions = Named p v -> role p = Operator ->
  e_instance ev = None /\ operator_evidence r ev unix sessions v.
Proof.
  unfold resolve. destruct (e_instance ev) as [h|]; [by intros [= <- _]|]. intros H Hr. split; [done|].
  destruct unix.
  { unfold resolve_unix in H. destruct (List.find _ _) as [c|]; [destruct (c_id c)|];
      injection H as _ <-; by apply oe_unix. }
  assert (Rest : match e_cert ev with Some cert => check_cert r cert | None => check_rest r ev end
    = Named p v -> operator_evidence r ev false sessions v).
  { destruct (e_cert ev) as [cert|] eqn:Ec; intros Hc;
      [by apply (check_cert_operator r ev sessions cert p v)|
       by apply (check_rest_operator r ev sessions p v)]. }
  destruct (e_bearer ev) as [t|] eqn:Eb; [|by apply Rest].
  destruct (starts_with SESSION_TOKEN_PREFIX t) eqn:Est.
  - destruct sessions as [verify|] eqn:Ess; [|done]. destruct (verify t) as [q|] eqn:Ev; [|done].
    injection H as -> <-. by apply (oe_session _ _ _ _ t verify p).
  - destruct (_ || _); [|by apply Rest]. by apply (check_bearer_operator r ev sessions t p v).
Qed.

(** ** One secret, one principal *)

(** The secrets of compiled rules: none issued like a session token, none the
    server's, no two alike. *)
Record secrets_ok (server : option string) (l : list Compiled) : Prop := {
  so_prefix : forall c s, c ∈ l -> bearer_secret c = Some s -> starts_with SESSION_TOKEN_PREFIX s = false;
  so_server : forall c s, c ∈ l -> bearer_secret c = Some s -> server <> Some s;
  so_unique : forall i j c c' s, l !! i = Some c -> l !! j = Some c' ->
    bearer_secret c = Some s -> bearer_secret c' = Some s -> i = j;
}.

Lemma compile_secret_ok rs server l i ref s p :
  secrets_ok server l -> compile_secret rs server l i ref = Ok s ->
  secrets_ok server (l ++ [compile_rule p s]).
Proof.
  intros [P S U] H. destruct s as [s|].
  - assert (G : starts_with SESSION_TOKEN_PREFIX s = false /\ server <> Some s /\
      forall c, c ∈ l -> bearer_secret c <> Some s).
    { unfold compile_secret in H. destruct ref as [r0|]; [|done].
      destruct (rs r0) as [s0|e]; cbn in H; [|done].
      destruct (starts_with _ s0) eqn:E1; [done|]. case_decide as E2; [done|].
      destruct (existsb _ l) eqn:E3; [done|]. injection H as ->. split_and!; [done..|].
      intros c Hc Hs. apply not_true_iff_false in E3. apply E3, existsb_exists.
      exists c. split; [by apply list_elem_of_In|by apply bool_decide_eq_true]. }
    destruct G as (G1 & G2 & G3). split.
    + intros c s' [Hc| ->%list_elem_of_singleton]%elem_of_app Hs; [by apply (P c)|].
      cbn in Hs. by injection Hs as <-.
    + intros c s' [Hc| ->%list_elem_of_singleton]%elem_of_app Hs; [by apply (S c)|].
      cbn in Hs. by injection Hs as <-.
    + intros i1 j c c' s' Hi Hj Hs Hs'.
      apply lookup_app_Some in Hi as [Hi|[Hli Hi]], Hj as [Hj|[Hlj Hj]].
      * by apply (U i1 j c c' s').
      * apply list_lookup_singleton_Some in Hj as [_ <-]. cbn in Hs'. injection Hs' as ->.
        by destruct (G3 c (list_elem_of_lookup_2 _ _ _ Hi)).
      * apply list_lookup_singleton_Some in Hi as [_ <-]. cbn in Hs. injection Hs as ->.
        by destruct (G3 c' (list_elem_of_lookup_2 _ _ _ Hj)).
      * apply list_lookup_singleton_Some in Hi as [? _], Hj as [? _]. lia.
  - split.
    + intros c s' [Hc| ->%list_elem_of_singleton]%elem_of_app Hs; [by apply (P c)|done].
    + intros c s' [Hc| ->%list_elem_of_singleton]%elem_of_app Hs; [by apply (S c)|done].
    + intros i1 j c c' s' Hi Hj Hs Hs'.
      apply lookup_app_Some in Hi as [Hi|[_ Hi]], Hj as [Hj|[_ Hj]];
        try apply list_lookup_singleton_Some in Hi as [_ <-];
        try apply list_lookup_singleton_Some in Hj as [_ <-]; try done.
      by apply (U i1 j c c' s').
Qed.

Lemma compile_rules_ok rs server l i ps out :
  secrets_ok server l -> compile_rules rs server l i ps = Ok out -> secrets_ok server out.
Proof.
  revert l i. induction ps as [|p ps IH]; intros l i Hl H; cbn in H; [by injection H as <-|].
  destruct (compile_secret rs server l i _) as [s|e] eqn:E; cbn in H; [|done].
  apply IH in H; [done|]. by apply (compile_secret_ok rs server l i _ s p) in E.
Qed.

Lemma build_ok `{Loopback} rs a r :
  build rs a = Ok r ->
  secrets_ok (server_bearer r) (rules r) /\ posture r = listener_auth_of a /\
  forall s, server_bearer r = Some s -> starts_with SESSION_TOKEN_PREFIX s = false.
Proof.
  unfold build. intros H0. cbn in H0.
  destruct (match bearer a with Some b => _ | None => Ok None end) as [server|e] eqn:Es; cbn in H0; [|done].
  destruct (compile_rules rs server [] 0 (principals a)) as [l|e] eqn:El; cbn in H0; [|done].
  injection H0 as <-. cbn. split_and!; [|done|].
  - apply (compile_rules_ok _ _ _ _ _ _) in El; [done|]. split; by intros ? ? ?%elem_of_nil || done.
  - intros s ->. destruct (bearer a) as [b|]; [|done].
    destruct (rs b) as [s'|e]; cbn in Es; [|done].
    destruct (starts_with _ s') eqn:E; [done|]. by injection Es as ->.
Qed.

(** The search finds the one rule that has the secret. *)
Lemma secret_found server l t c :
  secrets_ok server l -> c ∈ l -> bearer_secret c = Some t ->
  List.find (fun c => match bearer_secret c with
                      | Some s => ct_eq (chars s) (chars t)
                      | None => false
                      end) l = Some c.
Proof.
  intros Hok Hc Hs. destruct (List.find _ l) as [c'|] eqn:E.
  - apply find_Some in E as [Hc' Hm]. destruct (bearer_secret c') as [s|] eqn:Es; [|done].
    apply ct_eq_str in Hm as ->. apply list_elem_of_lookup in Hc as [i Hi], Hc' as [j Hj].
    pose proof (so_unique _ _ Hok i j c c' t Hi Hj Hs Es) as ->. congruence.
  - apply List.find_none with (x := c) in E; [|by apply list_elem_of_In].
    rewrite Hs in E. by rewrite (proj2 (ct_eq_str t t) eq_refl) in E.
Qed.

Lemma secret_not_found l t :
  (forall c, c ∈ l -> bearer_secret c <> Some t) ->
  List.find (fun c => match bearer_secret c with
                      | Some s => ct_eq (chars s) (chars t)
                      | None => false
                      end) l = None.
Proof.
  intros Hn. destruct (List.find _ l) as [c|] eqn:E; [|done].
  apply find_Some in E as [Hc Hm]. destruct (bearer_secret c) as [s|] eqn:Es; [|done].
  apply ct_eq_str in Hm as ->. by destruct (Hn c Hc).
Qed.

Definition cert_admittedb (c : Compiled) (ev : Evidence) : bool :=
  (negb (is_some (san (c_matcher c))) && negb (is_some (sub (c_matcher c))))
  || match e_cert ev with Some cert => cert_fields_match (c_matcher c) cert | None => false end.

(** A presented bearer decides, alone and unambiguously. On a listener
    that checks bearers, built from settings it accepts: the server's secret
    is the operator; a rule's secret is that rule's principal, wherever the
    rule stands, or a failure when a certificate it names is missing or the
    rule names nobody; a session token is the verifier's to judge; an inbound
    token is its issuer's rules' to judge; anything else is a failed
    credential, whatever else the request carried. *)
Theorem bearer_decides `{Loopback} rs a r ev sessions t :
  build rs a = Ok r -> e_instance ev = None -> e_bearer ev = Some t ->
  la_bearer (posture r) = true ->
  let res := resolve r ev false sessions in
  (starts_with SESSION_TOKEN_PREFIX t = true ->
     match sessions with
     | Some verify => res = match verify t with
                            | Valid p => Named p ViaSession
                            | Invalid => Unauthenticated true
                            end
     | None => res = Unauthenticated true
     end) /\
  (server_bearer r = Some t -> res = Named operator ViaBearer) /\
  (forall c, c ∈ rules r -> bearer_secret c = Some t ->
     res = if cert_admittedb c ev
           then named_or (rule_principal c (e_cert ev)) ViaBearer (Unauthenticated true)
           else Unauthenticated true) /\
  (starts_with SESSION_TOKEN_PREFIX t = false -> server_bearer r <> Some t ->
   (forall c, c ∈ rules r -> bearer_secret c <> Some t) ->
     res = match e_token ev with
           | Some (Ok tk) => token_principal (rules r) tk
           | _ => Unauthenticated true
           end).
Proof.
  intros Hb Hi Ht Hla. apply build_ok in Hb as (Hok & _ & Hsb). cbn zeta.
  unfold resolve. rewrite Hi, Ht, Hla. cbn [orb].
  assert (Hserver : forall s, server_bearer r = Some s -> ct_eq (chars s) (chars t) = true -> s = t)
    by (intros s _ E; by apply ct_eq_str in E).
  split_and!.
  - intros ->. by destruct sessions.
  - intros Hs. rewrite (Hsb t Hs). unfold check_bearer. rewrite Hs.
    by rewrite (proj2 (ct_eq_str t t) eq_refl).
  - intros c Hc Hs. rewrite (so_prefix _ _ Hok c t Hc Hs). unfold check_bearer.
    destruct (server_bearer r) as [s|] eqn:Es.
    + destruct (ct_eq (chars s) (chars t)) eqn:E.
      { apply ct_eq_str in E as ->. by destruct (so_server _ _ Hok c t Hc Hs). }
      by rewrite (secret_found _ _ t c Hok Hc Hs).
    + by rewrite (secret_found _ _ t c Hok Hc Hs).
  - intros -> Hs Hn. unfold check_bearer. rewrite (secret_not_found _ t Hn).
    destruct (server_bearer r) as [s|] eqn:Es; [|done].
    destruct (ct_eq (chars s) (chars t)) eqn:E; [|done]. apply ct_eq_str in E as ->. done.
Qed.

(** ** A gate's decider *)

(** An id that reads like an operator's is an operator's. *)
Definition id_fits (p : Principal) : Prop := starts_with "o" (p_id p) = true -> role p = Operator.

Lemma starts_with_o s : starts_with "o" s = true <-> head (chars s) = Some "o"%char.
Proof.
  destruct s as [|c s]; [done|]. unfold starts_with. cbn [strip_prefix].
  case_decide as E; cbn; split; try done.
  - by intros _; subst.
  - intros [= ->]. done.
Qed.

Lemma head_app_chars p s c : head (chars p) = Some c -> head (chars (p +:+ s)) = Some c.
Proof. by destruct p. Qed.

(** A glob that cannot begin with anything and takes [operator] takes only
    what begins like it. *)
Lemma operator_glob pat s :
  starts_with "*" pat = false -> glob pat "operator" = true -> glob pat s = true ->
  starts_with "o" s = true.
Proof.
  intros Hstar Ho Hs. apply starts_with_o. unfold glob in *. case_decide as E; [by subst|].
  destruct (cut "*" (chars pat)) as [[pre post]|] eqn:Ec.
  - apply cut_Some in Ec as [Ep _].
    apply andb_true_iff in Ho as [[Ho _]%andb_true_iff _].
    apply andb_true_iff in Hs as [[Hs _]%andb_true_iff _].
    apply starts_with_spec in Ho as [x Ho], Hs as [y ->].
    destruct pre as [|c pre].
    { exfalso. cbn in Ep. destruct pat as [|d pat]; [done|]. cbn in Ep. injection Ep as -> _.
      done. }
    apply (f_equal chars) in Ho. rewrite chars_app, chars_text in Ho. cbn in Ho.
    injection Ho as <- _. by rewrite chars_app, chars_text.
  - apply bool_decide_eq_true in Ho, Hs. by subst.
Qed.

Lemma principal_id_fits r d cert id :
  principal_id r d cert = Some id -> starts_with "o" id = true -> r = Operator.
Proof.
  unfold principal_id. destruct r; try done; intros H.
  - apply bind_Some in H as (n & _ & [= <-]). by intros ?%starts_with_o.
  - apply bind_Some in H as (n & _ & [= <-]). by intros ?%starts_with_o.
  - injection H as <-. by intros ?%starts_with_o.
Qed.

Lemma rule_principal_fits c cert p : rule_principal c cert = Some p -> id_fits p.
Proof.
  unfold rule_principal, id_fits. intros H. apply bind_Some in H as (id & Hid & [= <-]). cbn.
  intros Ho. destruct (spki (c_matcher c)), (c_role c) eqn:Er, (c_id c); try done;
    by apply (principal_id_fits _ _ _ _ Hid) in Ho.
Qed.

Lemma cert_rule_fits l cert p : cert_rule l cert = Some p -> id_fits p.
Proof.
  induction l as [|c l IH]; cbn; [done|].
  destruct (if matches_cert (c_matcher c) cert then rule_principal c (Some cert) else None) as [q|] eqn:E.
  - intros [= <-]. destruct (matches_cert _ _); [|done]. by apply rule_principal_fits in E.
  - done.
Qed.

Lemma operator_fits : id_fits operator.
Proof. done. Qed.

(** A principal the resolver names itself has an id that fits its role; a
    session's and an inbound token's are the verifier's. *)
Lemma resolve_fits r ev unix sessions p v :
  (forall verify t q, sessions = Some verify -> verify t = Valid q -> id_fits q) ->
  (forall tk, e_token ev = Some (Ok tk) -> starts_with "o" (t_principal tk) = false) ->
  resolve r ev unix sessions = Named p v -> id_fits p.
Proof.
  intros Hses Htok. unfold resolve. destruct (e_instance ev); [by intros [= <- _] ?%starts_with_o|].
  assert (Rest : match e_cert ev with Some cert => check_cert r cert | None => check_rest r ev end
    = Named p v -> id_fits p).
  { destruct (e_cert ev) as [cert|].
    - unfold check_cert. destruct (rules r) as [|c0 l]; [by intros [= <- _]|].
      intros [(Hp & _)|?]%named_or_named; [|done]. by apply cert_rule_fits in Hp.
    - unfold check_rest. destruct (List.find _ _).
      + intros [(Hp & _)|?]%named_or_named; [|done]. by apply rule_principal_fits in Hp.
      + destruct (_ && _); [|done]. by intros [= <- _]. }
  destruct unix.
  { unfold resolve_unix. destruct (List.find _ _) as [c|]; [destruct (c_id c)|]; by intros [= <- _]. }
  destruct (e_bearer ev) as [t|]; [|done]. destruct (starts_with _ t).
  - destruct sessions as [verify|]; [|done]. destruct (verify t) as [q|] eqn:E; [|done].
    intros [= <- _]. by apply (Hses verify t).
  - destruct (_ || _); [|done]. unfold check_bearer.
    destruct (match server_bearer r with Some s => _ | None => false end); [by intros [= <- _]|].
    destruct (List.find _ _) as [c|].
    + destruct (_ || _); [|done]. intros [(Hp & _)|?]%named_or_named; [|done].
      by apply rule_principal_fits in Hp.
    + destruct (e_token ev) as [[tk|]|] eqn:Et; try done. specialize (Htok tk eq_refl).
      unfold token_principal. destruct (List.find _ _); [|destruct (List.filter _ _); [|done]];
        intros [= <- _]; unfold id_fits; cbn; congruence.
Qed.

(** A gate is decided by an operator. Who satisfies an addressee that a
    gate may have, among the callers the resolver names (with a session
    verifier and inbound tokens that give no other role an operator's name),
    is an operator: nobody else's answer is recorded as its decision. *)
Theorem gate_decided_by_operator addr r ev unix sessions p v :
  (forall verify t q, sessions = Some verify -> verify t = Valid q -> id_fits q) ->
  (forall tk, e_token ev = Some (Ok tk) -> starts_with "o" (t_principal tk) = false) ->
  check_gate addr = Ok tt -> resolve r ev unix sessions = Named p v ->
  addressee_matches addr p = true -> role p = Operator.
Proof.
  intros Hses Htok Hg Hr Hm. pose proof (resolve_fits _ _ _ _ _ _ Hses Htok Hr) as Hfit.
  unfold addressee_matches in Hm. apply andb_true_iff in Hm as [[Hid Hrole]%andb_true_iff _].
  unfold check_gate in Hg. destruct (a_role addr) as [ro|].
  - apply bool_decide_eq_true in Hrole. destruct ro; [done|by destruct (a_id addr)..].
  - destruct (a_id addr) as [pat|]; [|done].
    destruct (negb (starts_with "*" pat) && glob pat "operator") eqn:E; [|done].
    apply andb_true_iff in E as [Hs%negb_true_iff Ho]. apply Hfit.
    by apply (operator_glob pat).
Qed.

(** ** An op's floor *)

(** C21: an operator's op is out of every grant's reach. Whatever its grants
    (a bare star included), its role's defaults and its scoped workflow
    patterns, a principal that is no operator may not run an op with the
    operator's floor, by command or through any method; the one exception is
    an instance child, which may send its own two reports and nothing else. *)
Theorem floor_beats_grants p o method :
  is_operator_floor o = true -> role p <> Operator ->
  (is_instance p = false -> may_command p o = false /\ may p method (Some o) = false) /\
  (is_instance p = true ->
     (may_command p o = true -> o ∈ INSTANCE_OPS) /\
     (may p method (Some o) = true -> method = "SendMessage" /\ o ∈ INSTANCE_OPS)).
Proof.
  intros Hf Hr. unfold is_operator_floor in Hf.
  assert (Hop : is_operator p = false) by (by apply bool_decide_eq_false).
  split.
  - intros Hi.
    assert (C : may_command p o = false).
    { unfold may_command. destruct (is_anonymous p); [done|]. rewrite Hi.
      destruct (op_spec o) as [spec|]; [|done]. apply bool_decide_eq_true in Hf. by rewrite Hf. }
    split; [done|]. unfold may. rewrite Hi, C. destruct (role p) eqn:Er; try done;
      (destruct (extension_floor method); [|by rewrite andb_false_r]);
      unfold may_extension_method; by rewrite orb_true_r.
  - intros Hi.
    assert (C : may_command p o = true -> o ∈ INSTANCE_OPS).
    { unfold may_command. destruct (is_anonymous p); [done|]. rewrite Hi.
      by intros ?%bool_decide_eq_true. }
    split; [done|]. unfold may. rewrite Hi. intros [Hm Ho]%andb_true_iff.
    apply bool_decide_eq_true in Hm. auto.
Qed.

(** ** A grant's key *)

Lemma ascii_byte_inj a b :
  0 <= a < 256 -> 0 <= b < 256 ->
  Ascii.ascii_of_N (Z.to_N a) = Ascii.ascii_of_N (Z.to_N b) -> a = b.
Proof.
  intros Ha Hb E%(f_equal Ascii.N_of_ascii). rewrite !Ascii.N_ascii_embedding in E by lia. lia.
Qed.

Lemma be32_digits n :
  0 <= n < 4294967296 ->
  n = n / 16777216 * 16777216 + n / 65536 mod 256 * 65536 + n / 256 mod 256 * 256 + n mod 256.
Proof. intros Hn. Z.to_euclidean_division_equations. lia. Qed.

Lemma be32_inj n m : 0 <= n < 2 ^ 32 -> 0 <= m < 2 ^ 32 -> be32 n = be32 m -> n = m.
Proof.
  intros Hn Hm. unfold be32, u32_wrap. rewrite !(Z.mod_small _ (2 ^ 32)) by done.
  intros E. injection E as E0 E1 E2 E3.
  apply ascii_byte_inj in E0, E1, E2, E3; try (apply Z.mod_pos_bound; lia);
    try (split; [apply Z.div_pos; lia|apply Z.div_lt_upper_bound; lia]).
  rewrite (be32_digits n), (be32_digits m) by done. change (2 ^ 24) with 16777216 in E0.
  change (2 ^ 16) with 65536 in E1. change (2 ^ 8) with 256 in E2. congruence.
Qed.

(** A field the four length bytes can carry. *)
Definition short (s : string) : Prop := Z.of_nat (length (chars s)) < 2 ^ 32.

Lemma enc_inj s t l l' :
  short s -> short t -> enc s ++ l = enc t ++ l' -> s = t /\ l = l'.
Proof.
  unfold short, enc. intros Hs Ht. rewrite <- !app_assoc. intros E.
  apply app_inj_1 in E as [Eb E]; [|done]. apply be32_inj in Eb; [|lia..].
  apply app_inj_1 in E as [E ->]; [|lia]. split; [by apply chars_inj|done].
Qed.

Lemma encs_inj l l' :
  Forall short l -> Forall short l' -> length l = length l' ->
  mjoin (enc <$> l) = mjoin (enc <$> l') -> l = l'.
Proof.
  intros Hl. revert l'. induction Hl as [|s l Hs Hl IH]; intros [|t l'] Hl' Hn E; try done.
  inversion_clear Hl'. cbn in E. apply enc_inj in E as [-> E]; [|done..].
  f_equal. apply IH; [done| |done]. by injection Hn.
Qed.

Lemma source_as_str_inj a b : source_as_str a = source_as_str b -> a = b.
Proof. by destruct a, b. Qed.

Lemma grant_preimage_inj p q idp idp' :
  Forall short (grant_parts p idp) -> Forall short (grant_parts q idp') ->
  grant_preimage p idp = grant_preimage q idp' ->
  source p = source q /\ issuer p = issuer q /\ default nil_str (tenant p) = default nil_str (tenant q) /\
  stable_id p = stable_id q /\ idp = idp'.
Proof.
  intros Hp Hq E. apply encs_inj in E; [|done..].
  injection E as E1%source_as_str_inj E2 E3 E4 E5. by split_and!.
Qed.

(** A grant's key is the whole tuple. For a digest without collisions and
    fields a length prefix can carry, two principals share a grant id at two
    identity providers only when their sources, issuers, tenants (no tenant
    and an empty one are one) and stable ids are the same, and the provider
    is: no separator inside a field can make two tuples one, and the client
    id is no part of it. *)
Theorem grant_key_injective (sha : Sha) p q idp idp' :
  Inj (=) (=) sha256_hex ->
  Forall short (grant_parts p idp) -> Forall short (grant_parts q idp') ->
  (grant_id p idp = grant_id q idp' <->
   source p = source q /\ issuer p = issuer q /\
   default nil_str (tenant p) = default nil_str (tenant q) /\
   stable_id p = stable_id q /\ idp = idp').
Proof.
  intros Hinj Hp Hq. unfold grant_id. split.
  - intros E%(inj sha256_hex). by apply grant_preimage_inj.
  - intros (E1 & E2 & E3 & E4 & <-). unfold grant_preimage, grant_parts.
    by rewrite E1, E2, E3, E4.
Qed.

(** ** Addressees *)

(** Insertion one by one is the map of the pairs, when no key repeats. *)
Lemma fold_insert {A} (l : list (string * A)) (m : gmap string A) :
  NoDup l.*1 ->
  fold_left (fun m p => <[p.1 := p.2]> m) l m = (list_to_map l : gmap string A) ∪ m.
Proof.
  revert m. induction l as [|[k v] l IH]; intros m; [symmetry; apply (left_id_L ∅ (∪))|cbn].
  intros [Hk Hl]%NoDup_cons. rewrite IH by done.
  rewrite <- insert_union_l. symmetry. apply insert_union_r. by apply not_elem_of_list_to_map_1.
Qed.

Lemma parse_labels_strings (l : list (string * string)) (m : gmap string string) :
  parse_labels (prod_map Datatypes.id VStr <$> l) m = Ok (fold_left (fun m p => <[p.1 := p.2]> m) l m).
Proof. revert m. induction l as [|[k v] l IH]; intros m; cbn; [done|]. apply IH. Qed.

Lemma parse_labels_encoded (m : gmap string string) :
  parse_labels (prod_map Datatypes.id to_value <$> entries m) ∅ = Ok m.
Proof.
  etrans; [exact (parse_labels_strings (entries m) ∅)|].
  rewrite fold_insert by exact (NoDup_keys m). f_equal.
  etrans; [apply (right_id_L ∅ (∪))|apply list_to_map_entries].
Qed.

Lemma parse_role_str r : r <> Anonymous -> parse_role (Some (role_str r)) = Ok (Some r).
Proof. by destruct r. Qed.

(** An addressee a parse can give: an id without outer white space, no
    anonymous role, somebody named. *)
Record addressee_ok (a : Addressee) : Prop := {
  ao_id : forall s, a_id a = Some s -> chars s <> [] /\ trim (chars s) = chars s;
  ao_role : a_role a <> Some Anonymous;
  ao_some : addressee_is_empty a = false;
}.

Lemma find_none_keys (ks : list string) (o : list (string * Value)) :
  (forall k, k ∈ o.*1 -> k ∈ ks) -> List.find (fun p => negb (mem p.1 ks)) o = None.
Proof.
  induction o as [|[k v] o IH]; cbn; intros Hk; [done|].
  unfold mem at 1. rewrite bool_decide_eq_true_2 by (apply Hk; by left). cbn. apply IH. intros k' ?. apply Hk. by right.
Qed.

Lemma obj_insert_keys k v o j : j ∈ (obj_insert k v o).*1 -> j = k \/ j ∈ o.*1.
Proof.
  induction o as [|[k' v'] o IH]; cbn; [set_solver|].
  repeat case_decide; subst; cbn; [set_solver|]. destruct (String.leb k k'); cbn; set_solver.
Qed.

Lemma jobj_keys (fields : list (string * Value)) k :
  k ∈ (foldr (fun p o => obj_insert p.1 p.2 o) [] fields).*1 -> k ∈ fields.*1.
Proof.
  induction fields as [|[k' v] l IH]; cbn; [done|]. intros [->|?]%obj_insert_keys; set_solver.
Qed.

(** The reading of each field where the writing left it. *)
Lemma addressee_read a :
  addressee_ok a ->
  (r ← parse_role ((to_value <$> (role_str <$> a_role a)) ≫= as_str);
   ls ← match (if bool_decide (a_labels a = ∅) then None else Some (to_value (a_labels a))) with
        | None => Ok ∅
        | Some m => match as_object m with
                    | Some m => parse_labels m ∅
                    | None => Err LabelsNotObject
                    end
        end;
   let id := s ← (to_value <$> a_id a) ≫= as_str;
             match trim (chars s) with [] => None | t => Some (text t) end in
   let a := mkAddressee id r ls in
   if addressee_is_empty a then Err NamesNobody else Ok a) = Ok a.
Proof.
  intros [Hid Hrole Hsome].
  assert (Hr : parse_role ((to_value <$> (role_str <$> a_role a)) ≫= as_str) = Ok (a_role a)).
  { destruct (a_role a) as [r|]; [|done]. cbn. apply parse_role_str. by intros ->. }
  assert (Hl : match (if bool_decide (a_labels a = ∅) then None else Some (to_value (a_labels a))) with
     | None => Ok ∅
     | Some m => match as_object m with
                 | Some m => parse_labels m ∅ | None => Err LabelsNotObject end
     end = Ok (a_labels a)).
  { case_bool_decide as E; [by rewrite E|]. cbn. apply parse_labels_encoded. }
  rewrite Hr, Hl. clear Hr Hl Hrole. destruct a as [[s|] r ls]; cbn in *; [|by rewrite Hsome].
  destruct (Hid s eq_refl) as [Hn ->]. destruct (chars s) as [|c l] eqn:E; [done|].
  assert (Et : text (c :: l) = s) by (by rewrite <- (text_chars s), E).
  cbn in Et. cbn. by rewrite Et.
Qed.

(** An addressee survives its journal. What [to_json] writes of one,
    [parse] reads back whole, id, role and labels, whichever of them are
    there; a record kept across a restart asks the same people. *)
Theorem addressee_roundtrip a : addressee_ok a -> addressee_parse (addressee_to_json a) = Ok a.
Proof.
  intros Ha. unfold addressee_to_json, jobj.
  set (fields := opt_field "id" _ ++ _). set (o := foldr _ _ _).
  assert (G : forall k, obj_get k o = obj_get k fields) by (intros k; apply (get_jobj k fields)).
  unfold addressee_parse. rewrite find_none_keys.
  2: { intros k Hk%jobj_keys. unfold fields, opt_field, field_unless in Hk.
       destruct (a_id a), (a_role a), (bool_decide _); cbn in Hk; set_solver. }
  assert (Gi : obj_get "id" o = to_value <$> a_id a)
    by (rewrite G; unfold fields; obj_simpl; by destruct (a_id a)).
  assert (Gr : obj_get "role" o = to_value <$> (role_str <$> a_role a))
    by (rewrite G; unfold fields; obj_simpl; by destruct (a_role a)).
  assert (Gl : obj_get "labels" o = if bool_decide (a_labels a = ∅) then None else Some (to_value (a_labels a)))
    by (rewrite G; unfold fields; obj_simpl; done).
  rewrite Gi, Gr, Gl. exact (addressee_read a Ha).
Qed.

(** ** Instances *)

(** A listener with a server bearer, an operator rule with a secret of its own
    that wants a certificate, and a user with every grant. *)
Definition sample_match (bearer_ref san : option string) : PrincipalMatch :=
  mkMatch san None bearer_ref false None None None.
Definition sample_a2a : A2a :=
  mkA2a (Some "https://0.0.0.0:8443") (Some "file:server")
    [mkRule (Some "ops") (sample_match (Some "file:ops") (Some "*.corp")) Operator ["*"] None ∅;
     mkRule (Some "ann") (sample_match (Some "file:ann") None) User ["workflow.run:report*"] None ∅]
    true false false false.
Definition sample_secrets (ref : string) : result string string := Ok ("secret of " +:+ ref).
#[local] Instance sample_loopback : Loopback := fun h => bool_decide (h = "127.0.0.1").
Definition sample_resolver : Resolver :=
  match build sample_secrets sample_a2a with
  | Ok r => r
  | Err _ => mkResolver [] None (listener_auth_of sample_a2a)
  end.
Definition sample_evidence (bearer : option string) (cert : option CertId) : Evidence :=
  mkEvidence bearer cert true false None None None.
Definition sample_cert : CertId := mkCert (Some "desk") ["desk.corp"] None.
Definition sample_user : Principal :=
  mkPrincipal "user:ann" User ["*"] None None ∅ None (Some (local Bearer "ann")).

Lemma operator_on_evidence_witness :
  e_instance (sample_evidence (Some "secret of file:ops") (Some sample_cert)) = None /\
  operator_evidence sample_resolver (sample_evidence (Some "secret of file:ops") (Some sample_cert))
    false None ViaBearer.
Proof.
  refine (operator_on_evidence sample_resolver _ false None
    (mkPrincipal "operator" Operator ["*"] None None ∅ None (Some (local Bearer "ops"))) _ _ _);
    vm_compute; reflexivity.
Defined.

Lemma bearer_decides_witness :
  resolve sample_resolver (sample_evidence (Some "secret of file:server") None) false None
    = Named operator ViaBearer /\
  resolve sample_resolver (sample_evidence (Some "secret of file:ops") None) false None
    = Unauthenticated true.
Proof.
  split.
  - refine (proj1 (proj2 (bearer_decides sample_secrets sample_a2a sample_resolver _ None
      "secret of file:server" _ _ _ _)) _); vm_compute; reflexivity.
  - vm_compute; reflexivity.
Defined.

Lemma gate_decided_by_operator_witness :
  role (mkPrincipal "operator" Operator ["*"] None None ∅ None (Some bare_operator)) = Operator.
Proof.
  refine (gate_decided_by_operator (mkAddressee (Some "op*") None ∅) sample_resolver
    (sample_evidence (Some "secret of file:server") None) false None _ ViaBearer _ _ _ _ _);
    [done|done|vm_compute; reflexivity..].
Defined.

(** A digest without collisions exists: the text itself. *)
Lemma grant_key_injective_witness :
  grant_id (sha := text) (mkRef Oidc "https://a" None "x/y" None) "https://idp"
    <> grant_id (sha := text) (mkRef Oidc "https://a" (Some "x") "y" None) "https://idp".
Proof.
  intros E. refine ((fun H => _) (proj1 (grant_key_injective text _ _ _ _ _ _ _) E)).
  - by destruct H as (_ & _ & H & _).
  - intros x y Hxy. by apply (f_equal chars) in Hxy; rewrite !chars_text in Hxy.
  - repeat constructor.
  - repeat constructor.
Defined.

Lemma addressee_roundtrip_witness :
  let a := mkAddressee (Some "op*") (Some Operator) {["team" := "desk"]} in
  addressee_parse (addressee_to_json a) = Ok a.
Proof.
  refine (addressee_roundtrip _ _). split; [intros s [= <-]; split; [done|vm_compute; reflexivity]|done|].
  reflexivity.
Defined.

Lemma floor_beats_grants_witness :
  may_command sample_user "admin.drain" = false /\ may sample_user "SendMessage" (Some "admin.drain") = false.
Proof.
  refine (proj1 (floor_beats_grants sample_user "admin.drain" "SendMessage" _ _) _);
    [vm_compute; reflexivity|done|vm_compute; reflexivity].
Defined.
