(* ===== verification/Chain.v ===== *)
(** * The hash-chained audit log

    [obs/chain.rs]: the lines, the verification of the kept segments at
    start, appending, rotation, retention and the head the store keeps.
    The disk is its files' bytes, with how many of the open segment's bytes
    have been flushed; every call that reaches the disk takes the next
    outcome of [io], so that any of them may fail and leave a part of its
    work.  JSON's text and SHA-256 are parameters.  One clock reading, [now],
    serves an operation. *)

From S2P Require Export Json Text.
Open Scope Z_scope.

(** ** JSON text *)

Fixpoint sorted_keys (o : list (string * Value)) : bool :=
  match o with
  | [] => true
  | (k, _) :: o' =>
      match o' with
      | [] => true
      | (k', _) :: _ => String.ltb k k' && sorted_keys o'
      end
  end.

(** The values the program writes: objects in key order, no fractions. *)
Fixpoint canonical (v : Value) : bool :=
  match v with
  | VNum (Float _) => false
  | VArr l => forallb canonical l
  | VObj o => sorted_keys o && forallb (fun p => canonical p.2) o
  | _ => true
  end.

(** [serde_json::to_string] and [from_slice]. *)
Class JsonText := {
  json_print : Value -> list char;
  json_parse : list char -> option Value;
}.

Definition nl : char := Ascii.ascii_of_N 10.

Class JsonTextOk `{JsonText} := {
  parse_print : forall v, canonical v = true -> json_parse (json_print v) = Some v;
  print_one_line : forall v, nl ∉ json_print v;
}.

(** [sha::sha256], 32 bytes. *)
Class Sha256 := sha256 : list char -> list char.

Definition hex_digit (n : Z) : char :=
  Ascii.ascii_of_N (Z.to_N (if n <? 10 then 48 + n else 87 + n)).
Definition hex (h : list char) : string :=
  text (mjoin ((fun b => [hex_digit (code b / 16); hex_digit (code b mod 16)]) <$> h)).

Definition ZERO : list char := replicate 32 Ascii.zero.
Definition GENESIS : string := "0000000000000000000000000000000000000000000000000000000000000000".

Definition HEAD_EVERY_MS : Z := 5000.
Definition SEGMENT : string := "audit.chain.segment".
Definition REGISTER : string := "delegation.register".
Definition REPAIRED : string := "audit.chain.repaired".
Definition RETIRED : string := "audit.chain.retired".

(** ** The register *)

Record Anchor := mkAnchor { revoked_epoch : option Z; rt_version : Z }.
#[export] Instance anchor_eq_dec : EqDecision Anchor.
Proof. solve_decision. Defined.

#[export] Instance anchor_codec : Codec Anchor := {|
  to_value a := jobj (opt_field "revoked_epoch" (revoked_epoch a) ++ [("rt_version", ju64 (rt_version a))]);
  from_value := object (fun v =>
    e ← field_opt "revoked_epoch" v;
    r ← field_or "rt_version" 0 v;
    Some (mkAnchor e r));
|}.

Definition anchor_default : Anchor := mkAnchor None 0.

(** [Option::max]: nothing is below everything. *)
Definition opt_max (a b : option Z) : option Z :=
  match a, b with
  | Some x, Some y => Some (Z.max x y)
  | None, b => b
  | a, None => a
  end.
Definition merge (a o : Anchor) : Anchor :=
  mkAnchor (opt_max (revoked_epoch a) (revoked_epoch o)) (Z.max (rt_version a) (rt_version o)).
Definition merge_entry (g : string) (a : Anchor) (m : gmap string Anchor) : gmap string Anchor :=
  <[g := merge (default anchor_default (m !! g)) a]> m.

Record Head := mkHead { h_seq : Z; h_hash : string }.
#[export] Instance head_eq_dec : EqDecision Head.
Proof. solve_decision. Defined.

(** The path's file name, and the rules. *)
Record Options := mkOptions { file_name : string; rotate_at : Z; retention : Z }.

(** ** Walking the chain *)

Inductive File : Type := ClosedFile (start : Z) | OpenFile.

Inductive ChainError : Type :=
  | NotJson (f : File) (n : nat)
  | NoSeq (f : File) (n : nat)
  | NoPrev (f : File) (n : nat)
  | NoHeader (f : File) (n : nat)
  | MisnamedSegment (f : File) (n : nat) (s seq : Z)
  | SeqGap (f : File) (n : nat) (seq after : Z)
  | PrevMismatch (f : File) (n : nat)
  | FirstNotGenesis (f : File) (n : nat)
  | HeadRewritten (f : File) (n : nat) (seq : Z)
  | ClosedTorn (f : File)
  | TailCut (head seq : Z)
  | SegmentRemoved (seq : Z)
  | IoError.

Record Walk := mkWalk {
  w_seq : Z;
  w_last : option (list char);
  w_anchors : gmap string Anchor;
  w_records : Z;
  w_head_seen : bool;
  w_oldest : option (Z * string);
  w_retired : list Head;
}.
Definition walk_default : Walk := mkWalk 0 None ∅ 0 false None [].
Definition walk_head (w : Walk) : Head :=
  mkHead (w_seq w) (match w_last w with Some h => hex h | None => GENESIS end).

Section chain.
Context `{JsonText} {sha : Sha256}.

Definition action_of (v : Value) : string := default nil_str (as_str (idx "action" v)).

(** The grant's floor a [REGISTER] record sets. *)
Definition register_entry (v : Value) (m : gmap string Anchor) : gmap string Anchor :=
  let target := idx "target" v in
  match as_str (idx "grant_id" target) with
  | Some g =>
      merge_entry g (mkAnchor (as_u64 (idx "revoked_epoch" target))
                              (default 0 (as_u64 (idx "rt_version" target)))) m
  | None => m
  end.

(** The floors a header carries. *)
Definition header_entries (v : Value) (m : gmap string Anchor) : gmap string Anchor :=
  match as_object (idx "register" (idx "target" v)) with
  | Some reg =>
      fold_left (fun m p => match from_value p.2 : option Anchor with
                            | Some a => merge_entry p.1 a m
                            | None => m
                            end) reg m
  | None => m
  end.

Definition line_anchors (v : Value) (m : gmap string Anchor) : gmap string Anchor :=
  let m := if decide (action_of v = SEGMENT) then header_entries v m else m in
  if decide (action_of v = REGISTER) then register_entry v m else m.

Definition line_retired (v : Value) : list Head :=
  let target := idx "target" v in
  if decide (action_of v = RETIRED) then
    match as_u64 (idx "last_seq" target), as_str (idx "last_hash" target) with
    | Some s, Some h => [mkHead s h]
    | _, _ => []
    end
  else [].

(** What a line must be where it stands. *)
Definition check_first (f : File) (n : nat) (start : option Z) (seq : Z) (action : string) :
    result ChainError unit :=
  if decide (n = 1%nat) then
    if decide (action = SEGMENT) then
      match start with
      | Some s => if s =? seq then Ok tt else Err (MisnamedSegment f n s seq)
      | None => Ok tt
      end
    else Err (NoHeader f n)
  else Ok tt.

Definition check_link (w : Walk) (f : File) (n : nat) (seq : Z) (prev : string) :
    result ChainError (option (Z * string)) :=
  match w_last w with
  | Some last =>
      if negb (seq =? u64_add (w_seq w) 1) then Err (SeqGap f n seq (w_seq w))
      else if decide (prev = hex last) then Ok (w_oldest w) else Err (PrevMismatch f n)
  | None =>
      if (seq =? 1) && negb (bool_decide (prev = GENESIS)) then Err (FirstNotGenesis f n)
      else Ok (Some (seq, prev))
  end.

Definition check_head (head : option Head) (f : File) (n : nat) (seq : Z) (hash : list char) :
    result ChainError bool :=
  match head with
  | Some h =>
      if h_seq h =? seq
      then if decide (h_hash h = hex hash) then Ok true else Err (HeadRewritten f n seq)
      else Ok false
  | None => Ok false
  end.

(** [Walk::line]: the walk after the line, and the line's time. *)
Definition walk_line (w : Walk) (f : File) (n : nat) (line : list char) (start : option Z)
    (head : option Head) : result ChainError (Walk * Z) :=
  v ← ok_or (NotJson f n) (json_parse line);
  seq ← ok_or (NoSeq f n) (as_u64 (idx "seq" v));
  prev ← ok_or (NoPrev f n) (as_str (idx "prev" v));
  _ ← check_first f n start seq (action_of v);
  oldest ← check_link w f n seq prev;
  let hash := sha256 line in
  seen ← check_head head f n seq hash;
  Ok (mkWalk seq (Some hash) (line_anchors v (w_anchors w)) (u64_add (w_records w) 1)
        (w_head_seen w || seen) oldest (w_retired w ++ line_retired v),
      default 0 (as_u64 (idx "ts" v))).

(** The whole lines of [bytes], and what follows the last newline. *)
Fixpoint lines_of (bytes : list char) : list (list char) * list char :=
  match bytes with
  | [] => ([], [])
  | b :: bs =>
      let '(ls, rest) := lines_of bs in
      if decide (b = nl) then ([] :: ls, rest)
      else match ls with
           | l :: ls' => ((b :: l) :: ls', rest)
           | [] => ([], b :: rest)
           end
  end.

Fixpoint walk_lines (w : Walk) (f : File) (n : nat) (ls : list (list char)) (start : option Z)
    (head : option Head) (ts : Z) : result ChainError (Walk * Z) :=
  match ls with
  | [] => Ok (w, ts)
  | l :: ls' =>
      p ← walk_line w f n l start head;
      walk_lines p.1 f (S n) ls' start head p.2
  end.

(** ** The disk *)

(** What a call that reaches the disk does: its work, or it fails. A write
    that fails is cut back, unless the cut fails as well (or the process
    dies first): then the first [n] bytes of the line stay, [Some n]. *)
Inductive Io : Type := IoOk | IoFail (left : option nat).

(** The closed segments by their first record, and the open one, of whose
    bytes the first [d_synced] are flushed. *)
Record Disk := mkDisk {
  d_closed : list (Z * list char);
  d_open : option (list char);
  d_synced : nat;
}.

Record Closed := mkClosed { c_start : Z; c_ts : Z; c_last : Head }.

Record Inner := mkInner {
  first : Z;
  seq : Z;
  last : list char;
  size : Z;
  anchors : gmap string Anchor;
  closed : list Closed;
  synced : Head;
  head_put_ms : Z;
}.
Definition inner_default : Inner := mkInner 0 0 [] 0 ∅ [] (mkHead 0 nil_str) 0.

(** The chain, the disk it is on, the head the store keeps, and how the
    calls to come on the disk will go. *)
Record World := mkWorld {
  disk : Disk;
  inner : Inner;
  sink : bool;
  store : option Head;
  io : list Io;
}.

Definition op (A : Type) : Type := stM World ChainError A.

Definition set_disk (d : Disk) (w : World) : World := mkWorld d (inner w) (sink w) (store w) (io w).
Definition set_inner (g : Inner) (w : World) : World := mkWorld (disk w) g (sink w) (store w) (io w).
Definition set_store (h : option Head) (w : World) : World :=
  mkWorld (disk w) (inner w) (sink w) h (io w).

Definition next_io : op Io := fun w =>
  match io w with
  | [] => (w, Ok IoOk)
  | o :: io' => (mkWorld (disk w) (inner w) (sink w) (store w) io', Ok o)
  end.
(** A call that does nothing when it fails. *)
Definition call : op unit :=
  o ← next_io; match o with IoOk => mret tt | IoFail _ => throw IoError end.

Definition put_open (bytes : list char) (sync : nat) (d : Disk) : Disk :=
  mkDisk (d_closed d) (Some bytes) sync.
Definition open_bytes (d : Disk) : list char := default [] (d_open d).
Definition sync_open (d : Disk) : Disk := mkDisk (d_closed d) (d_open d) (length (open_bytes d)).
Definition on_disk (f : Disk -> Disk) : op unit := modify (fun w => set_disk (f (disk w)) w).
Definition on_inner (f : Inner -> Inner) : op unit := modify (fun w => set_inner (f (inner w)) w).

(** A renamed file takes the place of one of the same name; the directory is
    read in the order of the names. *)
Fixpoint put_file (k : Z) (b : list char) (l : list (Z * list char)) : list (Z * list char) :=
  match l with
  | [] => [(k, b)]
  | (k', b') :: l' =>
      if k <? k' then (k, b) :: l
      else if k =? k' then (k, b) :: l'
      else (k', b') :: put_file k b l'
  end.

(** ** Writing *)

Definition record_object (record : Value) : list (string * Value) :=
  match record with VObj o => o | other => [("record", other)] end.

(** The line a record becomes after [g]'s last. *)
Definition line_of (g : Inner) (record : Value) : Value :=
  VObj (obj_insert "prev" (VStr (hex (last g)))
         (obj_insert "seq" (ju64 (u64_add (seq g) 1)) (record_object record))).

Definition inner_head (g : Inner) : Head := mkHead (seq g) (hex (last g)).

Definition set_synced (h : Head) (g : Inner) : Inner :=
  mkInner (first g) (seq g) (last g) (size g) (anchors g) (closed g) h (head_put_ms g).
Definition set_first (n : Z) (g : Inner) : Inner :=
  mkInner n (seq g) (last g) (size g) (anchors g) (closed g) (synced g) (head_put_ms g).
Definition set_size (n : Z) (g : Inner) : Inner :=
  mkInner (first g) (seq g) (last g) n (anchors g) (closed g) (synced g) (head_put_ms g).
Definition set_closed (l : list Closed) (g : Inner) : Inner :=
  mkInner (first g) (seq g) (last g) (size g) (anchors g) l (synced g) (head_put_ms g).
Definition set_put_ms (t : Z) (g : Inner) : Inner :=
  mkInner (first g) (seq g) (last g) (size g) (anchors g) (closed g) (synced g) t.

(** [Inner] after its line is on the file; a file's size is far from wrapping. *)
Definition wrote (v : Value) (bytes : list char) (sync : bool) (g : Inner) : Inner :=
  let hash := sha256 bytes in
  let seq' := u64_add (seq g) 1 in
  mkInner (first g) seq' hash (size g + Z.of_nat (S (length bytes)))
    (if decide (idx "action" v = VStr REGISTER) then register_entry v (anchors g) else anchors g)
    (closed g) (if sync then mkHead seq' (hex hash) else synced g) (head_put_ms g).

Definition write (record : Value) (sync : bool) : op Head :=
  g ← gets inner;
  d ← gets disk;
  let v := line_of g record in
  let bytes := json_print v in
  o ← next_io;
  match o with
  | IoFail kept =>
      _ ← on_disk (put_open match kept with
                            | None => take (Z.to_nat (size g)) (open_bytes d)
                            | Some n => open_bytes d ++ take n (bytes ++ [nl])
                            end (d_synced d));
      throw IoError
  | IoOk =>
      let content := open_bytes d ++ bytes ++ [nl] in
      _ ← on_disk (put_open content (if sync then length content else d_synced d));
      _ ← on_inner (wrote v bytes sync);
      g' ← gets inner;
      mret (inner_head g')
  end.

Definition opt_str (o : option string) : Value :=
  match o with Some s => VStr s | None => VNull end.

Definition header_record (now : Z) (g : Inner) : Value :=
  jobj [("ts", ju64 now); ("action", VStr SEGMENT); ("outcome", VStr "ok");
        ("target", jobj [("first", ju64 (u64_add (seq g) 1));
                         ("previous", opt_str (if 0 <? seq g then Some (hex (last g)) else None));
                         ("register", to_value (anchors g))])].
Definition header (now : Z) : op unit :=
  _ ← on_inner (fun g => set_first (u64_add (seq g) 1) g);
  g ← gets inner;
  _ ← write (header_record now g) true;
  mret tt.

(** [{:020}]. *)
Definition pad20 (n : Z) : string :=
  text (replicate (20 - length (decimal n)) "0"%char ++ decimal n).
Definition retired_record (o : Options) (now : Z) (c : Closed) : Value :=
  jobj [("ts", ju64 now); ("action", VStr RETIRED); ("outcome", VStr "ok");
        ("target", jobj [("segment", VStr (file_name o +:+ "." +:+ pad20 (c_start c)));
                         ("last_ts", ju64 (c_ts c)); ("last_seq", ju64 (h_seq (c_last c)));
                         ("last_hash", VStr (h_hash (c_last c)))])].

(** The closed segments past retention, oldest first, each recorded and then
    removed; how many. *)
Fixpoint retire_loop (o : Options) (now horizon : Z) (l : list Closed) : op Z :=
  match l with
  | [] => mret 0
  | c :: l' =>
      if horizon <=? c_ts c then mret 0
      else
        _ ← write (retired_record o now c) true;
        _ ← call;
        _ ← on_disk (fun d => mkDisk (List.filter (fun p => negb (p.1 =? c_start c)) (d_closed d))
                                (d_open d) (d_synced d));
        _ ← on_inner (set_closed l');
        n ← retire_loop o now horizon l';
        mret (n + 1)
  end.
Definition retire (o : Options) (now : Z) : op Z :=
  g ← gets inner;
  retire_loop o now (u64_sat_sub now (retention o)) (closed g).

(** The rename and the new segment, each a step the disk may stop at. *)
Definition rotate (o : Options) (now : Z) : op unit :=
  _ ← call;
  _ ← on_disk sync_open;
  _ ← call;
  g ← gets inner;
  _ ← on_disk (fun d => mkDisk (put_file (first g) (open_bytes d) (d_closed d)) None 0);
  _ ← on_inner (fun g => set_synced (inner_head g) g);
  _ ← call;
  _ ← on_disk (put_open [] 0);
  _ ← on_inner (fun g => set_closed (closed g ++ [mkClosed (first g) now (inner_head g)]) (set_size 0 g));
  _ ← header now;
  _ ← call;
  _ ← retire o now;
  mret tt.

(** The head handed to the store: the last record on the disk, the open
    segment flushed first when that works. *)
Definition put_head (now_ : bool) (now : Z) : op unit := fun w =>
  if negb (sink w) then (w, Ok tt)
  else
    let g := inner w in
    if negb now_ && (u64_sat_sub now (head_put_ms g) <? HEAD_EVERY_MS) then (w, Ok tt)
    else
      let m : op unit :=
        _ ← on_inner (set_put_ms now);
        _ ← if h_seq (synced g) <? seq g then
              o ← next_io;
              match o with
              | IoOk => _ ← on_disk sync_open; on_inner (fun g => set_synced (inner_head g) g)
              | IoFail _ => mret tt
              end
            else mret tt;
        g' ← gets inner;
        modify (set_store (Some (synced g')))
      in m w.

Definition append (o : Options) (now : Z) (record : Value) (sync : bool) : op Head :=
  g ← gets inner;
  _ ← if rotate_at o <=? size g then rotate o now else mret tt;
  h ← write record sync;
  _ ← put_head sync now;
  mret h.

Definition anchor_record (now : Z) (grant_id : string) (a : Anchor) : Value :=
  jobj [("ts", ju64 now); ("action", VStr REGISTER); ("outcome", VStr "ok");
        ("target", jobj (("grant_id", VStr grant_id) :: ("rt_version", ju64 (rt_version a))
                         :: opt_field "revoked_epoch" (revoked_epoch a)))].
Definition anchor (o : Options) (now : Z) (grant_id : string) (a : Anchor) : op unit :=
  _ ← append o now (anchor_record now grant_id a) true;
  mret tt.

Definition head (w : World) : Head := inner_head (inner w).
Definition flush_head (now : Z) : op unit := put_head true now.

(** The last [limit] records that [keep] takes, oldest first. *)
Definition records (keep : Value -> bool) (limit : nat) (d : Disk) : list Value :=
  let push out line :=
    match json_parse line with
    | Some v =>
        if keep v then
          let out := out ++ [v] in
          if (limit <? length out)%nat then tail out else out
        else out
    | None => out
    end in
  fold_left push (mjoin ((fun p => (lines_of p.2).1) <$> d_closed d) ++ (lines_of (open_bytes d)).1) [].

(** ** Opening *)

Fixpoint walk_closed (w : Walk) (files : list (Z * list char)) (head : option Head) :
    result ChainError (Walk * list Closed) :=
  match files with
  | [] => Ok (w, [])
  | (start, bytes) :: files' =>
      let '(ls, rest) := lines_of bytes in
      match ls, rest with
      | _ :: _, [] =>
          p ← walk_lines w (ClosedFile start) 1 ls (Some start) head 0;
          q ← walk_closed p.1 files' head;
          Ok (q.1, mkClosed start p.2 (walk_head p.1) :: q.2)
      | _, _ => Err (ClosedTorn (ClosedFile start))
      end
  end.

(** What reading every kept segment gives. *)
Record Reading := mkReading {
  r_walk : Walk;
  r_closed : list Closed;
  r_first : Z;
  r_size : Z;
  r_repaired : option Z;
  r_current : bool;
}.

Definition first_seq (ls : list (list char)) (d : Z) : Z :=
  match ls with
  | [] => d
  | l :: _ => default d (v ← json_parse l; as_u64 (idx "seq" v))
  end.

Definition read_chain (d : Disk) (head : option Head) : result ChainError Reading :=
  p ← walk_closed walk_default (d_closed d) head;
  let w := p.1 in
  let fst_ := u64_add (w_seq w) 1 in
  match d_open d with
  | None => Ok (mkReading w p.2 fst_ 0 None false)
  | Some bytes =>
      let '(ls, rest) := lines_of bytes in
      q ← walk_lines w OpenFile 1 ls None head 0;
      Ok (mkReading q.1 p.2 (first_seq ls fst_)
            (Z.of_nat (length bytes - length rest))
            (match rest with [] => None | _ => Some (Z.of_nat (length rest)) end)
            (match ls with [] => false | _ => true end))
  end.

Definition check_tail (w : Walk) (head : option Head) : result ChainError unit :=
  match head with
  | Some h =>
      if negb (w_head_seen w) && (w_seq w <? h_seq h) then Err (TailCut (h_seq h) (w_seq w))
      else Ok tt
  | None => Ok tt
  end.

(** Whether a retirement accounts for the records before the oldest kept. *)
Definition explained (w : Walk) : bool :=
  match w_oldest w with
  | Some (s, prev) =>
      negb (1 <? s)
      || existsb (fun r => (u64_add (h_seq r) 1 =? s) && bool_decide (h_hash r = prev)) (w_retired w)
  | None => true
  end.
Definition check_oldest (w : Walk) : result ChainError unit :=
  if explained w then Ok tt
  else Err (SegmentRemoved (match w_oldest w with Some (s, _) => s | None => 0 end)).

(** The part of [open] that only reads. *)
Definition verify (d : Disk) (head : option Head) : result ChainError Reading :=
  r ← read_chain d head;
  _ ← check_tail (r_walk r) head;
  _ ← check_oldest (r_walk r);
  Ok r.

Record Opened := mkOpened {
  o_records : Z;
  o_segments : nat;
  o_repaired : option Z;
  o_retired : Z;
}.

Definition repaired_record (now dropped : Z) : Value :=
  jobj [("ts", ju64 now); ("action", VStr REPAIRED); ("outcome", VStr "ok");
        ("target", jobj [("dropped_bytes", ju64 dropped);
           ("why", VStr "the last record was cut short, as a crash mid-write leaves it")])].

Definition inner_of (r : Reading) : Inner :=
  let w := r_walk r in
  mkInner (r_first r) (w_seq w) (default ZERO (w_last w)) (r_size r) (w_anchors w) (r_closed r)
    (walk_head w) 0.

(** The open segment's file: made when there is none, a torn last line cut
    off, and all of it flushed. *)
Definition open_file (r : Reading) : op unit :=
  _ ← call;
  _ ← on_disk (fun d => mkDisk (d_closed d) (Some (open_bytes d)) (d_synced d));
  _ ← match r_repaired r with
      | Some _ =>
          _ ← call;
          on_disk (fun d => mkDisk (d_closed d) (Some (take (Z.to_nat (r_size r)) (open_bytes d)))
                              (Nat.min (d_synced d) (Z.to_nat (r_size r))))
      | None => mret tt
      end;
  _ ← call;
  _ ← on_disk sync_open;
  on_inner (fun _ => inner_of r).

(** The records an opening writes, and how many segments it retires. *)
Definition open_records (o : Options) (now : Z) (r : Reading) : op Z :=
  _ ← if r_current r then mret tt else (_ ← header now; call);
  _ ← match r_repaired r with
      | Some n => _ ← write (repaired_record now n) true; mret tt
      | None => mret tt
      end;
  retire o now.

(** [Chain::open] over what [disk] holds, [head] the one the store keeps. *)
Definition open_chain (o : Options) (now : Z) (head : option Head) : op Opened :=
  _ ← call;
  d ← gets disk;
  r ← lift (verify d head);
  _ ← open_file r;
  n ← open_records o now r;
  _ ← put_head true now;
  mret (mkOpened (w_records (r_walk r))
          (length (d_closed d) + match d_open d with Some _ => 1 | None => 0 end)
          (r_repaired r) n).
End chain.

#[global] Arguments op : clear implicits.
