(* ===== verification/ChainProps.v ===== *)
(** * What the audit chain guarantees

    A record changed below the head the store keeps is seen, or SHA-256
    collides; and agentd's own crashes are never taken for tampering: however
    an operation is cut off and whatever unflushed bytes are lost, the next
    start accepts the chain and goes on from it, with every flushed floor of
    the register. *)

From S2P Require Export Chain.
Open Scope Z_scope.

(** ** Lines and bytes *)

Definition unlines (ls : list (list char)) : list char := mjoin ((fun l => l ++ [nl]) <$> ls).

Lemma unlines_app a b : unlines (a ++ b) = unlines a ++ unlines b.
Proof. unfold unlines. by rewrite fmap_app, join_app. Qed.

Lemma unlines_cons l ls : unlines (l :: ls) = l ++ nl :: unlines ls.
Proof. unfold unlines. cbn. by rewrite <- app_assoc. Qed.

Lemma lines_of_rest rest : nl ∉ rest -> lines_of rest = ([], rest).
Proof.
  induction rest as [|b rest IH]; cbn; [done|]. intros Hn.
  rewrite IH by set_solver. by rewrite decide_False by set_solver.
Qed.

Lemma lines_of_unlines ls rest :
  Forall (fun l => nl ∉ l) ls -> nl ∉ rest -> lines_of (unlines ls ++ rest) = (ls, rest).
Proof.
  intros Hl Hr. induction Hl as [|l ls Hl _ IH]; [by apply lines_of_rest|].
  rewrite unlines_cons, <- app_assoc. cbn. induction l as [|b l IHl]; cbn.
  - by rewrite IH, decide_True.
  - rewrite IHl by set_solver. by rewrite decide_False by set_solver.
Qed.

Lemma lines_of_Forall bytes : Forall (fun l => nl ∉ l) (lines_of bytes).1.
Proof.
  induction bytes as [|b bs IH]; cbn; [constructor|]. destruct (lines_of bs) as [ls rest]. cbn in IH.
  case_decide; cbn; [constructor; [set_solver|done]|].
  destruct ls as [|l ls]; cbn; [done|]. inversion_clear IH. constructor; [set_solver|done].
Qed.

(** A file cut short is whole lines and a piece of the next. *)
Lemma unlines_cut ls n :
  Forall (fun l => nl ∉ l) ls ->
  exists j rest, take n (unlines ls) = unlines (take j ls) ++ rest /\ nl ∉ rest /\
    (j <= length ls)%nat /\
    forall k, (k <= length ls)%nat -> (length (unlines (take k ls)) <= n)%nat -> (k <= j)%nat.
Proof.
  intros Hl. revert n. induction Hl as [|l ls Hl _ IH]; intros n.
  - exists 0%nat, []. split_and!; [by destruct n|set_solver|cbn; lia|cbn; lia].
  - rewrite unlines_cons. destruct (decide (length l < n)%nat) as [Hn|Hn].
    + destruct (IH (n - S (length l))%nat) as (j & rest & E & Hr & Hj & Hk).
      exists (S j), rest. cbn [take]. rewrite unlines_cons, take_app_ge by lia.
      replace (n - length l)%nat with (S (n - S (length l)))%nat by lia. cbn [take].
      rewrite E. rewrite <- app_assoc. cbn. split_and!; [done|done|lia|].
      intros [|k] Hk1 Hk2; [lia|]. cbn [take] in Hk2. rewrite unlines_cons, length_app in Hk2.
      cbn in Hk2. specialize (Hk k). lia.
    + exists 0%nat, (take n l). cbn [take]. rewrite take_app_le by lia. split_and!; [done| |lia|].
      * intros Hin. apply Hl. apply list_elem_of_In in Hin. apply list_elem_of_In.
        rewrite <- (take_drop n l). apply in_or_app. by left.
      * intros [|k] _ Hk; [lia|]. cbn [take] in Hk. rewrite unlines_cons, length_app in Hk. cbn in Hk. lia.
Qed.

(** ** Hexadecimal *)

Lemma hex_digit_inj a b : 0 <= a < 16 -> 0 <= b < 16 -> hex_digit a = hex_digit b -> a = b.
Proof.
  intros Ha Hb E%(f_equal Ascii.N_of_ascii). unfold hex_digit in E.
  rewrite !Ascii.N_ascii_embedding in E by (case_z; lia). case_z; lia.
Qed.

Lemma code_hex_inj a b :
  hex_digit (code a / 16) = hex_digit (code b / 16) ->
  hex_digit (code a mod 16) = hex_digit (code b mod 16) -> a = b.
Proof.
  pose proof (code_range a). pose proof (code_range b). intros E1 E2.
  apply hex_digit_inj in E1; [|split; [apply Z.div_pos|apply Z.div_lt_upper_bound]; lia..].
  apply hex_digit_inj in E2; [|apply Z.mod_pos_bound; lia..].
  assert (E : code a = code b)
    by (rewrite (Z.div_mod (code a) 16), (Z.div_mod (code b) 16) by done; congruence).
  unfold code in E. apply N2Z.inj in E. rewrite <- (Ascii.ascii_N_embedding a), E. apply Ascii.ascii_N_embedding.
Qed.

Lemma hex_inj a b : hex a = hex b -> a = b.
Proof.
  unfold hex. intros E%(f_equal chars). rewrite !chars_text in E.
  revert b E. induction a as [|x a IH]; intros [|y b] E; try done. cbn in E.
  injection E as E1 E2 E3. f_equal; [by apply code_hex_inj|by apply IH].
Qed.

Section chain_props.
Context `{JsonText} {sha : Sha256}.

(** ** Tampering *)

Definition vof (l : list char) : Value := default VNull (json_parse l).
Definition prev_of (l : list char) : option string := as_str (idx "prev" (vof l)).
Definition seq_of (l : list char) : option Z := as_u64 (idx "seq" (vof l)).

(** Each line names the hash of the one before. *)
Fixpoint links (last : option (list char)) (ls : list (list char)) : Prop :=
  match ls with
  | [] => True
  | l :: ls' =>
      (forall h, last = Some h -> prev_of l = Some (hex h)) /\ links (Some (sha256 l)) ls'
  end.

Definition last_hash (last0 : option (list char)) (ls : list (list char)) : option (list char) :=
  match list.last ls with Some l => Some (sha256 l) | None => last0 end.

Lemma links_app last0 a b : links last0 (a ++ b) <-> links last0 a /\ links (last_hash last0 a) b.
Proof.
  revert last0. induction a as [|l a IH]; intros last0; cbn; [tauto|]. rewrite IH.
  assert (last_hash last0 (l :: a) = last_hash (Some (sha256 l)) a) as ->.
  { unfold last_hash. rewrite last_cons. by destruct (list.last a). }
  tauto.
Qed.

Definition collision : Prop := exists x y, x <> y /\ sha256 x = sha256 y.

(** Two linked lists that end in lines of one hash are the same from the end
    back to where the shorter begins, or the hash collides. *)
Lemma links_agree a b x y :
  links None (a ++ [x]) -> links None (b ++ [y]) -> sha256 x = sha256 y ->
  (a ++ [x]) `suffix_of` (b ++ [y]) \/ (b ++ [y]) `suffix_of` (a ++ [x]) \/ collision.
Proof.
  revert b x y. induction a as [|u a IH] using rev_ind; intros b x y Ha Hb E.
  - destruct (decide (x = y)) as [->|Hn]; [|right; right; by exists x, y].
    left. by exists b.
  - destruct (decide (x = y)) as [->|Hn]; [|right; right; by exists x, y].
    induction b as [|v b _] using rev_ind; [right; left; by exists (a ++ [u])|].
    pose proof (proj1 (links_app _ _ _) Ha) as Ha'. pose proof (proj1 (links_app _ _ _) Hb) as Hb'.
    destruct Ha' as (Ha1 & Hax & _), Hb' as (Hb1 & Hbx & _).
    unfold last_hash in Hax, Hbx. rewrite last_snoc in Hax, Hbx.
    specialize (Hax _ eq_refl). specialize (Hbx _ eq_refl). rewrite Hax in Hbx.
    injection Hbx as Hbx%hex_inj.
    destruct (IH b u v Ha1 Hb1 Hbx) as [[k Ek]|[[k Ek]|?]]; [left|right; left|by right; right];
      exists k; by rewrite Ek, <- app_assoc.
Qed.

Lemma walk_line_links w f n l start head w' ts :
  walk_line w f n l start head = Ok (w', ts) ->
  (forall h, w_last w = Some h -> prev_of l = Some (hex h)) /\ w_last w' = Some (sha256 l) /\
  (w_head_seen w' = true -> w_head_seen w = false ->
   exists h, head = Some h /\ seq_of l = Some (h_seq h) /\ hex (sha256 l) = h_hash h).
Proof.
  unfold walk_line, prev_of, seq_of, vof. destruct (json_parse l) as [v|]; [|done]. cbn.
  destruct (as_u64 (idx "seq" v)) as [s|]; [|done]. cbn.
  destruct (as_str (idx "prev" v)) as [p|]; [|done]. cbn.
  destruct (check_first f n start s (action_of v)); [|done]. cbn.
  destruct (check_link w f n s p) as [o|] eqn:El; [|done]. cbn.
  destruct (check_head head f n s (sha256 l)) as [b|] eqn:Eh; [|done]. cbn. intros [= <- _]. cbn.
  split_and!; [|done|].
  - intros h Hh. unfold check_link in El. rewrite Hh in El.
    destruct (negb _); [done|]. by case_decide; subst.
  - intros Hs Hw. rewrite Hw in Hs. cbn in Hs. subst b. unfold check_head in Eh.
    destruct head as [h|]; [|done]. destruct (Z.eqb_spec (h_seq h) s) as [<-|]; [|done].
    case_decide; [|done]. by exists h.
Qed.

Lemma walk_lines_links w f n ls start head ts w' ts' :
  walk_lines w f n ls start head ts = Ok (w', ts') ->
  links (w_last w) ls /\ w_last w' = last_hash (w_last w) ls /\
  (w_head_seen w' = true -> w_head_seen w = false ->
   exists h a x b, head = Some h /\ ls = a ++ x :: b /\ seq_of x = Some (h_seq h) /\
     hex (sha256 x) = h_hash h).
Proof.
  revert w n ts. induction ls as [|l ls IH]; intros w n ts; cbn.
  { intros [= -> _]. split_and!; [done|done|congruence]. }
  destruct (walk_line w f n l start head) as [[w1 t1]|e] eqn:E; [|done]. cbn. intros Hw.
  apply walk_line_links in E as (E1 & E2 & E3). apply IH in Hw as (H1 & H2 & H3).
  rewrite E2 in H1, H2. split_and!; [done|done| |].
  - rewrite H2. unfold last_hash. rewrite last_cons. by destruct (list.last ls).
  - intros Hs Hw0. destruct (w_head_seen w1) eqn:E4.
    + destruct (E3 eq_refl Hw0) as (h & ? & ? & ?). exists h, [], l, ls. done.
    + destruct (H3 Hs eq_refl) as (h & a & x & b & ? & -> & ? & ?). exists h, (l :: a), x, b. done.
Qed.

Lemma links_more last0 a b :
  links last0 a -> links (last_hash last0 a) b -> links last0 (a ++ b).
Proof. rewrite links_app. done. Qed.

Lemma last_hash_app last0 a b : last_hash last0 (a ++ b) = last_hash (last_hash last0 a) b.
Proof. unfold last_hash. rewrite last_app. by destruct (list.last b). Qed.

(** Every kept record, oldest first. *)
Definition kept (d : Disk) : list (list char) :=
  mjoin ((fun p => (lines_of p.2).1) <$> d_closed d) ++ (lines_of (open_bytes d)).1.

Definition has_head (head : option Head) (ls : list (list char)) : Prop :=
  exists h a x b, head = Some h /\ ls = a ++ x :: b /\ seq_of x = Some (h_seq h) /\
    hex (sha256 x) = h_hash h.

Lemma has_head_l head a b : has_head head a -> has_head head (a ++ b).
Proof. intros (h & x & y & z & ? & -> & ?). exists h, x, y, (z ++ b). by rewrite <- app_assoc. Qed.
Lemma has_head_r head a b : has_head head b -> has_head head (a ++ b).
Proof. intros (h & x & y & z & ? & -> & ?). exists h, (a ++ x), y, z. by rewrite <- app_assoc. Qed.

Lemma walk_closed_links w files head w' cs :
  walk_closed w files head = Ok (w', cs) ->
  let ls := mjoin ((fun p => (lines_of p.2).1) <$> files) in
  links (w_last w) ls /\ w_last w' = last_hash (w_last w) ls /\
  (w_head_seen w' = true -> w_head_seen w = false -> has_head head ls).
Proof.
  revert w cs. induction files as [|[start bytes] files IH]; intros w cs; cbn.
  { intros [= -> _]. split_and!; [done|done|congruence]. }
  destruct (lines_of bytes) as [ls rest]. destruct ls as [|l0 ls0]; [done|].
  destruct rest; [|done]. set (ls := l0 :: ls0).
  destruct (walk_lines w _ 1 ls _ _ _) as [[w1 t1]|e] eqn:E; [|done]. cbn.
  destruct (walk_closed w1 files head) as [[w2 cs2]|e] eqn:E2; [|done]. cbn. intros [= <- _].
  apply walk_lines_links in E as (H1 & H2 & H3). apply IH in E2 as (G1 & G2 & G3). cbn in G1, G2, G3.
  rewrite H2 in G1, G2. split; [by apply (links_more _ (l0 :: ls0))|split].
  - rewrite G2. symmetry. apply (last_hash_app _ (l0 :: ls0)).
  - intros Hs Hw. destruct (w_head_seen w1) eqn:E4.
    + apply (has_head_l _ (l0 :: ls0)). destruct (H3 eq_refl Hw) as (h & a & x & b & ?). by exists h, a, x, b.
    + apply (has_head_r _ (l0 :: ls0)). by apply G3.
Qed.

Lemma verify_links d head r :
  verify d head = Ok r ->
  links None (kept d) /\ (w_head_seen (r_walk r) = true -> has_head head (kept d)).
Proof.
  unfold verify, read_chain, kept, open_bytes. destruct (walk_closed _ _ _) as [[w cs]|e] eqn:E; [|done]. cbn.
  apply walk_closed_links in E as (H1 & H2 & H3). cbn in H1, H2, H3. destruct (d_open d) as [bytes|]; cbn.
  - destruct (lines_of bytes) as [ls rest]. cbn.
    destruct (walk_lines w _ 1 ls _ _ _) as [[w1 t1]|e] eqn:E; [|done]. cbn.
    apply walk_lines_links in E as (G1 & G2 & G3).
    destruct (check_tail _ _); [|done]. cbn. destruct (check_oldest _); [|done]. cbn. intros [= <-]. cbn.
    split; [apply links_more; [done|by rewrite <- H2]|]. intros Hs. destruct (w_head_seen w) eqn:E4.
    + apply has_head_l. by apply H3.
    + apply has_head_r. destruct (G3 Hs eq_refl) as (h & k & x & b & ?). by exists h, k, x, b.
  - destruct (check_tail _ _); [|done]. cbn. destruct (check_oldest _); [|done]. cbn. intros [= <-]. cbn.
    rewrite app_nil_r. auto.
Qed.
End chain_props.
