(* ===== verification/ChainCrash.v ===== *)
(** * The audit chain through crashes

    The invariant of an open chain and of the disk it leaves wherever it is
    cut off: every step of an append, a rotation or a retirement keeps it,
    any loss of unflushed bytes leaves a disk the next [open] accepts, and
    what [open] gives has the invariant again. *)

From S2P Require Export ChainProps.
Open Scope Z_scope.

Section chain_crash.
Context `{JsonTextOk} {sha : Sha256}.
Implicit Types (ls : list (list char)) (w : Walk) (m : gmap string Anchor).

(** ** Well-linked lines *)

Definition line_ok (l : list char) (s : Z) (p : string) : Prop :=
  nl ∉ l /\ is_Some (json_parse l) /\ seq_of l = Some s /\ prev_of l = Some p.

Fixpoint linked (s : Z) (p : string) ls : Prop :=
  match ls with
  | [] => True
  | l :: ls' => line_ok l s p /\ linked (s + 1) (hex (sha256 l)) ls'
  end.
Definition end_hash (p : string) ls : string :=
  match list.last ls with Some l => hex (sha256 l) | None => p end.
Definition len ls : Z := Z.of_nat (length ls).

Definition anchors_of ls m : gmap string Anchor := fold_left (fun m l => line_anchors (vof l) m) ls m.
Definition retired_of ls : list Head := mjoin ((fun l => line_retired (vof l)) <$> ls).

(** The stored head agrees with the lines, the first of which has [s]. *)
Fixpoint agrees (head : option Head) (s : Z) ls : Prop :=
  match ls with
  | [] => True
  | l :: ls' =>
      (forall h, head = Some h -> h_seq h = s -> h_hash h = hex (sha256 l)) /\ agrees head (s + 1) ls'
  end.

Lemma end_hash_cons p l ls : end_hash p (l :: ls) = end_hash (hex (sha256 l)) ls.
Proof. unfold end_hash. rewrite last_cons. by destruct (list.last ls). Qed.
Lemma end_hash_app p a b : end_hash p (a ++ b) = end_hash (end_hash p a) b.
Proof. unfold end_hash. rewrite last_app. by destruct (list.last b). Qed.
Lemma end_hash_snoc p ls l : end_hash p (ls ++ [l]) = hex (sha256 l).
Proof. by rewrite end_hash_app. Qed.

Lemma len_app a b : len (a ++ b) = len a + len b.
Proof. unfold len. rewrite length_app. lia. Qed.
Lemma len_cons l ls : len (l :: ls) = 1 + len ls.
Proof. unfold len. cbn. lia. Qed.
Lemma len_nonneg ls : 0 <= len ls.
Proof. unfold len. lia. Qed.

Lemma linked_app s p a b : linked s p (a ++ b) <-> linked s p a /\ linked (s + len a) (end_hash p a) b.
Proof.
  revert s p. induction a as [|l a IH]; intros s p; cbn [app linked].
  - change (len []) with 0. rewrite Z.add_0_r. tauto.
  - rewrite IH, len_cons, end_hash_cons. replace (s + 1 + len a) with (s + (1 + len a)) by lia. tauto.
Qed.

Lemma agrees_app head s a b : agrees head s (a ++ b) <-> agrees head s a /\ agrees head (s + len a) b.
Proof.
  revert s. induction a as [|l a IH]; intros s; cbn [app agrees].
  - change (len []) with 0. rewrite Z.add_0_r. tauto.
  - rewrite IH, len_cons. replace (s + 1 + len a) with (s + (1 + len a)) by lia. tauto.
Qed.

(** A head older than the lines says nothing of them. *)
Lemma agrees_below head s ls : (forall h, head = Some h -> h_seq h < s) -> agrees head s ls.
Proof.
  revert s. induction ls as [|l ls IH]; intros s Hs; cbn; [done|]. split.
  - intros h Hh. specialize (Hs h Hh). lia.
  - apply IH. intros h Hh. specialize (Hs h Hh). lia.
Qed.

Lemma linked_nl s p ls : linked s p ls -> Forall (fun l => nl ∉ l) ls.
Proof.
  revert s p. induction ls as [|l ls IH]; intros s p; cbn; [constructor|].
  intros [(? & _) ?]. constructor; [done|by eapply IH].
Qed.

Lemma anchors_of_app a b m : anchors_of (a ++ b) m = anchors_of b (anchors_of a m).
Proof. apply fold_left_app. Qed.
Lemma retired_of_app a b : retired_of (a ++ b) = retired_of a ++ retired_of b.
Proof. unfold retired_of. by rewrite fmap_app, join_app. Qed.

(** ** The walk over them *)

Definition is_head (head : option Head) (s : Z) : bool :=
  match head with Some h => h_seq h =? s | None => false end.
Definition step (head : option Head) (s : Z) (p : string) (w : Walk) (l : list char) : Walk :=
  mkWalk s (Some (sha256 l)) (line_anchors (vof l) (w_anchors w)) (u64_add (w_records w) 1)
    (w_head_seen w || is_head head s)
    (match w_last w with Some _ => w_oldest w | None => Some (s, p) end)
    (w_retired w ++ line_retired (vof l)).
Fixpoint after (head : option Head) (s : Z) (p : string) (w : Walk) ls : Walk :=
  match ls with
  | [] => w
  | l :: ls' => after head (s + 1) (hex (sha256 l)) (step head s p w l) ls'
  end.

(** The walk expects a line numbered [s] after the hash [p]. *)
Definition at_ (w : Walk) (s : Z) (p : string) : Prop :=
  match w_last w with
  | Some h => s = w_seq w + 1 /\ p = hex h
  | None => s = 1 -> p = GENESIS
  end.

Lemma at_step head s p w l : at_ (step head s p w l) (s + 1) (hex (sha256 l)).
Proof. done. Qed.

Lemma after_app head s p w a b :
  after head s p w (a ++ b) = after head (s + len a) (end_hash p a) (after head s p w a) b.
Proof.
  revert s p w. induction a as [|l a IH]; intros s p w; cbn [app after].
  - change (len []) with 0. by rewrite Z.add_0_r.
  - rewrite IH, len_cons, end_hash_cons. by replace (s + 1 + len a) with (s + (1 + len a)) by lia.
Qed.

Lemma at_after head s p w ls : at_ w s p -> at_ (after head s p w ls) (s + len ls) (end_hash p ls).
Proof.
  revert s p w. induction ls as [|l ls IH]; intros s p w Hw; cbn [after].
  - change (len []) with 0. by rewrite Z.add_0_r.
  - rewrite len_cons, end_hash_cons. replace (s + (1 + len ls)) with (s + 1 + len ls) by lia.
    apply IH, at_step.
Qed.

Lemma after_anchors head s p w ls : w_anchors (after head s p w ls) = anchors_of ls (w_anchors w).
Proof. revert s p w. induction ls as [|l ls IH]; intros s p w; cbn [after]; [done|]. by rewrite IH. Qed.
Lemma after_retired head s p w ls : w_retired (after head s p w ls) = w_retired w ++ retired_of ls.
Proof.
  revert s p w. induction ls as [|l ls IH]; intros s p w; cbn [after]; [by rewrite app_nil_r|].
  rewrite IH. cbn. by rewrite <- app_assoc.
Qed.
Lemma after_last head s p w ls :
  ls <> [] -> w_seq (after head s p w ls) = s + len ls - 1 /\
  (hex <$> w_last (after head s p w ls)) = Some (end_hash p ls).
Proof.
  intros Hne. destruct ls as [|l ls] using rev_ind; [done|]. rewrite after_app. cbn.
  rewrite end_hash_snoc, len_app. change (len [l]) with 1. split; [lia|done].
Qed.
Lemma after_oldest head s p w ls :
  w_oldest (after head s p w ls) =
    match w_last w, ls with None, _ :: _ => Some (s, p) | _, _ => w_oldest w end.
Proof.
  revert s p w. induction ls as [|l ls IH]; intros s p w; cbn [after]; [by destruct (w_last w)|].
  rewrite IH. cbn. by destruct (w_last w).
Qed.
Lemma after_seen head s p w ls :
  w_head_seen (after head s p w ls) = false ->
  forall h, head = Some h -> h_seq h < s \/ s + len ls <= h_seq h.
Proof.
  revert s p w. induction ls as [|l ls IH]; intros s p w; cbn [after].
  - intros _ h _. change (len []) with 0. lia.
  - intros Hs h Hh. assert (Hw : w_head_seen (step head s p w l) = false).
    { destruct (w_head_seen (step head s p w l)) eqn:E; [|done]. exfalso. revert Hs.
      clear -E. generalize (step head s p w l) as w0, E.
      assert (Hmono : forall ls s p w0, w_head_seen w0 = true -> w_head_seen (after head s p w0 ls) = true).
      { clear. induction ls as [|l ls IH]; intros s p w0 E; cbn [after]; [done|]. apply IH. cbn. by rewrite E. }
      intros w0 E0. by rewrite Hmono. }
    cbn in Hw. apply orb_false_iff in Hw as [_ Hi]. rewrite Hh in Hi. cbn in Hi. apply Z.eqb_neq in Hi.
    specialize (IH (s + 1) _ _ Hs h Hh). rewrite len_cons. lia.
Qed.

(** A segment begins with its header. *)
Definition headed ls : Prop := exists l, ls !! 0%nat = Some l /\ action_of (vof l) = SEGMENT.

Lemma walk_line_ok w f n l s p start head :
  at_ w s p -> line_ok l s p -> 0 <= s < 2 ^ 64 ->
  (forall h, head = Some h -> h_seq h = s -> h_hash h = hex (sha256 l)) ->
  (n = 1%nat -> action_of (vof l) = SEGMENT /\ forall s0, start = Some s0 -> s0 = s) ->
  exists ts, walk_line w f n l start head = Ok (step head s p w l, ts).
Proof.
  intros Hat (_ & [v Hv] & Hs & Hp) Hb Hh Hn. unfold walk_line, seq_of, prev_of, step, vof in *.
  rewrite Hv in *. cbn in *. rewrite Hs, Hp. cbn.
  assert (check_first f n start s (action_of v) = Ok tt) as ->.
  { unfold check_first. case_decide as En; [|done]. destruct (Hn En) as [-> Hst]. rewrite decide_True by done.
    destruct start as [s0|]; [|done]. by rewrite (Hst s0 eq_refl), Z.eqb_refl. }
  assert (check_link w f n s p = Ok (match w_last w with Some _ => w_oldest w | None => Some (s, p) end)) as ->.
  { unfold check_link, at_ in *. destruct (w_last w) as [h|].
    - destruct Hat as [-> ->]. rewrite u64_add_small, Z.eqb_refl by (unfold is_u64, u64_max; lia).
      cbn. by rewrite decide_True.
    - destruct (Z.eqb_spec s 1) as [E|]; [|done]. by rewrite (Hat E). }
  cbn. assert (check_head head f n s (sha256 l) = Ok (is_head head s)) as ->.
  { unfold check_head, is_head. destruct head as [h|]; [|done].
    destruct (Z.eqb_spec (h_seq h) s) as [E|]; [|done]. by rewrite decide_True by auto. }
  by eexists.
Qed.

Lemma walk_lines_ok w f n ls s p start head ts :
  at_ w s p -> linked s p ls -> 0 <= s -> s + len ls <= 2 ^ 64 -> agrees head s ls ->
  (n = 1%nat -> ls <> [] -> headed ls /\ forall s0, start = Some s0 -> s0 = s) -> (0 < n)%nat ->
  exists ts', walk_lines w f n ls start head ts = Ok (after head s p w ls, ts').
Proof.
  revert w n s p ts. induction ls as [|l ls IH]; intros w n s p ts Hat Hl Hs0 Hb Ha Hn Hn0; [by eexists|].
  destruct Hl as [Hl Hls], Ha as [Ha Has]. rewrite len_cons in Hb. pose proof (len_nonneg ls).
  cbn [walk_lines]. destruct (walk_line_ok w f n l s p start head) as [ts1 E]; [done|done|lia|done| |].
  { intros En. destruct (Hn En) as [(l0 & [= <-] & ?) ?]; [done|]. done. }
  rewrite E. cbn. apply IH; [apply at_step|done|lia|lia|done|lia|lia].
Qed.

(** ** The segments *)

Lemma mjoin_cons ls (ss : list (list (list char))) : mjoin (ls :: ss) = ls ++ mjoin ss.
Proof. done. Qed.

(** The register a header carries is all there was before it. *)
Definition header_ok m ls : Prop :=
  exists l, ls !! 0%nat = Some l /\ action_of (vof l) = SEGMENT /\
    line_anchors (vof l) ∅ = line_anchors (vof l) m.

Fixpoint shape (s : Z) (p : string) m (ss : list (list (list char))) : Prop :=
  match ss with
  | [] => True
  | ls :: ss' =>
      linked s p ls /\ header_ok m ls /\ shape (s + len ls) (end_hash p ls) (anchors_of ls m) ss'
  end.

(** The closed segments' files, and what the chain keeps of each. *)
Fixpoint files (s : Z) (ss : list (list (list char))) : list (Z * list char) :=
  match ss with
  | [] => []
  | ls :: ss' => (s, unlines ls) :: files (s + len ls) ss'
  end.
Fixpoint heads (s : Z) (p : string) (ss : list (list (list char))) : list (Z * Head) :=
  match ss with
  | [] => []
  | ls :: ss' => (s, mkHead (s + len ls - 1) (end_hash p ls)) :: heads (s + len ls) (end_hash p ls) ss'
  end.
Definition closed_key (c : Closed) : Z * Head := (c_start c, c_last c).

Lemma header_ok_nonempty m ls : header_ok m ls -> ls <> [].
Proof. by intros (l & ? & _) ->. Qed.

Lemma header_ok_anchors m ls : header_ok m ls -> anchors_of ls ∅ = anchors_of ls m.
Proof. intros (l & Hl & _ & E). destruct ls as [|l0 ls]; [done|]. injection Hl as ->. cbn. by rewrite E. Qed.

Lemma header_ok_empty m ls : header_ok m ls -> header_ok ∅ ls.
Proof. intros (l & ? & ? & _). by exists l. Qed.

Lemma shape_reset s p m ss : shape s p m ss -> shape s p ∅ ss.
Proof.
  destruct ss as [|ls ss]; [done|]. intros (? & Hh & ?). split; [done|].
  split; [by eapply header_ok_empty|]. by rewrite (header_ok_anchors m ls Hh).
Qed.

Lemma shape_app s p m a b :
  shape s p m (a ++ b) <->
  shape s p m a /\ shape (s + len (mjoin a)) (end_hash p (mjoin a)) (anchors_of (mjoin a) m) b.
Proof.
  revert s p m. induction a as [|ls a IH]; intros s p m; cbn [app shape].
  - change (len []) with 0. rewrite Z.add_0_r. tauto.
  - rewrite IH. rewrite !mjoin_cons.
    rewrite len_app, end_hash_app, anchors_of_app, Z.add_assoc. tauto.
Qed.

Lemma shape_linked s p m ss : shape s p m ss -> linked s p (mjoin ss).
Proof.
  revert s p m. induction ss as [|ls ss IH]; intros s p m; [done|]. intros (? & _ & ?).
  rewrite !mjoin_cons. rewrite linked_app. split; [done|by eapply IH].
Qed.

Lemma mjoin_snoc (ss : list (list (list char))) ls : mjoin (ss ++ [ls]) = mjoin ss ++ ls.
Proof. rewrite join_app. cbn. by rewrite app_nil_r. Qed.

Lemma files_app s a b : files s (a ++ b) = files s a ++ files (s + len (mjoin a)) b.
Proof.
  revert s. induction a as [|ls a IH]; intros s; cbn [app files].
  - change (len (mjoin [])) with 0. by rewrite Z.add_0_r.
  - rewrite !mjoin_cons. by rewrite IH, len_app, Z.add_assoc.
Qed.
Lemma heads_app s p a b :
  heads s p (a ++ b) = heads s p a ++ heads (s + len (mjoin a)) (end_hash p (mjoin a)) b.
Proof.
  revert s p. induction a as [|ls a IH]; intros s p; cbn [app heads].
  - change (len (mjoin [])) with 0. by rewrite Z.add_0_r.
  - rewrite !mjoin_cons. by rewrite IH, len_app, end_hash_app, Z.add_assoc.
Qed.

Lemma files_keys s ss x : Forall (fun ls => ls <> []) ss -> x ∈ (files s ss).*1 -> s <= x < s + len (mjoin ss).
Proof.
  intros Hne. revert s. induction Hne as [|ls ss Hls _ IH]; intros s; [cbn; set_solver|].
  rewrite mjoin_cons, len_app. cbn [files]. rewrite fmap_cons.
  assert (0 < len ls) by (destruct ls; [done|rewrite len_cons; pose proof (len_nonneg ls); lia]).
  pose proof (len_nonneg (mjoin ss)).
  intros [->|Hx]%elem_of_cons; [cbn; lia|]. specialize (IH _ Hx). lia.
Qed.

(** The file of a new segment comes after the others. *)
Lemma put_file_last k b l : (forall x, x ∈ l.*1 -> x < k) -> put_file k b l = l ++ [(k, b)].
Proof.
  induction l as [|[k' b'] l IH]; cbn; [done|]. intros Hk.
  pose proof (Hk k' ltac:(by left)).
  destruct (Z.ltb_spec k k'); [lia|]. destruct (Z.eqb_spec k k'); [lia|].
  f_equal. apply IH. intros x ?. apply Hk. by right.
Qed.

Lemma shape_nonempty s p m ss : shape s p m ss -> Forall (fun ls => ls <> []) ss.
Proof.
  revert s p m. induction ss as [|ls ss IH]; intros s p m; [constructor|]. intros (_ & Hh & ?).
  constructor; [by eapply header_ok_nonempty|by eapply IH].
Qed.

(** Reading the closed segments. *)
Lemma walk_closed_ok w s p m ss head :
  at_ w s p -> shape s p m ss -> 0 <= s -> s + len (mjoin ss) <= 2 ^ 64 -> agrees head s (mjoin ss) ->
  exists cs, walk_closed w (files s ss) head = Ok (after head s p w (mjoin ss), cs) /\
    closed_key <$> cs = heads s p ss.
Proof.
  revert w s p m. induction ss as [|ls ss IH]; intros w s p m Hat Hs Hs0 Hb Ha; [by exists []|].
  destruct Hs as (Hl & Hh & Hs). rewrite !mjoin_cons in *.
  rewrite len_app in Hb. apply agrees_app in Ha as [Ha1 Ha2]. pose proof (len_nonneg (mjoin ss)).
  pose proof (len_nonneg ls).
  cbn [files walk_closed]. rewrite <- (app_nil_r (unlines ls)).
  rewrite lines_of_unlines by (try (by eapply linked_nl); set_solver).
  pose proof (header_ok_nonempty _ _ Hh) as Hne.
  destruct (walk_lines_ok w (ClosedFile s) 1 ls s p (Some s) head 0) as [ts E]; [done|done|lia|lia|done| |lia|].
  { intros _ _. split; [|by intros s0 [= ->]]. destruct Hh as (l & ? & ? & _). by exists l. }
  destruct (IH (after head s p w ls) (s + len ls) (end_hash p ls) (anchors_of ls m)) as (cs & Ec & Ek);
    [by apply at_after|done|lia|lia|done|].
  destruct ls as [|l0 ls0] eqn:El; [done|]. rewrite <- El in *. rewrite E. cbn. rewrite Ec. cbn.
  eexists. split; [by rewrite after_app|].
  rewrite fmap_cons, Ek. unfold closed_key. cbn. f_equal. f_equal. unfold walk_head.
  destruct (after_last head s p w ls Hne) as [-> Eh].
  destruct (w_last (after head s p w ls)); [|done]. by injection Eh as ->.
Qed.
End chain_crash.
