(* ===== verification/ChainRecords.v ===== *)
(** * The records of the audit chain

    What the lines the program writes say when they are read back: their
    number and link, the register a header carries, the segment a retirement
    names. *)

From S2P Require Export ChainCrash.
Open Scope Z_scope.

(** ** Objects in key order *)

Lemma leb_ltb a b : a <> b -> String.leb a b = true -> String.ltb a b = true.
Proof.
  unfold String.leb, String.ltb. intros Hn. destruct (String.compare a b) eqn:E; try done.
  by apply String.compare_eq_iff in E.
Qed.

Lemma leb_total a b : String.leb a b = false -> String.ltb b a = true.
Proof.
  unfold String.leb, String.ltb. rewrite (String.compare_antisym a b). by destruct (String.compare b a).
Qed.

Lemma sorted_keys_cons k v o :
  sorted_keys ((k, v) :: o) = true <->
  (forall k' v', hd_error o = Some (k', v') -> String.ltb k k' = true) /\ sorted_keys o = true.
Proof.
  cbn. destruct o as [|[k' v'] o]; cbn; [split; [by intros _|done]|].
  rewrite andb_true_iff. split.
  - intros [? ?]. split; [by intros ? ? [= <- _]|done].
  - intros [Hk ?]. split; [by apply (Hk k' v')|done].
Qed.

Lemma obj_insert_head k v o k' v' :
  hd_error (obj_insert k v o) = Some (k', v') -> k' = k \/ exists v'', hd_error o = Some (k', v'').
Proof.
  destruct o as [|[k0 v0] o]; cbn; [intros [= <- _]; by left|].
  case_decide; subst; cbn; [intros [= <- _]; by left|].
  destruct (String.leb k k0); cbn; intros [= <- _]; eauto.
Qed.

Lemma sorted_keys_insert k v o : sorted_keys o = true -> sorted_keys (obj_insert k v o) = true.
Proof.
  induction o as [|[k0 v0] o IH]; [done|]. intros Hs. pose proof (proj1 (sorted_keys_cons _ _ _) Hs) as [Hh Ho].
  cbn [obj_insert]. case_decide as E.
  - subst. apply sorted_keys_cons. split; [done|done].
  - destruct (String.leb k k0) eqn:El.
    + apply sorted_keys_cons. split; [|done]. intros ? ? [= <- _]. by apply leb_ltb.
    + apply sorted_keys_cons. split; [|by apply IH]. intros k' v' Hk.
      apply obj_insert_head in Hk as [->|[v'' Hk]]; [by apply leb_total|by eapply Hh].
Qed.

Lemma canonical_insert k v o :
  canonical v = true -> canonical (VObj o) = true -> canonical (VObj (obj_insert k v o)) = true.
Proof.
  intros Hv. cbn. rewrite !andb_true_iff. intros [Hs Ho]. split; [by apply sorted_keys_insert|].
  clear Hs. induction o as [|[k0 v0] o IH]; cbn; [by rewrite Hv|]. cbn in Ho.
  apply andb_true_iff in Ho as [H0 Ho].
  case_decide; cbn; [by rewrite Hv|]. destruct (String.leb k k0); cbn; [by rewrite Hv, H0|].
  rewrite H0. by apply IH.
Qed.

Lemma canonical_jobj fields :
  forallb (fun p => canonical p.2) fields = true -> canonical (jobj fields) = true.
Proof.
  unfold jobj. induction fields as [|[k v] l IH]; [done|]. cbn. intros [Hv Hl]%andb_true_iff.
  apply canonical_insert; [done|by apply IH].
Qed.

Lemma canonical_record rec : canonical rec = true -> canonical (VObj (record_object rec)) = true.
Proof. destruct rec; try done; intros E; cbn in *; by rewrite ?E. Qed.

(** The encoding of a map is in key order. *)
Lemma ltb_of_le a b : String.le a b -> a <> b -> String.ltb a b = true.
Proof. intros Hle Hn. apply leb_ltb; [done|]. unfold String.le in Hle. by apply Is_true_true. Qed.

Lemma sorted_entries {A} (m : gmap string A) (f : A -> Value) :
  sorted_keys (prod_map id f <$> entries m) = true.
Proof.
  assert (Ht : Total (@entry_le A)) by (intros x y; unfold entry_le; apply (total String.le)).
  pose proof (Sorted_merge_sort entry_le (map_to_list m)) as Hs. fold (entries m) in Hs.
  pose proof (NoDup_keys m) as Hn. unfold keys in Hn. revert Hs Hn. generalize (entries m) as l.
  induction l as [|[k a] l IH]; [done|]. intros Hs [Hk Hn]%NoDup_cons. apply Sorted_inv in Hs as [Hs Hh].
  rewrite fmap_cons. apply sorted_keys_cons. split; [|by apply IH].
  destruct l as [|[k' a'] l]; [done|]. cbn. intros ? ? [= <- _]. apply HdRel_inv in Hh.
  apply ltb_of_le; [exact Hh|]. intros ->. apply Hk. cbn. set_solver.
Qed.

Lemma canonical_anchor a : canonical (to_value a : Value) = true.
Proof. cbn. apply canonical_jobj. by destruct a as [[e|] r]. Qed.

Lemma canonical_anchors (m : gmap string Anchor) : canonical (to_value m) = true.
Proof.
  cbn. rewrite sorted_entries. cbn. apply forallb_forall. intros [k v] Hin.
  apply list_elem_of_In, list_elem_of_fmap in Hin as ([k' a] & [= -> ->] & _). apply canonical_anchor.
Qed.

(** ** The register *)

#[export] Instance anchor_codec_ok : CodecOk Anchor.
Proof.
  intros [e r]. cbn. rewrite object_jobj. unfold field_opt, field_or. obj_simpl. by destruct e.
Qed.

(** Floors are never below zero. *)
Definition floors_ok (m : gmap string Anchor) : Prop := forall g a, m !! g = Some a -> 0 <= rt_version a.

Lemma merge_same a : merge a a = a.
Proof. destruct a as [[e|] r]; unfold merge; cbn; by rewrite ?Z.max_id. Qed.
Lemma merge_default a : 0 <= rt_version a -> merge anchor_default a = a.
Proof. destruct a as [e r]; unfold merge; cbn. intros. by rewrite Z.max_r. Qed.

Lemma merge_entry_ok g a m : floors_ok m -> floors_ok (merge_entry g a m).
Proof.
  intros Hm g' a'. unfold merge_entry. intros [[<- <-]|[_ ?]]%lookup_insert_Some; [|by eapply Hm].
  destruct (m !! g) as [b|] eqn:E; cbn; [pose proof (Hm g b E)|]; lia.
Qed.

(** Merging a part of [m] into a part of [m] gives a part of [m], with both. *)
Lemma merge_all m (l : list (string * Anchor)) m0 :
  floors_ok m -> m0 ⊆ m -> (forall p, p ∈ l -> m !! p.1 = Some p.2) ->
  let r := fold_left (fun m p => merge_entry p.1 p.2 m) l m0 in
  m0 ⊆ r /\ r ⊆ m /\ forall p, p ∈ l -> r !! p.1 = Some p.2.
Proof.
  intros Hm. revert m0. induction l as [|[k a] l IH]; intros m0 H0 Hl; [split_and!; [done..|set_solver]|].
  cbn [fold_left fst snd].
  pose proof (Hl (k, a) ltac:(by left)) as Hk. cbn in Hk.
  assert (E : merge_entry k a m0 = <[k := a]> m0).
  { unfold merge_entry. f_equal. destruct (m0 !! k) as [b|] eqn:Eb; cbn.
    - assert (b = a) as -> by (apply (lookup_weaken _ m) in Eb; [congruence|done]). apply merge_same.
    - apply merge_default, (Hm k a Hk). }
  rewrite E. assert (H1 : m0 ⊆ <[k := a]> m0).
  { apply map_subseteq_spec. intros j b Hj. destruct (decide (k = j)) as [<-|Hn].
    - rewrite lookup_insert_eq. apply (lookup_weaken _ m) in Hj; [congruence|done].
    - by rewrite lookup_insert_ne. }
  assert (H2 : <[k := a]> m0 ⊆ m) by (by apply insert_subseteq_l).
  destruct (IH (<[k := a]> m0) H2) as (R1 & R2 & R3); [intros p ?; apply Hl; by right|].
  split_and!; [by etrans|done|]. intros p [->|?]%elem_of_cons; [|by apply R3].
  eapply lookup_weaken; [|done]. apply lookup_insert_eq.
Qed.

Section records.
Context `{JsonTextOk} {sha : Sha256}.
Implicit Types (ls : list (list char)) (m : gmap string Anchor).

Lemma fold_header m0 (l : list (string * Anchor)) :
  fold_left (fun m p => match from_value p.2 : option Anchor with
                        | Some a => merge_entry p.1 a m
                        | None => m
                        end) (prod_map id to_value <$> l) m0 =
  fold_left (fun m p => merge_entry p.1 p.2 m) l m0.
Proof.
  revert m0. induction l as [|[k a] l IH]; intros m0; [done|]. rewrite fmap_cons.
  cbn [fold_left fst snd prod_map]. by rewrite (from_to_value a).
Qed.

(** A header brings the whole register, whatever part of it was there. *)
Lemma header_register v m m0 :
  floors_ok m -> m0 ⊆ m -> idx "register" (idx "target" v) = to_value m -> header_entries v m0 = m.
Proof.
  intros Hm Hsub Hv. unfold header_entries. rewrite Hv. cbn [to_value map_codec as_object].
  rewrite fold_header. destruct (merge_all m (entries m) m0 Hm Hsub) as (_ & R2 & R3).
  { intros [k a]. by rewrite elem_of_entries. }
  apply (anti_symm (⊆)); [done|]. apply map_subseteq_spec. intros k a Hk.
  apply (R3 (k, a)). by apply elem_of_entries.
Qed.

Lemma fold_keeps {A} (f : gmap string Anchor -> A -> gmap string Anchor) l m :
  (forall m x, floors_ok m -> floors_ok (f m x)) -> floors_ok m -> floors_ok (fold_left f l m).
Proof. intros Hf. revert m. induction l as [|x l IH]; intros m Hm; [done|]. by apply IH, Hf. Qed.

Lemma line_anchors_ok v m : floors_ok m -> floors_ok (line_anchors v m).
Proof.
  intros Hm. unfold line_anchors.
  assert (H1 : floors_ok (if decide (action_of v = SEGMENT) then header_entries v m else m)).
  { case_decide; [|done]. unfold header_entries. destruct (as_object _); [|done].
    apply fold_keeps; [|done]. intros m' [k x] Hm'. destruct (from_value _); [by apply merge_entry_ok|done]. }
  revert H1. generalize (if decide (action_of v = SEGMENT) then header_entries v m else m) as m1.
  intros m1 H1. case_decide; [|done]. unfold register_entry.
  by destruct (as_str _); [apply merge_entry_ok|].
Qed.

Lemma anchors_of_ok ls m : floors_ok m -> floors_ok (anchors_of ls m).
Proof. apply fold_keeps. intros. by apply line_anchors_ok. Qed.

(** ** A line as it is read back *)

Section line.
Context (g : Inner) (rec : Value) (Hrec : canonical rec = true).
Let v : Value := line_of g rec.
Let l : list char := json_print v.

Lemma line_canonical : canonical v = true.
Proof. unfold v, line_of. repeat (apply canonical_insert; [done|]). by apply canonical_record. Qed.

Lemma line_parse : json_parse l = Some v.
Proof. apply parse_print, line_canonical. Qed.
Lemma line_vof : vof l = v.
Proof. unfold vof. by rewrite line_parse. Qed.

Lemma line_line_ok : line_ok l (u64_add (seq g) 1) (hex (last g)).
Proof.
  split; [apply print_one_line|]. split; [rewrite line_parse; by eexists|].
  unfold seq_of, prev_of. rewrite line_vof. unfold v, line_of, idx, get. split.
  - rewrite obj_get_insert_ne by done. by rewrite obj_get_insert_eq.
  - by rewrite obj_get_insert_eq.
Qed.

(** The record's other fields are the line's. *)
Lemma line_idx k : k <> "seq" -> k <> "prev" -> idx k v = idx k (VObj (record_object rec)).
Proof. intros. unfold v, line_of, idx, get. by rewrite !obj_get_insert_ne. Qed.
End line.

Lemma jobj_record fields : VObj (record_object (jobj fields)) = jobj fields.
Proof. done. Qed.
Lemma jobj_idx fields k : idx k (jobj fields) = default VNull (obj_get k fields).
Proof. unfold idx. by rewrite get_jobj. Qed.

(** What the record does to the register when the chain is read. *)
Definition reads_as (rec : Value) (g : Inner) : Prop :=
  line_anchors (line_of g rec) (anchors g) =
    if decide (idx "action" (line_of g rec) = VStr REGISTER)
    then register_entry (line_of g rec) (anchors g) else anchors g.

Lemma action_register v : action_of v = REGISTER <-> idx "action" v = VStr REGISTER.
Proof.
  unfold action_of. destruct (idx "action" v); cbn; split; intros E; try discriminate E.
  - by subst.
  - by injection E.
Qed.

(** A record that is no header. *)
Lemma plain_reads_as rec g : canonical rec = true ->
  action_of (VObj (record_object rec)) <> SEGMENT -> reads_as rec g.
Proof.
  intros Hc Ha. unfold reads_as, line_anchors.
  assert (Ea : action_of (line_of g rec) = action_of (VObj (record_object rec)))
    by (unfold action_of; by rewrite line_idx).
  rewrite (decide_False (P := action_of (line_of g rec) = SEGMENT)) by congruence.
  apply decide_ext, action_register.
Qed.

Lemma canonical_header now g : canonical (header_record now g) = true.
Proof.
  unfold header_record. apply canonical_jobj. cbn [forallb snd canonical ju64].
  rewrite canonical_jobj; [done|]. cbn [forallb snd]. rewrite canonical_anchors. by destruct (0 <? seq g).
Qed.

Lemma header_action now g : action_of (line_of g (header_record now g)) = SEGMENT.
Proof. unfold action_of. rewrite line_idx by done. unfold header_record. by rewrite jobj_record, jobj_idx. Qed.

(** A header read brings the register as it stood. *)
Lemma header_anchors now g m :
  floors_ok (anchors g) -> m ⊆ anchors g -> line_anchors (line_of g (header_record now g)) m = anchors g.
Proof.
  intros Hok Hm. unfold line_anchors. rewrite header_action.
  rewrite (decide_True (P := SEGMENT = SEGMENT)) by done.
  rewrite (decide_False (P := SEGMENT = REGISTER)) by done. apply header_register; [done|done|].
  rewrite line_idx by done. unfold header_record. rewrite jobj_record, jobj_idx. cbn [obj_get].
  repeat first [rewrite decide_False by done | rewrite decide_True by done].
  cbn [default from_option id]. by rewrite jobj_idx.
Qed.

Lemma header_reads_as now g : floors_ok (anchors g) -> reads_as (header_record now g) g.
Proof.
  intros Hok. unfold reads_as. rewrite header_anchors by done. case_decide as E; [|done].
  apply action_register in E. by rewrite header_action in E.
Qed.

Lemma canonical_retired o now c : canonical (retired_record o now c) = true.
Proof. unfold retired_record. apply canonical_jobj. cbn [forallb snd canonical ju64]. by rewrite canonical_jobj. Qed.
Lemma retired_action o now c : action_of (VObj (record_object (retired_record o now c))) = RETIRED.
Proof. unfold action_of, retired_record. by rewrite jobj_record, jobj_idx. Qed.
Lemma retired_names o now c g : line_retired (line_of g (retired_record o now c)) = [c_last c].
Proof.
  unfold line_retired, action_of. rewrite !line_idx by done. unfold retired_record.
  rewrite jobj_record, !jobj_idx. cbn [obj_get]. repeat first [rewrite decide_False by done | rewrite decide_True by done].
  cbn [default from_option id as_str]. rewrite !jobj_idx. by destruct (c_last c).
Qed.

Lemma canonical_repaired now n : canonical (repaired_record now n) = true.
Proof. done. Qed.
Lemma repaired_action now n : action_of (VObj (record_object (repaired_record now n))) = REPAIRED.
Proof. done. Qed.
End records.
