(* ===== verification/ChainLife.v ===== *)
(** * The life of an audit chain

    The invariant of an open chain, kept by every operation; the disk any
    cut leaves; and [open], which takes such a disk back to the invariant. *)

From S2P Require Export ChainRecords.
Open Scope Z_scope.

(** A crash: what was not flushed may be lost, from the end, byte by byte. *)
Inductive crash : Disk -> Disk -> Prop :=
  | crash_none d : d_open d = None -> crash d d
  | crash_cut d b n :
      d_open d = Some b -> (d_synced d <= n)%nat ->
      crash d (mkDisk (d_closed d) (Some (take n b)) (d_synced d)).

(** One register is at least another: every floor is as high. *)
Definition floors_le (m m' : gmap string Anchor) : Prop :=
  forall g a, m !! g = Some a -> exists b, m' !! g = Some b /\ merge b a = b.

Lemma opt_max_trans a b c : opt_max c b = c -> opt_max b a = b -> opt_max c a = c.
Proof.
  destruct a as [a|], b as [b|], c as [c|]; cbn; try done; intros [= E1] [= E2]; f_equal; lia.
Qed.

#[export] Instance floors_le_preorder : PreOrder floors_le.
Proof.
  split.
  - intros m g a Hg. exists a. by rewrite merge_same.
  - intros m1 m2 m3 H1 H2 g a (b & Hb & Eb)%H1. destruct (H2 g b Hb) as (c & Hc & Ec).
    exists c. split; [done|]. destruct a as [ae ar], b as [be br], c as [ce cr].
    unfold merge in *. cbn in *. injection Eb as Eb1 Eb2. injection Ec as Ec1 Ec2.
    f_equal; [by eapply opt_max_trans|lia].
Qed.

Lemma merge_absorbs a b : merge (merge a b) a = merge a b.
Proof.
  assert (E : forall x y, Z.max (Z.max x y) x = Z.max x y) by lia.
  destruct a as [[ae|] ar], b as [[be|] br]; unfold merge; cbn; by rewrite ?E, ?Z.max_id.
Qed.

Lemma merge_entry_le g a m : floors_le m (merge_entry g a m).
Proof.
  intros g' b Hb. unfold merge_entry. destruct (decide (g = g')) as [<-|Hn].
  - rewrite lookup_insert_eq, Hb. cbn. eexists. split; [done|]. apply merge_absorbs.
  - rewrite lookup_insert_ne by done. exists b. by rewrite merge_same.
Qed.

Lemma fold_le {A} (f : gmap string Anchor -> A -> gmap string Anchor) l m :
  (forall m x, floors_le m (f m x)) -> floors_le m (fold_left f l m).
Proof. intros Hf. revert m. induction l as [|x l IH]; intros m; cbn; [done|]. etrans; [apply Hf|apply IH]. Qed.

Section life.
Context `{JsonTextOk} {sha : Sha256}.

Lemma line_anchors_le v m : floors_le m (line_anchors v m).
Proof.
  unfold line_anchors. trans (if decide (action_of v = SEGMENT) then header_entries v m else m).
  - case_decide; [|done]. unfold header_entries. destruct (as_object _); [|done].
    apply fold_le. intros m' x. destruct (from_value _); [apply merge_entry_le|done].
  - generalize (if decide (action_of v = SEGMENT) then header_entries v m else m) as m1. intros m1.
    case_decide; [|done]. unfold register_entry. destruct (as_str _); [apply merge_entry_le|done].
Qed.

Lemma anchors_of_le ls m : floors_le m (anchors_of ls m).
Proof. apply fold_le. intros. apply line_anchors_le. Qed.

(** What is known to be in the register. *)
Context (F : gmap string Anchor).
Definition has_floors (ls : list (list char)) : Prop := floors_le F (anchors_of ls ∅).

Lemma has_floors_app a b : has_floors a -> has_floors (a ++ b).
Proof. intros Ha. unfold has_floors. rewrite anchors_of_app. etrans; [exact Ha|apply anchors_of_le]. Qed.

Implicit Types (ls : list (list char)) (cs : list (list (list char))).

Definition segs cs ls : list (list (list char)) := cs ++ match ls with [] => [] | _ => [ls] end.

Lemma mjoin_segs cs ls : mjoin (segs cs ls) = mjoin cs ++ ls.
Proof. unfold segs. destruct ls; [by rewrite !app_nil_r|apply mjoin_snoc]. Qed.

Record good (s : Z) (p : string) cs ls : Prop := {
  go_lo : 1 <= s;
  go_genesis : s = 1 -> p = GENESIS;
  go_shape : shape s p ∅ (segs cs ls);
}.

(** A retirement says where the records before [s] went. *)
Definition explains (s : Z) (p : string) ls : Prop := 1 < s -> mkHead (s - 1) p ∈ retired_of ls.
Definition room (n s : Z) cs ls : Prop :=
  s + len (mjoin cs ++ ls) + Z.of_nat (length cs) + n <= 2 ^ 64.

(** A disk [open] accepts, with [h] the head the store keeps: whole lines,
    [k] of the open segment's flushed, and a piece of one more. *)
Record recoverable_as (n s : Z) (p : string) cs ls (k : nat) (rest : list char) (d : Disk)
    (h : option Head) : Prop := {
  rc_good : good s p cs ls;
  rc_k : (k <= length ls)%nat;
  rc_closed : d_closed d = files s cs;
  rc_open : (d_open d = Some (unlines ls ++ rest) /\ d_synced d = length (unlines (take k ls)))
    \/ (d_open d = None /\ d_synced d = 0%nat /\ ls = [] /\ rest = []);
  rc_rest : nl ∉ rest;
  rc_explains : explains s p (mjoin cs ++ take k ls);
  rc_agrees : agrees h s (mjoin cs ++ ls);
  rc_head : forall x, h = Some x -> h_seq x <= s + len (mjoin cs ++ take k ls) - 1;
  rc_room : room n s cs ls;
  rc_floors : has_floors (mjoin cs ++ take k ls);
}.
Definition recoverable (n : Z) (d : Disk) (h : option Head) : Prop :=
  exists s p cs ls k rest, recoverable_as n s p cs ls k rest d h.

(** The disk of an open chain: [k] lines of the open segment are flushed. *)
Record on_disk_inv (s : Z) (p : string) cs ls (k : nat) (d : Disk) (h : option Head) : Prop := {
  di_good : good s p cs ls;
  di_k : (k <= length ls)%nat;
  di_closed : d_closed d = files s cs;
  di_open : d_open d = Some (unlines ls);
  di_sync : d_synced d = length (unlines (take k ls));
  di_explains : explains s p (mjoin cs ++ take k ls);
  di_agrees : agrees h s (mjoin cs ++ ls);
  di_head : forall x, h = Some x -> h_seq x <= s + len (mjoin cs ++ take k ls) - 1;
  di_floors : has_floors (mjoin cs ++ take k ls);
}.

(** What the process knows of it. *)
Record in_memory (s : Z) (p : string) cs ls (k : nat) (g : Inner) : Prop := {
  im_seq : seq g = s + len (mjoin cs ++ ls) - 1;
  im_last : hex (last g) = end_hash p (mjoin cs ++ ls);
  im_anchors : anchors g = anchors_of (mjoin cs ++ ls) ∅;
  im_size : size g = Z.of_nat (length (unlines ls));
  im_closed : closed_key <$> closed g = heads s p cs;
  im_first : ls <> [] -> first g = s + len (mjoin cs);
  im_synced : synced g = mkHead (s + len (mjoin cs ++ take k ls) - 1) (end_hash p (mjoin cs ++ take k ls));
}.

Definition inv s p cs ls k (w : World) : Prop :=
  on_disk_inv s p cs ls k (disk w) (store w) /\ in_memory s p cs ls k (inner w).

(** Wherever the disk is cut, it can be opened. *)
Definition survives (n : Z) (w : World) : Prop :=
  forall d', crash (disk w) d' -> recoverable n d' (store w).

(** ** Lines cut off the end *)

Lemma header_ok_take m ls j : (0 < j)%nat -> header_ok m ls -> header_ok m (take j ls).
Proof. intros Hj (l & Hl & ?). exists l. rewrite lookup_take_lt by done. done. Qed.

Lemma good_take s p cs ls j : good s p cs ls -> good s p cs (take j ls).
Proof.
  intros [? ? Hs]. split; [done|done|]. unfold segs in *. apply shape_app in Hs as [Hc Ho].
  apply shape_app. split; [done|]. destruct ls as [|l ls']; [by rewrite take_nil|].
  destruct j as [|j]; [done|]. destruct Ho as (Hl & Hh & _).
  change (take (S j) (l :: ls')) with (l :: take j ls') in *. cbn [shape].
  split; [|split; [|done]].
  - change (l :: take j ls') with (take (S j) (l :: ls')). rewrite <- (take_drop (S j) (l :: ls')) in Hl.
    by apply linked_app in Hl as [Hl _].
  - change (l :: take j ls') with (take (S j) (l :: ls')). apply header_ok_take; [lia|done].
Qed.

Lemma take_take_prefix {A} (l : list A) k j : (k <= j)%nat -> exists r, take j l = take k l ++ r.
Proof. intros Hk. exists (drop k (take j l)). rewrite <- (take_drop k (take j l)) at 1. by rewrite take_take, Nat.min_l. Qed.

Lemma explains_more s p a b : explains s p a -> explains s p (a ++ b).
Proof. intros He Hs. rewrite retired_of_app. apply elem_of_app. left. by apply He. Qed.

Lemma good_linked s p cs ls : good s p cs ls -> linked s p (mjoin cs ++ ls).
Proof. intros [_ _ Hs]. rewrite <- mjoin_segs. by eapply shape_linked. Qed.

Lemma good_nl s p cs ls : good s p cs ls -> Forall (fun l => nl ∉ l) ls.
Proof. intros Hg%good_linked%linked_nl. by apply Forall_app in Hg as [_ ?]. Qed.

Lemma cut_recoverable n s p cs ls k rest d h m :
  recoverable_as n s p cs ls k rest d h -> d_synced d = length (unlines (take k ls)) -> (d_synced d <= m)%nat ->
  recoverable n (mkDisk (d_closed d) (Some (take m (unlines ls ++ rest))) (d_synced d)) h.
Proof.
  intros [Hg Hk Hc _ Hrest He Ha Hh Hr HF] Hsy Hm.
  destruct (decide (length (unlines ls) < m)%nat) as [Hlt|Hge].
  - exists s, p, cs, ls, k, (take (m - length (unlines ls)) rest). split; cbn; try done.
    + left. rewrite take_app_ge by lia. done.
    + intros Hin. apply Hrest. apply list_elem_of_In in Hin. apply list_elem_of_In.
      rewrite <- (take_drop (m - length (unlines ls)) rest). apply in_or_app. by left.
  - rewrite take_app_le by lia. destruct (unlines_cut ls m (good_nl _ _ _ _ Hg)) as (j & r & E & Hr' & Hj & Hjk).
    assert (k <= j)%nat as Hkj by (apply Hjk; [done|]; by rewrite <- Hsy).
    exists s, p, cs, (take j ls), k, r.
    assert (Hall : mjoin cs ++ ls = (mjoin cs ++ take j ls) ++ drop j ls) by (by rewrite <- app_assoc, take_drop).
    assert (Ht : take k (take j ls) = take k ls) by (by rewrite take_take, Nat.min_l).
    split; cbn; rewrite ?Ht; try done.
    + by apply good_take.
    + rewrite length_take. lia.
    + left. by rewrite E.
    + rewrite Hall in Ha. by apply agrees_app in Ha as [? _].
    + unfold room in *. rewrite Hall, len_app in Hr. pose proof (len_nonneg (drop j ls)). lia.
Qed.

(** What can be recovered can be after another crash. *)
Lemma recoverable_crash n d h d' : recoverable n d h -> crash d d' -> recoverable n d' h.
Proof.
  intros (s & p & cs & ls & k & rest & Hrc) Hcr. inversion Hcr as [d0 Hn|d0 b m Hb Hm]; subst.
  - by exists s, p, cs, ls, k, rest.
  - destruct (rc_open _ _ _ _ _ _ _ _ _ Hrc) as [[Ho Hsy]|[Ho _]]; [|congruence].
    rewrite Ho in Hb. injection Hb as <-. by eapply cut_recoverable.
Qed.

Lemma inv_recoverable n s p cs ls k d h :
  on_disk_inv s p cs ls k d h -> room n s cs ls -> recoverable_as n s p cs ls k [] d h.
Proof.
  intros [Hg Hk Hc Ho Hsy He Ha Hh HF] Hr. split; try done; [|set_solver].
  left. by rewrite app_nil_r.
Qed.

Lemma crash_recoverable n s p cs ls k d h d' :
  on_disk_inv s p cs ls k d h -> room n s cs ls -> crash d d' -> recoverable n d' h.
Proof.
  intros Hd Hr. apply recoverable_crash. exists s, p, cs, ls, k, []. by apply inv_recoverable.
Qed.

Lemma inv_survives n s p cs ls k w : inv s p cs ls k w -> room n s cs ls -> survives n w.
Proof. intros [Hd _] Hr d' Hc. by eapply crash_recoverable. Qed.

Lemma room_le n n' s cs ls : n' <= n -> room n s cs ls -> room n' s cs ls.
Proof. unfold room. lia. Qed.
Lemma recoverable_le n n' d h : n' <= n -> recoverable n d h -> recoverable n' d h.
Proof.
  intros Hn (s & p & cs & ls & k & rest & []). exists s, p, cs, ls, k, rest. split; try done.
  by eapply room_le.
Qed.
Lemma survives_le n n' w : n' <= n -> survives n w -> survives n' w.
Proof. intros Hn Hs d' Hc. eapply recoverable_le; [done|by apply Hs]. Qed.

(** ** Writing a line *)

(** A record that may follow [ls]: the first of a segment is its header. *)
Record next_record (ls : list (list char)) (g : Inner) (rec : Value) : Prop := {
  nr_canonical : canonical rec = true;
  nr_reads : reads_as rec g;
  nr_header : ls = [] -> action_of (line_of g rec) = SEGMENT /\
    line_anchors (line_of g rec) ∅ = line_anchors (line_of g rec) (anchors g);
}.

Definition new_line (g : Inner) (rec : Value) : list char := json_print (line_of g rec).

Lemma good_snoc s p cs ls k g rec :
  good s p cs ls -> in_memory s p cs ls k g -> room 1 s cs ls -> next_record ls g rec ->
  good s p cs (ls ++ [new_line g rec]).
Proof.
  intros Hg Him Hr [Hc Hrd Hh]. pose proof (line_line_ok g rec Hc) as Hl.
  pose proof (im_seq _ _ _ _ _ _ Him) as Hseq. pose proof (go_lo _ _ _ _ Hg) as Hlo.
  pose proof (len_nonneg (mjoin cs ++ ls)). unfold room in Hr.
  rewrite (im_last _ _ _ _ _ _ Him), u64_add_small in Hl by (unfold is_u64, u64_max; lia).
  replace (seq g + 1) with (s + len (mjoin cs ++ ls)) in Hl by lia.
  fold (new_line g rec) in Hl. destruct Hg as [? ? Hs]. split; [done|done|]. unfold segs in *.
  apply shape_app in Hs as [Hcs Ho]. apply shape_app. split; [done|].
  rewrite len_app, end_hash_app, Z.add_assoc in Hl.
  destruct ls as [|l0 ls0]; cbn [app].
  - cbn in Hl |- *. change (len []) with 0 in Hl. rewrite Z.add_0_r in Hl. split; [done|]. split; [|done].
    destruct (Hh eq_refl) as [Ha Hb]. exists (new_line g rec). split; [done|].
    unfold new_line. rewrite (line_vof g rec Hc). split; [done|]. rewrite Hb.
    by rewrite (im_anchors _ _ _ _ _ _ Him), app_nil_r.
  - destruct Ho as (Hl0 & Hh0 & _).
    change (l0 :: ls0 ++ [new_line g rec]) with ((l0 :: ls0) ++ [new_line g rec]).
    split; [|split; [|done]].
    + apply linked_app. by split.
    + destruct Hh0 as (l & ? & ?). by exists l.
Qed.

Lemma take_snoc ls l (sync : bool) k : (k <= length ls)%nat ->
  take (if sync then S (length ls) else k) (ls ++ [l]) =
    if sync then ls ++ [l] else take k ls.
Proof.
  intros Hk. destruct sync; [rewrite firstn_all2; [done|rewrite length_app; cbn; lia]|].
  by rewrite take_app_le.
Qed.

Lemma take_snoc_prefix ls l (sync : bool) k : (k <= length ls)%nat ->
  exists r, take (if sync then S (length ls) else k) (ls ++ [l]) = take k ls ++ r.
Proof.
  intros Hk. rewrite take_snoc by done. destruct sync; [|exists []; by rewrite app_nil_r].
  exists (drop k ls ++ [l]). by rewrite app_assoc, take_drop.
Qed.

(** The disk with one more line, flushed or not. *)
Lemma disk_snoc s p cs ls k d h g rec sync :
  on_disk_inv s p cs ls k d h -> in_memory s p cs ls k g -> room 1 s cs ls -> next_record ls g rec ->
  let ls' := ls ++ [new_line g rec] in
  let k' := if sync : bool then S (length ls) else k in
  on_disk_inv s p cs ls' k'
    (put_open (unlines ls') (length (unlines (take k' ls'))) d) h.
Proof.
  intros Hd Him Hr Hn ls' k'. pose proof Hd as [Hg Hk Hc Ho Hsy He Ha Hh HF].
  destruct (take_snoc_prefix ls (new_line g rec) sync k Hk) as [r Er]. fold ls' k' in Er.
  split; cbn; try done.
  - by eapply good_snoc.
  - unfold k', ls'. rewrite length_app. cbn. destruct sync; lia.
  - rewrite Er, app_assoc. by apply explains_more.
  - unfold ls'. rewrite app_assoc. apply agrees_app. split; [done|]. apply agrees_below.
    intros x Hx. specialize (Hh x Hx). destruct (take_take_prefix ls k (length ls) Hk) as [r' Er'].
    rewrite take_ge in Er' by lia. rewrite Er', app_assoc, (len_app (mjoin cs ++ take k ls)).
    pose proof (len_nonneg r'). lia.
  - intros x Hx. specialize (Hh x Hx). rewrite Er, app_assoc, len_app. pose proof (len_nonneg r). lia.
  - rewrite Er, app_assoc. by apply has_floors_app.
Qed.

Lemma memory_snoc s p cs ls k g rec sync :
  (k <= length ls)%nat -> good s p cs ls ->
  in_memory s p cs ls k g -> room 1 s cs ls -> next_record ls g rec ->
  (ls = [] -> first g = s + len (mjoin cs)) ->
  in_memory s p cs (ls ++ [new_line g rec]) (if sync : bool then S (length ls) else k)
    (wrote (line_of g rec) (new_line g rec) sync g).
Proof.
  intros Hk Hg Him Hr [Hc Hrd _] Hf. pose proof (go_lo _ _ _ _ Hg) as Hlo. unfold room in Hr.
  pose proof (len_nonneg (mjoin cs ++ ls)). destruct Him as [I1 I2 I3 I4 I5 I6 I7].
  assert (Hu : u64_add (seq g) 1 = s + len (mjoin cs ++ ls)).
  { rewrite u64_add_small by (unfold is_u64, u64_max; lia). lia. }
  assert (E : mjoin cs ++ ls ++ [new_line g rec] = (mjoin cs ++ ls) ++ [new_line g rec]) by apply app_assoc.
  split; cbn [seq last anchors size closed first synced wrote]; rewrite ?E.
  - rewrite Hu, (len_app _ [new_line g rec]). change (len [new_line g rec]) with 1. lia.
  - by rewrite end_hash_snoc.
  - rewrite anchors_of_app, <- I3. cbn. unfold new_line. by rewrite (line_vof g rec Hc), Hrd.
  - rewrite I4, unlines_app, length_app. unfold new_line, unlines. cbn. rewrite app_nil_r, length_app. cbn. lia.
  - done.
  - intros _. destruct ls; [by apply Hf|by apply I6].
  - rewrite take_snoc by done. destruct sync; [|done]. rewrite E, Hu, end_hash_snoc, (len_app _ [_]).
    change (len [new_line g rec]) with 1. f_equal. lia.
Qed.
End life.
