(* ===== verification/ChainOps.v ===== *)
(** * The operations of the audit chain keep its invariant

    Each either ends with the invariant, or fails and leaves a disk the next
    [open] accepts; [open] gives the invariant; what a life promises. *)

From S2P Require Export ChainLife.
Open Scope Z_scope.

Section ops.
Context `{JsonTextOk} {sha : Sha256} (F : gmap string Anchor).
Implicit Types (ls : list (list char)) (cs : list (list (list char))).
Notation inv := (inv F).
Notation survives := (survives F).

Lemma crash_shorter d1 d2 m b d' :
  d_closed d1 = d_closed d2 -> d_synced d1 = d_synced d2 ->
  d_open d1 = Some (take m b) -> d_open d2 = Some b -> (d_synced d2 <= m)%nat ->
  crash d1 d' -> crash d2 d'.
Proof.
  intros Ec Es E1 E2 Hm Hc. destruct Hc as [d Hn|d b' n Hb Hn]; [congruence|].
  rewrite E1 in Hb. injection Hb as <-. rewrite take_take, Ec, Es. apply crash_cut; [done|lia].
Qed.

Lemma length_unlines_take k ls : (length (unlines (take k ls)) <= length (unlines ls))%nat.
Proof. rewrite <- (take_drop k ls) at 2. rewrite unlines_app, length_app. lia. Qed.

Lemma unlines_snoc ls l : unlines (ls ++ [l]) = unlines ls ++ l ++ [nl].
Proof. rewrite unlines_app. unfold unlines at 2. cbn. by rewrite app_nil_r. Qed.

(** What every operation says of the world it leaves. *)
Definition leaves {A} (n : Z) (r : result ChainError A) (w w' : World) (Q : Prop) : Prop :=
  sink w' = sink w /\ match r with Ok _ => Q | Err _ => survives n w' end.

Lemma write_spec n s p cs ls k w rec sync w' r :
  inv s p cs ls k w -> room (n + 1) s cs ls -> 0 <= n -> next_record ls (inner w) rec ->
  (ls = [] -> first (inner w) = s + len (mjoin cs)) ->
  write rec sync w = (w', r) ->
  leaves n r w w' (
    inv s p cs (ls ++ [new_line (inner w) rec]) (if sync then S (length ls) else k) w' /\
    closed (inner w') = closed (inner w) /\ store w' = store w /\ r = Ok (inner_head (inner w'))).
Proof.
  intros [Hd Hm] Hr Hn0 Hn Hf Hw.
  assert (Hr1 : room 1 s cs ls) by (eapply room_le; [|done]; lia).
  pose proof (disk_snoc F s p cs ls k (disk w) (store w) (inner w) rec sync Hd Hm Hr1 Hn) as Hd'.
  pose proof (disk_snoc F s p cs ls k (disk w) (store w) (inner w) rec false Hd Hm Hr1 Hn) as Hdf.
  cbn zeta in Hd', Hdf.
  pose proof (memory_snoc s p cs ls k (inner w) rec sync (di_k _ _ _ _ _ _ _ _ Hd)
    (di_good _ _ _ _ _ _ _ _ Hd) Hm Hr1 Hn Hf) as Hm'.
  pose proof (di_open _ _ _ _ _ _ _ _ Hd) as Ho. pose proof (di_sync _ _ _ _ _ _ _ _ Hd) as Hs.
  pose proof (di_k _ _ _ _ _ _ _ _ Hd) as Hk.
  assert (Ebytes : open_bytes (disk w) = unlines ls) by (unfold open_bytes; by rewrite Ho).
  revert Hw. unfold write, next_io. run_st. unfold on_disk, on_inner, modify.
  destruct (io w) as [|[|[left|]] io'] eqn:Eio; run_st; cbn [disk inner]; intros [= <- <-]; split; try done;
    cbn [disk inner set_disk set_inner store sink].
  - split_and!; [|done..]. rewrite Ebytes. split; [|exact Hm'].
    rewrite <- unlines_snoc. destruct sync; [|by rewrite Hs, <- (take_snoc ls (new_line (inner w) rec) false)].
    rewrite firstn_all2 in Hd' by (rewrite length_app; cbn; lia). exact Hd'.
  - split_and!; [|done..]. rewrite Ebytes. split; [|exact Hm'].
    rewrite <- unlines_snoc. destruct sync; [|by rewrite Hs, <- (take_snoc ls (new_line (inner w) rec) false)].
    rewrite firstn_all2 in Hd' by (rewrite length_app; cbn; lia). exact Hd'.
  - intros d' Hc. eapply crash_recoverable; [exact Hdf| |].
    + unfold room in *. rewrite app_assoc, (len_app _ [_]). change (len [_]) with 1. lia.
    + eapply (crash_shorter _ _ (length (unlines ls) + left) (unlines (ls ++ [new_line (inner w) rec]))); [| | | | |exact Hc]; cbn.
      * done.
      * rewrite Hs. by rewrite (take_snoc ls (new_line (inner w) rec) false).
      * rewrite Ebytes, unlines_snoc. f_equal. by rewrite take_app_add.
      * done.
      * rewrite (take_snoc ls (new_line (inner w) rec) false) by done. pose proof (length_unlines_take k ls). lia.
  - intros d' Hc. eapply (crash_recoverable F n s p cs ls k); [|by eapply room_le; [|exact Hr]; lia|exact Hc].
    rewrite Ebytes, (im_size _ _ _ _ _ _ Hm), Nat2Z.id, firstn_all. destruct Hd. by split.
Qed.

(** ** The head handed to the store *)

Lemma agrees_end x p pre post s :
  pre <> [] -> h_seq x = s + len pre - 1 -> h_hash x = end_hash p pre -> agrees (Some x) s (pre ++ post).
Proof.
  intros Hne Hs Hh. destruct pre as [|l pre] using rev_ind; [done|]. clear IHpre.
  rewrite len_app in Hs. change (len [l]) with 1 in Hs. rewrite end_hash_snoc in Hh.
  rewrite <- app_assoc. apply agrees_app. split; [|cbn; split].
  - assert (Hlt : forall ls s0, s0 + len ls <= h_seq x -> agrees (Some x) s0 ls).
    { induction ls as [|l0 ls IH]; intros s0 Hb; [done|]. rewrite len_cons in Hb.
      pose proof (len_nonneg ls). cbn. split; [intros h [= <-]; lia|]. apply IH. lia. }
    apply Hlt. lia.
  - intros h [= <-] _. done.
  - apply agrees_below. intros h [= <-]. lia.
Qed.

Lemma end_seq_prefix ls (k : nat) (cs : list (list (list char))) : (1 <= k <= length ls)%nat -> mjoin cs ++ take k ls <> [].
Proof. intros Hk E. apply app_eq_nil in E as [_ E]. destruct ls, k; cbn in *; lia || done. Qed.

Lemma put_store s p cs ls k w :
  inv s p cs ls k w -> (1 <= k)%nat -> inv s p cs ls k (set_store (Some (synced (inner w))) w).
Proof.
  intros [Hd Hm] Hk. split; [|done]. cbn. destruct Hd as [? Hkl ? ? ? ? ? ? ?]. split; try done.
  - destruct (take_take_prefix ls k (length ls) Hkl) as [r Er]. rewrite take_ge in Er by lia.
    rewrite Er, app_assoc. eapply agrees_end; [by apply end_seq_prefix|by rewrite (im_synced _ _ _ _ _ _ Hm)..].
  - intros x [= <-]. rewrite (im_synced _ _ _ _ _ _ Hm). cbn. lia.
Qed.

Lemma sync_all s p cs ls k w :
  inv s p cs ls k w ->
  inv s p cs ls (length ls)
    (set_inner (set_synced (inner_head (inner w)) (inner w)) (set_disk (sync_open (disk w)) w)).
Proof.
  intros [Hd Hm]. destruct Hd as [Hg Hk Hc Ho Hsy He Ha Hh HF], Hm as [I1 I2 I3 I4 I5 I6 I7].
  destruct (take_take_prefix ls k (length ls) Hk) as [r Er]. rewrite firstn_all in Er.
  split; split; cbn; rewrite ?firstn_all; try done.
  - unfold open_bytes. by rewrite Ho.
  - rewrite Er, app_assoc. by apply explains_more.
  - intros x Hx. specialize (Hh x Hx). rewrite Er, app_assoc, len_app. pose proof (len_nonneg r). lia.
  - rewrite Er, app_assoc. by apply has_floors_app.
  - unfold inner_head. by rewrite I1, I2.
Qed.

Lemma put_head_spec s p cs ls k w b now w' r :
  inv s p cs ls k w -> (1 <= k)%nat -> put_head b now w = (w', r) ->
  r = Ok tt /\ sink w' = sink w /\ closed (inner w') = closed (inner w) /\
  inner_head (inner w') = inner_head (inner w) /\
  exists k', (k <= k')%nat /\ inv s p cs ls k' w'.
Proof.
  intros Hi Hk. unfold put_head. destruct (sink w) eqn:Esk; cbn [negb]; [|intros [= <- <-]; split_and!; try done; by exists k].
  destruct (_ && _); [intros [= <- <-]; split_and!; try done; by exists k|].
  assert (Hi1 : inv s p cs ls k (set_inner (set_put_ms now (inner w)) w)).
  { destruct Hi as [Hd Hm]. split; [done|]. by destruct Hm. }
  pose proof (di_k _ _ _ _ _ _ _ _ (proj1 Hi)) as Hkl.
  run_st. unfold on_inner, modify, next_io, on_disk, modify. cbn [inner set_inner disk synced set_put_ms seq io].
  assert (Hi2 : inv s p cs ls (length ls) (set_inner (set_synced (inner_head (inner w)) (set_put_ms now (inner w)))
      (set_disk (sync_open (disk w)) (set_inner (set_put_ms now (inner w)) w)))) by (apply sync_all in Hi1; exact Hi1).
  destruct (h_seq (synced (inner w)) <? seq (inner w)).
  - cbn. destruct (io w) as [|[|left] io']; run_st; cbn; intros [= <- <-]; split_and!; try done.
    + exists (length ls). split; [done|]. apply (put_store _ _ _ _ _ _ Hi2). lia.
    + exists (length ls). split; [done|]. apply (put_store _ _ _ _ _ _ Hi2). lia.
    + exists k. split; [done|]. exact (put_store _ _ _ _ _ _ Hi1 Hk).
  - run_st. cbn. intros [= <- <-]. split_and!; try done. exists k. split; [done|].
    exact (put_store _ _ _ _ _ _ Hi1 Hk).
Qed.

(** ** Retention *)

Lemma anchors_floors_ok s p cs ls k g : in_memory s p cs ls k g -> floors_ok (anchors g).
Proof. intros Hm. rewrite (im_anchors _ _ _ _ _ _ Hm). apply anchors_of_ok. by intros ? ? ?%lookup_empty_Some. Qed.

Lemma next_header s p cs ls k g now : in_memory s p cs ls k g -> next_record ls g (header_record now g).
Proof.
  intros Hm. pose proof (anchors_floors_ok _ _ _ _ _ _ Hm) as Hok.
  split; [apply canonical_header|by apply header_reads_as|]. intros _. split; [apply header_action|].
  by rewrite !header_anchors by (try done; apply map_empty_subseteq).
Qed.

Lemma next_plain ls g rec :
  ls <> [] -> canonical rec = true -> action_of (VObj (record_object rec)) <> SEGMENT -> next_record ls g rec.
Proof. intros Hne Hc Ha. split; [done|by apply plain_reads_as|done]. Qed.

Lemma filter_files s s0 cs : s0 < s -> List.filter (fun q => negb (q.1 =? s0)) (files s cs) = files s cs.
Proof.
  revert s. induction cs as [|a cs IH]; intros s Hs; [done|]. cbn. destruct (Z.eqb_spec s s0); [lia|]. cbn.
  rewrite IH; [done|]. pose proof (len_nonneg a). lia.
Qed.

Definition without (w : World) (start : Z) (l : list Closed) : World :=
  set_inner (set_closed l (inner w))
    (set_disk (mkDisk (List.filter (fun q => negb (q.1 =? start)) (d_closed (disk w)))
                 (d_open (disk w)) (d_synced (disk w))) w).

Lemma inv_without s p a cs ls w l :
  inv s p (a :: cs) ls (length ls) w -> ls <> [] ->
  mkHead (s + len a - 1) (end_hash p a) ∈ retired_of (mjoin cs ++ ls) ->
  closed_key <$> l = heads (s + len a) (end_hash p a) cs ->
  inv (s + len a) (end_hash p a) cs ls (length ls) (without w s l).
Proof.
  intros [Hd Hm] Hne Hret Hl. destruct Hd as [Hg Hk Hc Ho Hsy He Ha Hh HF], Hm as [I1 I2 I3 I4 I5 I6 I7].
  rewrite !firstn_all in *. rewrite mjoin_cons, <- app_assoc in *.
  assert (Hla : 0 < len a).
  { destruct Hg as [_ _ Hs]. cbn in Hs. destruct Hs as (_ & Hh0 & _). apply header_ok_nonempty in Hh0.
    destruct a; [done|]. rewrite len_cons. pose proof (len_nonneg a). lia. }
  pose proof (go_lo _ _ _ _ Hg) as Hlo.
  assert (Hanc : anchors_of (a ++ mjoin cs ++ ls) ∅ = anchors_of (mjoin cs ++ ls) ∅).
  { destruct Hg as [_ _ Hs]. cbn in Hs. destruct Hs as (_ & _ & Hs). rewrite anchors_of_app, <- !mjoin_segs.
    fold (segs cs ls) in Hs. destruct (segs cs ls) as [|b ss] eqn:Eb.
    { unfold segs in Eb. apply app_eq_nil in Eb as [_ Eb]. by destruct ls. }
    destruct Hs as (_ & Hh0 & _). rewrite mjoin_cons, !anchors_of_app. by rewrite (header_ok_anchors _ _ Hh0). }
  rewrite !len_app in *. rewrite !end_hash_app in *. rewrite Hanc in *.
  split; split; cbn; rewrite ?firstn_all, ?len_app, ?end_hash_app; try done; try lia.
  - destruct Hg as [_ _ Hs]. cbn in Hs. destruct Hs as (_ & _ & Hs). split; [lia|lia|].
    by eapply shape_reset.
  - rewrite Hc. cbn. rewrite Z.eqb_refl. cbn. apply filter_files. lia.
  - intros _. done.
  - by apply agrees_app in Ha as [_ Ha].
  - intros x Hx. specialize (Hh x Hx). lia.
  - unfold has_floors in *. by rewrite Hanc in HF.
  - intros Hx. rewrite (I6 Hx). lia.
  - rewrite I7. f_equal. lia.
Qed.

Lemma call_cases w w' r :
  call w = (w', r) ->
  disk w' = disk w /\ inner w' = inner w /\ sink w' = sink w /\ store w' = store w /\
  (r = Ok tt \/ r = Err IoError).
Proof.
  unfold call, next_io. run_st. destruct (io w) as [|[|left] io']; run_st; intros [= <- <-]; auto 10.
Qed.

Lemma inv_ext s p cs ls k w w' :
  disk w' = disk w -> inner w' = inner w -> store w' = store w -> inv s p cs ls k w -> inv s p cs ls k w'.
Proof. unfold ChainLife.inv. intros -> -> ->. done. Qed.

(** The invariant of a chain with a header, and room for [n] lines. *)
Definition alive (n : Z) (w : World) : Prop :=
  exists s p cs ls k, inv s p cs ls k w /\ (1 <= k)%nat /\ room n s cs ls.

Lemma alive_survives n w : alive n w -> survives n w.
Proof. intros (s & p & cs & ls & k & Hi & _ & Hr). by eapply inv_survives. Qed.

Lemma retire_loop_spec o now hz l n w w' r :
  closed (inner w) = l -> alive (n + 1) w -> 0 <= n -> retire_loop o now hz l w = (w', r) ->
  leaves n r w w' (alive (n + 1) w').
Proof.
  revert w w' r. induction l as [|c l IH]; intros w w' r Hcl Hal Hn; cbn [retire_loop]; [by intros [= <- <-]|].
  destruct (hz <=? c_ts c); [by intros [= <- <-]|].
  destruct Hal as (s & p & cs & ls & k & Hi & Hk & Hr).
  pose proof (im_closed _ _ _ _ _ _ (proj2 Hi)) as Hck. rewrite Hcl in Hck.
  destruct cs as [|a cs]; [done|]. cbn in Hck. injection Hck as Hs0 Hlast Hck.
  assert (Hne : ls <> []) by (pose proof (di_k _ _ _ _ _ _ _ _ (proj1 Hi)); destruct ls; [cbn in *; lia|done]).
  run_st. destruct (write (retired_record o now c) true w) as [w1 r1] eqn:E1.
  apply (write_spec n s p (a :: cs) ls k) in E1; [|done|done|done| |done].
  2: { apply next_plain; [done|apply canonical_retired|]. by rewrite retired_action. }
  destruct E1 as [Hsk E1]. destruct r1 as [hd|e]; [|intros [= <- <-]; done].
  destruct E1 as (Hi1 & Hcl1 & Hst1 & _).
  set (ls1 := ls ++ [new_line (inner w) (retired_record o now c)]) in *.
  assert (Hlen : S (length ls) = length ls1) by (unfold ls1; rewrite length_app; cbn; lia).
  rewrite Hlen in Hi1. clear Hlen.
  assert (Hls1 : len (mjoin cs ++ ls1) = len (mjoin cs ++ ls) + 1)
    by (unfold ls1; rewrite !len_app; change (len [_]) with 1; lia).
  destruct (call w1) as [w2 r2] eqn:E2. apply call_cases in E2 as (D2 & I2 & K2 & S2 & [->| ->]).
  2: { intros [= <- <-]. split; [congruence|]. intros d' Hc.
       eapply (crash_recoverable F); [exact (proj1 (inv_ext _ _ _ _ _ _ _ D2 I2 S2 Hi1))| |exact Hc].
       unfold room in *. rewrite mjoin_cons, !len_app in *. cbn [length] in *. lia. }
  unfold on_disk, on_inner, modify. cbn.
  pose proof (inv_ext _ _ _ _ _ _ _ D2 I2 S2 Hi1) as Hi2.
  apply (inv_without s p a cs ls1 w2 l) in Hi2; [|by destruct ls| |done].
  2: { unfold ls1. rewrite app_assoc, retired_of_app. apply elem_of_app. right.
       unfold retired_of, new_line. cbn. rewrite (line_vof _ _ (canonical_retired o now c)), retired_names, Hlast.
       set_solver. }
  rewrite <- Hs0 in Hi2. unfold without in Hi2. cbn in Hi2.
  destruct (retire_loop o now hz l _) as [w3 r3] eqn:E3. intros E.
  apply IH in E3; [|done| |done].
  - destruct E3 as [Hsk3 E3]. destruct r3; injection E as <- <-; (split; [cbn in Hsk3; congruence|done]).
  - eexists _, _, cs, ls1, _. split; [exact Hi2|]. split; [unfold ls1; rewrite length_app; cbn; lia|].
    unfold room in *. rewrite mjoin_cons, !len_app in *. cbn [length] in *. lia.
Qed.

Lemma retire_spec o now n w w' r :
  alive (n + 1) w -> 0 <= n -> retire o now w = (w', r) -> leaves n r w w' (alive (n + 1) w').
Proof. unfold retire. run_st. intros. by eapply retire_loop_spec. Qed.

(** ** Rotation *)

Lemma header_spec n s p cs w now w' r :
  inv s p cs [] 0 w -> room (n + 1) s cs [] -> 0 <= n -> header now w = (w', r) ->
  leaves n r w w' (alive n w').
Proof.
  intros Hi Hr Hn. unfold header, on_inner, modify. run_st.
  set (w0 := set_inner _ w).
  assert (Hseq : first (inner w0) = s + len (mjoin cs)).
  { cbn. pose proof (go_lo _ _ _ _ (di_good _ _ _ _ _ _ _ _ (proj1 Hi))) as Hlo.
    rewrite (im_seq _ _ _ _ _ _ (proj2 Hi)). unfold room in Hr. rewrite app_nil_r in *.
    pose proof (len_nonneg (mjoin cs)). rewrite u64_add_small by (unfold is_u64, u64_max; lia). lia. }
  assert (Hi0 : inv s p cs [] 0 w0) by (destruct Hi as [? Hm]; split; [done|]; by destruct Hm).
  destruct (write (header_record now (inner w0)) true w0) as [w1 r1] eqn:E1.
  eapply (write_spec n) in E1; [|done|done|done|by eapply next_header; apply Hi0|done].
  destruct E1 as [Hsk E1]. destruct r1 as [hd|e]; intros [= <- <-]; [|done]. split; [done|].
  destruct E1 as (Hi1 & _). eexists s, p, cs, _, _. split; [exact Hi1|]. split; [cbn; lia|].
  unfold room in *. rewrite !len_app in *. change (len []) with 0 in *. change (len [_]) with 1. lia.
Qed.

(** The disk between the rename and the new segment. *)
Lemma renamed n s p cs ls k w :
  inv s p cs ls k w -> (1 <= k)%nat -> room (n + 1) s cs ls ->
  good s p (cs ++ [ls]) [] /\ put_file (first (inner w)) (unlines ls) (files s cs) = files s (cs ++ [ls]) /\
  explains s p (mjoin (cs ++ [ls])) /\ agrees (store w) s (mjoin (cs ++ [ls])) /\
  (forall x, store w = Some x -> h_seq x <= s + len (mjoin (cs ++ [ls])) - 1) /\
  room n s (cs ++ [ls]) [] /\ has_floors F (mjoin (cs ++ [ls])).
Proof.
  intros [Hd Hm] Hk Hr. destruct Hd as [Hg Hkl Hc Ho Hsy He Ha Hh HF]. rewrite !mjoin_snoc.
  assert (Hne : ls <> []) by (destruct ls; [cbn in *; lia|done]).
  destruct (take_take_prefix ls k (length ls) Hkl) as [q Eq]. rewrite firstn_all in Eq.
  split_and!; try done.
  - destruct Hg as [? ? Hs]. split; [done..|]. unfold segs in *. rewrite app_nil_r. by destruct ls.
  - rewrite (im_first _ _ _ _ _ _ Hm Hne), files_app. cbn. apply put_file_last.
    intros x Hx%files_keys; [lia|]. destruct Hg as [_ _ Hs]. apply shape_app in Hs as [Hs _].
    by eapply shape_nonempty.
  - rewrite Eq, app_assoc. by apply explains_more.
  - intros x Hx. specialize (Hh x Hx). rewrite Eq, app_assoc, len_app. pose proof (len_nonneg q). lia.
  - unfold room in *. rewrite mjoin_snoc, app_nil_r, length_app. cbn. lia.
  - rewrite Eq, app_assoc. by apply has_floors_app.
Qed.

Lemma rotate_spec o now n w w' r :
  alive (n + 3) w -> 0 <= n -> rotate o now w = (w', r) -> leaves n r w w' (alive (n + 1) w').
Proof.
  intros (s & p & cs & ls & k & Hi & Hk & Hr) Hn. unfold rotate, on_disk, on_inner, modify. run_st.
  assert (Hsv : forall w0, disk w0 = disk w -> store w0 = store w -> survives n w0).
  { intros w0 Ed Es d' Hc. rewrite Ed in Hc. rewrite Es. eapply inv_survives; [exact Hi| |exact Hc].
    eapply room_le; [|done]. lia. }
  destruct (call w) as [w1 r1] eqn:E1. apply call_cases in E1 as (D1 & I1 & K1 & S1 & [->| ->]).
  2: { intros [= <- <-]. split; [congruence|by apply Hsv]. }
  pose proof (inv_ext _ _ _ _ _ _ _ D1 I1 S1 Hi) as Hi1. apply sync_all in Hi1.
  assert (Hsv1 : survives n (set_disk (sync_open (disk w1)) w1)).
  { intros d' Hc. eapply (crash_recoverable F n); [exact (proj1 Hi1)| |exact Hc].
    eapply room_le; [|done]. lia. }
  destruct (call (set_disk (sync_open (disk w1)) w1)) as [w2 r2] eqn:E2.
  apply call_cases in E2 as (D2 & I2 & K2 & S2 & [->| ->]).
  2: { intros [= <- <-]. split; [cbn in *; congruence|]. intros d' Hc. rewrite D2 in Hc. rewrite S2.
       exact (Hsv1 d' Hc). }
  assert (Hk1 : (1 <= length ls)%nat) by (pose proof (di_k _ _ _ _ _ _ _ _ (proj1 Hi)); lia).
  destruct (renamed (n + 2) _ _ _ _ _ _ Hi1 Hk1) as (G1 & G2 & G3 & G4 & G5 & G6 & G7);
    [by eapply room_le; [|done]; lia|].
  pose proof (im_seq _ _ _ _ _ _ (proj2 Hi)) as J1. pose proof (im_last _ _ _ _ _ _ (proj2 Hi)) as J2.
  pose proof (im_anchors _ _ _ _ _ _ (proj2 Hi)) as J3. pose proof (im_closed _ _ _ _ _ _ (proj2 Hi)) as J5.
  pose proof (di_closed _ _ _ _ _ _ _ _ (proj1 Hi)) as J6. pose proof (di_open _ _ _ _ _ _ _ _ (proj1 Hi)) as J7.
  cbn in I2, S2, D2, K2, G2, G4, G5. rewrite I1 in I2. rewrite S1 in S2, G4, G5. rewrite D1 in D2.
  unfold open_bytes. rewrite !D2. cbn. unfold open_bytes. rewrite !J7. cbn. rewrite !I2, J6.
  rewrite I1 in G2. rewrite G2.
  match goal with |- context [call ?x] => set (w3 := x) end.
  destruct (call w3) as [w4 r4] eqn:E4. apply call_cases in E4 as (D4 & I4 & K4 & S4 & [->| ->]).
  2: { intros [= <- <-]. split; [unfold w3 in K4; cbn in K4; congruence|]. intros d' Hc. rewrite S4. cbn. rewrite S2.
       rewrite D4 in Hc. inversion Hc as [d Hd|d b m Hb]; subst; [|done].
       exists s, p, (cs ++ [ls]), [], 0%nat, [].
       split; rewrite ?take_nil, ?app_nil_r; try done; [by right|set_solver|eapply room_le; [|done]; lia]. }
  match goal with |- context [header now ?x] => set (w5 := x) end.
  assert (Hi5 : inv s p (cs ++ [ls]) [] 0 w5).
  { split; split; cbn; rewrite ?take_nil, ?app_nil_r, ?mjoin_snoc in *; try done;
      rewrite ?D4, ?S4, ?I4; cbn; rewrite ?S2, ?J1, ?J2; try done.
    - rewrite fmap_app, J5, heads_app. f_equal. cbn [fmap list_fmap heads]. unfold closed_key. f_equal. cbn [c_start c_last].
      rewrite (im_first _ _ _ _ _ _ (proj2 Hi)) by (destruct ls; [cbn in *; lia|done]).
      unfold inner_head. cbn [seq last set_synced]. rewrite J1, J2, len_app, end_hash_app, Z.add_assoc. done.
    - unfold inner_head. by rewrite J1, J2. }
  destruct (header now w5) as [w6 r6] eqn:E6. eapply (header_spec (n + 1)) in E6; [|done|by replace (n + 1 + 1) with (n + 2) by lia|lia].
  destruct E6 as [K6 E6]. destruct r6 as [[]|e].
  2: { intros [= <- <-]. split; [unfold w5, w3 in *; cbn in *; congruence|]. by eapply survives_le; [|done]; lia. }
  destruct (call w6) as [w7 r7] eqn:E7. apply call_cases in E7 as (D7 & I7 & K7 & S7 & [->| ->]).
  2: { intros [= <- <-]. split; [unfold w5, w3 in *; cbn in *; congruence|]. intros d' Hc. rewrite D7 in Hc. rewrite S7.
       eapply (survives_le F (n + 1)); [lia|by apply alive_survives|done]. }
  assert (A7 : alive (n + 1) w7).
  { destruct E6 as (s' & p' & cs' & ls' & k' & ? & ?). exists s', p', cs', ls', k'. split; [|done].
    by eapply inv_ext. }
  destruct (retire o now w7) as [w8 r8] eqn:E8. apply (retire_spec o now n) in E8 as [K8 E8]; [|done|done].
  destruct r8; intros [= <- <-]; (split; [unfold w5, w3 in *; cbn in *; congruence|done]).
Qed.

(** ** Appending *)

Definition plain (rec : Value) : Prop :=
  canonical rec = true /\ action_of (VObj (record_object rec)) <> SEGMENT.

(** Everything is on the disk. *)
Definition flushed (n : Z) (w : World) : Prop :=
  exists s p cs ls, inv s p cs ls (length ls) w /\ ls <> [] /\ room n s cs ls.

Lemma append_write now rec sync n w w' r :
  alive (n + 1) w -> 0 <= n -> plain rec ->
  (h ← write rec sync; _ ← put_head sync now; mret h : op Head) w = (w', r) ->
  leaves n r w w' (alive n w' /\ (sync = true ->
    flushed n w' /\ anchors (inner w') = line_anchors (line_of (inner w) rec) (anchors (inner w)))).
Proof.
  intros (s & p & cs & ls & k & Hi & Hk & Hr) Hn [Hc Ha]. run_st.
  assert (Hne : ls <> []) by (pose proof (di_k _ _ _ _ _ _ _ _ (proj1 Hi)); destruct ls; [cbn in *; lia|done]).
  destruct (write rec sync w) as [w1 r1] eqn:E1.
  eapply (write_spec n) in E1; [|done|done|done|by apply next_plain|done].
  destruct E1 as [K1 E1]. destruct r1 as [h|e]; [|intros [= <- <-]; done]. destruct E1 as (Hi1 & _ & _ & _).
  destruct (put_head sync now w1) as [w2 r2] eqn:E2.
  eapply put_head_spec in E2; [|done|destruct sync; lia].
  destruct E2 as (-> & K2 & _ & _ & k' & Hk' & Hi2). intros [= <- <-]. split; [congruence|].
  pose proof (di_k _ _ _ _ _ _ _ _ (proj1 Hi2)) as Hkl.
  assert (Hr2 : room n s cs (ls ++ [new_line (inner w) rec])).
  { unfold room in *. rewrite !len_app in *. change (len [_]) with 1. lia. }
  split.
  - eexists s, p, cs, _, k'. split; [exact Hi2|]. split; [destruct sync; lia|done].
  - intros ->. split.
    + eexists s, p, cs, _. split; [|split; [|exact Hr2]]; [|by destruct ls].
      replace (length (ls ++ [new_line (inner w) rec])) with k'; [exact Hi2|].
      rewrite length_app in *. cbn in *. lia.
    + rewrite (im_anchors _ _ _ _ _ _ (proj2 Hi2)), (im_anchors _ _ _ _ _ _ (proj2 Hi)), app_assoc, anchors_of_app.
      cbn. unfold new_line. by rewrite (line_vof _ _ Hc).
Qed.

Lemma alive_floors n w : alive n w -> floors_le F (anchors (inner w)).
Proof.
  intros (s & p & cs & ls & k & [Hd Hm] & _). rewrite (im_anchors _ _ _ _ _ _ Hm).
  destruct (take_take_prefix ls k (length ls) (di_k _ _ _ _ _ _ _ _ Hd)) as [q Eq]. rewrite firstn_all in Eq.
  rewrite Eq, app_assoc. apply has_floors_app, Hd.
Qed.

Lemma alive_le n n' w : n' <= n -> alive n w -> alive n' w.
Proof.
  intros Hn (s & p & cs & ls & k & ? & ? & ?). exists s, p, cs, ls, k. split_and!; [done..|by eapply room_le].
Qed.

Lemma append_spec o now rec sync n w w' r :
  alive (n + 3) w -> 0 <= n -> plain rec -> append o now rec sync w = (w', r) ->
  leaves n r w w' (alive n w' /\ (sync = true -> flushed n w' /\
    exists g, floors_ok (anchors g) /\ floors_le F (anchors g) /\ anchors (inner w') = line_anchors (line_of g rec) (anchors g))).
Proof.
  intros Hal Hn Hp. unfold append. run_st.
  assert (Hnext : forall w1, sink w1 = sink w -> alive (n + 1) w1 ->
    (h ← write rec sync; _ ← put_head sync now; mret h : op Head) w1 = (w', r) ->
    leaves n r w w' (alive n w' /\ (sync = true -> flushed n w' /\
      exists g, floors_ok (anchors g) /\ floors_le F (anchors g) /\ anchors (inner w') = line_anchors (line_of g rec) (anchors g)))).
  { intros w1 K1 A1 E1. apply (append_write now rec sync n) in E1 as [K2 E2]; [|done..].
    split; [congruence|]. destruct r; [|done]. destruct E2 as [A2 E2]. split; [done|].
    intros Hs. destruct (E2 Hs) as [Hf Ean]. split; [done|]. exists (inner w1).
    split; [|split; [by eapply alive_floors|done]].
    destruct A1 as (s & p & cs & ls & k & [_ Hm] & _). by eapply anchors_floors_ok. }
  destruct (rotate_at o <=? size (inner w)).
  - destruct (rotate o now w) as [w1 r1] eqn:E1. apply (rotate_spec o now n) in E1 as [K1 E1]; [|done|done].
    destruct r1 as [[]|e]; [|intros [= <- <-]; done]. by apply Hnext.
  - run_st. apply Hnext; [done|]. by eapply alive_le; [|done]; lia.
Qed.
End ops.

Lemma merge_max a b c : merge (merge a b) c = merge a (merge b c).
Proof.
  destruct a as [[ae|] ar], b as [[be|] br], c as [[ce|] cr]; unfold merge; cbn; by rewrite ?Z.max_assoc.
Qed.
Lemma merge_comm a b : merge a b = merge b a.
Proof.
  destruct a as [[ae|] ar], b as [[be|] br]; unfold merge; cbn; by rewrite ?(Z.max_comm be ae), (Z.max_comm br ar).
Qed.
Lemma merge_le_mono a b c : merge b a = b -> merge (merge b c) (merge a c) = merge b c.
Proof.
  intros E. rewrite (merge_comm a c), <- merge_max, (merge_max b c c), merge_same, merge_max, (merge_comm c a), <- merge_max.
  by rewrite E.
Qed.

Lemma merge_entry_mono g a m m' :
  floors_ok m' -> floors_le m m' -> floors_le (merge_entry g a m) (merge_entry g a m').
Proof.
  intros Hok Hle g' b. unfold merge_entry. destruct (decide (g = g')) as [<-|Hn].
  - rewrite !lookup_insert_eq. intros [= <-]. eexists. split; [done|]. apply merge_le_mono.
    destruct (m !! g) as [x|] eqn:E; cbn.
    + destruct (Hle g x E) as (y & -> & ?). done.
    + destruct (m' !! g) as [y|] eqn:Ey; cbn; [|apply merge_same].
      rewrite merge_comm. by apply merge_default, (Hok g).
  - rewrite !lookup_insert_ne by done. apply Hle.
Qed.
