(* ===== verification/ChainOpen.v ===== *)
(** * Opening the audit chain, and its lives

    [open] takes every disk a crash can leave to the invariant of
    [ChainLife]; a history of openings, appends and crashes never reaches a
    disk that is refused; a floor once anchored is in every later register. *)

From S2P Require Export ChainOps.
Open Scope Z_scope.

Section open_.
Context `{JsonTextOk} {sha : Sha256} (F : gmap string Anchor).
Implicit Types (ls : list (list char)) (cs : list (list (list char))).
Notation inv := (inv F).
Notation survives := (survives F).
Notation alive := (alive F).
Notation recoverable := (recoverable F).

(** ** What is read *)

Lemma empty_first s p cs ls :
  1 <= s -> explains s p (mjoin cs ++ ls) -> mjoin cs ++ ls = [] -> s = 1.
Proof.
  intros Hlo He E. rewrite E in He. destruct (Z.eq_dec s 1) as [|Hn]; [done|].
  assert (Hin : mkHead (s - 1) p ∈ retired_of []) by (apply He; lia). cbn in Hin. set_solver.
Qed.

Lemma read_seq h s p cs ls :
  1 <= s -> explains s p (mjoin cs ++ ls) ->
  w_seq (after h s p walk_default (mjoin cs ++ ls)) = s + len (mjoin cs ++ ls) - 1.
Proof.
  intros Hlo He. destruct (mjoin cs ++ ls) as [|l a] eqn:E.
  - pose proof (empty_first s p cs ls Hlo) as Hs. rewrite E in Hs. rewrite (Hs He eq_refl). done.
  - by apply after_last.
Qed.

Lemma read_last h s p cs ls :
  good s p cs ls -> explains s p (mjoin cs ++ ls) ->
  hex (default ZERO (w_last (after h s p walk_default (mjoin cs ++ ls)))) = end_hash p (mjoin cs ++ ls) /\
  walk_head (after h s p walk_default (mjoin cs ++ ls))
    = mkHead (s + len (mjoin cs ++ ls) - 1) (end_hash p (mjoin cs ++ ls)).
Proof.
  intros [Hlo Hgen _] He. unfold walk_head. rewrite read_seq by done.
  destruct (mjoin cs ++ ls) as [|l a] eqn:E.
  - pose proof (empty_first s p cs ls Hlo) as Hs. rewrite E in Hs. rewrite (Hgen (Hs He eq_refl)), (Hs He eq_refl). done.
  - assert (Hne : l :: a <> []) by done. destruct (after_last h s p walk_default (l :: a) Hne) as [_ Hl].
    destruct (w_last (after h s p walk_default (l :: a))) as [x|]; [|done].
    injection Hl as Hl. cbn [default from_option id]. by rewrite Hl.
Qed.

Lemma tail_ok h s p cs ls :
  1 <= s -> explains s p (mjoin cs ++ ls) ->
  (forall x, h = Some x -> h_seq x <= s + len (mjoin cs ++ ls) - 1) ->
  check_tail (after h s p walk_default (mjoin cs ++ ls)) h = Ok tt.
Proof.
  intros Hlo He Hh. unfold check_tail. destruct h as [x|]; [|done]. rewrite read_seq by done.
  specialize (Hh x eq_refl). destruct (w_head_seen _); [done|]. cbn [negb andb].
  assert (s + len (mjoin cs ++ ls) - 1 <? h_seq x = false) as -> by lia. done.
Qed.

Lemma oldest_ok h s p cs ls :
  1 <= s < 2 ^ 64 -> explains s p (mjoin cs ++ ls) ->
  check_oldest (after h s p walk_default (mjoin cs ++ ls)) = Ok tt.
Proof.
  intros Hlo He. unfold check_oldest, explained. rewrite after_oldest, after_retired. cbn [w_last w_oldest walk_default].
  destruct (mjoin cs ++ ls) as [|l a]; [done|].
  destruct (Z.ltb_spec 1 s) as [Hs|]; [|done]. cbn [negb orb].
  assert (existsb (fun r => (u64_add (h_seq r) 1 =? s) && bool_decide (h_hash r = p))
    (w_retired walk_default ++ retired_of (l :: a)) = true) as ->; [|done].
  apply existsb_exists. exists (mkHead (s - 1) p). split; [apply list_elem_of_In; cbn; by apply He|].
  cbn. rewrite bool_decide_eq_true_2 by done. rewrite u64_add_small by (unfold is_u64, u64_max; lia).
  rewrite andb_true_r. lia.
Qed.

Lemma first_line_seq s p ls d : ls <> [] -> linked s p ls -> first_seq ls d = s.
Proof.
  destruct ls as [|l ls]; [done|]. intros _ [(_ & [v Hv] & Hs & _) _]. unfold first_seq, seq_of, vof in *.
  rewrite Hv in *. cbn in *. by rewrite Hs.
Qed.

Definition read_as (s : Z) (p : string) cs ls (rest : list char) (h : option Head) (r : Reading) : Prop :=
  r_walk r = after h s p walk_default (mjoin cs ++ ls) /\ closed_key <$> r_closed r = heads s p cs /\
  r_size r = Z.of_nat (length (unlines ls)) /\
  r_repaired r = match rest with [] => None | _ => Some (Z.of_nat (length rest)) end /\
  r_current r = match ls with [] => false | _ => true end /\
  (ls <> [] -> r_first r = s + len (mjoin cs)).

Lemma verify_ok n d h s p cs ls rest :
  1 <= n -> good s p cs ls -> d_closed d = files s cs ->
  (d_open d = Some (unlines ls ++ rest) \/ (d_open d = None /\ ls = [] /\ rest = [])) ->
  nl ∉ rest -> explains s p (mjoin cs ++ ls) -> agrees h s (mjoin cs ++ ls) ->
  (forall x, h = Some x -> h_seq x <= s + len (mjoin cs ++ ls) - 1) -> room n s cs ls ->
  exists r, verify d h = Ok r /\ read_as s p cs ls rest h r.
Proof.
  intros Hn Hg Hc Ho Hrest He Ha Hh Hr. unfold verify, read_chain, room in *. rewrite Hc.
  pose proof (go_lo _ _ _ _ Hg) as Hlo. pose proof Hg as [_ Hgen Hs]. unfold segs in Hs.
  apply shape_app in Hs as [Hs Hso].
  pose proof Ha as [Ha1 Ha2]%agrees_app. pose proof (len_nonneg ls). pose proof (len_nonneg (mjoin cs)).
  assert (Hat : at_ walk_default s p) by done.
  pose proof (tail_ok h s p cs ls Hlo He Hh) as Ht.
  assert (Hold : check_oldest (after h s p walk_default (mjoin cs ++ ls)) = Ok tt).
  { apply oldest_ok; [|done]. rewrite len_app in Hr. lia. }
  rewrite len_app in Hr.
  destruct (walk_closed_ok walk_default s p ∅ cs h) as (cl & -> & Hk); [done|done|lia|lia|done|]. cbn.
  destruct Ho as [-> | (-> & -> & ->)].
  - rewrite lines_of_unlines by (try done; by eapply good_nl).
    destruct (walk_lines_ok (after h s p walk_default (mjoin cs)) OpenFile 1 ls (s + len (mjoin cs))
      (end_hash p (mjoin cs)) None h 0) as [ts E];
      [by apply at_after|pose proof (good_linked _ _ _ _ Hg) as Hl; by apply linked_app in Hl as [_ ?]|lia|lia|done| |lia|].
    { intros _ Hne. split; [|done]. destruct ls; [done|]. destruct Hso as (_ & (x & ? & ? & _) & _). by exists x. }
    rewrite E. cbn. rewrite <- after_app, Ht. cbn. rewrite Hold. cbn. eexists. split; [done|].
    split_and!; cbn; try done.
    + rewrite length_app. lia.
    + intros Hne. eapply first_line_seq; [done|]. pose proof (good_linked _ _ _ _ Hg) as Hl.
      by apply linked_app in Hl as [_ ?].
  - rewrite app_nil_r in *. cbn. rewrite Ht. cbn. rewrite Hold. cbn. eexists. split; [done|].
    split_and!; cbn; try done. by rewrite app_nil_r.
Qed.

Lemma inner_of_ok s p cs ls rest h r :
  good s p cs ls -> explains s p (mjoin cs ++ ls) -> read_as s p cs ls rest h r ->
  in_memory s p cs ls (length ls) (inner_of r).
Proof.
  intros Hg He (Hw & Hc & Hs & _ & _ & Hf). pose proof (go_lo _ _ _ _ Hg) as Hlo.
  destruct (read_last h s p cs ls Hg He) as [R1 R2].
  split; cbn [inner_of seq last anchors size closed first synced]; rewrite ?Hw; try done.
  - by apply read_seq.
  - by rewrite after_anchors.
  - by rewrite firstn_all.
Qed.

(** ** Opening *)

Lemma explains_all s p cs ls k : explains s p (mjoin cs ++ take k ls) -> explains s p (mjoin cs ++ ls).
Proof. intros He. rewrite <- (take_drop k ls), app_assoc. by apply explains_more. Qed.
Lemma floors_all cs ls k : has_floors F (mjoin cs ++ take k ls) -> has_floors F (mjoin cs ++ ls).
Proof. intros He. rewrite <- (take_drop k ls), app_assoc. by apply has_floors_app. Qed.
Lemma head_all s cs ls k (h : option Head) :
  (forall x, h = Some x -> h_seq x <= s + len (mjoin cs ++ take k ls) - 1) ->
  forall x, h = Some x -> h_seq x <= s + len (mjoin cs ++ ls) - 1.
Proof.
  intros Hh x Hx. specialize (Hh x Hx). rewrite <- (take_drop k ls), app_assoc, (len_app (mjoin cs ++ take k ls)).
  pose proof (len_nonneg (drop k ls)). lia.
Qed.

Definition opening (n s : Z) (p : string) cs ls k rest (w : World) : Prop :=
  recoverable_as F n s p cs ls k rest (disk w) (store w).

Lemma opening_survives n s p cs ls k rest w : opening n s p cs ls k rest w -> survives n w.
Proof. intros Ho d' Hc. eapply recoverable_crash; [|exact Hc]. by eexists s, p, cs, ls, k, rest. Qed.

(** What the flush of the files read and cut back leaves. *)
Lemma opened_disk n s p cs ls k rest w :
  opening n s p cs ls k rest w ->
  on_disk_inv F s p cs ls (length ls) (mkDisk (d_closed (disk w)) (Some (unlines ls)) (length (unlines ls))) (store w).
Proof.
  intros [Hg Hk Hc Ho Hrest He Ha Hh Hr HF]. split; cbn; rewrite ?firstn_all; try done.
  - by eapply explains_all.
  - by eapply head_all.
  - by eapply floors_all.
Qed.

Lemma opening_verify n s p cs ls k rest w :
  1 <= n -> opening n s p cs ls k rest w ->
  exists r, verify (disk w) (store w) = Ok r /\ read_as s p cs ls rest (store w) r.
Proof.
  intros Hn [Hg Hk Hc Ho Hrest He Ha Hh Hr HF].
  apply (verify_ok n); try done; [|by eapply explains_all|by eapply head_all].
  destruct Ho as [[? _]|(? & _ & ? & ?)]; [by left|by right].
Qed.

Lemma opening_ext n s p cs ls k rest w w' :
  disk w' = disk w -> store w' = store w -> opening n s p cs ls k rest w -> opening n s p cs ls k rest w'.
Proof. unfold opening. by intros -> ->. Qed.

(** The file made, with what was in it. *)
Definition made (w : World) : World :=
  set_disk (mkDisk (d_closed (disk w)) (Some (open_bytes (disk w))) (d_synced (disk w))) w.

Lemma opening_made n s p cs ls k rest w :
  opening n s p cs ls k rest w ->
  opening n s p cs ls k rest (made w) /\ open_bytes (disk w) = unlines ls ++ rest /\
  d_synced (disk w) = length (unlines (take k ls)).
Proof.
  intros Hrc. unfold made, open_bytes. pose proof (rc_k _ _ _ _ _ _ _ _ _ _ Hrc) as Hk.
  destruct (rc_open _ _ _ _ _ _ _ _ _ _ Hrc) as [[Ho Hsy]|(Ho & Hsy & -> & ->)]; rewrite Ho, Hsy.
  - split_and!; [|done..]. destruct Hrc. split; cbn; try done. by left.
  - rewrite take_nil. split_and!; [|done..]. destruct Hrc. split; cbn; try done. left. by rewrite take_nil.
Qed.

(** The torn line cut off. *)
Definition cut_back (w : World) (n : nat) : World :=
  set_disk (mkDisk (d_closed (disk w)) (Some (take n (open_bytes (disk w)))) (Nat.min (d_synced (disk w)) n)) w.

Lemma opening_cut n s p cs ls k rest w :
  opening n s p cs ls k rest w ->
  opening n s p cs ls k [] (cut_back w (length (unlines ls))).
Proof.
  intros Hrc. destruct (opening_made _ _ _ _ _ _ _ _ Hrc) as (_ & Hb & Hs). unfold cut_back.
  rewrite Hb, Hs, take_app_length, Nat.min_l by apply length_unlines_take.
  destruct Hrc. split; cbn; try done; [|set_solver]. left. by rewrite app_nil_r.
Qed.

Lemma opening_flushed n s p cs ls k w r h rest :
  opening n s p cs ls k [] w -> d_open (disk w) = Some (unlines ls) -> read_as s p cs ls rest h r ->
  inv s p cs ls (length ls) (set_inner (inner_of r) (set_disk (sync_open (disk w)) w)).
Proof.
  intros Hrc Ho Hr. pose proof (opened_disk _ _ _ _ _ _ _ _ Hrc) as Hd. split; cbn.
  - unfold sync_open, open_bytes. by rewrite Ho.
  - eapply inner_of_ok; [apply Hd| |exact Hr]. pose proof (di_explains _ _ _ _ _ _ _ _ Hd) as He.
    by rewrite firstn_all in He.
Qed.

Lemma open_file_spec n s p cs ls k rest w w' r x :
  opening n s p cs ls k rest w -> read_as s p cs ls rest (store w) r -> open_file r w = (w', x) ->
  leaves F n x w w' (inv s p cs ls (length ls) w').
Proof.
  intros Hrc Hr. unfold open_file, on_disk, on_inner, modify. run_st.
  destruct (call w) as [w1 r1] eqn:E1. apply call_cases in E1 as (D1 & I1 & K1 & S1 & [->| ->]).
  2: { intros [= <- <-]. split; [done|]. eapply opening_survives, opening_ext; [..|exact Hrc]; done. }
  eapply opening_ext in Hrc; [|exact D1|exact S1].
  destruct (opening_made _ _ _ _ _ _ _ _ Hrc) as (Hm & Hb & Hs). fold (made w1).
  assert (Hlast : forall w2 w3 y, sink w2 = sink w -> opening n s p cs ls k [] w2 ->
      d_open (disk w2) = Some (unlines ls) ->
      (let (s', r') := call w2 in
       match r' with
       | Ok _ => (set_inner (inner_of r) (set_disk (sync_open (disk s')) s'), Ok tt)
       | Err e => (s', Err e)
       end) = (w3, y) -> leaves F n y w w3 (inv s p cs ls (length ls) w3)).
  { intros w2 w3 y K2 H2 O2 E. destruct (call w2) as [w4 r4] eqn:E4.
    apply call_cases in E4 as (D4 & I4 & K4 & S4 & [->| ->]); injection E as <- <-; (split; [cbn; congruence|]).
    - eapply opening_flushed; [eapply opening_ext; [..|exact H2]; done|by rewrite D4|exact Hr].
    - eapply opening_survives, opening_ext; [..|exact H2]; done. }
  destruct Hr as (Hw & Hc & Hsz & Hrep & Hcur & Hf). rewrite Hrep. destruct rest as [|b rest].
  - apply Hlast; [done|done|]. cbn. by rewrite Hb, app_nil_r.
  - destruct (call (made w1)) as [w2 r2] eqn:E2. apply call_cases in E2 as (D2 & I2 & K2 & S2 & [->| ->]).
    2: { intros [= <- <-]. split; [cbn in *; congruence|]. eapply opening_survives, opening_ext; [..|exact Hm]; done. }
    eapply opening_ext in Hm; [|exact D2|exact S2]. rewrite Hsz, Nat2Z.id. fold (cut_back w2 (length (unlines ls))).
    apply Hlast; [cbn in *; congruence|by eapply opening_cut|].
    destruct (opening_made _ _ _ _ _ _ _ _ Hm) as (_ & Hb2 & _). cbn. by rewrite Hb2, take_app_length.
Qed.

(** ** The records of an opening *)

Lemma plain_repaired now n : plain (repaired_record now n).
Proof. split; [apply canonical_repaired|]. by rewrite repaired_action. Qed.

Lemma write_alive rec sync n w w' r :
  alive (n + 1) w -> 0 <= n -> plain rec -> write rec sync w = (w', r) -> leaves F n r w w' (alive n w').
Proof.
  intros (s & p & cs & ls & k & Hi & Hk & Hr) Hn [Hc Ha] E.
  assert (Hne : ls <> []) by (pose proof (di_k _ _ _ _ _ _ _ _ (proj1 Hi)); destruct ls; [cbn in *; lia|done]).
  eapply (write_spec F n) in E; [|done|done|done|by apply next_plain|done].
  destruct E as [K1 E]. split; [done|]. destruct r as [h|e]; [|done]. destruct E as (Hi1 & _).
  eexists s, p, cs, _, _. split; [exact Hi1|]. split; [destruct sync; lia|].
  unfold room in *. rewrite !len_app in *. change (len [_]) with 1. lia.
Qed.

Lemma first_header now n s p cs ls r w w' x :
  inv s p cs ls (length ls) w -> room (n + 1) s cs ls -> 0 <= n ->
  r_current r = match ls with [] => false | _ => true end ->
  (if r_current r then mret tt else (_ ← header now; call) : op unit) w = (w', x) ->
  leaves F n x w w' (alive n w').
Proof.
  intros Hi Hr Hn ->. destruct ls as [|l ls].
  - run_st. destruct (header now w) as [w1 r1] eqn:E1. eapply (header_spec F n) in E1; [|exact Hi|done|done].
    destruct E1 as [K1 E1]. destruct r1 as [[]|e]; [|intros [= <- <-]; done].
    intros E2. apply call_cases in E2 as (D2 & I2 & K2 & S2 & [->| ->]); (split; [congruence|]).
    + destruct E1 as (s' & p' & cs' & ls' & k' & ? & ?). exists s', p', cs', ls', k'. split; [|done].
      by eapply inv_ext.
    + intros d' Hc. rewrite D2 in Hc. rewrite S2. by apply (alive_survives F n).
  - run_st. intros [= <- <-]. split; [done|]. exists s, p, cs, (l :: ls), (length (l :: ls)).
    split; [done|]. split; [cbn; lia|]. eapply room_le; [|done]. lia.
Qed.

Lemma open_records_spec o now n s p cs ls r w w' x :
  inv s p cs ls (length ls) w -> room (n + 3) s cs ls -> 0 <= n ->
  r_current r = match ls with [] => false | _ => true end ->
  open_records o now r w = (w', x) -> leaves F n x w w' (alive n w').
Proof.
  intros Hi Hr Hn Hcur. unfold open_records. run_st.
  match goal with |- (let (_, _) := ?t in _) = _ -> _ => destruct t as [w1 r1] eqn:E1 end.
  apply (first_header now (n + 2) s p cs ls r) in E1; [|done|by replace (n + 2 + 1) with (n + 3) by lia|lia|done].
  destruct E1 as [K1 E1]. destruct r1 as [[]|e].
  2: { intros [= <- <-]. split; [done|]. by eapply survives_le; [|done]; lia. }
  assert (Hlast : forall w2, sink w2 = sink w -> alive (n + 1) w2 -> retire o now w2 = (w', x) ->
    leaves F n x w w' (alive n w')).
  { intros w2 K2 A2 E. apply (retire_spec F o now n) in E as [K3 E]; [|done|done].
    split; [congruence|]. destruct x; [|done]. by eapply alive_le; [|done]; lia. }
  destruct (r_repaired r) as [m|].
  - destruct (write (repaired_record now m) true w1) as [w2 r2] eqn:E2.
    apply (write_alive _ _ (n + 1)) in E2; [|by replace (n + 1 + 1) with (n + 2) by lia|lia|apply plain_repaired].
    destruct E2 as [K2 E2]. destruct r2 as [h|e].
    + apply Hlast; [congruence|done].
    + intros [= <- <-]. split; [congruence|]. by eapply survives_le; [|done]; lia.
  - apply Hlast; [done|]. by eapply alive_le; [|done]; lia.
Qed.

Lemma open_spec o now n w w' x :
  recoverable (n + 3) (disk w) (store w) -> 0 <= n -> open_chain o now (store w) w = (w', x) ->
  leaves F n x w w' (alive n w').
Proof.
  intros (s & p & cs & ls & k & rest & Hrc) Hn. unfold open_chain. run_st.
  assert (Hsv : forall w0, disk w0 = disk w -> store w0 = store w -> survives n w0).
  { intros w0 D0 S0. eapply (survives_le F (n + 3)); [lia|]. eapply opening_survives, opening_ext; [..|exact Hrc]; done. }
  destruct (call w) as [w1 r1] eqn:E1. apply call_cases in E1 as (D1 & I1 & K1 & S1 & [->| ->]).
  2: { intros [= <- <-]. split; [done|by apply Hsv]. }
  rewrite D1. destruct (opening_verify (n + 3) s p cs ls k rest w) as (r & -> & Hr); [lia|exact Hrc|].
  destruct (open_file r w1) as [w2 r2] eqn:E2.
  eapply (open_file_spec (n + 3)) in E2; [|eapply opening_ext; [exact D1|exact S1|exact Hrc]|by rewrite S1].
  destruct E2 as [K2 E2]. destruct r2 as [[]|e].
  2: { intros [= <- <-]. split; [congruence|]. by eapply survives_le; [|done]; lia. }
  destruct (open_records o now r w2) as [w3 r3] eqn:E3.
  eapply (open_records_spec o now n) in E3; [|exact E2|apply (rc_room _ _ _ _ _ _ _ _ _ _ Hrc)|done|apply Hr].
  destruct E3 as [K3 E3]. destruct r3 as [m|e]; [|intros [= <- <-]; split; [congruence|done]].
  destruct (put_head true now w3) as [w4 r4] eqn:E4.
  destruct E3 as (s' & p' & cs' & ls' & k' & Hi & Hk & Hrm).
  eapply put_head_spec in E4; [|done|done]. destruct E4 as (-> & K4 & _ & _ & k2 & Hk2 & Hi2).
  intros [= <- <-]. split; [congruence|]. exists s', p', cs', ls', k2. split_and!; [done|lia|done].
Qed.

(** ** No fault, no refusal *)

Definition faultless {A} (m : op A) : Prop :=
  forall w, io w = [] -> exists w' a, m w = (w', Ok a) /\ io w' = [].

Lemma faultless_bind {A B} (m : op A) (f : A -> op B) :
  faultless m -> (forall a, faultless (f a)) -> faultless (m ≫= f).
Proof. intros Hm Hf w Hw. destruct (Hm w Hw) as (w1 & a & E & H1). run_st. rewrite E. by apply Hf. Qed.
Lemma faultless_ret {A} (a : A) : faultless (mret a : op A).
Proof. intros w Hw. by exists w, a. Qed.
Lemma faultless_gets {A} (f : World -> A) : faultless (gets f).
Proof. intros w Hw. by exists w, (f w). Qed.
Lemma faultless_modify f : (forall w, io (f w) = io w) -> faultless (modify f : op unit).
Proof. intros Hf w Hw. exists (f w), tt. by rewrite Hf. Qed.
Lemma faultless_call : faultless call.
Proof. intros w Hw. exists w, tt. unfold call, next_io. run_st. by rewrite Hw. Qed.
Lemma faultless_on_disk f : faultless (on_disk f).
Proof. by apply faultless_modify. Qed.
Lemma faultless_on_inner f : faultless (on_inner f).
Proof. by apply faultless_modify. Qed.

Lemma faultless_write rec sync : faultless (write rec sync).
Proof.
  intros w Hw. unfold write, next_io, on_disk, on_inner, modify. run_st. rewrite Hw. cbn. by eexists _, _.
Qed.
Lemma faultless_put_head b now : faultless (put_head b now).
Proof.
  intros w Hw. unfold put_head. destruct (negb (sink w)); [by exists w, tt|].
  destruct (_ && _); [by exists w, tt|]. unfold on_inner, modify, next_io, on_disk, modify. run_st. cbn.
  destruct (_ <? _); cbn; [rewrite Hw; cbn|]; by eexists _, _.
Qed.

Create HintDb faultless.
Hint Resolve faultless_ret faultless_gets faultless_call faultless_on_disk faultless_on_inner
  faultless_write faultless_put_head : faultless.
Ltac solve_faultless :=
  repeat first [solve [auto with faultless] | apply faultless_bind; [|intros ?] | case_match].

Lemma faultless_header now : faultless (header now).
Proof. unfold header. solve_faultless. Qed.
Lemma faultless_retire o now : faultless (retire o now).
Proof.
  apply faultless_bind; [apply faultless_gets|]. intros g. generalize (closed g) as l.
  induction l as [|c l IH]; cbn [retire_loop]; solve_faultless.
Qed.
Hint Resolve faultless_header faultless_retire : faultless.
Lemma faultless_open_file r : faultless (open_file r).
Proof. unfold open_file. solve_faultless. Qed.
Lemma faultless_open_records o now r : faultless (open_records o now r).
Proof. unfold open_records. solve_faultless. Qed.

Lemma open_faultless o now n w :
  recoverable n (disk w) (store w) -> 1 <= n -> io w = [] ->
  exists w' y, open_chain o now (store w) w = (w', Ok y).
Proof.
  intros (s & p & cs & ls & k & rest & Hrc) Hn Hw.
  destruct (opening_verify n s p cs ls k rest w) as (r & Ev & _); [done|exact Hrc|].
  unfold open_chain. run_st. unfold call, next_io. run_st. rewrite Hw, Ev.
  destruct (faultless_open_file r w Hw) as (w1 & [] & -> & H1).
  destruct (faultless_open_records o now r w1 H1) as (w2 & m & -> & H2).
  destruct (faultless_put_head true now w2 H2) as (w3 & [] & -> & H3). by eexists _, _.
Qed.
End open_.
