(* ===== verification/ChainTheorems.v ===== *)
(** * What the audit chain promises

    Tampering below the stored head is seen; agentd's own crashes never look
    like it, and lose no anchored floor; and the one way found in which the
    chain locks itself out. *)

From S2P Require Export ChainOpen.
Open Scope Z_scope.

(** ** Tampering *)

Section tampering.
Context `{JsonText} {sha : Sha256}.

(** C23: a rewritten record is seen. Two disks that the same stored head
    passes, the record the head names kept on both, hold byte for byte the
    same records from that one back to where the shorter of the two begins;
    otherwise SHA-256 collides. Nobody without the store can edit, insert,
    remove or move a record before the head and have the next start accept
    it, but for cutting whole records off the front. *)
Theorem tampering_is_seen h d d' r r' :
  verify d (Some h) = Ok r -> verify d' (Some h) = Ok r' ->
  w_head_seen (r_walk r) = true -> w_head_seen (r_walk r') = true ->
  (exists a b a' b',
     kept d = a ++ b /\ kept d' = a' ++ b' /\ (list.last a ≫= seq_of) = Some (h_seq h) /\
     (a `suffix_of` a' \/ a' `suffix_of` a))
  \/ collision.
Proof.
  intros H1 H2 Hs Hs'. apply verify_links in H1 as [L1 D1], H2 as [L2 D2].
  destruct (D1 Hs) as (? & a & x & b & [= <-] & Ea & Sa & Xa).
  destruct (D2 Hs') as (? & a' & x' & b' & [= <-] & Ea' & Sa' & Xa').
  rewrite Ea, cons_middle, app_assoc in L1. rewrite Ea', cons_middle, app_assoc in L2.
  apply links_app in L1 as [L1 _], L2 as [L2 _].
  destruct (links_agree a a' x x' L1 L2) as [?|[?|?]]; [apply hex_inj; congruence|left..|by right].
  - exists (a ++ [x]), b, (a' ++ [x']), b'. rewrite Ea, Ea', <- !app_assoc, last_snoc. auto.
  - exists (a ++ [x]), b, (a' ++ [x']), b'. rewrite Ea, Ea', <- !app_assoc, last_snoc. auto.
Qed.
End tampering.

(** ** Crashes *)

(** A life: the chain up, with its world, or down, with the disk and the head
    the store keeps. [F] is what has been anchored; [t] counts operations. *)
Inductive State : Type := Up (w : World) | Down (d : Disk) (h : option Head).

Section lives.
Context `{JsonTextOk} {sha : Sha256} (o : Options).

Inductive lives : Z -> gmap string Anchor -> State -> Prop :=
  | lives_fresh : lives 0 ∅ (Down (mkDisk [] None 0) None)
  | lives_opened t F d h now g b faults w y :
      lives t F (Down d h) -> open_chain o now h (mkWorld d g b h faults) = (w, Ok y) ->
      lives (t + 1) F (Up w)
  | lives_open_cut t F d h now g b faults w r d' :
      lives t F (Down d h) -> open_chain o now h (mkWorld d g b h faults) = (w, r) ->
      crash (disk w) d' -> lives (t + 1) F (Down d' (store w))
  | lives_appended t F w now rec sync faults w' h :
      lives t F (Up w) -> plain rec ->
      append o now rec sync (mkWorld (disk w) (inner w) (sink w) (store w) faults) = (w', Ok h) ->
      lives (t + 1) F (Up w')
  | lives_anchored t F w now g a faults w' :
      lives t F (Up w) ->
      anchor o now g a (mkWorld (disk w) (inner w) (sink w) (store w) faults) = (w', Ok tt) ->
      lives (t + 1) (merge_entry g a F) (Up w')
  | lives_append_cut t F w now rec sync faults w' r d' :
      lives t F (Up w) -> plain rec ->
      append o now rec sync (mkWorld (disk w) (inner w) (sink w) (store w) faults) = (w', r) ->
      crash (disk w') d' -> lives (t + 1) F (Down d' (store w'))
  | lives_crash t F w d' : lives t F (Up w) -> crash (disk w) d' -> lives t F (Down d' (store w)).

Definition left (t : Z) : Z := 2 ^ 64 - 1 - 3 * t.

Definition sound (t : Z) (F : gmap string Anchor) (st : State) : Prop :=
  match st with
  | Up w => alive F (left t) w
  | Down d h => recoverable F (left t) d h
  end.

Lemma fresh_recoverable : recoverable ∅ (left 0) (mkDisk [] None 0) None.
Proof.
  exists 1, GENESIS, [], [], 0%nat, []. split; cbn; try done.
  - by right.
  - set_solver.
Qed.

Lemma inv_world F s p cs ls k w faults :
  inv F s p cs ls k w -> inv F s p cs ls k (mkWorld (disk w) (inner w) (sink w) (store w) faults).
Proof. by apply inv_ext. Qed.

Lemma alive_world F n w faults :
  alive F n w -> alive F n (mkWorld (disk w) (inner w) (sink w) (store w) faults).
Proof.
  intros (s & p & cs & ls & k & Hi & ? & ?). exists s, p, cs, ls, k. by split_and!; [apply inv_world|..].
Qed.

Lemma plain_anchor now g a : plain (anchor_record now g a).
Proof.
  split; [|unfold action_of, anchor_record; by rewrite jobj_record, jobj_idx].
  unfold anchor_record. apply canonical_jobj. cbn [forallb snd canonical ju64].
  rewrite canonical_jobj; [done|]. cbn. by destruct (revoked_epoch a).
Qed.

(** What anchoring does to the register. *)
Lemma anchor_reads now gid a g m :
  line_anchors (line_of g (anchor_record now gid a)) m = merge_entry gid a m.
Proof.
  unfold line_anchors, action_of. rewrite line_idx by done. unfold anchor_record at 1 2 3 4.
  rewrite jobj_record, jobj_idx. cbn [obj_get].
  repeat first [rewrite decide_False by done | rewrite decide_True by done].
  cbn [default from_option id as_str].
  repeat first [rewrite (decide_True (P := REGISTER = REGISTER)) by done
               | rewrite (decide_False (P := REGISTER = SEGMENT)) by done].
  unfold register_entry. rewrite !line_idx by done. unfold anchor_record. rewrite jobj_record, !jobj_idx.
  cbn [obj_get]. repeat first [rewrite decide_False by done | rewrite decide_True by done].
  cbn [default from_option id]. rewrite !jobj_idx. by destruct a as [[e|] rv].
Qed.

Lemma flushed_floors F F' n w : flushed F n w -> floors_le F' (anchors (inner w)) -> alive F' n w.
Proof.
  intros (s & p & cs & ls & [Hd Hm] & Hne & Hr) HF. exists s, p, cs, ls, (length ls).
  split; [|split; [destruct ls; [done|cbn; lia]|done]]. split.
  - destruct Hd as [? ? ? ? ? ? ? ? _]. split; try done. rewrite firstn_all. unfold has_floors.
    by rewrite <- (im_anchors _ _ _ _ _ _ Hm).
  - by destruct Hm.
Qed.

Lemma lives_sound t F st : lives t F st -> 3 * t < 2 ^ 64 -> floors_ok F /\ 0 <= t /\ sound t F st.
Proof.
  assert (Hleft : forall t, left t = left (t + 1) + 3) by (unfold left; intros; lia).
  induction 1 as [|t F d h now g b faults w y _ IH E|t F d h now g b faults w r d' _ IH E Hc
    |t F w now rec sync faults w' h _ IH Hp E|t F w now g a faults w' _ IH E
    |t F w now rec sync faults w' r d' _ IH Hp E Hc|t F w d' _ IH Hc]; intros Ht.
  - split_and!; [by intros ? ? ?%lookup_empty_Some|done|]. apply fresh_recoverable.
  - destruct IH as (HF & Ht0 & IH); [lia|]. cbn in *. rewrite Hleft in IH.
    split_and!; [done|lia|]. apply (open_spec F o now (left (t + 1))) in E; [by destruct E|done|unfold left; lia].
  - destruct IH as (HF & Ht0 & IH); [lia|]. cbn in *. rewrite Hleft in IH.
    split_and!; [done|lia|]. apply (open_spec F o now (left (t + 1))) in E; [|done|unfold left; lia].
    destruct E as [_ E]. destruct r; [by apply alive_survives in E; apply E|by apply E].
  - destruct IH as (HF & Ht0 & IH); [lia|]. cbn in *. rewrite Hleft in IH. split_and!; [done|lia|].
    apply (append_spec F o now rec sync (left (t + 1))) in E; [|by apply alive_world|unfold left; lia|done].
    by destruct E as [_ [? _]].
  - destruct IH as (HF & Ht0 & IH); [lia|]. cbn in *. rewrite Hleft in IH.
    split_and!; [by apply merge_entry_ok|lia|]. revert E. unfold anchor. run_st.
    destruct (append _ _ _ _ _) as [w1 r1] eqn:E1.
    apply (append_spec F o now _ true (left (t + 1))) in E1; [|by apply alive_world|unfold left; lia|apply plain_anchor].
    destruct r1 as [hd|e]; [|done]. intros [= <-]. destruct E1 as [_ [_ E1]].
    destruct (E1 eq_refl) as (Hfl & g0 & Hok & Hle & Ean). rewrite anchor_reads in Ean.
    eapply flushed_floors; [exact Hfl|]. rewrite Ean. by apply merge_entry_mono.
  - destruct IH as (HF & Ht0 & IH); [lia|]. cbn in *. rewrite Hleft in IH. split_and!; [done|lia|].
    apply (append_spec F o now rec sync (left (t + 1))) in E; [|by apply alive_world|unfold left; lia|done].
    destruct E as [_ E]. destruct r; [destruct E as [E _]; by apply alive_survives in E; apply E|by apply E].
  - destruct IH as (HF & Ht0 & IH); [lia|]. cbn in *. split_and!; [done|lia|].
    by apply alive_survives in IH; apply IH.
Qed.
End lives.

(** C22: a crash never looks like tampering, and loses no anchored floor.
    Whatever a chain has been through - openings, appends, rotations and
    retirements, the last of each process failing or cut off half way at any
    call on the disk, with unflushed bytes lost byte by byte from the end -
    the next opening that the disk lets finish accepts it under the head the
    store kept, and the register it gives has every floor anchored so far, as
    high or higher. (A process that goes on after a failed rotation is
    [failed_rotation_locks_out].) *)
Theorem crashes_recovered `{JsonTextOk} {sha : Sha256} o t F d h now g b :
  lives o t F (Down d h) -> 3 * t + 8 < 2 ^ 64 ->
  exists w y, open_chain o now h (mkWorld d g b h []) = (w, Ok y) /\ floors_le F (anchors (inner w)).
Proof.
  intros Hl Ht. destruct (lives_sound o t F _ Hl) as (_ & Ht0 & Hs); [lia|]. cbn in Hs.
  destruct (open_faultless F o now (left t) (mkWorld d g b h [])) as (w & y & E); [done|unfold left; lia|done|].
  exists w, y. split; [done|].
  apply (open_spec F o now (left t - 3)) in E; [|cbn; by replace (left t - 3 + 3) with (left t) by lia|unfold left; lia].
  destruct E as [_ Ha]. by eapply alive_floors.
Qed.

(** ** Instances *)

(** A text for JSON: a value's tree, its number, and the number's bits. *)
Inductive Leaf : Type := LStr (s : string) | LInt (n : Z).
#[local] Instance leaf_eq_dec : EqDecision Leaf.
Proof. solve_decision. Defined.
#[local] Instance leaf_countable : Countable Leaf.
Proof.
  refine (inj_countable' (fun l => match l with LStr s => inl s | LInt n => inr n end)
    (fun x => match x with inl s => LStr s | inr n => LInt n end) _). by intros [].
Defined.

Fixpoint tree (v : Value) : gen_tree Leaf :=
  match v with
  | VNull => GenNode 0 []
  | VBool b => GenNode (if b then 1 else 2) []
  | VNum (PosInt n) => GenNode 3 [GenLeaf (LInt n)]
  | VNum (NegInt n) => GenNode 4 [GenLeaf (LInt n)]
  | VNum (Float _) => GenNode 5 []
  | VStr s => GenNode 6 [GenLeaf (LStr s)]
  | VArr l => GenNode 7 (tree <$> l)
  | VObj ob => GenNode 8 ((fun p => GenNode 9 [GenLeaf (LStr p.1); tree p.2]) <$> ob)
  end.
Fixpoint value (t : gen_tree Leaf) : Value :=
  match t with
  | GenNode 1 _ => VBool true
  | GenNode 2 _ => VBool false
  | GenNode 3 [GenLeaf (LInt n)] => VNum (PosInt n)
  | GenNode 4 [GenLeaf (LInt n)] => VNum (NegInt n)
  | GenNode 6 [GenLeaf (LStr s)] => VStr s
  | GenNode 7 l => VArr (value <$> l)
  | GenNode 8 l =>
      VObj ((fun t => match t with GenNode _ [GenLeaf (LStr k); t'] => (k, value t') | _ => (nil_str, VNull) end) <$> l)
  | _ => VNull
  end.

Fixpoint value_tree (v : Value) : canonical v = true -> value (tree v) = v.
Proof.
  destruct v as [|[]|[n|n|f]|s|l|ob]; try done; cbn [canonical tree value].
  - intros Hl. f_equal. induction l as [|v l IH]; [done|]. cbn in *. apply andb_true_iff in Hl as [Hv Hl].
    rewrite (value_tree v Hv). f_equal. by apply IH.
  - intros [_ Hl]%andb_true_iff. f_equal. induction ob as [|[k v] ob IH]; [done|]. cbn in *.
    apply andb_true_iff in Hl as [Hv Hl]. rewrite (value_tree v Hv). f_equal. by apply IH.
Qed.

Fixpoint bits (p : positive) : list char :=
  match p with
  | xH => []
  | xO p => "0"%char :: bits p
  | xI p => "1"%char :: bits p
  end.
Fixpoint unbits (l : list char) : positive :=
  match l with
  | [] => xH
  | c :: l => if decide (c = "0"%char) then xO (unbits l) else xI (unbits l)
  end.
Lemma unbits_bits p : unbits (bits p) = p.
Proof. by induction p as [p IH|p IH|]; cbn; rewrite ?IH. Qed.
Lemma bits_one_line p : nl ∉ bits p.
Proof. induction p; cbn; rewrite ?elem_of_cons; [intros [?|?]; done..|apply not_elem_of_nil]. Qed.

#[local] Instance sample_json : JsonText := {
  json_print v := bits (encode (tree v));
  json_parse l := value <$> decode (unbits l);
}.
#[local] Instance sample_json_ok : JsonTextOk.
Proof.
  split.
  - intros v Hv. cbn. rewrite unbits_bits, decode_encode. cbn. by rewrite value_tree.
  - intros v. apply bits_one_line.
Qed.
(** Thirty-two bytes of a text: enough to tell the lines below apart. *)
#[local] Instance sample_sha : Sha256 := fun l => take 32 (rev l ++ replicate 32 Ascii.zero).

Definition sample_options : Options := mkOptions "audit.jsonl" 1 10.
Definition sample_event : Value := jobj [("action", VStr "config.reload"); ("ts", ju64 5)].
Definition run {A} (m : op A) (d : Disk) (g : Inner) (h : option Head) (faults : list Io) : World :=
  (m (mkWorld d g true h faults)).1.
Definition born : World := run (open_chain sample_options 1 None) (mkDisk [] None 0) inner_default None [].
Definition anchored : World :=
  run (anchor sample_options 2 "grant-1" (mkAnchor (Some 3) 7)) (disk born) (inner born) (store born) [].
(** The next record rotates the segment and, its write cut short after five
    bytes, is lost. *)
Definition torn : World :=
  run (append sample_options 40 sample_event false) (disk anchored) (inner anchored) (store anchored)
    [IoOk; IoOk; IoOk; IoOk; IoOk; IoOk; IoOk; IoFail (Some 5%nat)].

(** [torn]'s disk, whole; then what an opening makes of it. *)
Definition crashed : Disk := mkDisk (d_closed (disk torn)) (d_open (disk torn)) (d_synced (disk torn)).

Lemma run_eq {A} (m : op A) w x : m w = x -> m w = (x.1, x.2).
Proof. intros ->. by destruct x. Qed.

Lemma lives_torn : lives sample_options 3 (merge_entry "grant-1" (mkAnchor (Some 3) 7) ∅) (Down crashed (store torn)).
Proof.
  change 3 with (0 + 1 + 1 + 1).
  eapply (lives_append_cut _ _ _ anchored 40 sample_event false
    [IoOk; IoOk; IoOk; IoOk; IoOk; IoOk; IoOk; IoFail (Some 5%nat)] torn).
  - eapply (lives_anchored _ _ _ born 2 "grant-1" (mkAnchor (Some 3) 7) []).
    + eapply (lives_opened _ 0 ∅ (mkDisk [] None 0) None 1 inner_default true []); [apply lives_fresh|].
      vm_compute; reflexivity.
    + vm_compute; reflexivity.
  - split; [reflexivity|done].
  - vm_compute; reflexivity.
  - assert (E : crashed = mkDisk (d_closed (disk torn))
      (Some (take (length (open_bytes (disk torn))) (open_bytes (disk torn)))) (d_synced (disk torn)))
      by (vm_compute; reflexivity).
    rewrite E. apply crash_cut; [vm_compute; reflexivity|]. apply Nat.leb_le. vm_compute; reflexivity.
Qed.

Lemma crashes_recovered_witness :
  exists w y, open_chain sample_options 50 (store torn) (mkWorld crashed inner_default true (store torn) []) = (w, Ok y)
    /\ floors_le (merge_entry "grant-1" (mkAnchor (Some 3) 7) ∅) (anchors (inner w)).
Proof.
  refine (crashes_recovered sample_options 3 _ crashed (store torn) 50 inner_default true lives_torn _).
  reflexivity.
Defined.

(** A later, unflushed record under the same stored head. *)
Definition small_options : Options := mkOptions "audit.jsonl" 100000 1000.
Definition more : World :=
  run (append small_options 3 sample_event false) (disk anchored) (inner anchored) (store anchored) [].
Definition reading_of (d : Disk) (h : Head) : Reading :=
  match verify d (Some h) with
  | Ok r => r
  | Err _ => mkReading walk_default [] 0 0 None false
  end.
Definition stored : Head := default (mkHead 0 nil_str) (store anchored).

Lemma tampering_is_seen_witness :
  kept (disk anchored) <> kept (disk more) /\
  ((exists a b a' b',
     kept (disk anchored) = a ++ b /\ kept (disk more) = a' ++ b' /\
     (list.last a ≫= seq_of) = Some (h_seq stored) /\ (a `suffix_of` a' \/ a' `suffix_of` a))
  \/ collision).
Proof.
  split; [intros E%(f_equal length); vm_compute in E; discriminate|].
  refine (tampering_is_seen stored (disk anchored) (disk more) (reading_of (disk anchored) stored)
    (reading_of (disk more) stored) _ _ _ _); vm_compute; reflexivity.
Defined.

(** ** A chain that locks itself out

    When the header of a new segment cannot be written (a full disk), the
    append that rotated fails and the program goes on; the next record then
    begins the segment without a header, and the next start refuses the
    chain as one whose front was cut. *)
Definition no_header : World :=
  run (append sample_options 40 sample_event false) (disk anchored) (inner anchored) (store anchored)
    [IoOk; IoOk; IoOk; IoFail None].
Definition after_no_header : World :=
  run (append sample_options 41 sample_event true) (disk no_header) (inner no_header) (store no_header) [].

Theorem failed_rotation_locks_out :
  (append sample_options 40 sample_event false
     (mkWorld (disk anchored) (inner anchored) true (store anchored) [IoOk; IoOk; IoOk; IoFail None])).2
    = Err IoError /\
  is_ok (append sample_options 41 sample_event true
     (mkWorld (disk no_header) (inner no_header) true (store no_header) [])).2 = true /\
  verify (disk after_no_header) (store after_no_header) = Err (NoHeader OpenFile 1).
Proof. split_and!; vm_compute; reflexivity. Qed.
