(* ===== verification/Ssrf.v ===== *)
(** * Which addresses may be dialled

    [net/src/ssrf.rs]: the classifier of addresses, the guard of a host's
    name and the dial of the addresses that were vetted.  The addresses are
    [std::net]'s, with its predicates as documented; the resolver and whether
    a connection opens are arguments.  Reading and writing the socket once it
    is open is not modelled. *)

From S2P Require Export Text.
Open Scope Z_scope.

(** ** Addresses *)

Record Ipv4 := mkV4 { oct_a : Z; oct_b : Z; oct_c : Z; oct_d : Z }.
Record Ipv6 := mkV6 {
  seg0 : Z; seg1 : Z; seg2 : Z; seg3 : Z; seg4 : Z; seg5 : Z; seg6 : Z; seg7 : Z;
}.
Inductive IpAddr : Type := V4 (v4 : Ipv4) | V6 (v6 : Ipv6).
Record SocketAddr := mkSock { sa_ip : IpAddr; sa_port : Z }.

Definition is_byte (x : Z) : Prop := 0 <= x < 256.
Definition is_u16 (x : Z) : Prop := 0 <= x < 65536.
Definition v4_ok (v : Ipv4) : Prop :=
  is_byte (oct_a v) /\ is_byte (oct_b v) /\ is_byte (oct_c v) /\ is_byte (oct_d v).
Definition v6_ok (v : Ipv6) : Prop :=
  is_u16 (seg0 v) /\ is_u16 (seg1 v) /\ is_u16 (seg2 v) /\ is_u16 (seg3 v) /\
  is_u16 (seg4 v) /\ is_u16 (seg5 v) /\ is_u16 (seg6 v) /\ is_u16 (seg7 v).

(** [Ipv4Addr]'s predicates. *)
Definition is_loopback (v : Ipv4) : bool := oct_a v =? 127.
Definition is_private (v : Ipv4) : bool :=
  (oct_a v =? 10) || ((oct_a v =? 172) && (16 <=? oct_b v) && (oct_b v <=? 31))
  || ((oct_a v =? 192) && (oct_b v =? 168)).
Definition is_link_local (v : Ipv4) : bool := (oct_a v =? 169) && (oct_b v =? 254).
Definition is_broadcast (v : Ipv4) : bool :=
  (oct_a v =? 255) && (oct_b v =? 255) && (oct_c v =? 255) && (oct_d v =? 255).
Definition is_multicast (v : Ipv4) : bool := (224 <=? oct_a v) && (oct_a v <=? 239).
Definition is_unspecified (v : Ipv4) : bool :=
  (oct_a v =? 0) && (oct_b v =? 0) && (oct_c v =? 0) && (oct_d v =? 0).
Definition is_documentation (v : Ipv4) : bool :=
  ((oct_a v =? 192) && (oct_b v =? 0) && (oct_c v =? 2))
  || ((oct_a v =? 198) && (oct_b v =? 51) && (oct_c v =? 100))
  || ((oct_a v =? 203) && (oct_b v =? 0) && (oct_c v =? 113)).

(** [Ipv6Addr]'s. *)
Definition v4_of_segments (ab cd : Z) : Ipv4 := mkV4 (ab / 256) (ab mod 256) (cd / 256) (cd mod 256).
Definition zero_to_4 (v : Ipv6) : bool :=
  (seg0 v =? 0) && (seg1 v =? 0) && (seg2 v =? 0) && (seg3 v =? 0) && (seg4 v =? 0).
Definition to_ipv4_mapped (v : Ipv6) : option Ipv4 :=
  if zero_to_4 v && (seg5 v =? 65535) then Some (v4_of_segments (seg6 v) (seg7 v)) else None.
Definition to_ipv4 (v : Ipv6) : option Ipv4 :=
  if zero_to_4 v && ((seg5 v =? 0) || (seg5 v =? 65535))
  then Some (v4_of_segments (seg6 v) (seg7 v)) else None.
Definition v6_loopback (v : Ipv6) : bool :=
  zero_to_4 v && (seg5 v =? 0) && (seg6 v =? 0) && (seg7 v =? 1).
Definition v6_unspecified (v : Ipv6) : bool :=
  zero_to_4 v && (seg5 v =? 0) && (seg6 v =? 0) && (seg7 v =? 0).
Definition v6_multicast (v : Ipv6) : bool := Z.land (seg0 v) 65280 =? 65280.

(** ** The classifier *)

Definition is_global_v4 (v : Ipv4) : bool :=
  if oct_a v =? 0 then false
  else if is_loopback v || is_private v || is_link_local v || is_broadcast v || is_multicast v
          || is_unspecified v || is_documentation v
  then false
  else if (oct_a v =? 100) && ((64 <=? oct_b v) && (oct_b v <=? 127)) then false
  else if 240 <=? oct_a v then false
  else true.

Definition is_global_v6 (v : Ipv6) : bool :=
  match to_ipv4_mapped v with
  | Some v4 => is_global_v4 v4
  | None =>
  match to_ipv4 v with
  | Some v4 => is_global_v4 v4
  | None =>
      if v6_loopback v || v6_unspecified v || v6_multicast v then false
      else if Z.land (seg0 v) 65472 =? 65152 then false
      else if Z.land (seg0 v) 65024 =? 64512 then false
      else if (seg0 v =? 8193) && (seg1 v =? 3512) then false
      else true
  end
  end.

Definition is_global (ip : IpAddr) : bool :=
  match ip with V4 v => is_global_v4 v | V6 v => is_global_v6 v end.

Definition class_of_v4 (v : Ipv4) : string :=
  if is_unspecified v then "unspecified"
  else if is_loopback v then "loopback"
  else if is_private v then "private (RFC-1918)"
  else if is_link_local v then "link-local"
  else if is_broadcast v then "broadcast"
  else if is_multicast v then "multicast"
  else "reserved".
Definition class_of (ip : IpAddr) : string :=
  match ip with
  | V4 v => class_of_v4 v
  | V6 v =>
      match match to_ipv4_mapped v with Some v4 => Some v4 | None => to_ipv4 v end with
      | Some v4 => class_of_v4 v4
      | None =>
          if v6_unspecified v then "unspecified"
          else if v6_loopback v then "loopback"
          else if v6_multicast v then "multicast"
          else "link-local/unique-local"
      end
  end.

(** ** The guard and the dial *)

Inductive SsrfError : Type :=
  | EmptyHost
  | ResolveFailed (e : string)
  | NoAddresses
  | NotGlobal (class : string) (ip : IpAddr).

Definition check_addr (ip : IpAddr) : result SsrfError unit :=
  if is_global ip then Ok tt else Err (NotGlobal (class_of ip) ip).

Fixpoint check_addrs (l : list SocketAddr) : result SsrfError unit :=
  match l with
  | [] => Ok tt
  | sa :: l' => _ ← check_addr (sa_ip sa); check_addrs l'
  end.

(** [ResolveFn]: it may answer two calls differently, which the number of the
    call stands for. *)
Definition ResolveFn : Type := nat -> string -> Z -> result string (list SocketAddr).

Definition resolve_guarded_with (call : nat) (host : string) (port : Z) (allow_private : bool)
    (resolve : ResolveFn) : result SsrfError (list SocketAddr) :=
  if decide (host = nil_str) then Err EmptyHost
  else
    addrs ← map_err ResolveFailed (resolve call host port);
    match addrs with
    | [] => Err NoAddresses
    | _ => if allow_private then Ok addrs else _ ← check_addrs addrs; Ok addrs
    end.

Definition guard_host (call : nat) (host : string) (allow_private : bool) (resolve : ResolveFn) :
    result SsrfError unit :=
  if allow_private then Ok tt
  else _ ← resolve_guarded_with call host 0 false resolve; Ok tt.

Inductive DialError : Type :=
  | NotFound
  | PermissionDenied (e : SsrfError)
  | ConnectFailed (e : string).

(** The addresses tried in turn, and the one that answered; [connect] says
    how an attempt goes. *)
Fixpoint dial (connect : SocketAddr -> result string unit) (l : list SocketAddr)
    (last : option string) : list SocketAddr * result DialError SocketAddr :=
  match l with
  | [] => ([], Err match last with Some e => ConnectFailed e | None => NotFound end)
  | sa :: l' =>
      match connect sa with
      | Ok _ => ([sa], Ok sa)
      | Err e => let '(tried, r) := dial connect l' (Some e) in (sa :: tried, r)
      end
  end.

Definition connect_addrs (connect : SocketAddr -> result string unit) (addrs : list SocketAddr)
    (allow_private : bool) : list SocketAddr * result DialError SocketAddr :=
  match addrs with
  | [] => ([], Err NotFound)
  | _ =>
      match (if allow_private then Ok tt else check_addrs addrs) with
      | Err e => ([], Err (PermissionDenied e))
      | Ok _ => dial connect addrs None
      end
  end.

Definition connect_vetted_with (connect : SocketAddr -> result string unit) (host : string)
    (port : Z) (allow_private : bool) (resolve : ResolveFn) :
    list SocketAddr * result DialError SocketAddr :=
  match resolve_guarded_with 0 host port allow_private resolve with
  | Err e => ([], Err (PermissionDenied e))
  | Ok addrs => connect_addrs connect addrs allow_private
  end.

(** ** The ranges, as prefixes *)

(** An address as its number, and a prefix of it. *)
Definition num4 (v : Ipv4) : Z := ((oct_a v * 256 + oct_b v) * 256 + oct_c v) * 256 + oct_d v.
Definition num6 (v : Ipv6) : Z :=
  ((((((seg0 v * 65536 + seg1 v) * 65536 + seg2 v) * 65536 + seg3 v) * 65536 + seg4 v) * 65536
     + seg5 v) * 65536 + seg6 v) * 65536 + seg7 v.
Definition within (width n base len : Z) : Prop := n / 2 ^ (width - len) = base / 2 ^ (width - len).

(** 0/8, 10/8, 100.64/10, 127/8, 169.254/16, 172.16/12, 192.0.2/24,
    192.168/16, 198.51.100/24, 203.0.113/24, 224/4 and 240/4. *)
Definition blocked4 : list (Ipv4 * Z) :=
  [(mkV4 0 0 0 0, 8); (mkV4 10 0 0 0, 8); (mkV4 100 64 0 0, 10); (mkV4 127 0 0 0, 8);
   (mkV4 169 254 0 0, 16); (mkV4 172 16 0 0, 12); (mkV4 192 0 2 0, 24); (mkV4 192 168 0 0, 16);
   (mkV4 198 51 100 0, 24); (mkV4 203 0 113 0, 24); (mkV4 224 0 0 0, 4); (mkV4 240 0 0 0, 4)].
(** ff00::/8, fe80::/10, fc00::/7 and 2001:db8::/32. *)
Definition blocked6 : list (Ipv6 * Z) :=
  [(mkV6 65280 0 0 0 0 0 0 0, 8); (mkV6 65152 0 0 0 0 0 0 0, 10); (mkV6 64512 0 0 0 0 0 0 0, 7);
   (mkV6 8193 3512 0 0 0 0 0 0, 32)].
(** ::/96 and ::ffff:0:0/96 carry an IPv4 address. *)
Definition carries4 : list (Ipv6 * Z) := [(mkV6 0 0 0 0 0 0 0 0, 96); (mkV6 0 0 0 0 0 65535 0 0, 96)].

Definition in4 (v : Ipv4) (p : Ipv4 * Z) : Prop := within 32 (num4 v) (num4 p.1) p.2.
Definition in6 (v : Ipv6) (p : Ipv6 * Z) : Prop := within 128 (num6 v) (num6 p.1) p.2.
Definition low4 (v : Ipv6) : Ipv4 := v4_of_segments (seg6 v) (seg7 v).

Lemma div_digits h r b : 0 < b -> 0 <= r < b -> (h * b + r) / b = h.
Proof. intros Hb Hr. rewrite Z.add_comm, Z.div_add, Z.div_small by lia. lia. Qed.

(** A prefix of whole octets, and one that ends inside an octet. *)
Lemma num4_8 v : v4_ok v -> num4 v / 2 ^ 24 = oct_a v.
Proof.
  intros (? & ? & ? & ?). unfold is_byte in *.
  replace (num4 v) with (oct_a v * 2 ^ 24 + ((oct_b v * 256 + oct_c v) * 256 + oct_d v)) by (unfold num4; lia).
  apply div_digits; lia.
Qed.
Lemma num4_16 v : v4_ok v -> num4 v / 2 ^ 16 = oct_a v * 256 + oct_b v.
Proof.
  intros (? & ? & ? & ?). unfold is_byte in *.
  replace (num4 v) with ((oct_a v * 256 + oct_b v) * 2 ^ 16 + (oct_c v * 256 + oct_d v)) by (unfold num4; lia).
  apply div_digits; lia.
Qed.
Lemma num4_24 v : v4_ok v -> num4 v / 2 ^ 8 = (oct_a v * 256 + oct_b v) * 256 + oct_c v.
Proof. intros (? & ? & ? & ?). unfold is_byte, num4 in *. apply div_digits; lia. Qed.

(** [n / 2^(a+b)] in two steps. *)
Lemma div_pow n a b : 0 <= a -> 0 <= b -> n / 2 ^ (a + b) = n / 2 ^ a / 2 ^ b.
Proof. intros Ha Hb. rewrite Z.pow_add_r by done. rewrite Z.div_div by lia. done. Qed.

Lemma in4_8 v b : v4_ok v -> v4_ok b -> in4 v (b, 8) <-> oct_a v = oct_a b.
Proof. intros Hv Hb. unfold in4, within. cbn [fst snd]. by rewrite !num4_8. Qed.
Lemma in4_4 v b : v4_ok v -> v4_ok b -> in4 v (b, 4) <-> oct_a v / 16 = oct_a b / 16.
Proof.
  intros Hv Hb. unfold in4, within. cbn [fst snd]. change (32 - 4) with (24 + 4).
  by rewrite !div_pow, !num4_8.
Qed.
Lemma in4_16 v b : v4_ok v -> v4_ok b -> in4 v (b, 16) <-> oct_a v = oct_a b /\ oct_b v = oct_b b.
Proof.
  intros Hv Hb. unfold in4, within. cbn [fst snd]. change (32 - 16) with 16. rewrite !num4_16 by done.
  destruct Hv as (? & ? & _), Hb as (? & ? & _). unfold is_byte in *. lia.
Qed.
Lemma in4_10 v b : v4_ok v -> v4_ok b ->
  in4 v (b, 10) <-> (oct_a v * 256 + oct_b v) / 64 = (oct_a b * 256 + oct_b b) / 64.
Proof.
  intros Hv Hb. unfold in4, within. cbn [fst snd]. change (32 - 10) with (16 + 6).
  by rewrite !div_pow, !num4_16.
Qed.
Lemma in4_12 v b : v4_ok v -> v4_ok b ->
  in4 v (b, 12) <-> (oct_a v * 256 + oct_b v) / 16 = (oct_a b * 256 + oct_b b) / 16.
Proof.
  intros Hv Hb. unfold in4, within. cbn [fst snd]. change (32 - 12) with (16 + 4).
  by rewrite !div_pow, !num4_16.
Qed.
Lemma in4_24 v b : v4_ok v -> v4_ok b ->
  in4 v (b, 24) <-> oct_a v = oct_a b /\ oct_b v = oct_b b /\ oct_c v = oct_c b.
Proof.
  intros Hv Hb. unfold in4, within. cbn [fst snd]. change (32 - 24) with 8. rewrite !num4_24 by done.
  destruct Hv as (? & ? & ? & _), Hb as (? & ? & ? & _). unfold is_byte in *. lia.
Qed.

Lemma global_v4_bool v :
  is_global_v4 v =
    negb ((oct_a v =? 0) || is_loopback v || is_private v || is_link_local v || is_broadcast v
          || is_multicast v || is_unspecified v || is_documentation v
          || ((oct_a v =? 100) && ((64 <=? oct_b v) && (oct_b v <=? 127))) || (240 <=? oct_a v)).
Proof.
  unfold is_global_v4. destruct (oct_a v =? 0), (is_loopback v), (is_private v), (is_link_local v),
    (is_broadcast v), (is_multicast v), (is_unspecified v), (is_documentation v); cbn; try done.
  by destruct (_ && _), (240 <=? oct_a v).
Qed.

Lemma v4_okb (a b c d : Z) :
  (0 <=? a) && (a <? 256) && (0 <=? b) && (b <? 256) && (0 <=? c) && (c <? 256) && (0 <=? d) && (d <? 256) = true ->
  v4_ok (mkV4 a b c d).
Proof. unfold v4_ok, is_byte. cbn. lia. Qed.

Lemma global_v4_prefixes v : v4_ok v -> is_global_v4 v = true <-> Forall (fun p => ~ in4 v p) blocked4.
Proof.
  intros Hv. rewrite global_v4_bool. unfold blocked4. rewrite !Forall_cons, Forall_nil.
  rewrite !in4_8, in4_10, !in4_16, in4_12, !in4_24, !in4_4 by (done || by apply v4_okb).
  destruct v as [a b c d], Hv as (Ha & Hb & Hc & Hd). unfold is_byte in *. cbn in *.
  unfold is_loopback, is_private, is_link_local, is_broadcast, is_multicast, is_unspecified,
    is_documentation. cbn. rewrite negb_true_iff, !orb_false_iff.
  rewrite !andb_false_iff, !Z.eqb_neq, !Z.leb_gt.
  assert (E1 : (a * 256 + b) / 64 <> 401 <-> (a <> 100 \/ b < 64 \/ 127 < b))
    by (split; [intros; destruct (Z.eq_dec a 100); [subst|tauto]|intros ? ?];
        Z.to_euclidean_division_equations; lia).
  assert (E2 : (a * 256 + b) / 16 <> 2753 <-> ((a <> 172 \/ b < 16) \/ 31 < b))
    by (split; [intros; destruct (Z.eq_dec a 172); [subst|tauto]|intros ? ?];
        Z.to_euclidean_division_equations; lia).
  assert (E3 : a / 16 <> 14 <-> (a < 224 \/ 239 < a)) by (Z.to_euclidean_division_equations; lia).
  assert (E4 : a / 16 <> 15 <-> a < 240) by (Z.to_euclidean_division_equations; lia).
  change ((100 * 256 + 64) / 64) with 401. change ((172 * 256 + 16) / 16) with 2753.
  change (224 / 16) with 14. change (240 / 16) with 15. rewrite E1, E2, E3, E4. clear E1 E2 E3 E4.
  assert (N2 : forall x y, ~ (a = x /\ b = y) <-> (a <> x \/ b <> y)) by (intros; lia).
  assert (N3 : forall x y z, ~ (a = x /\ b = y /\ c = z) <-> ((a <> x \/ b <> y) \/ c <> z)) by (intros; lia).
  rewrite !N2, !N3. assert (H255 : a < 240 -> a <> 255) by lia. clear N2 N3.
  split; intros Hg; destruct_and! Hg; split_and!; auto; left; left; left; lia.
Qed.

(** ** The sixteen-bit segments *)

Lemma land_high x k : 0 <= x < 2 ^ 16 -> 0 <= k ->
  Z.land x (Z.ldiff (Z.ones 16) (Z.ones k)) = x / 2 ^ k * 2 ^ k.
Proof.
  intros Hx Hk. rewrite Z.ldiff_land, Z.land_assoc, <- Z.ldiff_land, Z.land_ones, Z.mod_small by lia.
  rewrite Z.ldiff_ones_r by done. by rewrite Z.shiftl_mul_pow2, Z.shiftr_div_pow2.
Qed.

Lemma num6_hi v : v6_ok v ->
  num6 v / 2 ^ 112 = seg0 v /\ num6 v / 2 ^ 96 = seg0 v * 65536 + seg1 v /\
  num6 v / 2 ^ 32 =
    ((((seg0 v * 65536 + seg1 v) * 65536 + seg2 v) * 65536 + seg3 v) * 65536 + seg4 v) * 65536 + seg5 v.
Proof.
  intros (? & ? & ? & ? & ? & ? & ? & ?). unfold is_u16, num6 in *.
  assert (E : forall h r a, 0 <= r < 65536 -> 0 <= a -> (h * 65536 + r) / 2 ^ (16 + a) = h / 2 ^ a).
  { intros h r a Hr Ha. rewrite div_pow by lia. change (2 ^ 16) with 65536. by rewrite div_digits by lia. }
  change 112 with (16 + (16 + (16 + (16 + (16 + (16 + 16)))))).
  change 96 with (16 + (16 + (16 + (16 + (16 + 16))))). change 32 with (16 + 16).
  rewrite !E by lia. change (2 ^ 16) with 65536. by rewrite !div_digits by lia.
Qed.

Lemma in6_first v b len : v6_ok v -> v6_ok b -> 0 <= len <= 16 ->
  in6 v (b, len) <-> seg0 v / 2 ^ (16 - len) = seg0 b / 2 ^ (16 - len).
Proof.
  intros Hv Hb Hl. unfold in6, within. cbn [fst snd]. replace (128 - len) with (112 + (16 - len)) by lia.
  rewrite !div_pow by lia. by rewrite (proj1 (num6_hi v Hv)), (proj1 (num6_hi b Hb)).
Qed.

Lemma in6_32 v b : v6_ok v -> v6_ok b -> in6 v (b, 32) <-> seg0 v = seg0 b /\ seg1 v = seg1 b.
Proof.
  intros Hv Hb. unfold in6, within. cbn [fst snd]. change (128 - 32) with 96.
  rewrite (proj1 (proj2 (num6_hi v Hv))), (proj1 (proj2 (num6_hi b Hb))).
  destruct Hv as (? & ? & _), Hb as (? & ? & _). unfold is_u16 in *. lia.
Qed.

Lemma in6_96 v s5 : v6_ok v -> 0 <= s5 < 65536 ->
  in6 v (mkV6 0 0 0 0 0 s5 0 0, 96) <-> zero_to_4 v && (seg5 v =? s5) = true.
Proof.
  intros Hv Hs. unfold in6, within. cbn [fst snd]. change (128 - 96) with 32.
  rewrite (proj2 (proj2 (num6_hi v Hv))), (proj2 (proj2 (num6_hi (mkV6 0 0 0 0 0 s5 0 0) ltac:(repeat split; cbn; lia)))).
  destruct Hv as (? & ? & ? & ? & ? & ? & _). unfold is_u16, zero_to_4 in *. cbn. lia.
Qed.

Lemma low4_ok v : v6_ok v -> v4_ok (low4 v).
Proof.
  intros (_ & _ & _ & _ & _ & _ & H6 & H7). unfold is_u16, low4, v4_of_segments, v4_ok, is_byte in *. cbn.
  split_and!; try (apply Z.div_pos; lia); try (apply Z.div_lt_upper_bound; lia); apply Z.mod_pos_bound; lia.
Qed.

Definition carried (v : Ipv6) : Prop := Exists (in6 v) carries4.

Lemma carried_spec v : v6_ok v -> carried v <-> to_ipv4 v = Some (low4 v).
Proof.
  intros Hv. unfold carried, carries4. rewrite !Exists_cons, Exists_nil. rewrite !in6_96 by (done || lia).
  unfold to_ipv4. destruct (zero_to_4 v), (seg5 v =? 0), (seg5 v =? 65535); cbn; split; intuition done.
Qed.

Lemma not_carried v : v6_ok v -> ~ carried v -> to_ipv4 v = None /\ to_ipv4_mapped v = None.
Proof.
  intros Hv Hn. rewrite (carried_spec v Hv) in Hn. unfold to_ipv4, to_ipv4_mapped, low4 in *.
  destruct (zero_to_4 v), (seg5 v =? 0), (seg5 v =? 65535); cbn in *; split; congruence.
Qed.

Lemma global_v6_carried v : v6_ok v -> carried v -> is_global_v6 v = is_global_v4 (low4 v).
Proof.
  intros Hv Hc. apply (carried_spec v Hv) in Hc. unfold is_global_v6. rewrite Hc.
  unfold to_ipv4_mapped. destruct (zero_to_4 v && (seg5 v =? 65535)); done.
Qed.

Lemma global_v6_plain v : v6_ok v -> ~ carried v ->
  is_global_v6 v = true <-> Forall (fun p => ~ in6 v p) blocked6.
Proof.
  intros Hv Hn. destruct (not_carried v Hv Hn) as [E1 E2]. unfold is_global_v6. rewrite E1, E2.
  assert (El : v6_loopback v = false /\ v6_unspecified v = false).
  { unfold to_ipv4 in E1. unfold v6_loopback, v6_unspecified.
    destruct (zero_to_4 v), (seg5 v =? 0), (seg5 v =? 65535); done. }
  destruct El as [-> ->]. cbn [orb]. unfold v6_multicast.
  pose proof (proj1 Hv) as H0. unfold is_u16 in H0.
  change 65280 with (Z.ldiff (Z.ones 16) (Z.ones 8)) at 1. change 65472 with (Z.ldiff (Z.ones 16) (Z.ones 6)).
  change 65024 with (Z.ldiff (Z.ones 16) (Z.ones 9)). rewrite !land_high by lia.
  unfold blocked6. rewrite !Forall_cons, Forall_nil.
  rewrite !in6_first, in6_32 by (done || lia || (repeat split; cbn; lia)). cbn [seg0 seg1].
  change (65280 / 2 ^ (16 - 8)) with 255. change (65152 / 2 ^ (16 - 10)) with 1018.
  change (64512 / 2 ^ (16 - 7)) with 126. change (2 ^ (16 - 8)) with 256. change (2 ^ (16 - 10)) with 64.
  change (2 ^ (16 - 7)) with 512. change (2 ^ 8) with 256. change (2 ^ 6) with 64. change (2 ^ 9) with 512.
  generalize (seg0 v / 256) as q8, (seg0 v / 64) as q6, (seg0 v / 512) as q9. intros q8 q6 q9.
  destruct (Z.eqb_spec (q8 * 256) 65280); [split; [done|lia]|].
  destruct (Z.eqb_spec (q6 * 64) 65152); [split; [done|lia]|].
  destruct (Z.eqb_spec (q9 * 512) 64512); [split; [done|lia]|].
  destruct (Z.eqb_spec (seg0 v) 8193), (Z.eqb_spec (seg1 v) 3512); cbn [andb]; split; intros; try done; lia.
Qed.

(** The ranges the module's comment names besides those: of the "IETF and
    benchmark" ranges, 192.0.0.0/24 and 198.18.0.0/15. *)
Definition let_through4 : list (Ipv4 * Z) := [(mkV4 192 0 0 0, 24); (mkV4 198 18 0 0, 15)].
Definition documented4 : list (Ipv4 * Z) := blocked4 ++ let_through4.

#[export] Instance in4_dec v p : Decision (in4 v p).
Proof. unfold in4, within. apply _. Defined.

(** In no documented range, or in one of the two that are let through. *)
Definition passes4 (v : Ipv4) : Prop :=
  Forall (fun p => ~ in4 v p) documented4 \/ Exists (in4 v) let_through4.

Lemma let_through_not_blocked v p q : p ∈ let_through4 -> q ∈ blocked4 -> in4 v p -> ~ in4 v q.
Proof.
  unfold in4, within. generalize (num4 v). intros n Hp Hq.
  repeat (apply elem_of_cons in Hp as [->|Hp]); [..|by apply elem_of_nil in Hp];
    repeat (apply elem_of_cons in Hq as [->|Hq]); try by apply elem_of_nil in Hq.
  all: cbn -[Z.div Z.pow]; repeat match goal with
    | |- context [2 ^ ?k] => let v := eval vm_compute in (2 ^ k) in change (2 ^ k) with v
    | |- context [num4 (mkV4 ?a ?b ?c ?d)] =>
        let v := eval vm_compute in (num4 (mkV4 a b c d)) in change (num4 (mkV4 a b c d)) with v
    end; intros; Z.to_euclidean_division_equations; lia.
Qed.

Lemma passes4_iff v : passes4 v <-> Forall (fun p => ~ in4 v p) blocked4.
Proof.
  unfold passes4, documented4. rewrite Forall_app. split.
  - intros [[? _]|(p & Hp & Hin)%Exists_exists]; [done|]. apply Forall_forall. intros q Hq.
    by apply (let_through_not_blocked v p).
  - intros Hb. destruct (decide (Exists (in4 v) let_through4)) as [|N]; [by right|left].
    split; [done|]. apply Forall_forall. intros q Hq Hin. apply N, Exists_exists. by exists q.
Qed.

(** C25: what the guard calls global.  An IPv4 address is, when it is in none of
    the ranges the module documents as blocked, as prefixes; of these exactly two
    are let through all the same, 192.0.0.0/24 and 198.18.0.0/15 (a divergence
    from the comment, recorded as a finding).  An IPv6 address that carries an
    IPv4 one (mapped or compatible) is judged as that one, and any other is
    global when it is in none of four prefixes. *)
Theorem is_global_prefixes ip :
  match ip with V4 v => v4_ok v | V6 v => v6_ok v end ->
  is_global ip = true <->
  match ip with
  | V4 v => passes4 v
  | V6 v => (carried v -> passes4 (low4 v)) /\ (~ carried v -> Forall (fun p => ~ in6 v p) blocked6)
  end.
Proof.
  destruct ip as [v|v]; cbn; intros Hv; rewrite passes4_iff; [by apply global_v4_prefixes|].
  assert (Hd : carried v \/ ~ carried v).
  { rewrite (carried_spec v Hv). unfold to_ipv4. destruct (_ && _); [left|right]; done. }
  destruct Hd as [Hc|Hn].
  - rewrite (global_v6_carried v Hv Hc), (global_v4_prefixes _ (low4_ok v Hv)). tauto.
  - rewrite (global_v6_plain v Hv Hn). tauto.
Qed.

Lemma check_addrs_spec l :
  (check_addrs l = Ok tt /\ Forall (fun sa => is_global (sa_ip sa) = true) l) \/
  (exists sa, sa ∈ l /\ is_global (sa_ip sa) = false /\
     check_addrs l = Err (NotGlobal (class_of (sa_ip sa)) (sa_ip sa))).
Proof.
  induction l as [|sa l IH]; cbn; [by left|]. unfold check_addr.
  destruct (is_global (sa_ip sa)) eqn:E; cbn.
  - destruct IH as [[-> Hl]|(x & Hx & Hg & ->)]; [left; auto|right]. exists x. split; [by right|done].
  - right. exists sa. split; [by left|done].
Qed.

Lemma dial_spec connect l last tried r :
  dial connect l last = (tried, r) ->
  tried `prefix_of` l /\
  match r with
  | Ok sa => list.last tried = Some sa /\ connect sa = Ok tt
  | Err _ => tried = l /\ forall sa, sa ∈ l -> is_ok (connect sa) = false
  end.
Proof.
  revert last tried. induction l as [|sa l IH]; intros last tried; cbn.
  { intros [= <- <-]. split; [done|]. split; [done|]. by intros ? ?%elem_of_nil. }
  destruct (connect sa) as [[]|e] eqn:E.
  - intros [= <- <-]. split; [by exists l|done].
  - destruct (dial connect l (Some e)) as [t r'] eqn:Ed. intros [= <- <-].
    apply IH in Ed as [[k Hk] Hr]. split; [exists k; by rewrite Hk|]. destruct r' as [s|e'].
    + destruct Hr as [Hl Hc]. split; [|done]. by destruct t.
    + destruct Hr as [-> Hc]. split; [done|]. intros s [->|Hs]%elem_of_cons; [by rewrite E|by apply Hc].
Qed.

(** C24: only vetted addresses are dialled. Of a host that nobody vouched for,
    one resolution is made, and every address an attempt is made on is one
    of its answers and global, whatever a later resolution of the name would
    say; one answer that is not refuses the host and nothing is dialled; and
    the connection is on the last address tried. *)
Theorem only_global_dialled connect host port resolve tried r :
  connect_vetted_with connect host port false resolve = (tried, r) ->
  (forall sa, sa ∈ tried ->
     is_global (sa_ip sa) = true /\
     exists addrs, resolve 0%nat host port = Ok addrs /\ sa ∈ addrs) /\
  (forall addrs sa, host <> nil_str -> resolve 0%nat host port = Ok addrs -> sa ∈ addrs ->
     is_global (sa_ip sa) = false -> tried = [] /\ exists c ip, r = Err (PermissionDenied (NotGlobal c ip))) /\
  (forall sa, r = Ok sa -> list.last tried = Some sa /\ connect sa = Ok tt).
Proof.
  unfold connect_vetted_with, resolve_guarded_with. case_decide as Eh.
  { intros [= <- <-]. split_and!; [by intros ? ?%elem_of_nil|done|done]. }
  destruct (resolve 0%nat host port) as [addrs|e] eqn:Er; cbn.
  2: { intros [= <- <-]. split_and!; [by intros ? ?%elem_of_nil|done|done]. }
  destruct addrs as [|a l].
  { intros [= <- <-]. split_and!; [by intros ? ?%elem_of_nil| |done].
    intros ? ? _ [= <-] ?%elem_of_nil. done. }
  destruct (check_addrs_spec (a :: l)) as [[Ec Hg]|(x & Hx & Hg & Ec)]; rewrite Ec; cbn [mbind result_bind].
  - unfold connect_addrs. rewrite Ec. intros Hd. apply dial_spec in Hd as [[k Hk] Hr].
    rewrite Forall_forall in Hg. split_and!.
    + intros sa Hsa. assert (sa ∈ a :: l) by (rewrite Hk; apply elem_of_app; by left).
      split; [by apply Hg|]. by exists (a :: l).
    + intros addrs sa _ [= <-] Hsa Hn. by rewrite Hg in Hn.
    + intros sa ->. done.
  - intros [= <- <-]. split_and!; [by intros ? ?%elem_of_nil| |done]. intros addrs sa _ _ _ _. eauto.
Qed.

(** The benchmark network, the IETF protocol block and a private address
    behind a NAT64 or 6to4 prefix are taken for global. *)
Lemma benchmark_is_global :
  is_global (V4 (mkV4 198 18 0 1)) = true /\ is_global (V4 (mkV4 192 0 0 1)) = true /\
  is_global (V6 (mkV6 100 65435 0 0 0 0 (10 * 256) 1)) = true /\
  is_global (V6 (mkV6 8194 (10 * 256) 1 0 0 0 0 1)) = true.
Proof. done. Qed.

Lemma is_global_prefixes_witness : is_global (V6 (mkV6 9729 0 0 0 0 0 0 1)) = true.
Proof.
  refine (proj2 (is_global_prefixes (V6 (mkV6 9729 0 0 0 0 0 0 1)) _) _).
  - repeat split; cbn; discriminate || reflexivity.
  - assert (Hv : v6_ok (mkV6 9729 0 0 0 0 0 0 1)) by (repeat split; cbn; discriminate || reflexivity).
    split; [intros Hc%(carried_spec _ Hv); discriminate|intros _].
    repeat constructor; vm_compute; discriminate.
Defined.

(** A resolver that answers the guard and the dial differently. *)
Definition rebinding : ResolveFn := fun call _ port =>
  Ok [mkSock (V4 (if decide (call = 0%nat) then mkV4 93 184 216 34 else mkV4 169 254 169 254)) port].
Lemma only_global_dialled_witness :
  let dialled := mkSock (V4 (mkV4 93 184 216 34)) 443 in
  (connect_vetted_with (fun _ => Ok tt) "peer.example" 443 false rebinding).1 = [dialled] /\
  is_global (sa_ip dialled) = true.
Proof.
  split; [vm_compute; reflexivity|].
  refine (proj1 (proj1 (only_global_dialled (fun _ => Ok tt) "peer.example" 443 rebinding _ _
    (surjective_pairing _)) _ _)).
  vm_compute. left.
Defined.
