(* ===== verification/Bytes.v ===== *)
(** * Bytes

    Byte strings and their texts: [crates/agentd/src/b64.rs] (base64, standard
    and URL-safe), [to_hex] and [ct_eq] of [crates/agentd/src/sha.rs], and the
    [to_le_bytes], [from_be_bytes] of the standard library.  A byte is an
    integer below 256. *)

From S2P Require Export Text.

Local Open Scope Z_scope.

Definition bytes (l : list Z) : Prop := Forall (fun b => 0 <= b < 256) l.

(** ** Integers as bytes *)

Definition from_le (l : list Z) : Z := foldr (fun b v => b + 256 * v) 0 l.
Fixpoint to_le (n : nat) (x : Z) : list Z :=
  match n with O => [] | S n' => x mod 256 :: to_le n' (x / 256) end.
Definition from_be (l : list Z) : Z := from_le (rev l).
Definition to_be (n : nat) (x : Z) : list Z := rev (to_le n x).

Lemma from_le_bound l : bytes l -> 0 <= from_le l < 256 ^ Z.of_nat (length l).
Proof.
  induction 1 as [|b l Hb _ IH]; [done|]. cbn [from_le foldr length]. fold (from_le l).
  rewrite Nat2Z.inj_succ, Z.pow_succ_r by lia. lia.
Qed.

Lemma from_le_app l k : from_le (l ++ k) = from_le l + 256 ^ Z.of_nat (length l) * from_le k.
Proof.
  induction l as [|b l IH]; cbn [app from_le foldr length].
  - change (256 ^ Z.of_nat 0) with 1. unfold from_le. lia.
  - fold (from_le (l ++ k)) (from_le l). rewrite IH, Nat2Z.inj_succ, Z.pow_succ_r by lia. ring.
Qed.

Lemma from_le_inj l k : bytes l -> bytes k -> length l = length k -> from_le l = from_le k -> l = k.
Proof.
  intros Hl. revert k. induction Hl as [|b l Hb Hl IH]; intros [|c k] Hk E; try done.
  apply Forall_cons in Hk as [Hc Hk]. cbn [from_le foldr]. fold (from_le l) (from_le k). intros Ev.
  assert (b = c /\ from_le l = from_le k) as [-> Ev'] by lia. f_equal. apply IH; [done| |done]. by injection E.
Qed.

Lemma to_le_length n x : length (to_le n x) = n.
Proof. revert x. induction n as [|n IH]; intros x; [done|]. cbn. by rewrite IH. Qed.

Lemma to_le_bytes n x : bytes (to_le n x).
Proof.
  revert x. induction n as [|n IH]; intros x; [constructor|]. constructor; [|apply IH].
  apply Z.mod_pos_bound. lia.
Qed.

Lemma from_to_le n x : 0 <= x < 256 ^ Z.of_nat n -> from_le (to_le n x) = x.
Proof.
  revert x. induction n as [|n IH]; intros x Hx; cbn [to_le from_le foldr].
  - change (256 ^ Z.of_nat 0) with 1 in Hx. lia.
  - fold (from_le (to_le n (x / 256))). rewrite Nat2Z.inj_succ, Z.pow_succ_r in Hx by lia.
    rewrite IH; [pose proof (Z.div_mod x 256); lia|].
    split; [apply Z.div_pos; lia|apply Z.div_lt_upper_bound; lia].
Qed.

Lemma to_from_le l : bytes l -> to_le (length l) (from_le l) = l.
Proof.
  intros Hl. apply from_le_inj; [apply to_le_bytes|done|apply to_le_length|].
  apply from_to_le, from_le_bound, Hl.
Qed.

(** ** Hexadecimal *)

(** One digit, [{:x}]. *)
Definition hex_digit (n : Z) : char :=
  if n <? 10 then digit_char n else Ascii.ascii_of_N (Z.to_N (n - 10 + 97)).
Definition to_hex (l : list Z) : list char :=
  l ≫= (fun b => [hex_digit (b / 16); hex_digit (b mod 16)]).

(** [is_ascii_hexdigit], and the digit's value in either case. *)
Definition hex_val (a : char) : option Z :=
  if (48 <=? code a) && (code a <=? 57) then Some (code a - 48)
  else if (97 <=? code a) && (code a <=? 102) then Some (code a - 87)
  else if (65 <=? code a) && (code a <=? 70) then Some (code a - 55)
  else None.
Definition is_hexdigit (a : char) : bool := bool_decide (is_Some (hex_val a)).

(** The pairs [u8::from_str_radix(&hex[2 * i..2 * i + 2], 16)]. *)
Fixpoint unhex_pairs (l : list char) : option (list Z) :=
  match l with
  | [] => Some []
  | [_] => None
  | a :: b :: l' =>
      x ← hex_val a; y ← hex_val b; r ← unhex_pairs l'; Some (16 * x + y :: r)
  end.

Lemma code_ascii n : 0 <= n < 256 -> code (Ascii.ascii_of_N (Z.to_N n)) = n.
Proof. intros Hn. unfold code. rewrite Ascii.N_ascii_embedding by lia. lia. Qed.

Lemma hex_digit_code n : 0 <= n < 16 -> code (hex_digit n) = if n <? 10 then n + 48 else n + 87.
Proof.
  intros Hn. unfold hex_digit. destruct (Z.ltb_spec n 10).
  - apply code_digit_char. lia.
  - rewrite code_ascii by lia. lia.
Qed.

Lemma hex_val_digit n : 0 <= n < 16 -> hex_val (hex_digit n) = Some n.
Proof.
  intros Hn. unfold hex_val. rewrite hex_digit_code by done.
  destruct (Z.ltb_spec n 10).
  - destruct (_ && _) eqn:E; [f_equal; lia|]. lia.
  - destruct ((48 <=? n + 87) && (n + 87 <=? 57)) eqn:E; [lia|].
    destruct ((97 <=? n + 87) && (n + 87 <=? 102)) eqn:E2; [f_equal; lia|lia].
Qed.

Lemma byte_nibbles b : 0 <= b < 256 -> 0 <= b / 16 < 16 /\ 0 <= b mod 16 < 16 /\ 16 * (b / 16) + b mod 16 = b.
Proof. intros Hb. pose proof (Z.div_mod b 16). pose proof (Z.mod_pos_bound b 16). lia. Qed.

Lemma unhex_to_hex l : bytes l -> unhex_pairs (to_hex l) = Some l.
Proof.
  induction 1 as [|b l Hb Hl IH]; [done|].
  change (to_hex (b :: l)) with (hex_digit (b / 16) :: hex_digit (b mod 16) :: to_hex l).
  cbn [unhex_pairs]. destruct (byte_nibbles b Hb) as (H1 & H2 & E).
  rewrite !hex_val_digit by done. cbn [mbind option_bind]. rewrite IH. cbn [mbind option_bind].
  by rewrite E.
Qed.

Lemma to_hex_length l : length (to_hex l) = (2 * length l)%nat.
Proof. induction l as [|b l IH]; [done|]. cbn. fold (to_hex l). rewrite IH. lia. Qed.

(** ** UTF-8 *)

(** [str::from_utf8(..).is_ok()]. *)
Definition inside (lo hi b : Z) : bool := (lo <=? b) && (b <=? hi).
Definition utf8_tail (b : Z) : bool := inside 0x80 0xBF b.
Fixpoint utf8_valid (l : list Z) : bool :=
  match l with
  | [] => true
  | a :: l1 =>
      if a <? 0x80 then utf8_valid l1
      else match l1 with
      | [] => false
      | b :: l2 =>
          if inside 0xC2 0xDF a then utf8_tail b && utf8_valid l2
          else match l2 with
          | [] => false
          | c :: l3 =>
              if (a =? 0xE0) && inside 0xA0 0xBF b || inside 0xE1 0xEC a && utf8_tail b
                 || (a =? 0xED) && inside 0x80 0x9F b || inside 0xEE 0xEF a && utf8_tail b
              then utf8_tail c && utf8_valid l3
              else match l3 with
              | [] => false
              | d :: l4 =>
                  if (a =? 0xF0) && inside 0x90 0xBF b || inside 0xF1 0xF3 a && utf8_tail b
                     || (a =? 0xF4) && inside 0x80 0x8F b
                  then utf8_tail c && utf8_tail d && utf8_valid l4
                  else false
              end
          end
      end
  end.

(** [String::from_utf8(..)], a string being its bytes. *)
Definition from_utf8 (b : list Z) : option string :=
  if utf8_valid b then Some (text ((fun z => Ascii.ascii_of_N (Z.to_N z)) <$> b)) else None.

(** ** Constant-time equality *)

Fixpoint ct_diff (a b : list Z) : Z :=
  match a, b with
  | x :: a', y :: b' => Z.lor (Z.lxor x y) (ct_diff a' b')
  | _, _ => 0
  end.
Definition ct_eq (a b : list Z) : bool :=
  bool_decide (length a = length b) && (ct_diff a b =? 0).

Lemma ct_eq_iff a b : bytes a -> bytes b -> ct_eq a b = true <-> a = b.
Proof.
  intros Ha Hb. unfold ct_eq. rewrite andb_true_iff, bool_decide_eq_true, Z.eqb_eq.
  split; [|intros ->; split; [done|]].
  - intros [Hl E]. revert b Hb Hl E. induction Ha as [|x a Hx Ha IH]; intros [|y b] Hb Hl E; try done.
    apply Forall_cons in Hb as [Hy Hb]. cbn in E. apply Z.lor_eq_0_iff in E as [E1 E2].
    apply Z.lxor_eq in E1 as ->. f_equal. apply IH; [done| |done]. by injection Hl.
  - clear. induction b as [|y b IH]; [done|]. cbn. by rewrite Z.lxor_nilpotent, IH.
Qed.

(** ** Base64 *)

Definition STD : list char :=
  chars "ABCDEFGHIJKLMNOPQRSTUVWXYZabcdefghijklmnopqrstuvwxyz0123456789+/".
Definition URL : list char :=
  chars "ABCDEFGHIJKLMNOPQRSTUVWXYZabcdefghijklmnopqrstuvwxyz0123456789-_".

(** [input.chunks(3)]. *)
Fixpoint chunks3 (l : list Z) : list (list Z) :=
  match l with
  | [] => []
  | a :: b :: c :: l' => [a; b; c] :: chunks3 l'
  | _ => [l]
  end.

Definition encode_chunk (alphabet : list char) (pad : bool) (chunk : list Z) : list char :=
  let b0 := nth 0 chunk 0 in
  let b1 := nth 1 chunk 0 in
  let b2 := nth 2 chunk 0 in
  let n := Z.lor (Z.lor (Z.shiftl b0 16) (Z.shiftl b1 8)) b2 in
  let at6 k := nth (Z.to_nat (Z.land (Z.shiftr n k) 63)) alphabet "="%char in
  [at6 18; at6 12]
  ++ (if decide (1 < length chunk)%nat then [at6 6] else if pad then ["="%char] else [])
  ++ (if decide (2 < length chunk)%nat then [at6 0] else if pad then ["="%char] else []).

Definition encode64 (l : list Z) (alphabet : list char) (pad : bool) : list char :=
  chunks3 l ≫= encode_chunk alphabet pad.
Definition std_pad (l : list Z) : list char := encode64 l STD true.
Definition url_nopad (l : list Z) : list char := encode64 l URL false.

Definition between (lo hi : Z) (a : char) : bool := (lo <=? code a) && (code a <=? hi).

(** The value of a letter or digit. *)
Definition alnum64 (a : char) : option Z :=
  if between 65 90 a then Some (code a - 65)
  else if between 97 122 a then Some (code a - 97 + 26)
  else if between 48 57 a then Some (code a - 48 + 52)
  else None.

(** The accumulator: [bits], how many of its low bits are pending, what was
    pushed. *)
Definition Acc64 : Type := Z * Z * list Z.
Definition feed (v : Z) (st : Acc64) : Acc64 :=
  let '(bits, nbits, out) := st in
  let bits := Z.lor (u32_wrap (Z.shiftl bits 6)) v in
  let nbits := nbits + 6 in
  if 8 <=? nbits
  then (bits, nbits - 8, out ++ [Z.land (Z.shiftr bits (nbits - 8)) 255])
  else (bits, nbits, out).

Fixpoint url_decode_loop (l : list char) (st : Acc64) : option (list Z) :=
  match l with
  | [] => Some st.2
  | c :: l' =>
      match alnum64 c with
      | Some v => url_decode_loop l' (feed v st)
      | None =>
          if bool_decide (c = "-"%char \/ c = "+"%char) then url_decode_loop l' (feed 62 st)
          else if bool_decide (c = "_"%char \/ c = "/"%char) then url_decode_loop l' (feed 63 st)
          else if bool_decide (c = "="%char) then Some st.2
          else if bool_decide (code c = 10 \/ code c = 13 \/ code c = 32) then url_decode_loop l' st
          else None
      end
  end.
Definition url_decode (l : list char) : option (list Z) := url_decode_loop l (0, 0, []).

Fixpoint std_decode_loop (l : list char) (st : Acc64) : option (list Z) :=
  match l with
  | [] => Some st.2
  | c :: l' =>
      match alnum64 c with
      | Some v => std_decode_loop l' (feed v st)
      | None =>
          if bool_decide (c = "+"%char) then std_decode_loop l' (feed 62 st)
          else if bool_decide (c = "/"%char) then std_decode_loop l' (feed 63 st)
          else None
      end
  end.

(** Why standard base64 does not read: its length or padding, or a
    character. *)
Inductive Base64Error : Type := BadPadding | BadCharacter.

Definition std_decode (l : list char) : result Base64Error (list Z) :=
  let body := trim_end (fun c => bool_decide (c = "="%char)) l in
  let pad := (length l - length body)%nat in
  if decide (2 < pad)%nat then Err BadPadding
  else if decide (0 < pad /\ length l mod 4 <> 0)%nat then Err BadPadding
  else if decide (length body mod 4 = 1)%nat then Err BadPadding
  else ok_or BadCharacter (std_decode_loop body (0, 0, [])).

Example std_pad_f : text (std_pad [102]) = "Zg==". Proof. reflexivity. Qed.
Example std_pad_foobar : text (std_pad [102; 111; 111; 98; 97; 114]) = "Zm9vYmFy". Proof. reflexivity. Qed.
Example url_nopad_ff : text (url_nopad [251; 255]) = "-_8". Proof. reflexivity. Qed.
Example std_decode_bad : std_decode (chars "Zg=") = Err BadPadding. Proof. reflexivity. Qed.
Example std_decode_lax : std_decode (chars "Zh==") = Ok [102]. Proof. reflexivity. Qed.

(** ** Base64 round trips *)

Lemma lor_shift a b n :
  0 <= n -> 0 <= a < 2 ^ n -> 0 <= b -> Z.lor a (Z.shiftl b n) = a + b * 2 ^ n.
Proof.
  intros Hn Ha Hb. rewrite <- Z.add_nocarry_lor; [by rewrite Z.shiftl_mul_pow2|].
  apply Z.bits_inj'. intros k Hk. rewrite Z.land_spec, Z.bits_0.
  destruct (Z.ltb_spec k n).
  - rewrite Z.shiftl_spec_low by done. apply andb_false_r.
  - rewrite <- (Z.mod_small a (2 ^ n)) by lia. by rewrite Z.mod_pow2_bits_high by lia.
Qed.

(** Taking one value: what was pending, times 64, plus it; a byte leaves when
    eight bits are there. *)
Lemma feed_spec v bits n out :
  0 <= v < 64 -> 0 <= bits -> 0 <= n <= 6 ->
  let x := bits mod 2 ^ n * 64 + v in
  exists bits', 0 <= bits' /\
    if decide (2 <= n)
    then feed v (bits, n, out) = (bits', n - 2, out ++ [x / 2 ^ (n - 2)]) /\
         bits' mod 2 ^ (n - 2) = x mod 2 ^ (n - 2)
    else feed v (bits, n, out) = (bits', n + 6, out) /\ bits' mod 2 ^ (n + 6) = x.
Proof.
  intros Hv Hb Hn x.
  assert (Z.lor (u32_wrap (Z.shiftl bits 6)) v = v + bits mod 2 ^ 26 * 2 ^ 6) as E.
  { rewrite Z.lor_comm. rewrite <- lor_shift by (try apply Z.mod_pos_bound; lia). f_equal.
    unfold u32_wrap. rewrite !Z.shiftl_mul_pow2 by lia. change (2 ^ 32) with (2 ^ 26 * 2 ^ 6).
    by rewrite Z.mul_mod_distr_r by lia. }
  set (b' := v + bits mod 2 ^ 26 * 2 ^ 6) in *.
  assert (0 <= bits mod 2 ^ 26) by (apply Z.mod_pos_bound; lia).
  assert (b' mod 2 ^ (n + 6) = x) as Ex.
  { unfold b', x. rewrite Z.pow_add_r by lia.
    assert (bits mod 2 ^ n = (bits mod 2 ^ 26) mod 2 ^ n) as ->.
    { replace 26 with (n + (26 - n)) by lia. rewrite Z.pow_add_r by lia.
      by rewrite Z.rem_mul_r, Z.mul_comm, Z.mod_add, Z.mod_mod by lia. }
    set (q := bits mod 2 ^ 26) in *. symmetry. apply Z.mod_unique with (q / 2 ^ n).
    - left. pose proof (Z.mod_pos_bound q (2 ^ n)). assert (0 < 2 ^ n) by lia. nia.
    - pose proof (Z.div_mod q (2 ^ n) ltac:(lia)). change (2 ^ 6) with 64. nia. }
  exists b'. split; [unfold b'; lia|]. unfold feed. rewrite E. case_decide as Hd.
  - assert ((8 <=? n + 6) = true) as -> by lia. replace (n + 6 - 8) with (n - 2) by lia.
    replace (n + 6) with ((n - 2) + 8) in Ex by lia. split.
    + do 2 f_equal. change 255 with (Z.ones 8). rewrite Z.land_ones, Z.shiftr_div_pow2 by lia.
      rewrite <- Ex, Z.pow_add_r by lia.
      rewrite Z.rem_mul_r, Z.mul_comm, Z.add_comm, Z.div_add_l by lia.
      f_equal. rewrite (Z.div_small (b' mod _)); [lia|]. apply Z.mod_pos_bound. lia.
    + rewrite <- Ex, Z.pow_add_r by lia.
      by rewrite Z.rem_mul_r, Z.mul_comm, Z.mod_add, Z.mod_mod by lia.
  - by assert ((8 <=? n + 6) = false) as -> by lia.
Qed.

Lemma feed_first v bits out : 0 <= v < 64 -> 0 <= bits ->
  exists b, 0 <= b /\ feed v (bits, 0, out) = (b, 6, out) /\ b mod 64 = v.
Proof.
  intros Hv Hb. destruct (feed_spec v bits 0 out Hv Hb ltac:(lia)) as (b & H1 & H2 & H3).
  exists b. split; [done|]. split; [done|]. change (0 + 6) with 6 in H3. change (2 ^ 6) with 64 in H3.
  rewrite H3. change (2 ^ 0) with 1. rewrite Z.mod_1_r. done.
Qed.
Lemma feed_second v bits out : 0 <= v < 64 -> 0 <= bits ->
  let x := bits mod 64 * 64 + v in
  exists b, 0 <= b /\ feed v (bits, 6, out) = (b, 4, out ++ [x / 16]) /\ b mod 16 = x mod 16.
Proof. intros Hv Hb. exact (feed_spec v bits 6 out Hv Hb ltac:(lia)). Qed.
Lemma feed_third v bits out : 0 <= v < 64 -> 0 <= bits ->
  let x := bits mod 16 * 64 + v in
  exists b, 0 <= b /\ feed v (bits, 4, out) = (b, 2, out ++ [x / 4]) /\ b mod 4 = x mod 4.
Proof. intros Hv Hb. exact (feed_spec v bits 4 out Hv Hb ltac:(lia)). Qed.
Lemma feed_fourth v bits out : 0 <= v < 64 -> 0 <= bits ->
  exists b, 0 <= b /\ feed v (bits, 2, out) = (b, 0, out ++ [bits mod 4 * 64 + v]).
Proof.
  intros Hv Hb. destruct (feed_spec v bits 2 out Hv Hb ltac:(lia)) as (b & H1 & H2 & _).
  exists b. split; [done|]. change (2 - 2) with 0 in H2. change (2 ^ 0) with 1 in H2.
  by rewrite Z.div_1_r in H2.
Qed.

Section round_trip.
Variables (alphabet : list char) (loop : list char -> Acc64 -> option (list Z)).
Hypothesis loop_nil : forall st, loop [] st = Some st.2.
Hypothesis loop_letter : forall v l st, 0 <= v < 64 ->
  loop (nth (Z.to_nat v) alphabet "="%char :: l) st = loop l (feed v st).

(** The letters of the number [n] from bit [k] on. *)
Definition letter6 (n k : Z) : char := nth (Z.to_nat (Z.land (Z.shiftr n k) 63)) alphabet "="%char.

Lemma loop_letter6 n k l st :
  0 <= k -> loop (letter6 n k :: l) st = loop l (feed (n / 2 ^ k mod 64) st).
Proof.
  intros Hk. unfold letter6. change 63 with (Z.ones 6). rewrite Z.land_ones, Z.shiftr_div_pow2 by lia.
  apply loop_letter. apply Z.mod_pos_bound. lia.
Qed.

Lemma chunk_number a b c :
  0 <= a < 256 -> 0 <= b < 256 -> 0 <= c < 256 ->
  Z.lor (Z.lor (Z.shiftl a 16) (Z.shiftl b 8)) c = a * 2 ^ 16 + b * 2 ^ 8 + c.
Proof.
  intros Ha Hb Hc.
  assert (Z.lor (Z.shiftl b 8) c = c + b * 2 ^ 8) as E by (rewrite Z.lor_comm; apply lor_shift; lia).
  rewrite <- Z.lor_assoc, E, Z.lor_comm, lor_shift by lia. lia.
Qed.

Definition sextet (n k : Z) : Z := n / 2 ^ k mod 64.
Lemma sextet_range n k : 0 <= sextet n k < 64.
Proof. apply Z.mod_pos_bound. lia. Qed.

Ltac sextets := unfold sextet in *; Z.to_euclidean_division_equations; lia.

(** One, two or three bytes read back from their letters. *)
Lemma decode_one a bits out : 0 <= a < 256 -> 0 <= bits ->
  loop (encode_chunk alphabet false [a]) (bits, 0, out) = Some (out ++ [a]).
Proof.
  intros Ha Hb. unfold encode_chunk. cbn [nth length decide decide_rel app].
  rewrite chunk_number by lia. set (n := _ + _ + _). fold (letter6 n 18) (letter6 n 12).
  change (loop [letter6 n 18; letter6 n 12] (bits, 0, out) = Some (out ++ [a])).
  rewrite !loop_letter6 by lia. fold (sextet n 18) (sextet n 12).
  destruct (feed_first (sextet n 18) bits out) as (b1 & Hb1 & -> & E1); [apply sextet_range|done|].
  destruct (feed_second (sextet n 12) b1 out) as (b2 & Hb2 & -> & E2); [apply sextet_range|done|].
  rewrite loop_nil. cbn [snd]. rewrite E1. do 3 f_equal. unfold n. sextets.
Qed.

Lemma decode_two a b bits out : 0 <= a < 256 -> 0 <= b < 256 -> 0 <= bits ->
  loop (encode_chunk alphabet false [a; b]) (bits, 0, out) = Some (out ++ [a; b]).
Proof.
  intros Ha Hb Hbits. unfold encode_chunk. cbn [nth length decide decide_rel app].
  rewrite chunk_number by lia. set (n := _ + _ + _).
  change (loop [letter6 n 18; letter6 n 12; letter6 n 6] (bits, 0, out) = Some (out ++ [a; b])).
  rewrite !loop_letter6 by lia. fold (sextet n 18) (sextet n 12) (sextet n 6).
  destruct (feed_first (sextet n 18) bits out) as (b1 & Hb1 & -> & E1); [apply sextet_range|done|].
  destruct (feed_second (sextet n 12) b1 out) as (b2 & Hb2 & -> & E2); [apply sextet_range|done|].
  destruct (feed_third (sextet n 6) b2 (out ++ [(b1 mod 64 * 64 + sextet n 12) / 16]))
    as (b3 & Hb3 & -> & E3); [apply sextet_range|done|].
  rewrite loop_nil. cbn [snd]. rewrite <- app_assoc, E2, E1. cbn [app]. do 2 f_equal.
  assert (n < 2 ^ 24 /\ 0 <= n) as [? ?] by (unfold n; lia).
  f_equal; [unfold n; sextets|]. f_equal. unfold n. sextets.
Qed.

Lemma decode_three a b c rest bits out :
  0 <= a < 256 -> 0 <= b < 256 -> 0 <= c < 256 -> 0 <= bits ->
  exists bits', 0 <= bits' /\
    loop (encode_chunk alphabet false [a; b; c] ++ rest) (bits, 0, out) =
      loop rest (bits', 0, out ++ [a; b; c]).
Proof.
  intros Ha Hb Hc Hbits. unfold encode_chunk. cbn [nth length decide decide_rel app].
  rewrite chunk_number by lia. set (n := _ + _ + _).
  change (exists bits', 0 <= bits' /\ loop (letter6 n 18 :: letter6 n 12 :: letter6 n 6 :: letter6 n 0 :: rest)
    (bits, 0, out) = loop rest (bits', 0, out ++ [a; b; c])).
  rewrite !loop_letter6 by lia. fold (sextet n 18) (sextet n 12) (sextet n 6) (sextet n 0).
  destruct (feed_first (sextet n 18) bits out) as (b1 & Hb1 & -> & E1); [apply sextet_range|done|].
  destruct (feed_second (sextet n 12) b1 out) as (b2 & Hb2 & -> & E2); [apply sextet_range|done|].
  destruct (feed_third (sextet n 6) b2 (out ++ [(b1 mod 64 * 64 + sextet n 12) / 16]))
    as (b3 & Hb3 & -> & E3); [apply sextet_range|done|].
  match goal with |- context [feed (sextet n 0) (b3, 2, ?o)] =>
    destruct (feed_fourth (sextet n 0) b3 o) as (b4 & Hb4 & ->); [apply sextet_range|done|] end.
  exists b4. split; [done|]. do 2 f_equal. rewrite <- !app_assoc, E3, E2, E1. cbn [app]. f_equal.
  assert (n < 2 ^ 24 /\ 0 <= n) as [? ?] by (unfold n; lia).
  f_equal; [unfold n; sextets|]. f_equal; [unfold n; sextets|]. f_equal. unfold n. sextets.
Qed.

Lemma decode_encode64 l bits out :
  bytes l -> 0 <= bits -> loop (encode64 l alphabet false) (bits, 0, out) = Some (out ++ l).
Proof.
  intros Hl. remember (length l) as k eqn:Hk. revert l Hl Hk bits out.
  induction k as [k IH] using lt_wf_ind. intros l Hl Hk bits out Hb.
  destruct l as [|a [|b [|c l]]].
  - unfold encode64. cbn [chunks3 mbind list_bind]. rewrite loop_nil. by rewrite app_nil_r.
  - unfold encode64. cbn [chunks3 mbind list_bind]. rewrite app_nil_r.
    apply Forall_cons in Hl as [Ha _]. by apply decode_one.
  - unfold encode64. cbn [chunks3 mbind list_bind]. rewrite app_nil_r.
    apply Forall_cons in Hl as [Ha Hl]. apply Forall_cons in Hl as [Hb' _]. by apply decode_two.
  - apply Forall_cons in Hl as [Ha Hl]. apply Forall_cons in Hl as [Hb' Hl]. apply Forall_cons in Hl as [Hc Hl].
    change (encode64 (a :: b :: c :: l) alphabet false)
      with (encode_chunk alphabet false [a; b; c] ++ encode64 l alphabet false).
    destruct (decode_three a b c (encode64 l alphabet false) bits out) as (bits' & Hb1 & ->); try done.
    rewrite (IH (length l)) with (l := l); try done; [by rewrite <- app_assoc|].
    subst k. cbn [length]. lia.
Qed.
End round_trip.

Lemma url_letter v l st : 0 <= v < 64 ->
  url_decode_loop (nth (Z.to_nat v) URL "="%char :: l) st = url_decode_loop l (feed v st).
Proof.
  intros Hv. cbn [url_decode_loop].
  assert (forallb (fun n => match alnum64 (nth n URL "="%char) with
    | Some w => w =? Z.of_nat n
    | None => (n =? 62)%nat && bool_decide (nth n URL "="%char = "-"%char)
        || (n =? 63)%nat && bool_decide (nth n URL "="%char = "_"%char) end) (seq 0 64) = true) as Hall
    by (vm_compute; reflexivity).
  rewrite forallb_forall in Hall. specialize (Hall (Z.to_nat v)).
  rewrite in_seq in Hall. specialize (Hall ltac:(lia)). destruct (alnum64 _) as [w|].
  - apply Z.eqb_eq in Hall. do 2 f_equal. lia.
  - apply orb_true_iff in Hall as [Hv'|Hv']; apply andb_true_iff in Hv' as [En Ec];
      apply Nat.eqb_eq in En; apply bool_decide_eq_true in Ec as ->;
      [assert (v = 62) as -> by lia|assert (v = 63) as -> by lia]; done.
Qed.

Lemma std_letter v l st : 0 <= v < 64 ->
  std_decode_loop (nth (Z.to_nat v) STD "="%char :: l) st = std_decode_loop l (feed v st).
Proof.
  intros Hv. cbn [std_decode_loop].
  assert (forallb (fun n => match alnum64 (nth n STD "="%char) with
    | Some w => w =? Z.of_nat n
    | None => (n =? 62)%nat && bool_decide (nth n STD "="%char = "+"%char)
        || (n =? 63)%nat && bool_decide (nth n STD "="%char = "/"%char) end) (seq 0 64) = true) as Hall
    by (vm_compute; reflexivity).
  rewrite forallb_forall in Hall. specialize (Hall (Z.to_nat v)).
  rewrite in_seq in Hall. specialize (Hall ltac:(lia)). destruct (alnum64 _) as [w|].
  - apply Z.eqb_eq in Hall. do 2 f_equal. lia.
  - apply orb_true_iff in Hall as [Hv'|Hv']; apply andb_true_iff in Hv' as [En Ec];
      apply Nat.eqb_eq in En; apply bool_decide_eq_true in Ec as ->;
      [assert (v = 62) as -> by lia|assert (v = 63) as -> by lia]; done.
Qed.

Lemma url_round_trip l : bytes l -> url_decode (url_nopad l) = Some l.
Proof. intros Hl. exact (decode_encode64 URL url_decode_loop (fun _ => eq_refl) url_letter l 0 [] Hl ltac:(lia)). Qed.

(** The padded form is the unpadded one, filled to a multiple of four. *)
Lemma std_pad_shape l :
  exists k, (k <= 2)%nat /\ std_pad l = encode64 l STD false ++ replicate k "="%char /\
    (length (std_pad l) mod 4 = 0)%nat.
Proof.
  remember (length l) as n eqn:Hn. revert l Hn.
  induction n as [n IH] using lt_wf_ind. intros l Hn.
  destruct l as [|a [|b [|c l]]].
  - exists 0%nat. split; [lia|done].
  - exists 2%nat. split; [lia|]. done.
  - exists 1%nat. split; [lia|]. done.
  - destruct (IH (length l)) with (l := l) as (k & Hk & E & Hm); [subst n; cbn [length]; lia|done|].
    exists k. split; [done|].
    change (std_pad (a :: b :: c :: l)) with (encode_chunk STD true [a; b; c] ++ std_pad l).
    change (encode64 (a :: b :: c :: l) STD false)
      with (encode_chunk STD true [a; b; c] ++ encode64 l STD false).
    rewrite E at 1. rewrite <- app_assoc. split; [done|].
    rewrite length_app. change (length (encode_chunk STD true [a; b; c])) with 4%nat.
    by rewrite (Nat.Div0.add_mod 4), Hm.
Qed.

Lemma STD_letter_not_pad n k : nth (Z.to_nat (Z.land (Z.shiftr n k) 63)) STD "="%char <> "="%char.
Proof.
  change 63 with (Z.ones 6). rewrite Z.land_ones by lia. set (v := _ mod _).
  assert (0 <= v < 64) as Hv by (apply Z.mod_pos_bound; lia).
  assert (forallb (fun n => negb (bool_decide (nth n STD "="%char = "="%char))) (seq 0 64) = true) as Hall
    by (vm_compute; reflexivity).
  rewrite forallb_forall in Hall. specialize (Hall (Z.to_nat v)). rewrite in_seq in Hall.
  specialize (Hall ltac:(lia)). by apply negb_true_iff, bool_decide_eq_false in Hall.
Qed.

Lemma encode64_letters l : Forall (fun c => c <> "="%char) (encode64 l STD false).
Proof.
  unfold encode64. apply Forall_bind, Forall_forall. intros chunk _. unfold encode_chunk.
  repeat first [apply Forall_app; split | case_decide]; repeat constructor; apply STD_letter_not_pad.
Qed.

Lemma trim_end_padding l k :
  Forall (fun c => c <> "="%char) l ->
  trim_end (fun c => bool_decide (c = "="%char)) (l ++ replicate k "="%char) = l.
Proof.
  intros Hl. unfold trim_end. rewrite rev_app_distr.
  assert (rev (replicate k "="%char) = replicate k "="%char) as ->.
  { apply list_eq_Forall2. clear Hl. induction k as [|k IH]; [constructor|]. cbn. 
    rewrite replicate_cons_app. apply Forall2_app; [|by repeat constructor]. exact IH. }
  assert (forall k r, (forall a, a ∈ r -> a <> "="%char) ->
    drop_while (fun c => bool_decide (c = "="%char)) (replicate k "="%char ++ r) = r) as Hd.
  { intros k0 r Hr. induction k0 as [|k0 IH]; [|done]. cbn [replicate app]. apply drop_while_none.
    intros a Ha. apply bool_decide_eq_false. by apply Hr. }
  rewrite Hd; [apply rev_involutive|]. intros a Ha. rewrite Forall_forall in Hl. apply Hl.
  apply list_elem_of_In. apply list_elem_of_In in Ha. by apply in_rev.
Qed.

Lemma std_round_trip l : bytes l -> std_decode (std_pad l) = Ok l.
Proof.
  intros Hl. destruct (std_pad_shape l) as (k & Hk & E & Hm). unfold std_decode.
  rewrite E in *. rewrite trim_end_padding by apply encode64_letters.
  rewrite length_app, length_replicate in *. 
  rewrite decide_False by lia. rewrite decide_False by (intros [_ H]; by rewrite Hm in H).
  rewrite decide_False.
  - by rewrite (decode_encode64 STD std_decode_loop (fun _ => eq_refl) std_letter l 0 [] Hl ltac:(lia)).
  - intros H1. rewrite Nat.Div0.add_mod, H1 in Hm. destruct k as [|[|[|]]]; [done..|lia].
Qed.

(** Base64 loses nothing: every byte string reads back from its padded
    standard form and from its unpadded URL-safe form. *)
Lemma base64_round_trip l :
  bytes l -> std_decode (std_pad l) = Ok l /\ url_decode (url_nopad l) = Some l.
Proof. intros Hl. split; [by apply std_round_trip|by apply url_round_trip]. Qed.
