(* ===== verification/Base58.v ===== *)
(** * Base58

    [crates/agentd/src/payments/base58.rs]: how Solana writes keys, mints,
    blockhashes and signatures.  A number is held least significant digit
    first; one input digit is one pass of multiply-and-add over it, a [u32]
    carrying.  Bytes are integers below 256. *)

From S2P Require Export Bytes.

Section positional.
Open Scope Z_scope.

(** ** Positional numbers, least significant digit first *)

Definition value (base : Z) (ds : list Z) : Z := foldr (fun d v => d + base * v) 0 ds.
Definition digits_of (base : Z) (ds : list Z) : Prop := Forall (fun d => 0 <= d < base) ds.
(** The top digit is not zero. *)
Definition canonical (ds : list Z) : Prop := last ds <> Some 0.

Lemma value_app base ds es :
  value base (ds ++ es) = value base ds + base ^ Z.of_nat (length ds) * value base es.
Proof.
  induction ds as [|d ds IH]; cbn [app value foldr length]; [change (Z.of_nat 0) with 0; rewrite Z.pow_0_r; unfold value; lia|].
  fold (value base (ds ++ es)). fold (value base ds). rewrite IH, Nat2Z.inj_succ, Z.pow_succ_r by lia. ring.
Qed.

Lemma value_bound base ds :
  0 < base -> digits_of base ds -> 0 <= value base ds < base ^ Z.of_nat (length ds).
Proof.
  intros Hb. induction 1 as [|d ds Hd _ IH]; cbn [value foldr length]; [change (Z.of_nat 0) with 0; rewrite Z.pow_0_r; unfold value; lia|].
  fold (value base ds). rewrite Nat2Z.inj_succ, Z.pow_succ_r by lia. nia.
Qed.

Lemma canonical_cons d e ds : canonical (d :: e :: ds) <-> canonical (e :: ds).
Proof. done. Qed.

Lemma canonical_pos base ds :
  0 < base -> digits_of base ds -> canonical ds -> ds <> [] ->
  base ^ (Z.of_nat (length ds) - 1) <= value base ds.
Proof.
  intros Hb Hd. induction Hd as [|d ds Hd Hds IH]; intros Hc Hn; [done|].
  destruct ds as [|e ds].
  - unfold canonical in Hc. cbn in *. assert (d <> 0) by congruence. lia.
  - apply canonical_cons in Hc. specialize (IH Hc ltac:(done)).
    set (l := e :: ds) in *. cbn [value foldr length]. fold (value base l).
    rewrite Nat2Z.inj_succ. assert (1 <= Z.of_nat (length l)) by (unfold l; cbn; lia).
    replace (Z.succ (Z.of_nat (length l)) - 1) with (Z.succ (Z.of_nat (length l) - 1)) by lia.
    rewrite Z.pow_succ_r by lia. nia.
Qed.

Lemma canonical_nonzero base ds :
  0 < base -> digits_of base ds -> canonical ds -> ds <> [] -> 0 < value base ds.
Proof.
  intros Hb Hd Hc Hn. pose proof (canonical_pos base ds Hb Hd Hc Hn).
  destruct ds; [done|]. assert (0 < base ^ (Z.of_nat (length (z :: ds)) - 1)) by
    (apply Z.pow_pos_nonneg; cbn; lia). lia.
Qed.

(** A number has one canonical form. *)
Lemma canonical_unique base ds es :
  0 < base -> digits_of base ds -> digits_of base es -> canonical ds -> canonical es ->
  value base ds = value base es -> ds = es.
Proof.
  intros Hb Hds. revert es. induction Hds as [|d ds Hd Hds IH]; intros es Hes Hcd Hce E.
  - destruct es as [|e es]; [done|]. exfalso.
    pose proof (canonical_nonzero base (e :: es) Hb Hes Hce ltac:(done)). cbn in *. lia.
  - destruct es as [|e es].
    { exfalso. pose proof (canonical_nonzero base (d :: ds) Hb ltac:(by constructor) Hcd ltac:(done)).
      cbn in *. lia. }
    apply Forall_cons in Hes as [He Hes]. cbn [value foldr] in E. fold (value base ds) in E.
    fold (value base es) in E.
    assert (d = e /\ value base ds = value base es) as [-> Ev].
    { assert (value base ds = value base es) by nia. split; nia. }
    f_equal. apply IH; try done.
    + destruct ds; [done|by apply canonical_cons in Hcd].
    + destruct es; [done|by apply canonical_cons in Hce].
Qed.
End positional.

(** ** One pass *)

(** The loop [for d in &mut digits]: [low] of the carry is kept, [high] of it
    goes on. *)
Fixpoint pass (scale low high : Z -> Z) (ds : list Z) (carry : Z) : list Z * Z :=
  match ds with
  | [] => ([], carry)
  | d :: ds' =>
      let c := u32_wrap (carry + scale d) in
      let '(r, c') := pass scale low high ds' (high c) in (low c :: r, c')
  end.

(** The loop [while carry > 0]; a [u32] is spent in 32 halvings. *)
Fixpoint push (low high : Z -> Z) (fuel : nat) (carry : Z) : list Z :=
  match fuel with
  | O => []
  | S fuel' => if (0 <? carry)%Z then low carry :: push low high fuel' (high carry) else []
  end.

Definition step (scale low high : Z -> Z) (ds : list Z) (carry : Z) : list Z :=
  let '(r, c) := pass scale low high ds carry in r ++ push low high 32 c.

(** Base 58: times 256, kept modulo 58; bytes: times 58, kept modulo 256. *)
Definition encode_step : list Z -> Z -> list Z :=
  step (fun d => u32_wrap (Z.shiftl d 8)) (fun c => (c mod 58)%Z) (fun c => (c / 58)%Z).
Definition decode_step : list Z -> Z -> list Z :=
  step (fun b => u32_wrap (b * 58)) (fun c => Z.land c 255) (fun c => Z.shiftr c 8).

(** ** The text *)

Definition ALPHABET : list char := chars "123456789ABCDEFGHJKLMNPQRSTUVWXYZabcdefghijkmnopqrstuvwxyz".
Definition MAX_TEXT : nat := 128.

Fixpoint position (a : char) (l : list char) : option nat :=
  match l with
  | [] => None
  | b :: l' => if decide (b = a) then Some O else S <$> position a l'
  end.

(** The digit [d] as [ALPHABET] writes it. *)
Definition letter (d : Z) : char := nth (Z.to_nat d) ALPHABET "1"%char.

Fixpoint take_while {A} (f : A -> bool) (l : list A) : list A :=
  match l with
  | [] => []
  | a :: l' => if f a then a :: take_while f l' else []
  end.

Definition encode (bytes : list Z) : list char :=
  let zeros := length (take_while (fun b => (b =? 0)%Z) bytes) in
  let digits := fold_left encode_step (drop zeros bytes) [] in
  replicate zeros "1"%char ++ (letter <$> rev digits).

Inductive Base58Error : Type :=
  | TooLong (n : nat)
  | NotBase58 (text : list char)
  | NotThirtyTwo (n : nat).

(** [for c in text.bytes().skip(zeros)], [None] at a character that is not
    in the alphabet. *)
Fixpoint decode_loop (l : list char) (bytes : list Z) : option (list Z) :=
  match l with
  | [] => Some bytes
  | c :: l' => p ← position c ALPHABET; decode_loop l' (decode_step bytes (Z.of_nat p))
  end.

Definition decode (text : list char) : result Base58Error (list Z) :=
  if decide (MAX_TEXT < length text)%nat then Err (TooLong (length text))
  else
    let zeros := length (take_while (fun c => bool_decide (c = "1"%char)) text) in
    bytes ← ok_or (NotBase58 text) (decode_loop (drop zeros text) []);
    Ok (replicate zeros 0%Z ++ rev bytes).

Definition decode32 (text : list char) : result Base58Error (list Z) :=
  b ← decode text;
  if decide (length b = 32)%nat then Ok b else Err (NotThirtyTwo (length b)).

Example encode_a : text (encode [97%Z]) = "2g". Proof. reflexivity. Qed.
Example encode_bbb : text (encode [98; 98; 98]%Z) = "a3gV". Proof. reflexivity. Qed.
Example encode_zeros : text (encode [0; 0; 0; 0; 0; 0; 0; 0; 0; 0]%Z) = "1111111111".
Proof. reflexivity. Qed.
Example decode_zeros : decode (chars "11a3gV") = Ok [0; 0; 98; 98; 98]%Z. Proof. reflexivity. Qed.
Example decode_O : decode (chars "2O") = Err (NotBase58 (chars "2O")). Proof. reflexivity. Qed.

(** ** What a pass computes *)

Section steps.
Open Scope Z_scope.
Variables (base mult : Z) (scale low high : Z -> Z).
Hypothesis base_mult : 2 <= base /\ 0 < mult /\ base * mult <= u32_max.
Hypothesis scale_spec : forall d, 0 <= d < base -> scale d = d * mult.
Hypothesis low_spec : forall c, is_u32 c -> low c = c mod base.
Hypothesis high_spec : forall c, is_u32 c -> high c = c / base.

Lemma pass_spec ds carry :
  digits_of base ds -> 0 <= carry < mult ->
  let '(r, c) := pass scale low high ds carry in
  digits_of base r /\ length r = length ds /\ 0 <= c < mult /\
  value base r + base ^ Z.of_nat (length ds) * c = value base ds * mult + carry /\
  (canonical ds -> c = 0 -> canonical r).
Proof.
  intros Hds. revert carry. induction Hds as [|d ds Hd Hds IH]; intros carry Hc; cbn [pass].
  { split_and!; try done; try lia; [constructor|]. change (Z.of_nat (length [])) with 0.
    rewrite Z.pow_0_r. unfold value. cbn [foldr]. lia. }
  rewrite scale_spec by done. unfold u32_wrap. set (x := carry + d * mult).
  assert (0 <= x < base * mult) as Hx by (unfold x; nia).
  assert (is_u32 x) as Hu by (unfold is_u32; lia).
  rewrite Z.mod_small by (unfold u32_max in *; lia).
  rewrite (high_spec x Hu), (low_spec x Hu).
  assert (0 <= x / base < mult) as Hq
    by (split; [apply Z.div_pos; lia|apply Z.div_lt_upper_bound; lia]).
  specialize (IH (x / base) Hq).
  destruct (pass scale low high ds (x / base)) as [r c] eqn:E. destruct IH as (Hr & Hl & Hc' & Hv & Hcan).
  assert (0 <= x mod base < base) as Hm by (apply Z.mod_pos_bound; lia).
  pose proof (Z.div_mod x base ltac:(lia)) as Hdm. split_and!; try done; try lia.
  - by constructor.
  - cbn. by rewrite Hl.
  - cbn [value foldr length]. fold (value base r) (value base ds).
    rewrite Nat2Z.inj_succ, Z.pow_succ_r by lia. unfold x in *. nia.
  - intros Hcd Hc0. destruct ds as [|e ds].
    + cbn in E. simplify_eq. unfold canonical in *. cbn in *. intros [= Hz].
      assert (d <> 0) by congruence. nia.
    + apply canonical_cons in Hcd. specialize (Hcan Hcd Hc0).
      destruct r as [|y r]; [done|]. by apply canonical_cons.
Qed.

Lemma push_spec fuel c :
  is_u32 c -> c < 2 ^ Z.of_nat fuel ->
  let l := push low high fuel c in
  digits_of base l /\ value base l = c /\ canonical l /\ (l = [] -> c = 0).
Proof.
  revert c. induction fuel as [|fuel IH]; intros c Hu Hc; cbn [push].
  { change (2 ^ Z.of_nat 0) with 1 in Hc. unfold is_u32 in Hu. assert (c = 0) as -> by lia.
    split_and!; try done. constructor. }
  destruct (Z.ltb_spec 0 c) as [Hp|Hp].
  2: { unfold is_u32 in Hu. assert (c = 0) as -> by lia. split_and!; try done. constructor. }
  rewrite (low_spec c Hu), (high_spec c Hu). rewrite Nat2Z.inj_succ, Z.pow_succ_r in Hc by lia.
  pose proof (Z.div_mod c base ltac:(lia)) as Hdm.
  assert (0 <= c mod base < base) as Hm by (apply Z.mod_pos_bound; lia).
  assert (0 <= c / base) by (apply Z.div_pos; lia).
  assert (is_u32 (c / base)) as Hu' by (unfold is_u32 in *; nia).
  specialize (IH (c / base) Hu' ltac:(nia)) as (Hd & Hv & Hcan & Hn).
  split_and!; try done.
  - by constructor.
  - cbn [value foldr]. fold (value base (push low high fuel (c / base))). lia.
  - destruct (push low high fuel (c / base)) as [|e l] eqn:E; [|by apply canonical_cons].
    specialize (Hn eq_refl). unfold canonical. cbn. intros [= Hz]. nia.
Qed.

Lemma step_spec ds c :
  digits_of base ds -> 0 <= c < mult -> canonical ds ->
  let l := step scale low high ds c in
  digits_of base l /\ canonical l /\ value base l = value base ds * mult + c.
Proof.
  intros Hds Hc Hcan. unfold step. pose proof (pass_spec ds c Hds Hc) as Hp.
  destruct (pass scale low high ds c) as [r x]. destruct Hp as (Hr & Hl & Hx & Hv & Hcr).
  assert (is_u32 x) as Hu by (unfold is_u32; nia).
  destruct (push_spec 32 x Hu) as (Hd & Hpv & Hpc & Hpn); [unfold is_u32, u32_max in Hu; lia|].
  split_and!.
  - by apply Forall_app.
  - destruct (push low high 32 x) as [|e l] eqn:E.
    + rewrite app_nil_r. auto.
    + unfold canonical in *. by rewrite last_app_cons.
  - rewrite value_app, Hpv, Hl. lia.
Qed.

(** The whole fold: the digits read most significant first in base [mult]
    are the same number in base [base]. *)
Lemma fold_step_spec l ds :
  digits_of base ds -> canonical ds -> digits_of mult l ->
  let r := fold_left (step scale low high) l ds in
  digits_of base r /\ canonical r /\
  value base r = value base ds * mult ^ Z.of_nat (length l) + value mult (rev l).
Proof.
  intros Hds Hcan Hl. revert ds Hds Hcan.
  induction Hl as [|c l Hc Hl IH]; intros ds Hds Hcan; cbn [fold_left].
  { split_and!; try done. cbn [length rev]. change (Z.of_nat 0) with 0. rewrite Z.pow_0_r.
    unfold value at 3. cbn [foldr]. lia. }
  destruct (step_spec ds c Hds Hc Hcan) as (Hd & Hcs & Hv).
  destruct (IH _ Hd Hcs) as (Hd' & Hc' & Hv'). split_and!; try done.
  rewrite Hv', Hv. cbn [rev length]. rewrite value_app, length_rev, Nat2Z.inj_succ, Z.pow_succ_r by lia.
  unfold value at 5. cbn [foldr]. ring.
Qed.
End steps.

(** ** Both directions *)

Lemma encode_fold l :
  digits_of 256 l ->
  let ds := fold_left encode_step l [] in
  digits_of 58 ds /\ canonical ds /\ value 58 ds = value 256 (rev l).
Proof.
  intros Hl. refine (fold_step_spec 58 256 _ _ _ _ _ _ _ l [] _ _ Hl); try done.
  - intros d Hd. unfold u32_wrap. rewrite Z.shiftl_mul_pow2 by done. apply Z.mod_small. lia.
  - constructor.
Qed.

Lemma decode_fold l :
  digits_of 58 l ->
  let ds := fold_left decode_step l [] in
  digits_of 256 ds /\ canonical ds /\ value 256 ds = value 58 (rev l).
Proof.
  intros Hl. refine (fold_step_spec 256 58 _ _ _ _ _ _ _ l [] _ _ Hl); try done.
  - intros d Hd. unfold u32_wrap. apply Z.mod_small. lia.
  - intros c _. change 255%Z with (Z.ones 8). by rewrite Z.land_ones.
  - intros c _. by rewrite Z.shiftr_div_pow2.
  - constructor.
Qed.

Lemma position_Some a l p : position a l = Some p -> l !! p = Some a.
Proof.
  revert p. induction l as [|b l IH]; intros p; cbn; [done|]. case_decide as E.
  - intros [= <-]. by rewrite E.
  - destruct (position a l) as [q|]; [|done]. intros [= <-]. by apply IH.
Qed.

Lemma position_letter d : (0 <= d < 58)%Z -> position (letter d) ALPHABET = Some (Z.to_nat d).
Proof.
  intros Hd. assert (forallb (fun n => bool_decide (position (nth n ALPHABET "1"%char) ALPHABET = Some n))
    (seq 0 58) = true) as Hall by (vm_compute; reflexivity).
  rewrite forallb_forall in Hall. specialize (Hall (Z.to_nat d)).
  rewrite bool_decide_eq_true in Hall. apply Hall, in_seq. lia.
Qed.

Lemma letter_inj d e : (0 <= d < 58)%Z -> (0 <= e < 58)%Z -> letter d = letter e -> d = e.
Proof.
  intros Hd He E. pose proof (position_letter d Hd) as P. rewrite E, (position_letter e He) in P.
  injection P. lia.
Qed.

Lemma decode_loop_letters ds b :
  digits_of 58 ds -> decode_loop (letter <$> ds) b = Some (fold_left decode_step ds b).
Proof.
  intros Hds. revert b. induction Hds as [|d ds Hd Hds IH]; intros b; [done|].
  cbn [fmap list_fmap decode_loop]. rewrite position_letter by done. cbn [mbind option_bind].
  rewrite Z2Nat.id by lia. apply IH.
Qed.

Lemma decode_loop_Some l b r :
  decode_loop l b = Some r -> exists ds, digits_of 58 ds /\ l = letter <$> ds.
Proof.
  revert b. induction l as [|c l IH]; intros b; cbn [decode_loop]; [intros _; exists []; by repeat constructor|].
  destruct (position c ALPHABET) as [p|] eqn:Ep; [|done]. cbn [mbind option_bind]. intros (ds & Hds & ->)%IH.
  apply position_Some in Ep as Hc. pose proof (lookup_lt_Some _ _ _ Hc) as Hp.
  change (length ALPHABET) with 58%nat in Hp.
  exists (Z.of_nat p :: ds). split; [constructor; [lia|done]|]. cbn [fmap list_fmap]. f_equal.
  unfold letter. rewrite Nat2Z.id, nth_lookup, Hc. done.
Qed.

(** The leading run of [f]s and the rest. *)
Lemma take_while_split {A} (f : A -> bool) l :
  l = take_while f l ++ drop (length (take_while f l)) l /\
  Forall (fun a => f a = true) (take_while f l) /\
  (forall a r, drop (length (take_while f l)) l = a :: r -> f a = false).
Proof.
  induction l as [|a l (IH1 & IH2 & IH3)]; [by split_and!|]. cbn. destruct (f a) eqn:E; cbn.
  - split_and!; [by f_equal|by constructor|done].
  - split_and!; [done|constructor|]. intros ? ? [= <- _]. done.
Qed.

Lemma take_while_app {A} (f : A -> bool) n x r :
  f x = true -> (forall a r', r = a :: r' -> f a = false) ->
  take_while f (replicate n x ++ r) = replicate n x.
Proof.
  intros Hx Hr. induction n as [|n IH]; cbn.
  - destruct r as [|a r]; [done|]. cbn. by rewrite (Hr a r).
  - rewrite Hx. by f_equal.
Qed.

Lemma Forall_replicate {A} (x : A) l : Forall (fun a => a = x) l -> l = replicate (length l) x.
Proof. induction 1 as [|a l -> _ IH]; [done|]. cbn. by f_equal. Qed.

Lemma canonical_rev x l : canonical (rev (x :: l)) <-> x <> 0%Z.
Proof.
  unfold canonical. cbn. rewrite last_snoc. split; [congruence|]. intros Hn [= E]. done.
Qed.

Lemma rev_first_nonzero l : canonical l -> forall a r, rev l = a :: r -> a <> 0%Z.
Proof. intros Hc a r E. apply (canonical_rev a r). by rewrite <- E, rev_involutive. Qed.

Lemma digits_rev b l : digits_of b l -> digits_of b (rev l).
Proof. unfold digits_of. by rewrite <- (Permutation_rev l) at 1. Qed.

(** What [encode] writes: its leading zeros, then the canonical digits of the
    rest. *)
Lemma encode_shape bs :
  digits_of 256 bs ->
  exists n rest ds, bs = replicate n 0%Z ++ rest /\ canonical (rev rest) /\ digits_of 256 rest /\
    encode bs = replicate n "1"%char ++ (letter <$> rev ds) /\
    digits_of 58 ds /\ canonical ds /\ value 58 ds = value 256 (rev rest).
Proof.
  intros Hbs. destruct (take_while_split (fun b => b =? 0)%Z bs) as (Hs & Hz & Hr).
  set (n := length (take_while (fun b => (b =? 0)%Z) bs)) in *. set (rest := drop n bs) in *.
  assert (take_while (fun b => b =? 0)%Z bs = replicate n 0%Z) as Hn.
  { apply Forall_replicate. eapply Forall_impl; [exact Hz|]. cbn. lia. }
  rewrite Hn in Hs. exists n, rest, (fold_left encode_step rest []).
  assert (digits_of 256 rest) as Hrest by (rewrite Hs in Hbs; by apply Forall_app in Hbs as []).
  destruct (encode_fold rest Hrest) as (Hd & Hc & Hv). split_and!; try done.
  destruct rest as [|x rest']; [done|]. apply canonical_rev. specialize (Hr x rest' eq_refl). cbn in Hr. lia.
Qed.

Lemma decode_shape n ds :
  digits_of 58 ds -> canonical ds ->
  let t := replicate n "1"%char ++ (letter <$> rev ds) in
  (length t <= MAX_TEXT)%nat ->
  exists bs, decode t = Ok (replicate n 0%Z ++ rev bs) /\
    digits_of 256 bs /\ canonical bs /\ value 256 bs = value 58 ds.
Proof.
  intros Hds Hc t Hlen. exists (fold_left decode_step (rev ds) []).
  destruct (decode_fold (rev ds) (digits_rev _ _ Hds)) as (Hd & Hcb & Hv).
  rewrite rev_involutive in Hv. split_and!; try done.
  unfold decode. rewrite decide_False by lia. unfold t. rewrite take_while_app.
  - rewrite drop_app_length, length_replicate. by rewrite decode_loop_letters by by apply digits_rev.
  - done.
  - intros a r E. apply bool_decide_eq_false. intros ->.
    destruct (rev ds) as [|d l] eqn:Er; [done|]. cbn in E. injection E as Ed _.
    pose proof (digits_rev _ _ Hds) as Hd'. rewrite Er in Hd'. apply Forall_cons in Hd' as [Hd0 _].
    apply (rev_first_nonzero ds Hc d l Er), (letter_inj d 0); [done|lia|done].
Qed.

Lemma decode_encodes t bs :
  decode t = Ok bs -> digits_of 256 bs /\ t = encode bs /\ (length t <= MAX_TEXT)%nat.
Proof.
  unfold decode. case_decide as Hlen; [done|].
  destruct (take_while_split (fun c => bool_decide (c = "1"%char)) t) as (Hs & Hz & Hr).
  set (n := length (take_while (fun c => bool_decide (c = "1"%char)) t)) in *.
  set (rest := drop n t) in *.
  assert (take_while (fun c => bool_decide (c = "1"%char)) t = replicate n "1"%char) as Hn.
  { apply Forall_replicate. eapply Forall_impl; [exact Hz|]. cbn. intros c. apply bool_decide_eq_true. }
  rewrite Hn in Hs. destruct (decode_loop rest []) as [r|] eqn:El; [|done].
  apply decode_loop_Some in El as El'. destruct El' as (l & Hl & Hrest).
  cbn. intros [= <-].
  rewrite Hrest, decode_loop_letters in El by done. injection El as <-.
  destruct (decode_fold l Hl) as (Hd & Hc & Hv).
  assert (canonical (rev l)) as Hcl.
  { destruct l as [|x l']; [done|]. apply canonical_rev. intros ->. by specialize (Hr _ _ Hrest). }
  set (B := fold_left decode_step l []) in *.
  assert (digits_of 256 (replicate n 0%Z ++ rev B)) as Hb.
  { apply Forall_app. split; [|by apply digits_rev]. apply Forall_forall. intros x Hx.
    apply elem_of_replicate in Hx as [-> _]. lia. }
  split_and!; [done| |lia].
  destruct (encode_shape _ Hb) as (n' & rest' & ds & E & Hcr & _ & -> & Hds & Hcd & Hvd).
  assert (n' = n /\ rest' = rev B) as [-> ->].
  { apply (f_equal (take_while (fun b => b =? 0)%Z)) in E as Et.
    rewrite !take_while_app in Et; try done.
    - apply (f_equal length) in Et. rewrite !length_replicate in Et. subst n'. 
      split; [done|]. by apply app_inv_head in E.
    - intros a r' Er. pose proof (rev_first_nonzero _ Hcr a r'). rewrite rev_involutive in H.
      specialize (H Er). lia.
    - intros a r' Er. pose proof (rev_first_nonzero _ Hc a r' Er). lia. }
  rewrite Hs, Hrest. f_equal. f_equal.
  rewrite <- (rev_involutive l). f_equal.
  apply (canonical_unique 58); try done; [by apply digits_rev|]. by rewrite Hvd, rev_involutive, Hv.
Qed.

Lemma encode_decodes bs :
  digits_of 256 bs -> (length (encode bs) <= MAX_TEXT)%nat -> decode (encode bs) = Ok bs.
Proof.
  intros Hb Hlen.
  destruct (encode_shape bs Hb) as (n & rest & ds & -> & Hcr & Hrest & E & Hds & Hcd & Hvd).
  rewrite E in *. destruct (decode_shape n ds Hds Hcd Hlen) as (B & -> & HB & HcB & HvB).
  do 2 f_equal. rewrite <- (rev_involutive rest). f_equal.
  apply (canonical_unique 256); try done; [by apply digits_rev|]. by rewrite HvB, Hvd.
Qed.

(** C26: base58 is a bijection between byte strings and the texts of its
    alphabet: [decode] gives back exactly the bytes [encode] writes as that
    text, leading zeros included, and reads every text of at most
    [MAX_TEXT] characters that some bytes have. *)
Theorem decode_iff t bs :
  decode t = Ok bs <-> digits_of 256 bs /\ t = encode bs /\ (length t <= MAX_TEXT)%nat.
Proof.
  split; [apply decode_encodes|]. intros (Hb & -> & Hlen). by apply encode_decodes.
Qed.

(** The buffer [encode] asks for, [len * 138 / 100 + 1] digits, is enough; the
    text of at most 92 bytes is one [decode] reads. *)
Lemma encode_length bs :
  digits_of 256 bs -> (100 * length (encode bs) <= 138 * length bs + 100)%nat.
Proof.
  intros Hb. destruct (encode_shape bs Hb) as (n & rest & ds & -> & Hcr & Hrest & -> & Hds & Hcd & Hv).
  rewrite !length_app, !length_replicate, length_fmap, length_rev.
  destruct ds as [|d ds']; [cbn; lia|]. set (ds := d :: ds') in *.
  pose proof (canonical_pos 58 ds ltac:(lia) Hds Hcd ltac:(done)) as Hlow.
  pose proof (value_bound 256 (rev rest) ltac:(lia) (digits_rev _ _ Hrest)) as [_ Hup].
  rewrite length_rev in Hup. set (L := length ds) in *. set (R := length rest) in *.
  assert (1 <= L)%nat by (unfold L, ds; cbn; lia).
  assert (58 ^ (Z.of_nat L - 1) < 256 ^ Z.of_nat R)%Z as Hlt by lia.
  assert (100 * (Z.of_nat L - 1) < 138 * Z.of_nat R \/ R = 0%nat)%Z as [?|HR]; [|lia|].
  2: { rewrite HR in Hlt. change (256 ^ Z.of_nat 0)%Z with 1%Z in Hlt.
       assert (0 < 58 ^ (Z.of_nat L - 1))%Z by (apply Z.pow_pos_nonneg; lia). lia. }
  destruct (decide (R = 0%nat)) as [|HR]; [by right|left].
  apply (Z.pow_lt_mono_r_iff 58); [lia|lia|].
  assert ((58 ^ (Z.of_nat L - 1)) ^ 100 < (256 ^ Z.of_nat R) ^ 100)%Z as Hp.
  { apply Z.pow_lt_mono_l; [lia|]. split; [apply Z.pow_nonneg; lia|done]. }
  rewrite <- !Z.pow_mul_r in Hp by lia. rewrite (Z.mul_comm 100).
  eapply Z.lt_le_trans; [exact Hp|]. rewrite (Z.mul_comm (Z.of_nat R)), (Z.mul_comm 138), (Z.mul_comm (Z.of_nat R)).
  rewrite !Z.pow_mul_r by lia. apply Z.pow_le_mono_l. split; [apply Z.pow_nonneg; lia|].
  vm_compute. discriminate.
Qed.

Lemma encode_short bs :
  digits_of 256 bs -> (length bs <= 92)%nat -> (length (encode bs) <= MAX_TEXT)%nat.
Proof. intros Hb Hl. pose proof (encode_length bs Hb). unfold MAX_TEXT. lia. Qed.

Lemma decode32_encode bs :
  digits_of 256 bs -> length bs = 32%nat -> decode32 (encode bs) = Ok bs.
Proof.
  intros Hb Hl. unfold decode32. rewrite encode_decodes; [|done|apply encode_short; [done|lia]].
  cbn. by rewrite decide_True.
Qed.

Lemma decode32_Ok t bs :
  decode32 t = Ok bs -> digits_of 256 bs /\ length bs = 32%nat /\ t = encode bs.
Proof.
  unfold decode32. destruct (decode t) as [b|] eqn:E; [|done]. cbn. case_decide; [|done]. intros [= ->].
  by apply decode_encodes in E as (? & ? & _).
Qed.
