(* ===== verification/Ed25519.v ===== *)
(** * Points of Ed25519

    [crates/agentd/src/payments/ed25519.rs]: whether 32 bytes are a point of
    the curve, by arithmetic modulo [p = 2^255 - 19] in five 51-bit limbs.
    A limb is a [u64]; a product is a [u128]; both wrap, as the release
    profile leaves them.  Bytes are integers below 256. *)

From S2P Require Export Bytes.

Module Curve.
Local Open Scope Z_scope.

Definition u128_wrap (x : Z) : Z := x mod 2 ^ 128.
Definition u128_add (a b : Z) : Z := u128_wrap (a + b).
Definition u128_mul (a b : Z) : Z := u128_wrap (a * b).

(** [&] with the low 51 bits, [>> 51] and [as u64] of the source. *)
Definition MASK : Z := 2251799813685247.
Definition low51 (x : Z) : Z := Z.land x MASK.
Definition high51 (x : Z) : Z := Z.shiftr x 51.

Record Fe := mkFe { f0 : Z; f1 : Z; f2 : Z; f3 : Z; f4 : Z }.

Definition ZERO : Fe := mkFe 0 0 0 0 0.
Definition ONE : Fe := mkFe 1 0 0 0 0.
Definition small (n : Z) : Fe := mkFe n 0 0 0 0.

(** [u64::from_le_bytes] of the eight bytes from [i] on. *)
Definition load (b : list Z) (i : nat) : Z := from_le (take 8 (drop i b)).

Definition from_bytes (b : list Z) : Fe :=
  mkFe (low51 (load b 0)) (low51 (Z.shiftr (load b 6) 3)) (low51 (Z.shiftr (load b 12) 6))
    (low51 (Z.shiftr (load b 19) 1)) (low51 (Z.shiftr (load b 24) 12)).

Definition carry (h : Fe) : Fe :=
  let h1 := u64_add (f1 h) (high51 (f0 h)) in
  let h0 := low51 (f0 h) in
  let h2 := u64_add (f2 h) (high51 h1) in
  let h1 := low51 h1 in
  let h3 := u64_add (f3 h) (high51 h2) in
  let h2 := low51 h2 in
  let h4 := u64_add (f4 h) (high51 h3) in
  let h3 := low51 h3 in
  let c := high51 h4 in
  let h4 := low51 h4 in
  mkFe (u64_add h0 (u64_mul c 19)) h1 h2 h3 h4.

(** The loop that carries while a limb is over [MASK]. *)
Definition over (h : Fe) : bool :=
  existsb (fun l => MASK <? l) [f0 h; f1 h; f2 h; f3 h; f4 h].
Fixpoint settle (fuel : nat) (h : Fe) : Fe :=
  match fuel with
  | O => h
  | S fuel' => if over h then settle fuel' (carry h) else h
  end.

(** The canonical representative of limbs below 2^51 each. *)
Definition reduce (h : Fe) : Fe :=
  let q := high51 (u64_add (f0 h) 19) in
  let q := high51 (u64_add (f1 h) q) in
  let q := high51 (u64_add (f2 h) q) in
  let q := high51 (u64_add (f3 h) q) in
  let q := high51 (u64_add (f4 h) q) in
  let h0 := u64_add (f0 h) (u64_mul 19 q) in
  let h1 := u64_add (f1 h) (high51 h0) in
  let h0 := low51 h0 in
  let h2 := u64_add (f2 h) (high51 h1) in
  let h1 := low51 h1 in
  let h3 := u64_add (f3 h) (high51 h2) in
  let h2 := low51 h2 in
  let h4 := u64_add (f4 h) (high51 h3) in
  let h3 := low51 h3 in
  mkFe h0 h1 h2 h3 (low51 h4).

(** The loop [while bits >= 8 && at < 32]; [out] is what was written. *)
Fixpoint flush (fuel : nat) (st : Z * Z * list Z) : Z * Z * list Z :=
  match fuel with
  | O => st
  | S fuel' =>
      let '(acc, bits, out) := st in
      if (8 <=? bits) && bool_decide (length out < 32)%nat
      then flush fuel' (Z.shiftr acc 8, bits - 8, out ++ [Z.land acc 255])
      else st
  end.
Definition emit (st : Z * Z * list Z) (limb : Z) : Z * Z * list Z :=
  let '(acc, bits, out) := st in
  flush 8 (Z.lor acc (u128_wrap (Z.shiftl limb bits)), bits + 51, out).

Definition bytes_of (h : Fe) : list Z :=
  let '(acc, _, out) := fold_left emit [f0 h; f1 h; f2 h; f3 h; f4 h] (0, 0, []) in
  let out := if decide (length out < 32)%nat then out ++ [Z.land acc 255] else out in
  out ++ replicate (32 - length out) 0.

Definition to_bytes (h : Fe) : list Z := bytes_of (reduce (settle 2 (carry h))).

Definition add (a b : Fe) : Fe :=
  carry (mkFe (u64_add (f0 a) (f0 b)) (u64_add (f1 a) (f1 b)) (u64_add (f2 a) (f2 b))
    (u64_add (f3 a) (f3 b)) (u64_add (f4 a) (f4 b))).

(** [self - o], with [4p] added first. *)
Definition sub_limb (a four_p o : Z) : Z := u64_wrap (u64_add a four_p - o).
Definition sub (a b : Fe) : Fe :=
  carry (mkFe (sub_limb (f0 a) (4 * (MASK - 18)) (f0 b)) (sub_limb (f1 a) (4 * MASK) (f1 b))
    (sub_limb (f2 a) (4 * MASK) (f2 b)) (sub_limb (f3 a) (4 * MASK) (f3 b))
    (sub_limb (f4 a) (4 * MASK) (f4 b))).

(** [a * b] of two [u64]s as a [u128], which cannot overflow. *)
Definition m (x y : Z) : Z := x * y.
Definition sum128 (l : list Z) : Z := foldr u128_add 0 l.

(** The end of [mul]: the five coefficients carried, what is past 2^255 folded
    back as 19. *)
Definition fold_product (t0 t1 t2 t3 t4 : Z) : Fe :=
  let v0 := u128_add t0 0 in
  let v1 := u128_add t1 (high51 v0) in
  let v2 := u128_add t2 (high51 v1) in
  let v3 := u128_add t3 (high51 v2) in
  let v4 := u128_add t4 (high51 v3) in
  let v := u128_add (low51 (u64_wrap v0)) (u128_mul (high51 v4) 19) in
  carry (mkFe (low51 (u64_wrap v)) (u64_add (low51 (u64_wrap v1)) (u64_wrap (high51 v)))
    (low51 (u64_wrap v2)) (low51 (u64_wrap v3)) (low51 (u64_wrap v4))).

Definition mul (a b : Fe) : Fe :=
  fold_product
    (u128_add (m (f0 a) (f0 b))
       (u128_mul 19 (sum128 [m (f1 a) (f4 b); m (f2 a) (f3 b); m (f3 a) (f2 b); m (f4 a) (f1 b)])))
    (sum128 [m (f0 a) (f1 b); m (f1 a) (f0 b);
       u128_mul 19 (sum128 [m (f2 a) (f4 b); m (f3 a) (f3 b); m (f4 a) (f2 b)])])
    (sum128 [m (f0 a) (f2 b); m (f1 a) (f1 b); m (f2 a) (f0 b);
       u128_mul 19 (sum128 [m (f3 a) (f4 b); m (f4 a) (f3 b)])])
    (sum128 [m (f0 a) (f3 b); m (f1 a) (f2 b); m (f2 a) (f1 b); m (f3 a) (f0 b);
       u128_mul 19 (m (f4 a) (f4 b))])
    (sum128 [m (f0 a) (f4 b); m (f1 a) (f3 b); m (f2 a) (f2 b); m (f3 a) (f1 b);
       m (f4 a) (f0 b)]).

(** [for i in (0..256).rev()] over the bits of the exponent. *)
Definition exponent_bit (e : list Z) (i : nat) : bool :=
  Z.land (Z.shiftr (nth (i / 8) e 0) (Z.of_nat (i mod 8))) 1 =? 1.
Fixpoint pow_from (e : list Z) (x r : Fe) (i : nat) : Fe :=
  match i with
  | O => r
  | S i' =>
      let r := mul r r in
      pow_from e x (if exponent_bit e i' then mul r x else r) i'
  end.
Definition pow (x : Fe) (e : list Z) : Fe := pow_from e x ONE 256.

Definition eq (a b : Fe) : bool := bool_decide (to_bytes a = to_bytes b).

Definition HALF_P_MINUS_1 : list Z := 246 :: replicate 30 255 ++ [63].
Definition P_MINUS_2 : list Z := 235 :: replicate 30 255 ++ [127].

Definition d : Fe := mul (sub ZERO (small 121665)) (pow (small 121666) P_MINUS_2).

Definition is_on_curve (bytes : list Z) : bool :=
  let y := from_bytes bytes in
  let yy := mul y y in
  let u := sub yy ONE in
  let v := add (mul d yy) ONE in
  let chi := pow (mul u v) HALF_P_MINUS_1 in
  eq chi ZERO || eq chi ONE.

(** ** The field the limbs stand for *)

Definition p25519 : Z := 2 ^ 255 - 19.
Definition fe_val (h : Fe) : Z :=
  f0 h + 2 ^ 51 * f1 h + 2 ^ 102 * f2 h + 2 ^ 153 * f3 h + 2 ^ 204 * f4 h.

(** Every limb below [n]. *)
Definition limbs (n : Z) (h : Fe) : Prop :=
  (0 <= f0 h < n) /\ (0 <= f1 h < n) /\ (0 <= f2 h < n) /\ (0 <= f3 h < n) /\ (0 <= f4 h < n).
(** What holds between operations: each limb below 2^52. *)
Definition tight : Fe -> Prop := limbs (2 ^ 52).

(** The residue [h] stands for. *)
Definition stands (h : Fe) (x : Z) : Prop := tight h /\ fe_val h mod p25519 = x mod p25519.

Lemma low51_mod x : low51 x = x mod 2 ^ 51.
Proof. unfold low51. change MASK with (Z.ones 51). by rewrite Z.land_ones. Qed.
Lemma high51_div x : high51 x = x / 2 ^ 51.
Proof. unfold high51. by rewrite Z.shiftr_div_pow2. Qed.

Lemma split51 x : 0 <= x -> x = high51 x * 2 ^ 51 + low51 x /\ 0 <= low51 x < 2 ^ 51 /\ 0 <= high51 x.
Proof.
  intros Hx. rewrite low51_mod, high51_div. pose proof (Z.div_mod x (2 ^ 51) ltac:(lia)).
  pose proof (Z.mod_pos_bound x (2 ^ 51) ltac:(lia)). pose proof (Z.div_pos x (2 ^ 51)). lia.
Qed.

(** One split at the low 51 bits, its two halves named. *)
Ltac split_limb x q r :=
  let H := fresh in
  pose proof (split51 x) as H; specialize (H ltac:(lia));
  destruct H as (? & ? & ?); set (q := high51 x) in *; set (r := low51 x) in *.

Ltac small_u64 := rewrite !u64_add_small by (unfold is_u64, u64_max; lia).

Lemma carry_spec h :
  limbs (2 ^ 62) h ->
  limbs (2 ^ 51 + 19 * 2 ^ 12) (carry h) /\
  (f1 (carry h) < 2 ^ 51) /\ (f2 (carry h) < 2 ^ 51) /\ (f3 (carry h) < 2 ^ 51) /\
  (f4 (carry h) < 2 ^ 51) /\
  (exists c, 0 <= c /\ fe_val h = fe_val (carry h) + p25519 * c).
Proof.
  intros (H0 & H1 & H2 & H3 & H4). destruct h as [a b c d e]. cbn [f0 f1 f2 f3 f4] in *.
  unfold carry, fe_val, limbs. cbn zeta. cbn [f0 f1 f2 f3 f4].
  split_limb a q0 r0. rewrite (u64_add_small b q0) by (unfold is_u64, u64_max; lia).
  split_limb (b + q0) q1 r1. rewrite (u64_add_small c q1) by (unfold is_u64, u64_max; lia).
  split_limb (c + q1) q2 r2. rewrite (u64_add_small d q2) by (unfold is_u64, u64_max; lia).
  split_limb (d + q2) q3 r3. rewrite (u64_add_small e q3) by (unfold is_u64, u64_max; lia).
  split_limb (e + q3) q4 r4.
  assert (u64_mul q4 19 = q4 * 19) as -> by (apply u64_wrap_small; unfold is_u64, u64_max; lia).
  small_u64. split_and!; try lia. exists q4. split; [lia|]. unfold p25519. lia.
Qed.

(** ** The operations modulo p *)

Lemma limbs_weaken n k h : limbs n h -> n <= k -> limbs k h.
Proof. unfold limbs. lia. Qed.

Lemma carry_stands h x :
  limbs (2 ^ 62) h -> fe_val h mod p25519 = x mod p25519 -> stands (carry h) x.
Proof.
  intros Hh E. destruct (carry_spec h Hh) as (Hb & _ & _ & _ & _ & c & Hc & Ev). split.
  - eapply limbs_weaken; [exact Hb|lia].
  - rewrite <- E, Ev, (Z.mul_comm p25519), Z.mod_add; [done|]. done.
Qed.

Lemma mod_congr x y z : x mod z = y mod z -> forall w, (w + x) mod z = (w + y) mod z.
Proof. intros E w. by rewrite <- (Zplus_mod_idemp_r x), E, Zplus_mod_idemp_r. Qed.

Lemma add_stands a b x y : stands a x -> stands b y -> stands (add a b) (x + y).
Proof.
  intros [(A0 & A1 & A2 & A3 & A4) Ea] [(B0 & B1 & B2 & B3 & B4) Eb].
  unfold add. small_u64. apply carry_stands; [unfold limbs; cbn [f0 f1 f2 f3 f4]; lia|].
  rewrite Zplus_mod, <- Ea, <- Eb, <- Zplus_mod. f_equal. unfold fe_val. cbn [f0 f1 f2 f3 f4]. ring.
Qed.

Lemma sub_stands a b x y : stands a x -> stands b y -> stands (sub a b) (x - y).
Proof.
  intros [(A0 & A1 & A2 & A3 & A4) Ea] [(B0 & B1 & B2 & B3 & B4) Eb].
  unfold sub, sub_limb. unfold MASK. small_u64.
  rewrite !u64_wrap_small by (unfold is_u64, u64_max; lia).
  apply carry_stands; [unfold limbs; cbn [f0 f1 f2 f3 f4]; lia|].
  rewrite Zminus_mod, <- Ea, <- Eb, <- Zminus_mod.
  rewrite <- (Z.mod_add (fe_val a - fe_val b) 4 p25519) by done. f_equal.
  unfold fe_val, p25519. cbn [f0 f1 f2 f3 f4]. lia.
Qed.

Lemma m_bound x y : 0 <= x < 2 ^ 52 -> 0 <= y < 2 ^ 52 -> 0 <= m x y < 2 ^ 104.
Proof. unfold m. intros Hx Hy. change (2 ^ 104) with (2 ^ 52 * 2 ^ 52). nia. Qed.

Lemma u128_add_small a b : 0 <= a + b <= u128_max -> u128_add a b = a + b.
Proof. unfold u128_add, u128_wrap, u128_max. intros. apply Z.mod_small. lia. Qed.
Lemma u128_mul_small a b : 0 <= a * b <= u128_max -> u128_mul a b = a * b.
Proof. unfold u128_mul, u128_wrap, u128_max. intros. apply Z.mod_small. lia. Qed.

Lemma low51_wrap x : 0 <= x -> low51 (u64_wrap x) = low51 x.
Proof.
  intros Hx. rewrite !low51_mod. unfold u64_wrap.
  change (2 ^ 64) with (2 ^ 51 * 2 ^ 13). rewrite Z.rem_mul_r by lia.
  rewrite Z.mul_comm, Z.mod_add, Z.mod_mod by lia. done.
Qed.

Lemma fold_product_stands t0 t1 t2 t3 t4 x :
  0 <= t0 < 2 ^ 112 -> 0 <= t1 < 2 ^ 112 -> 0 <= t2 < 2 ^ 112 -> 0 <= t3 < 2 ^ 112 -> 0 <= t4 < 2 ^ 108 ->
  (t0 + 2 ^ 51 * t1 + 2 ^ 102 * t2 + 2 ^ 153 * t3 + 2 ^ 204 * t4) mod p25519 = x mod p25519 ->
  stands (fold_product t0 t1 t2 t3 t4) x.
Proof.
  intros H0 H1 H2 H3 H4 E. unfold fold_product. cbn zeta.
  rewrite (u128_add_small t0 0), Z.add_0_r by (unfold u128_max; lia). split_limb t0 q0 r0.
  rewrite (u128_add_small t1 q0) by (unfold u128_max; lia). split_limb (t1 + q0) q1 r1.
  rewrite (u128_add_small t2 q1) by (unfold u128_max; lia). split_limb (t2 + q1) q2 r2.
  rewrite (u128_add_small t3 q2) by (unfold u128_max; lia). split_limb (t3 + q2) q3 r3.
  rewrite (u128_add_small t4 q3) by (unfold u128_max; lia). split_limb (t4 + q3) q4 r4.
  rewrite (low51_wrap t0), (low51_wrap (t1 + q0)), (low51_wrap (t2 + q1)), (low51_wrap (t3 + q2)),
    (low51_wrap (t4 + q3)) by lia.
  rewrite (u128_mul_small q4 19) by (unfold u128_max; lia).
  fold r0. rewrite (u128_add_small r0 (q4 * 19)) by (unfold u128_max; lia).
  rewrite (low51_wrap (r0 + q4 * 19)) by lia. split_limb (r0 + q4 * 19) q r.
  fold r1 r2 r3 r4. rewrite (u64_wrap_small q) by (unfold is_u64, u64_max; lia).
  rewrite (u64_add_small r1 q) by (unfold is_u64, u64_max; lia).
  apply carry_stands; [unfold limbs; cbn [f0 f1 f2 f3 f4]; lia|].
  rewrite <- E, <- (Z.mod_add (fe_val _) q4) by done. f_equal.
  unfold fe_val, p25519. cbn [f0 f1 f2 f3 f4]. lia.
Qed.

(** The innermost sums and products, which do not overflow. *)
Ltac small_u128 :=
  repeat match goal with
  | |- context [u128_add ?p ?q] => rewrite (u128_add_small p q) by (unfold u128_max; lia)
  | |- context [u128_mul ?p ?q] => rewrite (u128_mul_small p q) by (unfold u128_max; lia)
  end.

Lemma mul_stands a b x y : stands a x -> stands b y -> stands (mul a b) (x * y).
Proof.
  intros [(A0 & A1 & A2 & A3 & A4) Ea] [(B0 & B1 & B2 & B3 & B4) Eb].
  unfold mul, sum128. cbn zeta. cbn [foldr].
  repeat match goal with
  | |- context [m ?p ?q] =>
      lazymatch goal with
      | _ : 0 <= m p q < _ |- _ => fail
      | _ => pose proof (m_bound p q ltac:(assumption) ltac:(assumption))
      end
  end.
  small_u128. apply fold_product_stands; try lia.
  rewrite Z.mul_mod, <- Ea, <- Eb, <- Z.mul_mod by done.
  rewrite <- (Z.mod_add _ (m (f1 a) (f4 b) + m (f2 a) (f3 b) + m (f3 a) (f2 b) + m (f4 a) (f1 b)
    + 2 ^ 51 * (m (f2 a) (f4 b) + m (f3 a) (f3 b) + m (f4 a) (f2 b))
    + 2 ^ 102 * (m (f3 a) (f4 b) + m (f4 a) (f3 b)) + 2 ^ 153 * m (f4 a) (f4 b)) p25519) by done.
  f_equal. unfold fe_val, p25519, m. cbn [f0 f1 f2 f3 f4]. ring.
Qed.

(** ** Bytes *)

(** A window of the bytes is a window of the number. *)
Lemma load_window l i :
  bytes l -> (i + 8 <= length l)%nat ->
  load l i = Z.land (Z.shiftr (from_le l) (8 * Z.of_nat i)) (Z.ones 64).
Proof.
  intros Hl Hi. unfold load. rewrite Z.land_ones by lia. rewrite Z.shiftr_div_pow2 by lia.
  rewrite <- (take_drop i l) at 2. rewrite <- (take_drop 8 (drop i l)) at 2.
  assert (bytes (take i l)) as Ht by (by apply Forall_take).
  assert (bytes (take 8 (drop i l))) as Hw by (by apply Forall_take, Forall_drop).
  rewrite !from_le_app, !length_take, length_drop.
  replace (i `min` length l)%nat with i by lia. replace (8 `min` (length l - i))%nat with 8%nat by lia.
  pose proof (from_le_bound _ Ht) as Hbt. rewrite length_take in Hbt.
  replace (i `min` length l)%nat with i in Hbt by lia.
  pose proof (from_le_bound _ Hw) as Hbw. rewrite length_take, length_drop in Hbw.
  replace (8 `min` (length l - i))%nat with 8%nat in Hbw by lia.
  change 256 with (2 ^ 8) in *. rewrite <- !Z.pow_mul_r in * by lia.
  rewrite (Z.mul_comm (2 ^ (8 * Z.of_nat i))), Z.div_add, Z.div_small, Z.add_0_l by lia.
  rewrite (Z.mul_comm (2 ^ (8 * Z.of_nat 8))), Z.mod_add, Z.mod_small by lia. done.
Qed.

Lemma limb_window l i s :
  bytes l -> (i + 8 <= length l)%nat -> 0 <= s <= 13 ->
  low51 (Z.shiftr (load l i) s) = Z.land (Z.shiftr (from_le l) (8 * Z.of_nat i + s)) (Z.ones 51).
Proof.
  intros Hl Hi Hs. rewrite load_window by done. unfold low51. change MASK with (Z.ones 51).
  apply Z.bits_inj'. intros k Hk. rewrite !Z.land_spec, !Z.shiftr_spec, Z.land_spec, Z.shiftr_spec by lia.
  rewrite !Z.testbit_ones_nonneg by lia. replace (k + s + 8 * Z.of_nat i) with (k + (8 * Z.of_nat i + s)) by lia.
  destruct (Z.ltb_spec k 51), (Z.ltb_spec (k + s) 64); try lia; by rewrite ?andb_true_r, ?andb_false_r.
Qed.

Lemma from_bytes_val b :
  bytes b -> length b = 32%nat ->
  limbs (2 ^ 51) (from_bytes b) /\ fe_val (from_bytes b) = from_le b mod 2 ^ 255.
Proof.
  intros Hb Hl. unfold from_bytes. rewrite <- (Z.shiftr_0_r (load b 0)).
  rewrite !limb_window by (done || lia). rewrite !Z.land_ones, !Z.shiftr_div_pow2 by lia.
  set (e := from_le b). pose proof (from_le_bound b Hb) as [He _]. fold e in He.
  change (8 * Z.of_nat 0 + 0) with 0. change (8 * Z.of_nat 6 + 3) with 51.
  change (8 * Z.of_nat 12 + 6) with (51 + 51). change (8 * Z.of_nat 19 + 1) with (51 + (51 + 51)).
  change (8 * Z.of_nat 24 + 12) with (51 + (51 + (51 + 51))).
  rewrite !Z.pow_add_r by lia. rewrite <- !Z.div_div by lia. rewrite Z.pow_0_r, Z.div_1_r.
  assert (forall x, 0 <= x -> x = x / 2 ^ 51 * 2 ^ 51 + x mod 2 ^ 51 /\ 0 <= x mod 2 ^ 51 < 2 ^ 51 /\
    0 <= x / 2 ^ 51) as Hx.
  { intros x Hx. rewrite <- low51_mod, <- high51_div. by apply split51. }
  destruct (Hx e He) as (E0 & R0 & P1). set (d1 := e / 2 ^ 51) in *.
  destruct (Hx d1 P1) as (E1 & R1 & P2). set (d2 := d1 / 2 ^ 51) in *.
  destruct (Hx d2 P2) as (E2 & R2 & P3). set (d3 := d2 / 2 ^ 51) in *.
  destruct (Hx d3 P3) as (E3 & R3 & P4). set (d4 := d3 / 2 ^ 51) in *.
  destruct (Hx d4 P4) as (E4 & R4 & P5). set (d5 := d4 / 2 ^ 51) in *. clear Hx.
  unfold limbs, fe_val. cbn [f0 f1 f2 f3 f4]. split; [split_and!; lia|].
  apply Z.mod_unique with d5; [left; lia|lia].
Qed.

(** ** The canonical representative *)

Lemma settle_limbs h x :
  stands h x ->
  limbs (2 ^ 51) (settle 2 (carry h)) /\ fe_val (settle 2 (carry h)) mod p25519 = x mod p25519.
Proof.
  intros [Ht E]. assert (limbs (2 ^ 62) h) as Hh by (eapply limbs_weaken; [exact Ht|lia]).
  destruct (carry_stands h x Hh E) as [_ E1].
  destruct (carry_spec h Hh) as (Hc & H1 & H2 & H3 & H4 & _). set (k := carry h) in *.
  assert (forall g n, over g = false -> limbs n g -> limbs (2 ^ 51) g) as Hover.
  { intros g n Hg. unfold over in Hg. cbn [existsb] in Hg. unfold limbs, MASK in *. lia. }
  cbn [settle]. destruct (over k) eqn:Eo; [|split; [by eapply Hover|done]].
  assert (limbs (2 ^ 62) k) as Hk by (eapply limbs_weaken; [exact Hc|lia]).
  destruct (carry_stands k x Hk E1) as [_ E2].
  assert (limbs (2 ^ 51) (carry k)) as Hl.
  { assert (2 ^ 51 <= f0 k) as Hf by (unfold over, MASK in Eo; cbn [existsb] in Eo; unfold limbs in Hc; lia).
    destruct Hc as (C0 & C1 & C2 & C3 & C4). clear Eo E1 E2 Hk Hh E Ht. destruct k as [a b c d e].
    unfold carry, limbs. cbn zeta. cbn [f0 f1 f2 f3 f4] in *.
    split_limb a q0 r0. rewrite (u64_add_small b q0) by (unfold is_u64, u64_max; lia).
    split_limb (b + q0) q1 r1. rewrite (u64_add_small c q1) by (unfold is_u64, u64_max; lia).
    split_limb (c + q1) q2 r2. rewrite (u64_add_small d q2) by (unfold is_u64, u64_max; lia).
    split_limb (d + q2) q3 r3. rewrite (u64_add_small e q3) by (unfold is_u64, u64_max; lia).
    split_limb (e + q3) q4 r4.
    assert (u64_mul q4 19 = q4 * 19) as -> by (apply u64_wrap_small; unfold is_u64, u64_max; lia).
    small_u64. split_and!; lia. }
  destruct (over (carry k)) eqn:Eo2; [|done].
  exfalso. unfold over in Eo2. cbn [existsb] in Eo2. unfold limbs, MASK in *. lia.
Qed.

Lemma reduce_spec h :
  limbs (2 ^ 51) h -> limbs (2 ^ 51) (reduce h) /\ fe_val (reduce h) = fe_val h mod p25519.
Proof.
  intros (H0 & H1 & H2 & H3 & H4). destruct h as [a b c d e]. cbn [f0 f1 f2 f3 f4] in *.
  unfold reduce, limbs, fe_val. cbn zeta. cbn [f0 f1 f2 f3 f4].
  rewrite (u64_add_small a 19) by (unfold is_u64, u64_max; lia). split_limb (a + 19) q0 s0.
  rewrite (u64_add_small b q0) by (unfold is_u64, u64_max; lia). split_limb (b + q0) q1 s1.
  rewrite (u64_add_small c q1) by (unfold is_u64, u64_max; lia). split_limb (c + q1) q2 s2.
  rewrite (u64_add_small d q2) by (unfold is_u64, u64_max; lia). split_limb (d + q2) q3 s3.
  rewrite (u64_add_small e q3) by (unfold is_u64, u64_max; lia). split_limb (e + q3) q s4.
  assert (u64_mul 19 q = 19 * q) as -> by (apply u64_wrap_small; unfold is_u64, u64_max; lia).
  rewrite (u64_add_small a (19 * q)) by (unfold is_u64, u64_max; lia). split_limb (a + 19 * q) p0 r0.
  rewrite (u64_add_small b p0) by (unfold is_u64, u64_max; lia). split_limb (b + p0) p1 r1.
  rewrite (u64_add_small c p1) by (unfold is_u64, u64_max; lia). split_limb (c + p1) p2 r2.
  rewrite (u64_add_small d p2) by (unfold is_u64, u64_max; lia). split_limb (d + p2) p3 r3.
  rewrite (u64_add_small e p3) by (unfold is_u64, u64_max; lia). split_limb (e + p3) p4 r4.
  split; [split_and!; lia|].
  assert (q = 0 \/ q = 1) as Hq by lia. unfold p25519.
  apply Z.mod_unique with q; [left|]; destruct Hq as [-> | ->]; lia.
Qed.

(** Writing the limbs out: what is written and what is still held are the
    number so far. *)
Definition held (total : Z) (st : Z * Z * list Z) : Prop :=
  let '(acc, bits, out) := st in
  bytes out /\ 0 <= bits /\ 0 <= acc < 2 ^ bits /\
  from_le out + 256 ^ Z.of_nat (length out) * acc = total.
Definition written (st : Z * Z * list Z) : Z := 8 * Z.of_nat (length st.2) + st.1.2.

Lemma flush_held fuel total st :
  held total st -> written st <= 255 -> st.1.2 < 8 * (Z.of_nat fuel + 1) ->
  held total (flush fuel st) /\ written (flush fuel st) = written st /\ (flush fuel st).1.2 < 8.
Proof.
  revert st. induction fuel as [|fuel IH]; intros [[acc bits] out] Hh Hw Hf; cbn [flush].
  { split_and!; try done. }
  destruct (_ && _) eqn:E.
  2: { split_and!; try done. cbn. apply andb_false_iff in E as [E|E]; [lia|].
       apply bool_decide_eq_false in E. unfold written in Hw. cbn in *. lia. }
  apply andb_true_iff in E as [Eb Eo]. apply bool_decide_eq_true in Eo.
  destruct Hh as (Hout & Hb & Ha & Et). cbn in Hf, Hw.
  change 255 with (Z.ones 8). rewrite Z.shiftr_div_pow2, Z.land_ones by lia.
  pose proof (Z.div_mod acc (2 ^ 8) ltac:(lia)) as Hd.
  pose proof (Z.mod_pos_bound acc (2 ^ 8) ltac:(lia)) as Hm.
  destruct (IH (acc / 2 ^ 8, bits - 8, out ++ [acc mod 2 ^ 8])) as (IH1 & IH2 & IH3).
  - split_and!.
    + apply Forall_app. split; [done|]. repeat constructor; lia.
    + lia.
    + apply Z.div_pos; lia.
    + apply Z.div_lt_upper_bound; [lia|]. rewrite <- Z.pow_add_r by lia.
      replace (8 + (bits - 8)) with bits by lia. apply Ha.
    + rewrite from_le_app, length_app. cbn [length from_le foldr].
      replace (Z.of_nat (length out + 1)) with (Z.succ (Z.of_nat (length out))) by lia.
      rewrite Z.pow_succ_r by lia. rewrite <- Et. change (2 ^ 8) with 256 in *.
      set (r := acc mod 256) in *. set (q := acc / 256) in *. rewrite Hd. ring.
  - unfold written in *. cbn [fst snd] in *. rewrite length_app. cbn [length]. lia.
  - cbn. lia.
  - split_and!; try done. rewrite IH2. unfold written. cbn [fst snd]. rewrite length_app. cbn [length]. lia.
Qed.

Lemma emit_spec total st limb k :
  held total st -> written st = 51 * k -> 0 <= k < 5 -> st.1.2 < 8 -> 0 <= limb < 2 ^ 51 ->
  held (total + 2 ^ (51 * k) * limb) (emit st limb) /\ written (emit st limb) = 51 * (k + 1) /\
  (emit st limb).1.2 < 8.
Proof.
  destruct st as [[acc bits] out]. intros (Hout & Hb & Ha & Et) Hw Hk Hb8 Hl. cbn in Hb8.
  unfold emit. unfold written in Hw. cbn [fst snd] in Hw.
  assert (0 <= limb * 2 ^ bits < 2 ^ (51 + bits)) as Hlb by (rewrite Z.pow_add_r by lia; nia).
  assert (u128_wrap (Z.shiftl limb bits) = Z.shiftl limb bits) as ->.
  { rewrite Z.shiftl_mul_pow2 by lia. apply Z.mod_small. split; [lia|].
    eapply Z.lt_trans; [apply Hlb|]. apply Z.pow_lt_mono_r; lia. }
  rewrite lor_shift by lia.
  destruct (flush_held 8 (total + 2 ^ (51 * k) * limb) (acc + limb * 2 ^ bits, bits + 51, out))
    as (H1 & H2 & H3).
  - split_and!; try done; try lia.
    + rewrite (Z.add_comm bits). rewrite Z.pow_add_r in * by lia. nia.
    + rewrite <- Et. rewrite <- Hw, Z.pow_add_r by lia. change 256 with (2 ^ 8).
      rewrite <- Z.pow_mul_r by lia. ring.
  - unfold written. cbn [fst snd]. lia.
  - cbn [fst snd]. lia.
  - split_and!; try done. rewrite H2. unfold written. cbn [fst snd]. lia.
Qed.

Lemma bytes_of_spec h :
  limbs (2 ^ 51) h ->
  bytes (bytes_of h) /\ length (bytes_of h) = 32%nat /\ from_le (bytes_of h) = fe_val h.
Proof.
  intros (H0 & H1 & H2 & H3 & H4). unfold bytes_of. cbn [fold_left].
  assert (held 0 (0, 0, [])) as Hh by (split_and!; [constructor|lia..|done]).
  destruct (emit_spec 0 (0, 0, []) (f0 h) 0 Hh eq_refl ltac:(lia) ltac:(done) H0) as (Hh1 & Hw1 & Hb1).
  destruct (emit_spec _ _ (f1 h) 1 Hh1 Hw1 ltac:(lia) Hb1 H1) as (Hh2 & Hw2 & Hb2).
  destruct (emit_spec _ _ (f2 h) 2 Hh2 Hw2 ltac:(lia) Hb2 H2) as (Hh3 & Hw3 & Hb3).
  destruct (emit_spec _ _ (f3 h) 3 Hh3 Hw3 ltac:(lia) Hb3 H3) as (Hh4 & Hw4 & Hb4).
  destruct (emit_spec _ _ (f4 h) 4 Hh4 Hw4 ltac:(lia) Hb4 H4) as (Hh5 & Hw5 & Hb5).
  destruct (emit _ (f4 h)) as [[acc bits] out]. destruct Hh5 as (Hout & Hb & Ha & Et).
  unfold written in Hw5. cbn [fst snd] in Hw5, Hb5.
  assert (length out = 31%nat /\ bits = 7) as [Hlen ->] by lia.
  rewrite decide_True by lia. change 255 with (Z.ones 8). rewrite Z.land_ones by lia.
  rewrite Z.mod_small by lia. rewrite length_app, Hlen. cbn [length Nat.add Nat.sub replicate].
  rewrite app_nil_r. split_and!.
  - apply Forall_app. split; [done|]. repeat constructor; lia.
  - rewrite length_app, Hlen. done.
  - rewrite from_le_app. unfold fe_val. cbn [from_le foldr].
    change (51 * 0) with 0 in Et. change (51 * 1) with 51 in Et. change (51 * 2) with 102 in Et.
    change (51 * 3) with 153 in Et. change (51 * 4) with 204 in Et. lia.
Qed.

Lemma to_bytes_spec h x :
  stands h x ->
  bytes (to_bytes h) /\ length (to_bytes h) = 32%nat /\ from_le (to_bytes h) = x mod p25519.
Proof.
  intros Hs. destruct (settle_limbs h x Hs) as [Hl E]. destruct (reduce_spec _ Hl) as [Hr Er].
  destruct (bytes_of_spec _ Hr) as (Hb & Hn & Ev). split_and!; try done.
  unfold to_bytes. by rewrite Ev, Er.
Qed.

Lemma eq_stands a b x y :
  stands a x -> stands b y -> eq a b = bool_decide (x mod p25519 = y mod p25519).
Proof.
  intros Ha Hb. destruct (to_bytes_spec a x Ha) as (A1 & A2 & A3).
  destruct (to_bytes_spec b y Hb) as (B1 & B2 & B3). unfold eq. apply bool_decide_ext. split.
  - intros E. by rewrite <- A3, E, B3.
  - intros E. apply from_le_inj; [done|done|congruence|congruence].
Qed.

(** ** Powers *)

Lemma testbit_from_le l k j :
  bytes l -> 0 <= j < 8 -> Z.testbit (from_le l) (8 * Z.of_nat k + j) = Z.testbit (nth k l 0) j.
Proof.
  intros Hl Hj. revert k. induction Hl as [|b l Hb Hl IH]; intros k.
  - unfold from_le. cbn [foldr]. destruct k; cbn [nth]; by rewrite !Z.bits_0.
  - cbn [from_le foldr]. fold (from_le l). destruct k as [|k]; cbn [nth].
    + change (8 * Z.of_nat 0 + j) with j.
      rewrite <- (Z.mod_pow2_bits_low (b + 256 * from_le l) 8 j) by lia.
      change (2 ^ 8) with 256. rewrite Z.mul_comm, Z.mod_add, Z.mod_small by lia. done.
    + replace (8 * Z.of_nat (S k) + j) with ((8 * Z.of_nat k + j) + 8) by lia.
      rewrite <- Z.div_pow2_bits by lia. change (2 ^ 8) with 256.
      rewrite (Z.mul_comm 256), Z.div_add, Z.div_small, Z.add_0_l by lia. apply IH.
Qed.

Lemma exponent_bit_spec e i :
  bytes e -> exponent_bit e i = Z.testbit (from_le e) (Z.of_nat i).
Proof.
  intros He. rewrite (Nat.div_mod_eq i 8) at 2. rewrite Nat2Z.inj_add, Nat2Z.inj_mul.
  assert (i mod 8 < 8)%nat by (apply Nat.mod_upper_bound; lia).
  rewrite testbit_from_le by (done || lia). unfold exponent_bit.
  change 1 with (Z.ones 1) at 1. rewrite Z.land_ones, Z.shiftr_div_pow2 by lia. change (2 ^ 1) with 2.
  rewrite <- Z.testbit_spec' by lia. by destruct (Z.testbit _ _).
Qed.

Lemma stands_congr h x y : stands h x -> x mod p25519 = y mod p25519 -> stands h y.
Proof. intros [Ht E] Exy. split; [done|congruence]. Qed.

Lemma pow_from_stands e x r n i :
  bytes e -> stands x n -> stands r (n ^ (from_le e / 2 ^ Z.of_nat i)) ->
  stands (pow_from e x r i) (n ^ from_le e).
Proof.
  intros He Hx. revert r. pose proof (from_le_bound e He) as [He0 _].
  induction i as [|i IH]; intros r Hr; cbn [pow_from].
  { change (2 ^ Z.of_nat 0) with 1 in Hr. by rewrite Z.div_1_r in Hr. }
  apply IH. rewrite exponent_bit_spec by done.
  set (k := from_le e / 2 ^ Z.of_nat (S i)) in *.
  assert (from_le e / 2 ^ Z.of_nat i = 2 * k + Z.b2z (Z.testbit (from_le e) (Z.of_nat i))) as ->.
  { rewrite Z.testbit_spec' by lia. unfold k.
    rewrite Nat2Z.inj_succ, Z.pow_succ_r, (Z.mul_comm 2 (2 ^ _)) by lia.
    rewrite <- Z.div_div by lia. apply Z.div_mod. lia. }
  assert (0 <= k) by (apply Z.div_pos; lia).
  assert (stands (mul r r) (n ^ (2 * k))) as Hs.
  { eapply stands_congr; [by apply mul_stands|]. f_equal. by rewrite <- Z.pow_add_r, Z.add_diag by lia. }
  destruct (Z.testbit _ _); cbn [Z.b2z].
  - rewrite Z.pow_add_r, Z.pow_1_r by lia. by apply mul_stands.
  - by rewrite Z.add_0_r.
Qed.

Lemma small_stands n : 0 <= n < 2 ^ 52 -> stands (small n) n.
Proof.
  intros Hn. split; [unfold tight, limbs, small; cbn [f0 f1 f2 f3 f4]; lia|].
  f_equal. unfold fe_val, small. cbn [f0 f1 f2 f3 f4]. lia.
Qed.

Lemma pow_stands x n e :
  bytes e -> length e = 32%nat -> stands x n -> stands (pow x e) (n ^ from_le e).
Proof.
  intros He Hl Hx. refine (pow_from_stands e x ONE n 256 He Hx _).
  assert (from_le e / 2 ^ Z.of_nat 256 = 0) as ->.
  { apply Z.div_small. pose proof (from_le_bound e He) as Hb. rewrite Hl in Hb.
    assert (2 ^ Z.of_nat 256 = 256 ^ Z.of_nat 32) as -> by (vm_compute; reflexivity). exact Hb. }
  rewrite Z.pow_0_r. apply (small_stands 1). lia.
Qed.

(** ** The curve question *)

(** Edwards25519's [d = -121665 / 121666], the inverse as Fermat gives it. *)
Definition edwards_d : Z := (0 - 121665) * 121666 ^ (p25519 - 2).

(** Euler's criterion on [(y^2 - 1) (d y^2 + 1)]: it is zero, or a square. *)
Definition decompresses (y : Z) : Prop :=
  let chi := ((y * y - 1) * (edwards_d * (y * y) + 1)) ^ ((p25519 - 1) / 2) mod p25519 in
  chi = 0 \/ chi = 1.

Lemma bytes_repeat a n b : 0 <= a < 256 -> 0 <= b < 256 -> forall c, 0 <= c < 256 ->
  bytes (a :: replicate n b ++ [c]).
Proof.
  intros Ha Hb c Hc. constructor; [done|]. apply Forall_app. split; [|by apply Forall_singleton].
  apply Forall_forall. intros x [-> _]%elem_of_replicate. done.
Qed.

Lemma d_stands : stands d edwards_d.
Proof.
  apply mul_stands; [apply sub_stands; [apply (small_stands 0)|apply small_stands]; lia|].
  change (p25519 - 2) with (from_le P_MINUS_2).
  apply pow_stands; [apply bytes_repeat; lia|done|apply small_stands; lia].
Qed.

(** C27: [is_on_curve] decides whether the bytes decompress to a point: [y] is
    their low 255 bits, little endian, taken modulo [p] -- the sign bit and a
    [y] past [p] are not looked at -- and the answer is Euler's criterion on
    [(y^2 - 1) (d y^2 + 1)], computed in 51-bit limbs that never overflow. *)
Theorem is_on_curve_spec b :
  bytes b -> length b = 32%nat ->
  is_on_curve b = true <-> decompresses (from_le b mod 2 ^ 255).
Proof.
  intros Hb Hl. destruct (from_bytes_val b Hb Hl) as [Hlim Hv].
  set (y := from_le b mod 2 ^ 255) in *.
  assert (stands (from_bytes b) y) as Hy by (split; [eapply limbs_weaken; [exact Hlim|lia]|by rewrite Hv]).
  pose proof (small_stands 1 ltac:(lia)) as H1. change (small 1) with ONE in H1.
  pose proof (small_stands 0 ltac:(lia)) as H0. change (small 0) with ZERO in H0.
  pose proof (mul_stands _ _ _ _ Hy Hy) as Hyy.
  pose proof (mul_stands _ _ _ _ (sub_stands _ _ _ _ Hyy H1)
    (add_stands _ _ _ _ (mul_stands _ _ _ _ d_stands Hyy) H1)) as Huv.
  assert (bytes HALF_P_MINUS_1) as He1 by (apply bytes_repeat; lia).
  pose proof (pow_stands _ _ _ He1 eq_refl Huv) as Hchi.
  change (from_le HALF_P_MINUS_1) with ((p25519 - 1) / 2) in Hchi.
  unfold is_on_curve. cbn zeta. rewrite (eq_stands _ _ _ _ Hchi H0), (eq_stands _ _ _ _ Hchi H1).
  unfold decompresses. cbn zeta. generalize (((y * y - 1) * (edwards_d * (y * y) + 1)) ^
    ((p25519 - 1) / 2) mod p25519). intros chi.
  change (0 mod p25519) with 0. change (1 mod p25519) with 1.
  by rewrite orb_true_iff, !bool_decide_eq_true.
Qed.

(** The identity, [y = 1], with the sign bit set. *)
Lemma is_on_curve_spec_witness : is_on_curve (1 :: replicate 30 0 ++ [128]) = true.
Proof.
  refine (proj2 (is_on_curve_spec (1 :: replicate 30 0 ++ [128]) _ eq_refl) _).
  - apply bytes_repeat; lia.
  - change (from_le (1 :: replicate 30 0 ++ [128]) mod 2 ^ 255) with 1. unfold decompresses.
    left. change (1 * 1 - 1) with 0. rewrite Z.mul_0_l, Z.pow_0_l; [done|].
    vm_compute. reflexivity.
Defined.
End Curve.
