(* ===== verification/Sha256.v ===== *)
(** * SHA-256

    [crates/agentd/src/sha.rs]: the digest, its hexadecimal form and
    HMAC-SHA-256, on bytes as integers below 256 and words as integers below
    [2^32]. *)

From S2P Require Export Bytes.

Module Sha.
Local Open Scope Z_scope.

(** The round constants, in decimal. *)
Definition K : list Z := [
  1116352408; 1899447441; 3049323471; 3921009573; 961987163; 1508970993;
  2453635748; 2870763221; 3624381080; 310598401; 607225278; 1426881987;
  1925078388; 2162078206; 2614888103; 3248222580; 3835390401; 4022224774;
  264347078; 604807628; 770255983; 1249150122; 1555081692; 1996064986;
  2554220882; 2821834349; 2952996808; 3210313671; 3336571891; 3584528711;
  113926993; 338241895; 666307205; 773529912; 1294757372; 1396182291;
  1695183700; 1986661051; 2177026350; 2456956037; 2730485921; 2820302411;
  3259730800; 3345764771; 3516065817; 3600352804; 4094571909; 275423344;
  430227734; 506948616; 659060556; 883997877; 958139571; 1322822218;
  1537002063; 1747873779; 1955562222; 2024104815; 2227730452; 2361852424;
  2428436474; 2756734187; 3204031479; 3329325298].

(** [wrapping_add], [rotate_right], [!]. *)
Definition wadd (a b : Z) : Z := u32_wrap (a + b).
Definition rotr (x n : Z) : Z := Z.lor (Z.shiftr x n) (u32_wrap (Z.shiftl x (32 - n))).
Definition not32 (x : Z) : Z := Z.lxor x u32_max.
Definition xor3 (a b c : Z) : Z := Z.lxor (Z.lxor a b) c.

Record State := mkState { ra : Z; rb : Z; rc : Z; rd : Z; re : Z; rf : Z; rg : Z; rh : Z }.

Definition initial : State :=
  mkState 0x6a09e667 0xbb67ae85 0x3c6ef372 0xa54ff53a 0x510e527f 0x9b05688c 0x1f83d9ab 0x5be0cd19.

(** [while msg.len() % 64 != 56]: at most 63 zeros. *)
Fixpoint pad_zeros (fuel : nat) (msg : list Z) : list Z :=
  match fuel with
  | O => msg
  | S fuel' => if decide (length msg mod 64 <> 56)%nat then pad_zeros fuel' (msg ++ [0]) else msg
  end.

(** The message, [0x80], zeros, and the length in bits as eight bytes. *)
Definition pad (l : list Z) : list Z :=
  let bitlen := u64_mul (u64_wrap (Z.of_nat (length l))) 8 in
  pad_zeros 63 (l ++ [128]) ++ to_be 8 bitlen.

(** [as_chunks::<N>], the remainder left out. *)
Fixpoint chunks (fuel n : nat) (l : list Z) : list (list Z) :=
  match fuel with
  | O => []
  | S fuel' => if decide (length l < n)%nat then [] else take n l :: chunks fuel' n (drop n l)
  end.
Definition as_chunks (n : nat) (l : list Z) : list (list Z) := chunks (length l) n l.

(** The words 16 to 63 of the schedule. *)
Fixpoint extend (fuel : nat) (w : list Z) : list Z :=
  match fuel with
  | O => w
  | S fuel' =>
      let i := length w in
      let w15 := nth (i - 15) w 0 in
      let w2 := nth (i - 2) w 0 in
      let s0 := xor3 (rotr w15 7) (rotr w15 18) (Z.shiftr w15 3) in
      let s1 := xor3 (rotr w2 17) (rotr w2 19) (Z.shiftr w2 10) in
      extend fuel' (w ++ [wadd (wadd (wadd (nth (i - 16) w 0) s0) (nth (i - 7) w 0)) s1])
  end.
Definition schedule (block : list Z) : list Z := extend 48 (from_be <$> as_chunks 4 block).

Definition round (s : State) (kw : Z * Z) : State :=
  let '(k, w) := kw in
  let s1 := xor3 (rotr (re s) 6) (rotr (re s) 11) (rotr (re s) 25) in
  let ch := Z.lxor (Z.land (re s) (rf s)) (Z.land (not32 (re s)) (rg s)) in
  let t1 := wadd (wadd (wadd (wadd (rh s) s1) ch) k) w in
  let s0 := xor3 (rotr (ra s) 2) (rotr (ra s) 13) (rotr (ra s) 22) in
  let maj := xor3 (Z.land (ra s) (rb s)) (Z.land (ra s) (rc s)) (Z.land (rb s) (rc s)) in
  let t2 := wadd s0 maj in
  mkState (wadd t1 t2) (ra s) (rb s) (rc s) (wadd (rd s) t1) (re s) (rf s) (rg s).

Definition compress (h : State) (block : list Z) : State :=
  let s := fold_left round (zip K (schedule block)) h in
  mkState (wadd (ra h) (ra s)) (wadd (rb h) (rb s)) (wadd (rc h) (rc s)) (wadd (rd h) (rd s))
    (wadd (re h) (re s)) (wadd (rf h) (rf s)) (wadd (rg h) (rg s)) (wadd (rh h) (rh s)).

Definition sha256 (l : list Z) : list Z :=
  let h := fold_left compress (as_chunks 64 (pad l)) initial in
  [ra h; rb h; rc h; rd h; re h; rf h; rg h; rh h] ≫= to_be 4.

Definition sha256_hex (l : list Z) : list char := to_hex (sha256 l).

Definition hmac_sha256 (key msg : list Z) : list Z :=
  let k := if decide (64 < length key)%nat then sha256 key else key in
  let k := k ++ replicate (64 - length k) 0 in
  let ipad := Z.lxor 0x36 <$> k in
  let opad := Z.lxor 0x5c <$> k in
  sha256 (opad ++ sha256 (ipad ++ msg)).

Definition ascii (s : string) : list Z := code <$> chars s.

Example sha256_empty : text (sha256_hex []) =
  "e3b0c44298fc1c149afbf4c8996fb92427ae41e4649b934ca495991b7852b855".
Proof. vm_compute. reflexivity. Qed.
(** ** The padding *)

Lemma pad_zeros_spec fuel msg :
  (exists j, j <= fuel /\ (length msg + j) mod 64 = 56)%nat ->
  exists k, (k <= fuel)%nat /\ pad_zeros fuel msg = msg ++ replicate k 0 /\
    ((length msg + k) mod 64 = 56)%nat.
Proof.
  revert msg. induction fuel as [|fuel IH]; intros msg (j & Hj & E); cbn [pad_zeros].
  - assert (j = 0)%nat as -> by lia. exists 0%nat. rewrite app_nil_r. done.
  - case_decide as Hd.
    2: { exists 0%nat. rewrite app_nil_r, Nat.add_0_r. split; [lia|]. split; [done|lia]. }
    destruct j as [|j]; [rewrite Nat.add_0_r in E; lia|].
    destruct (IH (msg ++ [0])) as (k & Hk & -> & Em).
    + exists j. rewrite length_app. cbn [length]. split; [lia|]. rewrite <- E. f_equal; lia.
    + exists (S k). rewrite <- app_assoc. split; [lia|]. split; [done|].
      rewrite length_app in Em. cbn [length] in Em. rewrite <- Em. f_equal; lia.
Qed.

(** The padded message is whole blocks, the message first. *)
Lemma pad_shape l :
  exists k, (k <= 63)%nat /\
    pad l = l ++ [128] ++ replicate k 0 ++ to_be 8 (u64_mul (u64_wrap (Z.of_nat (length l))) 8) /\
    (length (pad l) mod 64 = 0)%nat.
Proof.
  destruct (pad_zeros_spec 63 (l ++ [128])) as (k & Hk & E & Em).
  { exists ((56 + 64 - length (l ++ [128%Z]) mod 64) mod 64)%nat.
    set (n := length (l ++ [128])). pose proof (Nat.mod_upper_bound n 64 ltac:(lia)).
    pose proof (Nat.mod_upper_bound (56 + 64 - n mod 64) 64 ltac:(lia)). split; [lia|].
    rewrite Nat.Div0.add_mod_idemp_r. rewrite <- Nat.Div0.add_mod_idemp_l.
    replace (n mod 64 + (56 + 64 - n mod 64))%nat with (56 + 1 * 64)%nat by lia.
    by rewrite Nat.Div0.mod_add. }
  exists k. split; [done|]. unfold pad. rewrite E, <- !app_assoc. split; [done|].
  rewrite !app_assoc. rewrite length_app. unfold to_be. rewrite length_rev, to_le_length.
  rewrite length_app, length_replicate. rewrite Nat.Div0.add_mod, Em. done.
Qed.

Lemma to_be_inj n x y :
  0 <= x < 256 ^ Z.of_nat n -> 0 <= y < 256 ^ Z.of_nat n -> to_be n x = to_be n y -> x = y.
Proof.
  unfold to_be. intros Hx Hy E. apply (f_equal (@rev Z)) in E. rewrite !rev_involutive in E.
  by rewrite <- (from_to_le n x), E, from_to_le.
Qed.

(** Two messages short enough for the length field pad to different blocks. *)
Lemma pad_inj l k :
  Z.of_nat (length l) < 2 ^ 61 -> Z.of_nat (length k) < 2 ^ 61 -> pad l = pad k -> l = k.
Proof.
  intros Hl Hk. destruct (pad_shape l) as (a & _ & -> & _). destruct (pad_shape k) as (b & _ & -> & _).
  intros E. rewrite !app_assoc in E. apply app_inj_2 in E as [E Eb].
  2: { unfold to_be. by rewrite !length_rev, !to_le_length. }
  assert (length l = length k) as El.
  { unfold u64_mul in Eb. rewrite !(u64_wrap_small (Z.of_nat _)) in Eb by (unfold is_u64, u64_max; lia).
    rewrite !u64_wrap_small in Eb by (unfold is_u64, u64_max; lia).
    apply to_be_inj in Eb; [lia|change (256 ^ Z.of_nat 8) with (2 ^ 64); lia..]. }
  rewrite <- !app_assoc in E. by apply app_inj_1 in E as [-> _].
Qed.

Lemma sha256_length l : length (sha256 l) = 32%nat.
Proof. done. Qed.

Lemma sha256_bytes l : bytes (sha256 l).
Proof.
  unfold sha256. apply Forall_bind, Forall_forall. intros x _. apply Forall_rev, to_le_bytes.
Qed.
End Sha.
