(* ===== verification/Svm.v ===== *)
(** * The exact scheme on Solana

    [crates/agentd/src/payments/svm.rs]: keys, program-derived addresses, the
    instructions of x402's exact transfer, a message compiled, written and
    read, and the transfer read strictly from it.  A key is its 32 bytes; a
    cursor [at] into a byte string is the bytes that are left. *)

From S2P Require Export Base58 Ed25519 Sha256.

Module Svm.
Local Open Scope Z_scope.

Definition TOKEN_PROGRAM : list char := chars "TokenkegQfeZyiNwAJbNbGKPFXCWuBvf9Ss623VQ5DA".
Definition TOKEN_2022_PROGRAM : list char := chars "TokenzQdBNbLqP5VEhdkAS6EPFLC1PHnBqCXEpPxuEb".
Definition ASSOCIATED_TOKEN_PROGRAM : list char := chars "ATokenGPvbdGVxr1b2hvZbsiqW5xWH25efTNsLJA8knL".
Definition COMPUTE_BUDGET_PROGRAM : list char := chars "ComputeBudget111111111111111111111111111111".
Definition MEMO_PROGRAM : list char := chars "MemoSq4gqABAXKb96qnH8TysNcWxMyWCqXgDLGmfcHr".
Definition COMPUTE_UNIT_LIMIT : Z := 20000.
Definition COMPUTE_UNIT_PRICE : Z := 1.
Definition MAX_MEMO : nat := 256.
Definition MEMO_NONCE : nat := 16.
Definition SET_COMPUTE_UNIT_LIMIT : Z := 2.
Definition SET_COMPUTE_UNIT_PRICE : Z := 3.
Definition TRANSFER_CHECKED : Z := 12.
Definition V0 : Z := 128.

(** What deriving an address asks of the rest: the digest and the curve
    question.  The program's are SHA-256 and Ed25519's. *)
Class AddressOps := { digest : list Z -> list Z; is_point : list Z -> bool }.
#[export] Instance program_ops : AddressOps :=
  {| digest := Sha.sha256; is_point := Curve.is_on_curve |}.

(** ** Keys and programs *)

Definition Pubkey : Type := list Z.

Definition pubkey_parse (s : list char) : result Base58Error Pubkey := decode32 s.
Definition known (s : list char) : Pubkey := default (replicate 32 0) (ok (decode32 s)).
Definition on_curve `{AddressOps} (k : Pubkey) : bool := is_point k.

Inductive TokenProgram : Type := Spl | Token2022.
#[export] Instance token_program_eq_dec : EqDecision TokenProgram.
Proof. solve_decision. Defined.

Definition token_program_parse (s : string) : option TokenProgram :=
  if decide (s = "spl-token") then Some Spl
  else if decide (s = "token-2022") then Some Token2022
  else None.
Definition token_program_name (p : TokenProgram) : string :=
  match p with Spl => "spl-token" | Token2022 => "token-2022" end.
Definition program_id (p : TokenProgram) : Pubkey :=
  known match p with Spl => TOKEN_PROGRAM | Token2022 => TOKEN_2022_PROGRAM end.
Definition program_of (id : Pubkey) : option TokenProgram :=
  find (fun p => bool_decide (program_id p = id)) [Spl; Token2022].

(** ** Program-derived addresses *)

Definition create_program_address `{AddressOps} (seeds : list (list Z)) (program : Pubkey) : option Pubkey :=
  if (bool_decide (16 < length seeds)%nat || existsb (fun s => bool_decide (32 < length s)%nat) seeds)
  then None
  else
    let address := digest (concat seeds ++ program ++ Sha.ascii "ProgramDerivedAddress") in
    if on_curve address then None else Some address.

(** [(1..=255u8).rev().find_map(..)]: from the bump [n] down. *)
Fixpoint find_bump `{AddressOps} (n : nat) (seeds : list (list Z)) (program : Pubkey) : option (Pubkey * Z) :=
  match n with
  | O => None
  | S n' =>
      match create_program_address (seeds ++ [[Z.of_nat n]]) program with
      | Some a => Some (a, Z.of_nat n)
      | None => find_bump n' seeds program
      end
  end.
Definition find_program_address `{AddressOps} : list (list Z) -> Pubkey -> option (Pubkey * Z) := find_bump 255.

Definition associated_token_account `{AddressOps} (owner mint : Pubkey) (program : TokenProgram) : Pubkey :=
  match find_program_address [owner; program_id program; mint] (known ASSOCIATED_TOKEN_PROGRAM) with
  | Some (a, _) => a
  | None => replicate 32 0
  end.

(** ** Lengths *)

(** Seven bits a byte; a [u16] is spent in three. *)
Fixpoint compact_loop (fuel : nat) (rest : Z) : list Z :=
  match fuel with
  | O => []
  | S fuel' =>
      let byte := Z.land rest 127 in
      let rest := Z.shiftr rest 7 in
      if rest =? 0 then [byte] else Z.lor byte 128 :: compact_loop fuel' rest
  end.
Definition compact_u16 (n : Z) : list Z := compact_loop 3 n.

(** How a message differs from x402's exact transfer. *)
Inductive TransferError : Type :=
  | NotTwoSigners
  | KeyCount (n : nat)
  | InstructionCount (n : nat)
  | ProgramSignsOrWritten
  | FeePayerInInstruction
  | NotUnitLimit
  | NotUnitPrice
  | NotTokenProgram
  | NotTransferChecked
  | NotFourAccounts
  | NotAuthority
  | NotWritable
  | TokenSigns
  | NotMemo
  | BadMemo
  | TwoRoles
  | NotWalletSource.

Inductive SvmError : Type :=
  | EndsInLength
  | NotShortest
  | LengthPast16
  | EndsEarly
  | LegacyMessage
  | BadVersion (v : Z)
  | BadHeader
  | BadIndex
  | LookupTables
  | BytesAfter
  | TooManyKeys
  | EndsInSignature
  | SignatureCount (n : nat) (signers : Z)
  | NotTransfer (why : TransferError)
  | FeePayerIsWallet.

(** Reading: the state is what is left of the bytes. *)
Abbreviation readM := (stM (list Z) SvmError).

Definition byte_or (e : SvmError) : readM Z :=
  act (fun rest => match rest with b :: rest' => (rest', Ok b) | [] => ([], Err e) end).

Fixpoint read_compact_loop (fuel : nat) (i : Z) (v : Z) : readM Z :=
  match fuel with
  | O => throw LengthPast16
  | S fuel' =>
      b ← byte_or EndsInLength;
      let v := Z.lor v (Z.shiftl (Z.land b 127) (7 * i)) in
      if Z.land b 128 =? 0 then
        if (0 <? i) && (b =? 0) then throw NotShortest
        else if v <=? 65535 then mret v else throw LengthPast16
      else read_compact_loop fuel' (i + 1) v
  end.
Definition read_compact_u16 : readM Z := read_compact_loop 3 0 0.

Definition take_bytes (e : SvmError) (len : nat) : readM (list Z) :=
  act (fun rest => if decide (len <= length rest)%nat then (drop len rest, Ok (take len rest))
                   else (rest, Err e)).

(** ** Instructions *)

Record Meta := mkMeta { m_key : Pubkey; m_signer : bool; m_writable : bool }.
Record Instruction := mkInstruction { i_program : Pubkey; i_accounts : list Meta; i_data : list Z }.

Definition set_compute_unit_limit (units : Z) : Instruction :=
  mkInstruction (known COMPUTE_BUDGET_PROGRAM) [] (SET_COMPUTE_UNIT_LIMIT :: to_le 4 units).
Definition set_compute_unit_price (micro_lamports : Z) : Instruction :=
  mkInstruction (known COMPUTE_BUDGET_PROGRAM) [] (SET_COMPUTE_UNIT_PRICE :: to_le 8 micro_lamports).
Definition transfer_checked (program : TokenProgram) (source mint destination authority : Pubkey)
    (amount decimals : Z) : Instruction :=
  mkInstruction (program_id program)
    [mkMeta source false true; mkMeta mint false false; mkMeta destination false true;
     mkMeta authority true false]
    (TRANSFER_CHECKED :: to_le 8 amount ++ [decimals]).
Definition memo (text : list Z) : Instruction := mkInstruction (known MEMO_PROGRAM) [] text.

(** ** Messages *)

Record Compiled := mkCompiled { c_program : Z; c_accounts : list Z; c_data : list Z }.
Record Message := mkMessage {
  signers : Z;
  readonly_signed : Z;
  readonly_unsigned : Z;
  msg_keys : list Pubkey;
  blockhash : list Z;
  instructions : list Compiled;
}.

Definition Seen : Type := list (Pubkey * bool * bool).

(** The closure [note]: a key seen again gains what this use asks. *)
Fixpoint note (key : Pubkey) (signer writable : bool) (seen : Seen) : Seen :=
  match seen with
  | [] => [(key, signer, writable)]
  | (k, s, w) :: seen' =>
      if bool_decide (k = key) then (k, s || signer, w || writable) :: seen'
      else (k, s, w) :: note key signer writable seen'
  end.
Definition note_meta (seen : Seen) (m : Meta) : Seen := note (m_key m) (m_signer m) (m_writable m) seen.
Definition note_instruction (seen : Seen) (ix : Instruction) : Seen :=
  fold_left note_meta (i_accounts ix) (note (i_program ix) false false seen).

Definition group (seen : Seen) (signer writable : bool) : list Pubkey :=
  (fun e => e.1.1) <$>
    List.filter (fun e => bool_decide (e.1.2 = signer) && bool_decide (e.2 = writable)) seen.

Definition count (n : nat) : result SvmError Z :=
  if decide (n <= 255)%nat then Ok (Z.of_nat n) else Err TooManyKeys.

Fixpoint find_key (k : Pubkey) (l : list Pubkey) : option nat :=
  match l with
  | [] => None
  | x :: l' => if bool_decide (x = k) then Some O else S <$> find_key k l'
  end.
(** [position(..).map(|i| i as u8).unwrap_or(0)]. *)
Definition index (ks : list Pubkey) (k : Pubkey) : Z :=
  default 0 ((fun i => Z.of_nat i mod 256) <$> find_key k ks).

Definition compile_instruction (ks : list Pubkey) (ix : Instruction) : Compiled :=
  mkCompiled (index ks (i_program ix)) ((fun m => index ks (m_key m)) <$> i_accounts ix) (i_data ix).

Definition compile (payer : Pubkey) (ixs : list Instruction) (bh : list Z) : result SvmError Message :=
  let seen := fold_left note_instruction ixs [(payer, true, true)] in
  let ws := group seen true true in
  let rs := group seen true false in
  let wu := group seen false true in
  let ru := group seen false false in
  h0 ← count (length ws + length rs);
  h1 ← count (length rs);
  h2 ← count (length ru);
  let ks := ws ++ rs ++ wu ++ ru in
  _ ← count (length ks);
  Ok (mkMessage h0 h1 h2 ks bh (compile_instruction ks <$> ixs)).

Definition len_u16 {A} (l : list A) : Z := Z.of_nat (length l) mod 65536.

Definition serialize_instruction (ix : Compiled) : list Z :=
  [c_program ix] ++ compact_u16 (len_u16 (c_accounts ix)) ++ c_accounts ix
  ++ compact_u16 (len_u16 (c_data ix)) ++ c_data ix.

Definition serialize (m : Message) : list Z :=
  [V0; signers m; readonly_signed m; readonly_unsigned m]
  ++ compact_u16 (len_u16 (msg_keys m)) ++ concat (msg_keys m) ++ blockhash m
  ++ compact_u16 (len_u16 (instructions m)) ++ (instructions m ≫= serialize_instruction)
  ++ compact_u16 0.

(** [for _ in 0..n { v.push(f()?) }]. *)
Fixpoint times {A} (n : nat) (f : readM A) : readM (list A) :=
  match n with O => mret [] | S n' => a ← f; l ← times n' f; mret (a :: l) end.

Definition read_instruction (n : nat) : readM Compiled :=
  program ← byte_or EndsEarly;
  k ← read_compact_u16;
  accounts ← take_bytes EndsEarly (Z.to_nat k);
  d ← read_compact_u16;
  data ← take_bytes EndsEarly (Z.to_nat d);
  if (Z.of_nat n <=? program) || existsb (fun a => Z.of_nat n <=? a) accounts then throw BadIndex
  else mret (mkCompiled program accounts data).

Definition read_message : readM Message :=
  prefix ← byte_or EndsEarly;
  if negb (prefix =? V0) then
    throw (if Z.land prefix 128 =? 0 then LegacyMessage else BadVersion (Z.land prefix 127))
  else
    s ← byte_or EndsEarly;
    rs ← byte_or EndsEarly;
    ru ← byte_or EndsEarly;
    n ← read_compact_u16;
    ks ← times (Z.to_nat n) (take_bytes EndsEarly 32);
    if (s =? 0) || (n <? s) || (s <=? rs) || (n <? s + ru) then throw BadHeader
    else
      bh ← take_bytes EndsEarly 32;
      c ← read_compact_u16;
      ixs ← times (Z.to_nat c) (read_instruction (Z.to_nat n));
      t ← read_compact_u16;
      if negb (t =? 0) then throw LookupTables
      else
        rest ← gets Datatypes.id;
        match rest with
        | [] => mret (mkMessage s rs ru ks bh ixs)
        | _ => throw BytesAfter
        end.
Definition parse (l : list Z) : result SvmError Message := (read_message l).2.

Definition is_signer (m : Message) (i : Z) : bool := i <? signers m.
Definition is_writable (m : Message) (i : Z) : bool :=
  let s := signers m in
  if i <? s then i <? u64_wrap (s - readonly_signed m)
  else i <? u64_wrap (Z.of_nat (length (msg_keys m)) - readonly_unsigned m).

(** ** Transactions *)

Definition transaction (signatures : list (list Z)) (message : list Z) : list Z :=
  compact_u16 (len_u16 signatures) ++ concat signatures ++ message.

Record Transaction := mkTransaction {
  signatures : list (list Z);
  t_message : Message;
  signed : list Z;
}.

Definition read_transaction (l : list Z) : result SvmError Transaction :=
  let '(signed, r) := (n ← read_compact_u16; times (Z.to_nat n) (take_bytes EndsInSignature 64)) l in
  sigs ← r;
  message ← parse signed;
  if signers message =? Z.of_nat (length sigs) then Ok (mkTransaction sigs message signed)
  else Err (SignatureCount (length sigs) (signers message)).

(** ** The transfer a message makes *)

Record Transfer := mkTransfer {
  fee_payer : Pubkey;
  owner : Pubkey;
  t_program : TokenProgram;
  mint : Pubkey;
  source : Pubkey;
  destination : Pubkey;
  amount : Z;
  decimals : Z;
  t_memo : list Z;
  unit_limit : Z;
  unit_price : Z;
  t_blockhash : list Z;
}.

Section transfer_read.
Variable m : Message.

Definition key (i : Z) : Pubkey := nth (Z.to_nat i) (msg_keys m) [].
Definition ix (i : nat) : Compiled := nth i (instructions m) (mkCompiled 0 [] []).
Definition program (i : nat) : Pubkey := key (c_program (ix i)).
Definition no_accounts (i : nat) : bool := match c_accounts (ix i) with [] => true | _ => false end.

(** The first refusal over the instructions. *)
Fixpoint check_instructions (l : list Compiled) : result TransferError unit :=
  match l with
  | [] => Ok tt
  | x :: l' =>
      if is_signer m (c_program x) || is_writable m (c_program x) then Err ProgramSignsOrWritten
      else if existsb (fun a => a =? 0) (c_accounts x) then Err FeePayerInInstruction
      else check_instructions l'
  end.

(** [tag, rest @ ..] of an instruction's data, [rest] of [n] bytes. *)
Definition tagged (tag : Z) (n : nat) (data : list Z) : option (list Z) :=
  match data with
  | t :: rest => if (t =? tag) && bool_decide (length rest = n) then Some rest else None
  | [] => None
  end.
Definition guard_ok (b : bool) (e : TransferError) : result TransferError unit :=
  if b then Ok tt else Err e.

Definition transfer_read `{AddressOps} : result TransferError Transfer :=
  _ ← guard_ok ((signers m =? 2) && (readonly_signed m =? 1)) NotTwoSigners;
  _ ← guard_ok (bool_decide (length (msg_keys m) = 8%nat)) (KeyCount (length (msg_keys m)));
  _ ← guard_ok (bool_decide (length (instructions m) = 4%nat))
        (InstructionCount (length (instructions m)));
  _ ← check_instructions (instructions m);
  let budget := known COMPUTE_BUDGET_PROGRAM in
  limit ← ok_or NotUnitLimit (tagged SET_COMPUTE_UNIT_LIMIT 4 (c_data (ix 0)));
  _ ← guard_ok (bool_decide (program 0 = budget) && no_accounts 0) NotUnitLimit;
  price ← ok_or NotUnitPrice (tagged SET_COMPUTE_UNIT_PRICE 8 (c_data (ix 1)));
  _ ← guard_ok (bool_decide (program 1 = budget) && no_accounts 1) NotUnitPrice;
  token ← ok_or NotTokenProgram (program_of (program 2));
  rest ← ok_or NotTransferChecked (tagged TRANSFER_CHECKED 9 (c_data (ix 2)));
  match c_accounts (ix 2) with
  | [source; mint; destination; authority] =>
      _ ← guard_ok (authority =? 1) NotAuthority;
      _ ← guard_ok (is_writable m source && is_writable m destination && negb (is_writable m mint))
            NotWritable;
      _ ← guard_ok (negb (is_signer m source || is_signer m mint || is_signer m destination)) TokenSigns;
      _ ← guard_ok (bool_decide (program 3 = known MEMO_PROGRAM) && no_accounts 3) NotMemo;
      let memo := c_data (ix 3) in
      _ ← guard_ok (bool_decide (length memo <= MAX_MEMO)%nat && utf8_valid memo) BadMemo;
      let t := mkTransfer (key 0) (key 1) token (key mint) (key source) (key destination)
        (from_le (take 8 rest)) (nth 8 rest 0) memo (from_le limit) (from_le price) (blockhash m) in
      let roles := [fee_payer t; owner t; Svm.source t; Svm.destination t; Svm.mint t; budget;
                    program_id token; known MEMO_PROGRAM] in
      _ ← guard_ok (bool_decide (length (remove_dups roles) = 8%nat)) TwoRoles;
      _ ← guard_ok (bool_decide
              (Svm.source t = associated_token_account (owner t) (Svm.mint t) token)) NotWalletSource;
      Ok t
  | _ => Err NotFourAccounts
  end.
End transfer_read.

(** [Transfer::pays]. *)
Definition pays `{AddressOps} (t : Transfer) (pay_to : Pubkey) : bool :=
  bool_decide (destination t = associated_token_account pay_to (mint t) (t_program t)).

(** ** What an entry asks *)

Record Terms := mkTerms {
  tm_mint : Pubkey;
  tm_program : TokenProgram;
  tm_decimals : Z;
  tm_pay_to : Pubkey;
  tm_fee_payer : Pubkey;
  tm_memo : option (list Z);
  tm_blockhash : option (list Z);
  tm_rpc : option string;
}.

(** [Terms::memo_for], as bytes. *)
Definition memo_for (t : Terms) (nonce : list Z) : list Z :=
  match tm_memo t with
  | Some m => m
  | None => code <$> to_hex (take MEMO_NONCE nonce)
  end.

(** [Terms::message]: compiled, and handed back only when it reads back. *)
Definition message `{AddressOps} (t : Terms) (owner : Pubkey) (amount : Z) (text : list Z) (bh : list Z) :
    result SvmError Message :=
  if decide (tm_fee_payer t = owner) then Err FeePayerIsWallet
  else
    let source := associated_token_account owner (tm_mint t) (tm_program t) in
    let destination := associated_token_account (tm_pay_to t) (tm_mint t) (tm_program t) in
    let ixs := [set_compute_unit_limit COMPUTE_UNIT_LIMIT; set_compute_unit_price COMPUTE_UNIT_PRICE;
      transfer_checked (tm_program t) source (tm_mint t) destination owner amount (tm_decimals t);
      memo text] in
    m ← compile (tm_fee_payer t) ixs bh;
    _ ← map_err NotTransfer (transfer_read m);
    Ok m.

(** A transfer on small operations: four instructions, eight keys. *)
Definition toy_ops : AddressOps :=
  {| digest := fun l => (fun b => (b + 1) mod 256) <$> take 32 l; is_point := fun _ => false |}.
Definition toy_terms : Terms :=
  mkTerms (replicate 32 7) Spl 6 (replicate 32 20) (replicate 32 40) None None None.
Example toy_message :
  match @message toy_ops toy_terms (replicate 32 9) 1000 [104; 105] (replicate 32 3) with
  | Ok m =>
      match @transfer_read m toy_ops with
      | Ok t => (amount t, decimals t, t_memo t) = (1000, 6, [104; 105]) /\
          @pays toy_ops t (replicate 32 20) = true /\ @pays toy_ops t (replicate 32 21) = false
      | Err _ => False
      end
  | Err _ => False
  end.
Proof. vm_compute. done. Qed.
Example toy_bytes :
  (fun m => parse (serialize m)) <$>
    ok (@message toy_ops toy_terms (replicate 32 9) 1000 [104; 105] (replicate 32 3)) =
  Some (@message toy_ops toy_terms (replicate 32 9) 1000 [104; 105] (replicate 32 3)).
Proof. vm_compute. reflexivity. Qed.
End Svm.
