(* ===== verification/SvmProps.v ===== *)
(** * Solana messages: what is written is what is read

    Theorems on [Svm]: a length in compact-u16 has one form; a message's bytes
    are read exactly when they are the bytes the message is written as; and a
    message agentd hands to be signed is the transfer that was asked for. *)

From S2P Require Export Svm.

Module SvmProps.
Import Svm.
Local Open Scope Z_scope.

(** ** Readers and the texts they read *)

(** [f] reads exactly what [pr] writes of the values [P] holds of. *)
Definition reads {A} (f : readM A) (P : A -> Prop) (pr : A -> list Z) : Prop :=
  forall l rest a, bytes l -> f l = (rest, Ok a) <-> P a /\ l = pr a ++ rest.

Lemma reads_run {A} (f : readM A) P pr a rest :
  reads f P pr -> bytes (pr a ++ rest) -> P a -> f (pr a ++ rest) = (rest, Ok a).
Proof. intros Hf Hb Ha. by apply Hf. Qed.

Lemma bytes_app l k : bytes (l ++ k) <-> bytes l /\ bytes k.
Proof. apply Forall_app. Qed.

Lemma reads_byte e : reads (byte_or e) (fun b => 0 <= b < 256) (fun b => [b]).
Proof.
  intros l rest a Hl. unfold byte_or, act. destruct l as [|b l]; cbn.
  - split; [done|]. by intros [_ ?].
  - apply Forall_cons in Hl as [Hb Hl]. split; [intros [= -> ->]|intros [_ [= -> ->]]]; done.
Qed.

Lemma reads_take e n : reads (take_bytes e n) (fun x => bytes x /\ length x = n) (fun x => x).
Proof.
  intros l rest a Hl. unfold take_bytes, act. case_decide as Hn.
  - split.
    + intros [= <- <-]. split; [|by rewrite take_drop]. split; [by apply Forall_take|].
      rewrite length_take. lia.
    + intros [[_ Ha] ->]. subst n. by rewrite drop_app_length, take_app_length.
  - split; [done|]. intros [[_ Ha] ->]. rewrite length_app in Hn. lia.
Qed.

Lemma reads_times {A} n (f : readM A) P pr :
  reads f P pr -> reads (times n f) (fun x => length x = n /\ Forall P x) (fun x => x ≫= pr).
Proof.
  intros Hf. induction n as [|n IH]; intros l rest x Hl; cbn [times].
  - unfold mret, stM_ret. split.
    + intros [= -> <-]. split; [split; [done|constructor]|done].
    + intros [[Hx _] ->]. by destruct x.
  - rewrite bind_Ok. split.
    + intros (l1 & a & Ha & E). apply Hf in Ha as [Pa ->]; [|done].
      apply bytes_app in Hl as [_ Hl]. rewrite bind_Ok in E. destruct E as (l2 & y & Ey & E).
      apply IH in Ey as [[Hy Py] ->]; [|done]. unfold mret, stM_ret in E. injection E as <- <-.
      split; [split; [cbn; by rewrite Hy|by constructor]|]. cbn. by rewrite <- app_assoc.
    + intros [[Hx Px] ->]. destruct x as [|a y]; [done|]. apply Forall_cons in Px as [Pa Py].
      cbn [mbind list_bind]. rewrite <- app_assoc. exists ((y ≫= pr) ++ rest), a.
      cbn [mbind list_bind] in Hl. rewrite <- app_assoc in Hl. split; [by apply reads_run with (P := P)|].
      rewrite bind_Ok. exists rest, y. split; [|done]. apply bytes_app in Hl as [_ Hl].
      apply IH; [done|]. split; [|done]. split; [by injection Hx|done].
Qed.

(** ** Lengths *)

Lemma land127 x : Z.land x 127 = x mod 128.
Proof. change 127 with (Z.ones 7). by rewrite Z.land_ones. Qed.

(** A byte's high bit, split off. *)
Lemma byte_high b : 0 <= b < 256 -> (Z.land b 128 =? 0) = (b <? 128).
Proof.
  intros Hb. assert (Z.land b 128 = Z.shiftl (Z.shiftr b 7) 7) as ->.
  { apply Z.bits_inj'. intros k Hk. rewrite Z.land_spec.
    change 128 with (2 ^ 7). rewrite Z.pow2_bits_eqb by lia.
    destruct (Z.ltb_spec k 7).
    - rewrite Z.shiftl_spec_low by done. assert (7 =? k = false) as -> by lia. apply andb_false_r.
    - rewrite Z.shiftl_spec, Z.shiftr_spec by lia. replace (k - 7 + 7) with k by lia.
      destruct (Z.eqb_spec 7 k) as [<-|Hne]; [by rewrite andb_true_r|]. rewrite andb_false_r.
      rewrite <- (Z.mod_small b (2 ^ 8)) by lia. rewrite Z.mod_pow2_bits_high by lia. done. }
  rewrite Z.shiftr_div_pow2, Z.shiftl_mul_pow2 by lia. change (2 ^ 7) with 128.
  Z.to_euclidean_division_equations. lia.
Qed.

Lemma lor128 b : 0 <= b < 128 -> Z.lor b 128 = b + 128.
Proof. intros Hb. change 128 with (Z.shiftl 1 7) at 1. rewrite lor_shift by lia. lia. Qed.

(** The three forms. *)
Lemma compact_forms n :
  0 <= n <= 65535 ->
  compact_u16 n =
    if n <? 128 then [n]
    else if n <? 16384 then [n mod 128 + 128; n / 128]
    else [n mod 128 + 128; n / 128 mod 128 + 128; n / 16384].
Proof.
  intros Hn. unfold compact_u16. cbn [compact_loop]. rewrite !land127, !Z.shiftr_div_pow2 by lia.
  change (2 ^ 7) with 128. rewrite !Z.div_div by lia. change (128 * 128) with 16384.
  change (16384 * 128) with 2097152.
  rewrite !lor128 by (apply Z.mod_pos_bound; lia).
  destruct (Z.ltb_spec n 128).
  { assert (n / 128 =? 0 = true) as -> by (Z.to_euclidean_division_equations; lia).
    rewrite Z.mod_small by lia. done. }
  assert (n / 128 =? 0 = false) as -> by (Z.to_euclidean_division_equations; lia).
  destruct (Z.ltb_spec n 16384).
  { assert (n / 16384 =? 0 = true) as -> by (Z.to_euclidean_division_equations; lia).
    rewrite (Z.mod_small (n / 128)) by (Z.to_euclidean_division_equations; lia). done. }
  assert (n / 16384 =? 0 = false) as -> by (Z.to_euclidean_division_equations; lia).
  assert (n / 2097152 =? 0 = true) as -> by (Z.to_euclidean_division_equations; lia).
  rewrite (Z.mod_small (n / 16384)) by (Z.to_euclidean_division_equations; lia). done.
Qed.
(** The same loop, its three turns unrolled. *)
Definition read_forms (l : list Z) : list Z * result SvmError Z :=
  match l with
  | [] => ([], Err EndsInLength)
  | b0 :: l1 =>
      if b0 <? 128 then (l1, Ok b0)
      else match l1 with
      | [] => ([], Err EndsInLength)
      | b1 :: l2 =>
          let v := b0 mod 128 + b1 mod 128 * 128 in
          if b1 <? 128 then (l2, if b1 =? 0 then Err NotShortest else Ok v)
          else match l2 with
          | [] => ([], Err EndsInLength)
          | b2 :: l3 =>
              let v := v + b2 mod 128 * 16384 in
              if b2 <? 128
              then (l3, if b2 =? 0 then Err NotShortest
                        else if v <=? 65535 then Ok v else Err LengthPast16)
              else (l3, Err LengthPast16)
          end
      end
  end.

Lemma read_compact_forms l : bytes l -> read_compact_u16 l = read_forms l.
Proof.
  intros Hl. unfold read_compact_u16. cbn [read_compact_loop].
  unfold mbind, stM_bind, byte_or, act, throw, mret, stM_ret, read_forms.
  assert (forall b, 0 <= b < 256 -> 0 <= b mod 128 < 128) as Hm by (intros; apply Z.mod_pos_bound; lia).
  destruct l as [|b0 l]; [done|]. apply Forall_cons in Hl as [Hb0 Hl].
  rewrite land127, (byte_high b0 Hb0), Z.shiftl_0_r, Z.lor_0_l. pose proof (Hm b0 Hb0).
  destruct (Z.ltb_spec b0 128).
  { cbn [Z.ltb Z.compare andb]. rewrite Z.mod_small by lia. by destruct (Z.leb_spec b0 65535); [|lia]. }
  destruct l as [|b1 l]; [done|]. apply Forall_cons in Hl as [Hb1 Hl]. pose proof (Hm b1 Hb1).
  rewrite land127, (byte_high b1 Hb1). change (7 * (0 + 1)) with 7.
  rewrite (lor_shift (b0 mod 128) (b1 mod 128) 7) by lia. change (2 ^ 7) with 128.
  destruct (Z.ltb_spec b1 128).
  { change (0 <? 0 + 1) with true. cbn [andb]. destruct (Z.eqb_spec b1 0); [done|].
    by destruct (Z.leb_spec (b0 mod 128 + b1 mod 128 * 128) 65535); [|lia]. }
  destruct l as [|b2 l]; [done|]. apply Forall_cons in Hl as [Hb2 Hl]. pose proof (Hm b2 Hb2).
  rewrite land127, (byte_high b2 Hb2). change (7 * (0 + 1 + 1)) with 14.
  rewrite (lor_shift (b0 mod 128 + b1 mod 128 * 128) (b2 mod 128) 14) by lia. change (2 ^ 14) with 16384.
  destruct (Z.ltb_spec b2 128); [|done].
  change (0 <? 0 + 1 + 1) with true. cbn [andb]. destruct (b2 =? 0); [done|]. by destruct (_ <=? _).
Qed.

(** A length is read from its one form, and from nothing else. *)
Lemma reads_compact : reads read_compact_u16 (fun n => 0 <= n <= 65535) compact_u16.
Proof.
  intros l rest n Hl. rewrite read_compact_forms by done. split.
  - unfold read_forms. intros E.
    destruct l as [|b0 l]; [done|]. apply Forall_cons in Hl as [Hb0 Hl].
    destruct (Z.ltb_spec b0 128).
    { injection E as <- <-. split; [lia|]. rewrite compact_forms by lia.
      by destruct (Z.ltb_spec b0 128); [|lia]. }
    destruct l as [|b1 l]; [done|]. apply Forall_cons in Hl as [Hb1 Hl].
    destruct (Z.ltb_spec b1 128).
    { destruct (Z.eqb_spec b1 0); [done|]. injection E as <- <-. rewrite (Z.mod_small b1) by lia.
      assert (0 <= b0 mod 128 < 128) by (apply Z.mod_pos_bound; lia). split; [lia|].
      rewrite compact_forms by lia. set (n := _ + _).
      destruct (Z.ltb_spec n 128); [lia|]. destruct (Z.ltb_spec n 16384); [|lia].
      cbn [app]. f_equal; [|f_equal]; unfold n; Z.to_euclidean_division_equations; lia. }
    destruct l as [|b2 l]; [done|]. apply Forall_cons in Hl as [Hb2 Hl].
    destruct (Z.ltb_spec b2 128); [|done]. destruct (Z.eqb_spec b2 0); [done|].
    rewrite (Z.mod_small b2) in E by lia.
    assert (0 <= b0 mod 128 < 128) by (apply Z.mod_pos_bound; lia).
    assert (0 <= b1 mod 128 < 128) by (apply Z.mod_pos_bound; lia).
    set (n' := _ + _ + _) in E. destruct (Z.leb_spec n' 65535); [|done]. injection E as <- <-.
    split; [lia|]. rewrite compact_forms by lia.
    destruct (Z.ltb_spec n' 128); [lia|]. destruct (Z.ltb_spec n' 16384); [lia|].
    cbn [app]. f_equal; [|f_equal; [|f_equal]]; unfold n'; Z.to_euclidean_division_equations; lia.
  - intros [Hn ->]. rewrite compact_forms in * by done. unfold read_forms.
    destruct (Z.ltb_spec n 128); cbn [app].
    { by destruct (Z.ltb_spec n 128); [|lia]. }
    assert (0 <= n mod 128 < 128) by (apply Z.mod_pos_bound; lia).
    assert (forall x, 0 <= x < 128 -> (x + 128) mod 128 = x) as Hx by (intros; Z.to_euclidean_division_equations; lia).
    destruct (Z.ltb_spec n 16384); cbn [app].
    { destruct (Z.ltb_spec (n mod 128 + 128) 128); [lia|].
      destruct (Z.ltb_spec (n / 128) 128); [|Z.to_euclidean_division_equations; lia].
      destruct (Z.eqb_spec (n / 128) 0); [Z.to_euclidean_division_equations; lia|].
      rewrite Hx by lia. do 2 f_equal. Z.to_euclidean_division_equations; lia. }
    assert (0 <= n / 128 mod 128 < 128) by (apply Z.mod_pos_bound; lia).
    destruct (Z.ltb_spec (n mod 128 + 128) 128); [lia|].
    destruct (Z.ltb_spec (n / 128 mod 128 + 128) 128); [lia|].
    destruct (Z.ltb_spec (n / 16384) 128); [|Z.to_euclidean_division_equations; lia].
    destruct (Z.eqb_spec (n / 16384) 0); [Z.to_euclidean_division_equations; lia|].
    rewrite !Hx by lia. assert (n mod 128 + n / 128 mod 128 * 128 + n / 16384 mod 128 * 16384 = n) as ->
      by (Z.to_euclidean_division_equations; lia).
    by destruct (Z.leb_spec n 65535); [|lia].
Qed.

(** ** Messages *)

Definition short {A} (l : list A) : Prop := Z.of_nat (length l) <= 65535.

Record wf_instruction (n : nat) (x : Compiled) : Prop := {
  wi_program : 0 <= c_program x < 256 /\ c_program x < Z.of_nat n;
  wi_accounts : bytes (c_accounts x) /\ Forall (fun a => a < Z.of_nat n) (c_accounts x);
  wi_data : bytes (c_data x);
  wi_short : short (c_accounts x) /\ short (c_data x);
}.

(** A message its bytes can say: the header fits the keys, and every index
    is within them. *)
Record wf_message (m : Message) : Prop := {
  wm_signers : 0 < signers m < 256;
  wm_readonly : 0 <= readonly_signed m < signers m;
  wm_unsigned : 0 <= readonly_unsigned m < 256;
  wm_fit : signers m + readonly_unsigned m <= Z.of_nat (length (msg_keys m));
  wm_keys : Forall (fun k => bytes k /\ length k = 32%nat) (msg_keys m);
  wm_blockhash : bytes (blockhash m) /\ length (blockhash m) = 32%nat;
  wm_instructions : Forall (wf_instruction (length (msg_keys m))) (instructions m);
  wm_short : short (msg_keys m) /\ short (instructions m);
}.

Lemma len_u16_short {A} (l : list A) : short l -> len_u16 l = Z.of_nat (length l).
Proof. unfold short, len_u16. intros. apply Z.mod_small. lia. Qed.

Lemma existsb_false_Forall {A} (f : A -> bool) l : existsb f l = false <-> Forall (fun a => f a = false) l.
Proof.
  induction l as [|a l IH]; cbn; [by split|]. by rewrite orb_false_iff, Forall_cons, IH.
Qed.

(** One step of a reader undone: what it read, what is left, and that what is
    left is bytes. *)
Ltac unread H reads :=
  rewrite bind_Ok in H; let l := fresh "l" in let a := fresh "a" in let P := fresh "P" in
  destruct H as (l & a & P & H); apply reads in P as [P ->]; [|done];
  match goal with Hb : bytes (_ ++ _) |- _ => apply bytes_app in Hb as [? Hb] end.

(** One step of a reader made: [a] is there to be read. *)
Ltac reread H reads a :=
  rewrite bind_Ok; eexists _, a; split;
  [refine (reads_run _ _ _ a _ reads H _)|apply bytes_app in H as [_ H]].

Lemma reads_instruction n :
  reads (read_instruction n) (wf_instruction n) serialize_instruction.
Proof.
  intros l rest x Hl. unfold read_instruction. split.
  - intros E. unread E (reads_byte EndsEarly). unread E reads_compact.
    unread E (reads_take EndsEarly (Z.to_nat a0)). unread E reads_compact.
    unread E (reads_take EndsEarly (Z.to_nat a2)).
    destruct (_ || _) eqn:Eg; [done|]. apply orb_false_iff in Eg as [Ep Ea]. injection E as <- <-.
    apply existsb_false_Forall in Ea. destruct P1 as [Hacc Hla], P3 as [Hdat Hld].
    split.
    + split; cbn; [lia| |done|unfold short; lia]. split; [done|].
      eapply Forall_impl; [exact Ea|]. cbn. lia.
    + unfold serialize_instruction, len_u16. cbn [c_program c_accounts c_data].
      rewrite Hla, Hld, !Z2Nat.id, !Z.mod_small by lia. by rewrite <- !app_assoc.
  - intros [[Hp [Ha Han] Hd [Hsa Hsd]] ->]. unfold serialize_instruction in *.
    rewrite !len_u16_short in Hl |- * by done.
    rewrite <- !app_assoc in Hl |- *.
    destruct x as [p acc dat]. cbn [c_program c_accounts c_data] in *. unfold short in *.
    reread Hl (reads_byte EndsEarly) p; [lia|]. reread Hl reads_compact (Z.of_nat (length acc)); [lia|].
    rewrite Nat2Z.id. reread Hl (reads_take EndsEarly (length acc)) acc; [done|].
    reread Hl reads_compact (Z.of_nat (length dat)); [lia|].
    rewrite Nat2Z.id. reread Hl (reads_take EndsEarly (length dat)) dat; [done|].
    assert ((Z.of_nat n <=? p) || existsb (fun a => Z.of_nat n <=? a) acc = false) as ->; [|done].
    apply orb_false_iff. split; [lia|]. apply existsb_false_Forall. eapply Forall_impl; [exact Han|]. cbn. lia.
Qed.

Lemma concat_bind {A} (l : list (list A)) : concat l = l ≫= (fun x => x).
Proof. induction l as [|x l IH]; [done|]. cbn. by rewrite IH. Qed.

(** The bytes of a message, field by field. *)
Lemma serialize_fields m :
  wf_message m ->
  serialize m = [V0] ++ [signers m] ++ [readonly_signed m] ++ [readonly_unsigned m]
    ++ compact_u16 (Z.of_nat (length (msg_keys m))) ++ (msg_keys m ≫= (fun x => x)) ++ blockhash m
    ++ compact_u16 (Z.of_nat (length (instructions m)))
    ++ (instructions m ≫= serialize_instruction) ++ compact_u16 0 ++ [].
Proof.
  intros []. destruct wm_short0. unfold serialize. rewrite !len_u16_short, concat_bind by done.
  by rewrite app_nil_r.
Qed.

Lemma header_fits s rs ru n :
  0 <= s < 256 -> 0 <= rs < 256 ->
  (s =? 0) || (n <? s) || (s <=? rs) || (n <? s + ru) = false <->
  0 < s /\ s <= n /\ rs < s /\ s + ru <= n.
Proof. intros. lia. Qed.

Lemma read_message_spec l rest m :
  bytes l -> read_message l = (rest, Ok m) <-> rest = [] /\ wf_message m /\ l = serialize m.
Proof.
  intros Hl. unfold read_message. split.
  - intros E. unread E (reads_byte EndsEarly). destruct (Z.eqb_spec a V0) as [->|]; [|done].
    cbn [negb] in E. unread E (reads_byte EndsEarly). unread E (reads_byte EndsEarly).
    unread E (reads_byte EndsEarly). unread E reads_compact.
    unread E (reads_times (Z.to_nat a2) _ _ _ (reads_take EndsEarly 32)).
    destruct (_ || _) eqn:Eh; [done|]. apply header_fits in Eh; [|lia..].
    unread E (reads_take EndsEarly 32). unread E reads_compact.
    unread E (reads_times (Z.to_nat a5) _ _ _ (reads_instruction (Z.to_nat a2))).
    unread E reads_compact. destruct (Z.eqb_spec a7 0) as [->|]; [|done]. cbn [negb] in E.
    cbn in E. destruct l; [|done]. injection E as <- <-.
    destruct P4 as [Hn Hk], P7 as [Hc Hi].
    assert (wf_message (mkMessage a a0 a1 a3 a4 a6)) as Hwf.
    { cbn beta in *. unfold Pubkey in *. split; cbn; unfold Pubkey; try lia; try done; [by rewrite Hn|]. unfold short. lia. }
    split; [done|]. split; [done|]. rewrite serialize_fields by done. cbn [signers readonly_signed
      readonly_unsigned msg_keys blockhash instructions]. unfold Pubkey. by rewrite Hn, Hc, !Z2Nat.id by lia.
  - intros (-> & Hwf & ->). pose proof Hwf as []. destruct wm_short0 as [Hsk Hsi]. unfold short in *.
    rewrite serialize_fields in Hl |- * by done.
    destruct m as [s rs ru ks bh ixs]. cbn [signers readonly_signed readonly_unsigned msg_keys
      blockhash instructions] in *.
    reread Hl (reads_byte EndsEarly) V0; [done|]. change (negb (V0 =? V0)) with false. cbn match.
    reread Hl (reads_byte EndsEarly) s; [lia|]. reread Hl (reads_byte EndsEarly) rs; [lia|].
    reread Hl (reads_byte EndsEarly) ru; [lia|].
    reread Hl reads_compact (Z.of_nat (length ks)); [lia|]. rewrite Nat2Z.id.
    reread Hl (reads_times (length ks) _ _ _ (reads_take EndsEarly 32)) ks; [done|].
    assert ((s =? 0) || (Z.of_nat (length ks) <? s) || (s <=? rs) ||
      (Z.of_nat (length ks) <? s + ru) = false) as -> by (apply header_fits; lia).
    reread Hl (reads_take EndsEarly 32) bh; [done|].
    reread Hl reads_compact (Z.of_nat (length ixs)); [lia|]. rewrite Nat2Z.id.
    reread Hl (reads_times (length ixs) _ _ _ (reads_instruction (length ks))) ixs; [done|].
    reread Hl reads_compact 0; [lia|]. done.
Qed.

(** C29: a message's bytes are read exactly when they are what that message is
    written as: [parse] gives back every message whose header fits its keys
    and whose indexes are within them, and accepts no second spelling -- of a
    length, of the lookup tables, or with bytes after it -- so what is signed
    says one thing. *)
Theorem parse_iff l m :
  bytes l -> parse l = Ok m <-> wf_message m /\ l = serialize m.
Proof.
  intros Hl. unfold parse. pose proof (fun rest => read_message_spec l rest m Hl) as Hs.
  destruct (read_message l) as [rest r] eqn:E. cbn [snd]. split.
  - intros ->. by apply (Hs rest).
  - intros Hm. assert ((rest, r) = ([], Ok m)) as [= _ ->] by (apply (Hs []); by split). done.
Qed.

Definition toy : Message :=
  mkMessage 1 0 1 [replicate 32 1; replicate 32 2] (replicate 32 3) [mkCompiled 1 [0] [7; 8]].
Lemma parse_iff_witness : parse (serialize toy) = Ok toy.
Proof.
  refine (proj2 (parse_iff (serialize toy) toy _) _).
  - vm_compute. repeat constructor; discriminate.
  - split; [|reflexivity]. split; cbn; repeat constructor; try lia; try done; discriminate.
Defined.

(** A transaction carries its message's bytes unchanged. *)
Lemma read_transaction_written sigs m :
  wf_message m -> bytes (serialize m) ->
  Forall (fun x => bytes x /\ length x = 64%nat) sigs -> Z.of_nat (length sigs) = signers m ->
  read_transaction (transaction sigs (serialize m)) = Ok (mkTransaction sigs m (serialize m)).
Proof.
  intros Hwf Hb Hs Hn. pose proof (wm_signers m Hwf) as Hsm.
  assert (short sigs) as Hsh by (unfold short; lia).
  assert (bytes (transaction sigs (serialize m))) as Hl.
  { unfold transaction. rewrite len_u16_short by done. apply bytes_app. split.
    - rewrite compact_forms by lia. destruct (Z.ltb_spec (Z.of_nat (length sigs)) 128); [repeat constructor; lia|].
      destruct (Z.ltb_spec (Z.of_nat (length sigs)) 16384); [|lia].
      repeat constructor; Z.to_euclidean_division_equations; lia.
    - apply bytes_app. split; [|done]. clear -Hs. induction Hs as [|x l [Hx _] _ IH]; [constructor|].
      cbn. by apply bytes_app. }
  unfold read_transaction. unfold transaction in *. rewrite len_u16_short, concat_bind in * by done.
  assert ((n ← read_compact_u16; times (Z.to_nat n) (take_bytes EndsInSignature 64))
    (compact_u16 (Z.of_nat (length sigs)) ++ (sigs ≫= (fun x => x)) ++ serialize m) =
    (serialize m, Ok sigs)) as ->.
  { reread Hl reads_compact (Z.of_nat (length sigs)); [lia|]. rewrite Nat2Z.id.
    refine (reads_run _ _ _ sigs _ (reads_times (length sigs) _ _ _ (reads_take EndsInSignature 64)) Hl _).
    done. }
  cbn [mbind result_bind]. assert (parse (serialize m) = Ok m) as ->.
  { unfold parse. by rewrite (proj2 (read_message_spec _ [] m Hb)). }
  cbn [mbind result_bind]. by assert (signers m =? Z.of_nat (length sigs) = true) as -> by lia.
Qed.

(** ** Compiling *)

Definition seen_keys (seen : Seen) : list Pubkey := (fun e => e.1.1) <$> seen.

Lemma note_keys k s w seen :
  seen_keys (note k s w seen) = if decide (k ∈ seen_keys seen) then seen_keys seen else seen_keys seen ++ [k].
Proof.
  induction seen as [|[[k' s'] w'] seen IH]; [done|]. cbn [note].
  case_bool_decide as E; cbn [seen_keys fmap list_fmap fst].
  - subst k'. rewrite decide_True; [done|]. by left.
  - fold (seen_keys (note k s w seen)) (seen_keys seen). rewrite IH.
    destruct (decide (k ∈ seen_keys seen)) as [Hi|Hi].
    + rewrite decide_True; [done|]. by right.
    + rewrite decide_False; [done|]. intros [Hk|Hk]%elem_of_cons; [congruence|done].
Qed.

Lemma note_elem k s w seen x : x ∈ seen_keys (note k s w seen) <-> x = k \/ x ∈ seen_keys seen.
Proof. rewrite note_keys. case_decide; set_solver. Qed.

Lemma note_NoDup k s w seen : NoDup (seen_keys seen) -> NoDup (seen_keys (note k s w seen)).
Proof.
  intros Hn. rewrite note_keys. case_decide as Hk; [done|]. apply NoDup_app.
  split; [done|]. split; [set_solver|]. apply NoDup_singleton.
Qed.

(** The payer stays the first, a writable signer. *)
Lemma note_payer payer k s w seen :
  exists seen', note k s w ((payer, true, true) :: seen) = (payer, true, true) :: seen'.
Proof. cbn [note]. case_bool_decide; [exists seen|exists (note k s w seen)]; done. Qed.

(** What the whole fold keeps, and what it has seen. *)
Definition good (payer : Pubkey) (seen : Seen) : Prop :=
  NoDup (seen_keys seen) /\ exists l, seen = (payer, true, true) :: l.

Lemma good_note payer k s w seen : good payer seen -> good payer (note k s w seen).
Proof.
  intros [Hn [l ->]]. split; [by apply note_NoDup|]. apply note_payer.
Qed.

Lemma note_metas_good payer ms seen :
  good payer seen -> good payer (fold_left note_meta ms seen).
Proof. revert seen. induction ms as [|x ms IH]; intros seen Hg; [done|]. by apply IH, good_note. Qed.

Lemma note_metas_elem ms seen x :
  x ∈ seen_keys (fold_left note_meta ms seen) <-> x ∈ (m_key <$> ms) \/ x ∈ seen_keys seen.
Proof.
  revert seen. induction ms as [|y ms IH]; intros seen; cbn [fold_left fmap list_fmap]; [set_solver|].
  rewrite IH. unfold note_meta at 1. rewrite note_elem. set_solver.
Qed.

Lemma compile_seen payer ixs seen :
  good payer seen ->
  good payer (fold_left note_instruction ixs seen) /\
  forall x, x ∈ seen_keys (fold_left note_instruction ixs seen) <->
    (exists i, i ∈ ixs /\ (x = i_program i \/ x ∈ (m_key <$> i_accounts i))) \/ x ∈ seen_keys seen.
Proof.
  revert seen. induction ixs as [|i ixs IH]; intros seen Hg; cbn [fold_left].
  { split; [done|]. set_solver. }
  destruct (IH (note_instruction seen i)) as [Hg' He].
  { by apply note_metas_good, good_note. }
  split; [done|]. intros x. rewrite He. unfold note_instruction. rewrite note_metas_elem, note_elem.
  setoid_rewrite elem_of_cons. naive_solver.
Qed.

Definition all_groups (seen : Seen) : list Pubkey :=
  group seen true true ++ group seen true false ++ group seen false true ++ group seen false false.

(** Every key seen is in exactly one group. *)
Lemma all_groups_perm seen : all_groups seen ≡ₚ seen_keys seen.
Proof.
  induction seen as [|[[k s] w] seen IH]; [done|].
  cbn [seen_keys fmap list_fmap fst]. fold (seen_keys seen). rewrite <- IH. unfold all_groups, group.
  destruct s, w; cbn [List.filter fst snd bool_decide decide_rel andb fmap list_fmap]; cbn; solve_Permutation.
Qed.

Lemma find_key_Some k l : k ∈ l -> exists i, find_key k l = Some i /\ l !! i = Some k.
Proof.
  induction l as [|x l IH]; [by intros ?%elem_of_nil|]. intros Hk. cbn [find_key]. case_bool_decide as E.
  - exists 0%nat. by subst x.
  - apply elem_of_cons in Hk as [->|Hk]; [done|]. destruct (IH Hk) as (i & -> & Hi). by exists (S i).
Qed.

(** The index of a key finds it again. *)
Lemma index_key k l :
  k ∈ l -> (length l <= 255)%nat -> nth (Z.to_nat (index l k)) l [] = k /\ (0 <= index l k < 256).
Proof.
  intros Hk Hl. destruct (find_key_Some k l Hk) as (i & E & Hi). pose proof (lookup_lt_Some _ _ _ Hi).
  unfold index. rewrite E. cbn [fmap option_fmap option_map default]. rewrite Z.mod_small by lia.
  unfold Datatypes.id. split; [|lia]. rewrite Nat2Z.id, nth_lookup, Hi. done.
Qed.

Lemma count_Ok n z : count n = Ok z -> (n <= 255)%nat /\ z = Z.of_nat n.
Proof. unfold count. case_decide; [|done]. by intros [= <-]. Qed.

(** A compiled message: its keys, each once, the payer first, and each
    instruction's keys found by their indexes. *)
Lemma compile_spec payer ixs bh m :
  compile payer ixs bh = Ok m ->
  let ks := msg_keys m in
  NoDup ks /\ (length ks <= 255)%nat /\ hd_error ks = Some payer /\ blockhash m = bh /\
  instructions m = compile_instruction ks <$> ixs /\
  (forall i, i ∈ ixs -> i_program i ∈ ks /\ Forall (fun x => m_key x ∈ ks) (i_accounts i)).
Proof.
  unfold compile. set (seen := fold_left note_instruction ixs [(payer, true, true)]).
  destruct (compile_seen payer ixs [(payer, true, true)]) as [[Hn [l Hl]] He].
  { split; [apply NoDup_singleton|by exists []]. }
  fold seen in Hn, Hl, He.
  destruct (count (length (group seen true true) + length (group seen true false))) as [h0|]; [|done].
  cbn [mbind result_bind].
  destruct (count (length (group seen true false))) as [h1|]; [|done]. cbn [mbind result_bind].
  destruct (count (length (group seen false false))) as [h2|]; [|done]. cbn [mbind result_bind].
  change (group seen true true ++ group seen true false ++ group seen false true ++ group seen false false)
    with (all_groups seen).
  destruct (count (length (all_groups seen))) as [h3|] eqn:E3; [|done]. cbn [mbind result_bind].
  intros [= <-]. cbn [msg_keys blockhash instructions]. apply count_Ok in E3 as [E3 _].
  pose proof (all_groups_perm seen) as Hp. split_and!; try done.
  - by rewrite Hp.
  - unfold all_groups. rewrite Hl. done.
  - intros i Hi. rewrite Forall_forall. setoid_rewrite Hp. setoid_rewrite He. split.
    + left. exists i. by split; [|left].
    + intros x Hx. left. exists i. split; [done|]. right. by apply list_elem_of_fmap_2.
Qed.

(** ** What agentd hands to be signed *)

Lemma guard_ok_Ok b e u : guard_ok b e = Ok u <-> b = true.
Proof. unfold guard_ok. destruct b, u; done. Qed.
Lemma ok_or_Ok {E A} (e : E) (o : option A) a : ok_or e o = Ok a <-> o = Some a.
Proof. destruct o; cbn; split; congruence. Qed.

Lemma tagged_Some tag n data rest :
  tagged tag n data = Some rest <-> data = tag :: rest /\ length rest = n.
Proof.
  unfold tagged. destruct data as [|t data]; [split; [done|by intros [[=] _]]|].
  destruct (_ && _) eqn:E.
  - apply andb_true_iff in E as [Et En]. apply Z.eqb_eq in Et as ->. apply bool_decide_eq_true in En.
    split; [by intros [= <-]|by intros [[= <-] _]].
  - split; [done|]. intros [[= -> ->] Hn]. rewrite Z.eqb_refl, bool_decide_true in E by done. done.
Qed.

Lemma program_of_id p : program_of (program_id p) = Some p.
Proof. destruct p; vm_compute; reflexivity. Qed.

Lemma check_instructions_spec m l u :
  check_instructions m l = Ok u ->
  Forall (fun x => is_signer m (c_program x) = false /\ Forall (fun a => a <> 0) (c_accounts x)) l.
Proof.
  induction l as [|x l IH]; [constructor|]. cbn [check_instructions].
  destruct (is_signer m (c_program x)) eqn:Es; [done|]. destruct (is_writable _ _); [done|]. cbn [orb].
  destruct (existsb _ _) eqn:Ee; [done|]. intros Hl. constructor; [|by apply IH]. split; [done|].
  apply existsb_false_Forall in Ee. eapply Forall_impl; [exact Ee|]. cbn. lia.
Qed.

(** One [?] or one guard of a reader's result undone. *)
Ltac undo H :=
  lazymatch type of H with
  | mbind ?f ?r = Ok _ =>
      let a := fresh "r" in let E := fresh "E" in
      destruct r as [a|] eqn:E; [|discriminate H]; cbn [mbind result_bind] in H; cbv beta zeta in H;
      lazymatch type of E with
      | guard_ok _ _ = _ => apply guard_ok_Ok in E
      | ok_or _ _ = _ => apply ok_or_Ok in E
      | _ => idtac
      end
  end.

#[local] Opaque known.

Section signed.
Context `{AddressOps}.

(** What reading a transfer back says of the message it is read from. *)
Lemma transfer_read_spec m t :
  transfer_read m = Ok t ->
  Forall (fun x => is_signer m (c_program x) = false /\ Forall (fun a => a <> 0) (c_accounts x))
    (instructions m) /\ signers m = 2 /\
  exists limit price rest s mi d,
    c_data (ix m 0) = SET_COMPUTE_UNIT_LIMIT :: limit /\ c_data (ix m 1) = SET_COMPUTE_UNIT_PRICE :: price /\
    c_data (ix m 2) = TRANSFER_CHECKED :: rest /\ c_accounts (ix m 2) = [s; mi; d; 1] /\
    program_of (program m 2) = Some (t_program t) /\
    t = mkTransfer (key m 0) (key m 1) (t_program t) (key m mi) (key m s) (key m d)
      (from_le (take 8 rest)) (nth 8 rest 0) (c_data (ix m 3)) (from_le limit) (from_le price) (blockhash m).
Proof.
  unfold transfer_read. cbv zeta. intros E. do 10 undo E.
  destruct (c_accounts (ix m 2)) as [|s [|mi [|d [|au [|? ?]]]]] eqn:Ea; try discriminate E.
  do 7 undo E. injection E as <-.
  apply tagged_Some in E4 as [E4 _], E6 as [E6 _], E9 as [E9 _].
  apply Z.eqb_eq in E10 as ->. apply andb_true_iff in E0 as [Es _]. apply Z.eqb_eq in Es.
  apply check_instructions_spec in E3. cbn [t_program].
  split; [exact E3|]. split; [exact Es|]. exists r3, r5, r8, s, mi, d. split_and!; first [assumption|reflexivity].
Qed.

(** The transfer an entry asks for. *)
Definition asked (t : Terms) (o : Pubkey) (am : Z) (text bh : list Z) : Transfer :=
  mkTransfer (tm_fee_payer t) o (tm_program t) (tm_mint t)
    (associated_token_account o (tm_mint t) (tm_program t))
    (associated_token_account (tm_pay_to t) (tm_mint t) (tm_program t))
    am (tm_decimals t) text COMPUTE_UNIT_LIMIT COMPUTE_UNIT_PRICE bh.

(** No instruction names the fee payer, as a program or as an account. *)
Definition fee_payer_unused (m : Message) (payer : Pubkey) : Prop :=
  Forall (fun x => key m (c_program x) <> payer /\ Forall (fun a => key m a <> payer) (c_accounts x))
    (instructions m).

Lemma compiled_key m ixs payer bh k :
  compile payer ixs bh = Ok m -> k ∈ msg_keys m -> key m (index (msg_keys m) k) = k.
Proof. intros E Hk. apply compile_spec in E as (_ & Hl & _). by apply index_key. Qed.

Lemma index_payer m ixs payer bh k :
  compile payer ixs bh = Ok m -> k ∈ msg_keys m -> key m (index (msg_keys m) k) = payer ->
  index (msg_keys m) k = 0.
Proof.
  intros E Hk Hp. rewrite (compiled_key _ _ _ _ _ E Hk) in Hp. subst k.
  apply compile_spec in E as (_ & _ & Hh & _). destruct (msg_keys m) as [|x ks]; [done|].
  injection Hh as ->. unfold index. cbn [find_key]. by rewrite bool_decide_true by done.
Qed.

Lemma payer_unused m ixs payer bh :
  compile payer ixs bh = Ok m ->
  Forall (fun x => is_signer m (c_program x) = false /\ Forall (fun a => a <> 0) (c_accounts x))
    (instructions m) -> 0 < signers m ->
  fee_payer_unused m payer.
Proof.
  intros E Hx Hs. unfold fee_payer_unused. rewrite Forall_forall in *. intros x Hin.
  specialize (Hx x Hin) as [Hp Ha]. pose proof (compile_spec _ _ _ _ E) as (_ & _ & _ & _ & Hi & Hk).
  rewrite Hi in Hin. apply list_elem_of_fmap in Hin as (i & -> & Hin). destruct (Hk i Hin) as [Hkp Hka].
  cbn [compile_instruction c_program c_accounts] in *. split.
  - intros Ep. rewrite (index_payer _ _ _ _ _ E Hkp Ep) in Hp. unfold is_signer in Hp. lia.
  - apply Forall_forall. intros a Hin' Ep. rewrite Forall_forall in Ha. rewrite Forall_forall in Hka.
    specialize (Ha a Hin'). apply Ha.
    apply list_elem_of_fmap in Hin' as (y & -> & Hy). by apply (index_payer _ _ _ _ _ E (Hka y Hy) Ep).
Qed.

(** C28: what is signed is what was asked.  The message handed to be signed for
    an entry's terms reads back as the transfer of exactly the amount, at the
    asset's decimals, of the asset's mint, from the wallet's token account to
    the payee's, with the entry's memo, on that blockhash and under the
    sponsor the entry names, who is not the wallet; and no instruction names
    the sponsor, so that its signature spends nothing of its own. *)
Theorem message_pays t o am text bh m :
  is_u64 am -> message t o am text bh = Ok m ->
  transfer_read m = Ok (asked t o am text bh) /\
  pays (asked t o am text bh) (tm_pay_to t) = true /\
  fee_payer_unused m (tm_fee_payer t) /\ tm_fee_payer t <> o.
Proof.
  intros Ham. unfold message. case_decide as Hfo; [done|]. cbv zeta. intros E. undo E. undo E.
  rename r into m', r0 into tr. injection E as ->.
  destruct (transfer_read m) as [t'|] eqn:Et; [|discriminate E1]. cbn [map_err] in E1. injection E1 as ->.
  destruct (transfer_read_spec m tr Et) as (Hx & Hs & limit & price & rest & s & mi & d & E1 & E2 & E3 & E4 & E5 & Etr).
  pose proof (compile_spec _ _ _ _ E0) as (_ & Hlen & Hhd & Hbh & Hi & Hin).
  set (src := associated_token_account o (tm_mint t) (tm_program t)) in *.
  set (dst := associated_token_account (tm_pay_to t) (tm_mint t) (tm_program t)) in *.
  destruct (Hin (transfer_checked (tm_program t) src (tm_mint t) dst o am (tm_decimals t))) as [Hkp Hka];
    [by right; right; left|].
  cbn [transfer_checked i_program i_accounts] in Hkp, Hka.
  rewrite !Forall_cons in Hka. destruct Hka as (Hk1 & Hk2 & Hk3 & Hk4 & _). cbn [m_key] in *.
  assert (program m 2 = program_id (tm_program t)) as Hp2.
  { unfold program, ix. rewrite Hi. cbn [fmap list_fmap nth compile_instruction c_program i_program transfer_checked].
    by apply (compiled_key _ _ _ _ _ E0). }
  rewrite Hp2, program_of_id in E5. injection E5 as Ep.
  assert (key m 0 = tm_fee_payer t) as Hk0.
  { unfold key. destruct (msg_keys m); [done|]. by injection Hhd. }
  assert (c_data (ix m 3) = text) as Hmemo by (unfold ix; by rewrite Hi).
  unfold ix in E1, E2, E3, E4. rewrite Hi in E1, E2, E3, E4.
  cbn [fmap list_fmap nth compile_instruction c_data c_accounts i_data i_accounts set_compute_unit_limit
    set_compute_unit_price transfer_checked memo m_key] in E1, E2, E3, E4.
  injection E1 as <-. injection E2 as <-. injection E3 as <-. injection E4 as <- <- <- Eo.
  rewrite <- Eo in Etr.
  rewrite !(compiled_key _ _ _ _ _ E0) in Etr by assumption.
  rewrite Hk0, Hmemo, Hbh, <- Ep in Etr.
  assert (from_le (to_le 8 am) = am) as Ham'.
  { apply from_to_le. unfold is_u64, u64_max in Ham. change (256 ^ Z.of_nat 8) with (2 ^ 64). lia. }
  cbn [to_le] in Ham'. cbn [take nth] in Etr. rewrite Ham' in Etr.
  assert (tr = asked t o am text bh) as -> by exact Etr.
  split; [done|]. split; [by apply bool_decide_eq_true|]. split; [|done].
  eapply payer_unused; [exact E0|exact Hx|lia].
Qed.
End signed.

Lemma message_pays_witness :
  exists m, transfer_read m (H := toy_ops) =
    Ok (@asked toy_ops toy_terms (replicate 32 9) 1000 [104; 105] (replicate 32 3)).
Proof.
  destruct (@message toy_ops toy_terms (replicate 32 9) 1000 [104; 105] (replicate 32 3)) as [m|] eqn:E.
  - exists m. refine (proj1 (@message_pays toy_ops _ _ _ _ _ m _ E)). split; [discriminate|discriminate].
  - exfalso. vm_compute in E. discriminate.
Defined.
End SvmProps.
