(* ===== verification/PayLedger.v ===== *)
(** * The payment ledger

    [crates/agentd/src/payments/ledger.rs]: one record per payment, kept in the
    store before the signed request leaves, so that a payment whose outcome is
    not known is never made again; what the records count against the caps and
    the allowances; and how old ones are forgotten.  An operation is one step:
    the source holds the ledger's lock over it. *)

From S2P Require Export Spending.

Module Pay.

Definition PREFIX : string := "payment/ledger/".
Definition KEEP_MS : Z := 25 * 3600 * 1000.
Definition DAY_MS : Z := 24 * 3600 * 1000.

(** ** Records *)

Inductive State : Type := Sending | Settled | Refused | Unknown | Unsent.
#[export] Instance state_eq_dec : EqDecision State.
Proof. solve_decision. Defined.

Definition as_str (s : State) : string :=
  match s with
  | Sending => "sending" | Settled => "settled" | Refused => "refused" | Unknown => "unknown"
  | Unsent => "unsent"
  end.
Definition state_from_value (v : Value) : option State :=
  s ← Json.as_str v;
  if decide (s = "sending") then Some Sending
  else if decide (s = "settled") then Some Settled
  else if decide (s = "refused") then Some Refused
  else if decide (s = "unknown") then Some Unknown
  else if decide (s = "unsent") then Some Unsent
  else None.
#[export] Instance state_codec : Codec State :=
  {| to_value s := VStr (as_str s); from_value := state_from_value |}.
#[export] Instance state_codec_ok : CodecOk State.
Proof. by intros []. Qed.

Record Record_ := mkRecord {
  request : string;
  attempt : Z;
  run : string;
  step : string;
  workflow : string;
  wallet : string;
  network : string;
  asset : string;
  asset_id : string;
  payee : string;
  pay_to : string;
  amount : string;
  nonce : string;
  valid_before : Z;
  url : string;
  state : State;
  transaction : option string;
  payer : option string;
  error_reason : option string;
  approved_by : option string;
  at_ms : Z;
  ended_ms : option Z;
  allowance : option string;
  charge : option string;
  currency : option string;
  ceiling : option string;
}.

Definition record_to_value (r : Record_) : Value :=
  jobj ([("request", to_value (request r)); ("attempt", to_value (attempt r));
         ("run", to_value (run r)); ("step", to_value (step r)); ("workflow", to_value (workflow r));
         ("wallet", to_value (wallet r)); ("network", to_value (network r));
         ("asset", to_value (asset r)); ("asset_id", to_value (asset_id r));
         ("payee", to_value (payee r)); ("pay_to", to_value (pay_to r));
         ("amount", to_value (amount r)); ("nonce", to_value (nonce r));
         ("valid_before", to_value (valid_before r)); ("url", to_value (url r));
         ("state", to_value (state r))]
    ++ opt_field "transaction" (transaction r) ++ opt_field "payer" (payer r)
    ++ opt_field "error_reason" (error_reason r) ++ opt_field "approved_by" (approved_by r)
    ++ [("at_ms", to_value (at_ms r))]
    ++ opt_field "ended_ms" (ended_ms r) ++ opt_field "allowance" (allowance r)
    ++ opt_field "charge" (charge r) ++ opt_field "currency" (currency r)
    ++ opt_field "ceiling" (ceiling r)).

Definition record_from_value : Value -> option Record_ := object (fun v =>
  request ← field "request" v; attempt ← field_u32 "attempt" v; run ← field "run" v;
  step ← field "step" v; workflow ← field "workflow" v; wallet ← field "wallet" v;
  network ← field "network" v; asset ← field "asset" v; asset_id ← field "asset_id" v;
  payee ← field "payee" v; pay_to ← field "pay_to" v; amount ← field "amount" v;
  nonce ← field "nonce" v; valid_before ← field "valid_before" v; url ← field "url" v;
  state ← field "state" v; transaction ← field_opt "transaction" v; payer ← field_opt "payer" v;
  error_reason ← field_opt "error_reason" v; approved_by ← field_opt "approved_by" v;
  at_ms ← field "at_ms" v; ended_ms ← field_opt "ended_ms" v; allowance ← field_opt "allowance" v;
  charge ← field_opt "charge" v; currency ← field_opt "currency" v; ceiling ← field_opt "ceiling" v;
  Some (mkRecord request attempt run step workflow wallet network asset asset_id payee pay_to
    amount nonce valid_before url state transaction payer error_reason approved_by at_ms ended_ms
    allowance charge currency ceiling)).

#[export] Instance record_codec : Codec Record_ :=
  {| to_value := record_to_value; from_value := record_from_value |}.

(** [{request}.{attempt}]. *)
Definition record_id (request : string) (attempt : Z) : string :=
  request +:+ "." +:+ text (decimal attempt).
Definition id (r : Record_) : string := record_id (request r) (attempt r).

(** An amount that does not read counts as all there is. *)
Definition atomic (r : Record_) : Z := default u128_max (parse_uint u128_max (chars (amount r))).

Definition u64_sat_mul (a b : Z) : Z := Z.min (a * b) u64_max.
Definition counts (r : Record_) (now : Z) : bool :=
  match state r with
  | Sending | Settled | Unknown => true
  | Refused => (now <? u64_sat_mul (valid_before r) 1000)%Z
  | Unsent => false
  end.
Definition final_ (r : Record_) : bool :=
  match state r with Sending | Settled | Unknown => true | _ => false end.

(** [Record] with another state, reason and end. *)
Definition set_outcome (s : State) (why : string) (ended : Z) (r : Record_) : Record_ :=
  mkRecord (request r) (attempt r) (run r) (step r) (workflow r) (wallet r) (network r) (asset r)
    (asset_id r) (payee r) (pay_to r) (amount r) (nonce r) (valid_before r) (url r) s
    (transaction r) (payer r) (Some why) (approved_by r) (at_ms r) (Some ended) (allowance r)
    (charge r) (currency r) (ceiling r).

(** ** The ledger *)

(** Why an operation of the ledger fails. *)
Inductive LedgerError : Type :=
  | LStore (e : StoreError)
  | LRead (id : string) (e : StoreError)
  | LUnreadable (id : string)
  | LKeep (e : StoreError)
  | LDegraded.

Record Ledger (S : Type) := mkLedger {
  durable : Durable S;
  records : gmap string Record_;
}.
Arguments mkLedger {S}.
Arguments durable {S}.
Arguments records {S}.

Record Spent := mkSpent { s_run : Z; s_day : Z; s_payee : Z }.
Definition no_spent : Spent := mkSpent 0 0 0.

Section ledger.
Context {S : Type} `{Store S} `{Clock} `{JsonLen}.
Implicit Types (l : Ledger S).

Abbreviation ledM := (stM (Ledger S) LedgerError).

Definition set_durable (d : Durable S) l : Ledger S := mkLedger d (records l).
Definition set_records (m : gmap string Record_) l : Ledger S := mkLedger (durable l) m.
Definition on_durable {A} (f : StoreError -> LedgerError) (m : stM (Durable S) StoreError A) : ledM A :=
  fun l => let '(d, r) := m (durable l) in (set_durable d l, map_err f r).

(** [put]: in the store first, which must keep it, then here. *)
Definition put (rec : Record_) : ledM unit :=
  _ ← on_durable LKeep (Durable.put Cred (PREFIX +:+ id rec) (to_value rec) None);
  degraded ← gets (fun l => d_degraded (durable l));
  if (degraded : bool) then throw LDegraded
  else modify (fun l => set_records (<[id rec := rec]> (records l)) l).

(** One listed key, read into the records gathered so far. *)
Definition read_record (ks : KeySeq) : ledM unit :=
  d ← gets durable;
  match parse_key (d_prefix d) (d_instance d) (ks_key ks) with
  | None => mret tt
  | Some (_, id') =>
      if negb (starts_with PREFIX id') then mret tt
      else
        env ← on_durable (LRead id') (get_entity Cred id');
        match env with
        | None => mret tt
        | Some env =>
            rec ← lift (ok_or (LUnreadable id') (from_value (A := Record_) (env_state env)));
            modify (fun l => set_records (<[id rec := rec]> (records l)) l)
        end
  end.

(** A record still sending when the process stopped: final, its outcome
    never known. *)
Definition make_unknown (made : list Record_) (r : Record_) : ledM (list Record_) :=
  now ← on_durable LKeep now_ms;
  let r := set_outcome Unknown "agentd stopped while the payment was out" now r in
  _ ← put r;
  mret (made ++ [r]).

Definition is_sending (r : Record_) : bool := bool_decide (state r = Sending).

(** [open], from a ledger of no record. *)
Definition open : ledM (list Record_) :=
  list ← on_durable LStore (list_prefix Cred PREFIX);
  _ ← for_each (fun _ ks => read_record ks) list tt;
  sending ← gets (fun l => List.filter is_sending (vals (records l)));
  for_each make_unknown sending [].

Definition get (request : string) (attempt : Z) l : option Record_ :=
  records l !! record_id request attempt.

Definition of_request (request' : string) l : list Record_ :=
  List.filter (fun r => bool_decide (request r = request')) (vals (records l)).

(** [max_by_key]: of equals the last. *)
Definition max_by_attempt (rs : list Record_) : option Record_ :=
  fold_left (fun best r =>
    match best with
    | Some b => if (attempt b <=? attempt r)%Z then Some r else best
    | None => Some r
    end) rs None.

Definition blocking (request : string) l : option Record_ :=
  max_by_attempt (List.filter final_ (of_request request l)).

Definition next_attempt (request : string) l : Z :=
  u32_wrap (default 0%Z (list_max (attempt <$> of_request request l)) + 1).

Definition spend (run' pay_to' : string) (since : Z) (s : Spent) (r : Record_) : Spent :=
  let a := atomic r in
  let run_total := if bool_decide (run r = run') then u128_sat_add (s_run s) a else s_run s in
  if (since <=? at_ms r)%Z
  then mkSpent run_total (u128_sat_add (s_day s) a)
         (if bool_decide (pay_to r = pay_to') then u128_sat_add (s_payee s) a else s_payee s)
  else mkSpent run_total (s_day s) (s_payee s).

Definition spent (asset' run' pay_to' : string) (now : Z) l : Spent :=
  fold_left (spend run' pay_to' (u64_sat_sub now DAY_MS))
    (List.filter (fun r => bool_decide (asset r = asset') && counts r now) (vals (records l))) no_spent.

Definition charged (r : Record_) : Z :=
  default u128_max (c ← charge r; ok (parse_amount c SCALE)).
Definition under (allowance' currency' : string) (since now : Z) (r : Record_) : bool :=
  (bool_decide (allowance r = Some allowance') || bool_decide (ceiling r = Some allowance'))
  && bool_decide (currency r = Some currency') && (since <=? at_ms r)%Z && counts r now.

Definition allowance_usage (allowance' currency' : string) (since now : Z) l : SUsage :=
  fold_left (fun u r => usage_add u (charged r))
    (List.filter (under allowance' currency' since now) (vals (records l))) no_usage.

Definition forgotten (now : Z) (live : string -> bool) (kept : Record_ -> bool) (r : Record_) : bool :=
  (u64_sat_add (at_ms r) KEEP_MS <? now)%Z && negb (bool_decide (state r = Sending))
  && negb (live (run r)) && negb (kept r).

Definition sweep_one (n : nat) (id' : string) : ledM nat :=
  r ← Prelude.attempt (on_durable LStore (delete_entity Cred (PREFIX +:+ id')));
  match r with
  | Ok _ => _ ← modify (fun l => set_records (delete id' (records l)) l); mret (Datatypes.S n)
  | Err _ => mret n
  end.

Definition sweep (now : Z) (live : string -> bool) (kept : Record_ -> bool) : ledM nat :=
  old ← gets (fun l => id <$> List.filter (forgotten now live kept) (vals (records l)));
  for_each sweep_one old O.
End ledger.
End Pay.
