(* ===== verification/PayLedgerProps.v ===== *)
(** * The payment ledger: never paid twice

    Theorems on [PayLedger]: a record round-trips through the store; a request
    whose payment went out, settled or is of unknown outcome stays blocked
    through a crash at any moment after it was recorded; and what the records
    count is their exact sum, saturated. *)

From S2P Require Export PayLedger Restore SpendingProps.

Module PayProps.
Import Pay.

(** ** Codec *)

(** A field of a written record, the fields before it left out or not. *)
Ltac written :=
  unfold record_to_value; rewrite get_jobj, ?obj_get_app, ?obj_get_opt_field; reflexivity.

Section fields.
Variable r : Record_.
Lemma get_request : Json.get "request" (record_to_value r) = Some (to_value (request r)).
Proof. written. Qed.
Lemma get_attempt : Json.get "attempt" (record_to_value r) = Some (to_value (attempt r)).
Proof. written. Qed.
Lemma get_run : Json.get "run" (record_to_value r) = Some (to_value (run r)).
Proof. written. Qed.
Lemma get_step : Json.get "step" (record_to_value r) = Some (to_value (step r)).
Proof. written. Qed.
Lemma get_workflow : Json.get "workflow" (record_to_value r) = Some (to_value (workflow r)).
Proof. written. Qed.
Lemma get_wallet : Json.get "wallet" (record_to_value r) = Some (to_value (wallet r)).
Proof. written. Qed.
Lemma get_network : Json.get "network" (record_to_value r) = Some (to_value (network r)).
Proof. written. Qed.
Lemma get_asset : Json.get "asset" (record_to_value r) = Some (to_value (asset r)).
Proof. written. Qed.
Lemma get_asset_id : Json.get "asset_id" (record_to_value r) = Some (to_value (asset_id r)).
Proof. written. Qed.
Lemma get_payee : Json.get "payee" (record_to_value r) = Some (to_value (payee r)).
Proof. written. Qed.
Lemma get_pay_to : Json.get "pay_to" (record_to_value r) = Some (to_value (pay_to r)).
Proof. written. Qed.
Lemma get_amount : Json.get "amount" (record_to_value r) = Some (to_value (amount r)).
Proof. written. Qed.
Lemma get_nonce : Json.get "nonce" (record_to_value r) = Some (to_value (nonce r)).
Proof. written. Qed.
Lemma get_valid_before : Json.get "valid_before" (record_to_value r) = Some (to_value (valid_before r)).
Proof. written. Qed.
Lemma get_url : Json.get "url" (record_to_value r) = Some (to_value (url r)).
Proof. written. Qed.
Lemma get_state : Json.get "state" (record_to_value r) = Some (to_value (state r)).
Proof. written. Qed.
Lemma get_at_ms : Json.get "at_ms" (record_to_value r) = Some (to_value (at_ms r)).
Proof. written. Qed.
Lemma get_transaction : Json.get "transaction" (record_to_value r) = to_value <$> transaction r.
Proof. unfold record_to_value. destruct (transaction r); written. Qed.
Lemma get_payer : Json.get "payer" (record_to_value r) = to_value <$> payer r.
Proof. unfold record_to_value. destruct (payer r); written. Qed.
Lemma get_error_reason : Json.get "error_reason" (record_to_value r) = to_value <$> error_reason r.
Proof. unfold record_to_value. destruct (error_reason r); written. Qed.
Lemma get_approved_by : Json.get "approved_by" (record_to_value r) = to_value <$> approved_by r.
Proof. unfold record_to_value. destruct (approved_by r); written. Qed.
Lemma get_ended_ms : Json.get "ended_ms" (record_to_value r) = to_value <$> ended_ms r.
Proof. unfold record_to_value. destruct (ended_ms r); written. Qed.
Lemma get_allowance : Json.get "allowance" (record_to_value r) = to_value <$> allowance r.
Proof. unfold record_to_value. destruct (allowance r); written. Qed.
Lemma get_charge : Json.get "charge" (record_to_value r) = to_value <$> charge r.
Proof. unfold record_to_value. destruct (charge r); written. Qed.
Lemma get_currency : Json.get "currency" (record_to_value r) = to_value <$> currency r.
Proof. unfold record_to_value. destruct (currency r); written. Qed.
Lemma get_ceiling : Json.get "ceiling" (record_to_value r) = to_value <$> ceiling r.
Proof. unfold record_to_value. destruct (ceiling r); written. Qed.
End fields.

Lemma record_round_trip (r : Record_) :
  (attempt r <= u32_max)%Z -> from_value (to_value r) = Some r.
Proof.
  intros Ha. cbn [from_value to_value record_codec]. unfold record_from_value.
  change (object ?f (record_to_value r)) with (f (record_to_value r)). cbn beta. unfold field_u32.
  rewrite (field_written _ _ _ (get_request r)). cbn [mbind option_bind].
  rewrite (field_written _ _ _ (get_attempt r)). cbn [mbind option_bind].
  assert ((attempt r <=? u32_max)%Z = true) as -> by lia. cbn [mbind option_bind].
  rewrite (field_written _ _ _ (get_run r)). cbn [mbind option_bind].
  rewrite (field_written _ _ _ (get_step r)). cbn [mbind option_bind].
  rewrite (field_written _ _ _ (get_workflow r)). cbn [mbind option_bind].
  rewrite (field_written _ _ _ (get_wallet r)). cbn [mbind option_bind].
  rewrite (field_written _ _ _ (get_network r)). cbn [mbind option_bind].
  rewrite (field_written _ _ _ (get_asset r)). cbn [mbind option_bind].
  rewrite (field_written _ _ _ (get_asset_id r)). cbn [mbind option_bind].
  rewrite (field_written _ _ _ (get_payee r)). cbn [mbind option_bind].
  rewrite (field_written _ _ _ (get_pay_to r)). cbn [mbind option_bind].
  rewrite (field_written _ _ _ (get_amount r)). cbn [mbind option_bind].
  rewrite (field_written _ _ _ (get_nonce r)). cbn [mbind option_bind].
  rewrite (field_written _ _ _ (get_valid_before r)). cbn [mbind option_bind].
  rewrite (field_written _ _ _ (get_url r)). cbn [mbind option_bind].
  rewrite (field_written _ _ _ (get_state r)). cbn [mbind option_bind].
  rewrite (field_opt_written _ _ _ (get_transaction r)). cbn [mbind option_bind].
  rewrite (field_opt_written _ _ _ (get_payer r)). cbn [mbind option_bind].
  rewrite (field_opt_written _ _ _ (get_error_reason r)). cbn [mbind option_bind].
  rewrite (field_opt_written _ _ _ (get_approved_by r)). cbn [mbind option_bind].
  rewrite (field_written _ _ _ (get_at_ms r)). cbn [mbind option_bind].
  rewrite (field_opt_written _ _ _ (get_ended_ms r)). cbn [mbind option_bind].
  rewrite (field_opt_written _ _ _ (get_allowance r)). cbn [mbind option_bind].
  rewrite (field_opt_written _ _ _ (get_charge r)). cbn [mbind option_bind].
  rewrite (field_opt_written _ _ _ (get_currency r)). cbn [mbind option_bind].
  rewrite (field_opt_written _ _ _ (get_ceiling r)). cbn [mbind option_bind].
  by destruct r.
Qed.

(** What reads back is within a [u32]. *)
Lemma record_read_bound v r : from_value v = Some r -> (attempt r <= u32_max)%Z.
Proof.
  cbn [from_value record_codec]. unfold record_from_value, object, field_u32. destruct v; try done.
  intros E. repeat (apply bind_Some in E as (? & ? & E)). injection E as <-. cbn.
  match goal with E : _ ≫= _ = Some ?a |- (?a <= _)%Z => apply bind_Some in E as (n & _ & E) end.
  destruct (Z.leb_spec n u32_max); [by simplify_eq|done].
Qed.

(** ** What blocks a request *)

Lemma max_by_attempt_spec rs :
  match max_by_attempt rs with
  | Some b => b ∈ rs /\ forall r, r ∈ rs -> (attempt r <= attempt b)%Z
  | None => rs = []
  end.
Proof.
  unfold max_by_attempt.
  assert (forall l best, match fold_left (fun best r => match best with
      | Some b => if (attempt b <=? attempt r)%Z then Some r else best
      | None => Some r end) l best with
    | Some b => (b ∈ l \/ best = Some b) /\ (forall r, r ∈ l \/ best = Some r -> (attempt r <= attempt b)%Z)
    | None => l = [] /\ best = None
    end) as Hgen.
  { induction l as [|x l IH]; intros best; cbn [fold_left].
    - destruct best as [b|]; [|done]. split; [by right|]. intros r [?%elem_of_nil|[= ->]]; [done|lia].
    - match goal with |- context [fold_left ?f l ?b] => specialize (IH b); destruct (fold_left f l b) as [b'|] end.
      + destruct IH as [Hin Hmax]. destruct best as [b|].
        * destruct (Z.leb_spec (attempt b) (attempt x)) as [Hle|Hlt].
          -- split; [destruct Hin as [?|[= ->]]; left; set_solver|].
             assert (attempt x <= attempt b')%Z by (apply Hmax; by right).
             intros r [[->|Hr]%elem_of_cons|[= <-]]; [done|apply Hmax; by left|lia].
          -- split; [destruct Hin as [?|[= ->]]; [left; set_solver|by right]|].
             assert (attempt b <= attempt b')%Z by (apply Hmax; by right).
             intros r [[->|Hr]%elem_of_cons|[= <-]]; [lia|apply Hmax; by left|done].
        * split; [destruct Hin as [?|[= ->]]; left; set_solver|].
          intros r [[->|Hr]%elem_of_cons|[=]]; [apply Hmax; by right|apply Hmax; by left].
      + destruct IH as [_ IH]. destruct best as [b|]; [by destruct (_ <=? _)%Z|done]. }
  specialize (Hgen rs None). destruct (fold_left _ rs None) as [b|].
  - destruct Hgen as [[Hb|[=]] Hm]. split; [done|]. intros r Hr. apply Hm. by left.
  - by destruct Hgen.
Qed.

Section ledger.
Context {S : Type} `{StoreOk S} `{Clock} `{JsonLen}.
Implicit Types (l : Ledger S).

Lemma elem_of_request req l r : r ∈ of_request req l <-> request r = req /\ exists k, records l !! k = Some r.
Proof. unfold of_request. rewrite elem_of_bfilter, bool_decide_eq_true, elem_of_vals. tauto. Qed.

(** [blocking]: a final record of the request, of the latest such attempt. *)
Lemma blocking_spec req l :
  match blocking req l with
  | Some b => request b = req /\ final_ b = true /\ (exists k, records l !! k = Some b) /\
      forall k r, records l !! k = Some r -> request r = req -> final_ r = true -> (attempt r <= attempt b)%Z
  | None => forall k r, records l !! k = Some r -> request r = req -> final_ r = false
  end.
Proof.
  unfold blocking. pose proof (max_by_attempt_spec (List.filter final_ (of_request req l))) as Hm.
  destruct (max_by_attempt _) as [b|].
  - destruct Hm as [Hb Hmax]. apply elem_of_bfilter in Hb as [Hb Hf]. apply elem_of_request in Hb as [? ?].
    split_and!; try done. intros k r Hr Hreq Hfin. apply Hmax, elem_of_bfilter.
    split; [|done]. apply elem_of_request. by split; [|exists k].
  - intros k r Hr Hreq. destruct (final_ r) eqn:Ef; [|done].
    assert (r ∈ List.filter final_ (of_request req l)) as Hin; [|rewrite Hm in Hin; by apply elem_of_nil in Hin].
    apply elem_of_bfilter. split; [|done]. apply elem_of_request. by split; [|exists k].
Qed.

(** A new attempt's number is past every one recorded. *)
Lemma next_attempt_fresh req l k r :
  records l !! k = Some r -> request r = req ->
  (forall k r, records l !! k = Some r -> (0 <= attempt r < u32_max)%Z) ->
  (attempt r < next_attempt req l)%Z.
Proof.
  intros Hr Hreq Hb. unfold next_attempt.
  assert (attempt r ∈ (attempt <$> of_request req l)) as Hin.
  { apply list_elem_of_fmap_2, elem_of_request. by split; [|exists k]. }
  destruct (list_max (attempt <$> of_request req l)) as [m|] eqn:Em.
  2: { apply list_max_None in Em. rewrite Em in Hin. by apply elem_of_nil in Hin. }
  apply list_max_spec in Em as [Hm Hmax]. specialize (Hmax _ Hin). cbn [default].
  apply list_elem_of_fmap in Hm as (x & -> & Hx). apply elem_of_request in Hx as [_ [k' Hk']].
  specialize (Hb _ _ Hk'). unfold u32_wrap, u32_max in *. rewrite Z.mod_small by (unfold Datatypes.id; lia).
  unfold Datatypes.id. lia.
Qed.

(** ** Through the store *)

Definition STOPPED : string := "agentd stopped while the payment was out".

Lemma set_outcome_id st why t r : id (set_outcome st why t r) = id r.
Proof. done. Qed.

(** Keeping a record: what is written, and what is in memory after. *)
Lemma put_record_spec rec l :
  let '(l', r) := put rec l in
  static (durable l) (durable l') /\
  maybe_wrote (durable l) Cred (PREFIX +:+ id rec) None (to_value rec) (durable l') /\
  match r with
  | Ok _ => records l' = <[id rec := rec]> (records l) /\
      exists q ts, dview (durable l') = <[d_key (durable l) Cred (PREFIX +:+ id rec) :=
        (q, to_value (mkEnvelope "cred" (PREFIX +:+ id rec) q ts (d_instance (durable l)) None
          (to_value rec)))]> (dview (durable l))
  | Err _ => records l' = records l
  end.
Proof.
  unfold put, on_durable. run_st.
  pose proof (put_spec Cred (PREFIX +:+ id rec) (to_value rec) None (durable l)) as Hp.
  destruct (Durable.put _ _ _ _ _) as [d [q|e]]; destruct Hp as (Hs & Hm & Hp); cbn [map_err]; [|by split_and!].
  destruct Hp as [_ Hp]. cbn [durable set_durable].
  destruct (d_degraded d) eqn:Ed; [by split_and!|]. split_and!; try done. cbn.
  destruct Hp as [(_ & _ & ts & Hv)|[? _]]; [|congruence]. by exists q, ts.
Qed.

(** The record kept under an id, and that every one is under its own. *)
Definition kept l (i : string) (r : Record_) : Prop :=
  exists env, stored (durable l) Cred (PREFIX +:+ i) env /\ from_value (env_state env) = Some r.
Definition own_ids l : Prop := forall i r, kept l i r -> i = id r.

Lemma kept_quiet l l' i r : quiet (durable l) (durable l') -> kept l' i r <-> kept l i r.
Proof. intros Hq. unfold kept. by setoid_rewrite (stored_quiet _ _ _ _ _ Hq). Qed.

Lemma kept_fun l i r r' : kept l i r -> kept l i r' -> r = r'.
Proof.
  intros (e & He & Hr) (e' & He' & Hr'). rewrite (stored_fun _ _ _ _ _ He He') in Hr. congruence.
Qed.

(** What is kept after a record was written. *)
Lemma kept_written d d' rec q ts :
  static d d' -> (attempt rec <= u32_max)%Z ->
  dview d' = <[d_key d Cred (PREFIX +:+ id rec) := (q, to_value (mkEnvelope "cred" (PREFIX +:+ id rec) q ts
    (d_instance d) None (to_value rec)))]> (dview d) ->
  forall m m' i r, kept (mkLedger d' m') i r <->
    if decide (i = id rec) then r = rec else kept (mkLedger d m) i r.
Proof.
  intros Hs Ha Hv m m' i r. unfold kept, stored, live. cbn [durable].
  rewrite Hv, (d_key_static _ _ _ _ Hs). case_decide as Hi.
  - subst i. setoid_rewrite lookup_insert_eq. split.
    + intros (env & (q' & v & [Hq _] & Hf) & Hr). apply Some_inj, pair_equal_spec in Hq as [_ <-].
      rewrite (from_to_value (A := Envelope)) in Hf. injection Hf as <-. cbn [env_state] in Hr.
      rewrite record_round_trip in Hr by done. congruence.
    + intros ->. eexists. split; [exists q; eexists; split; [split; [done|]|apply from_to_value]|].
      * by rewrite value_tombstone_envelope.
      * by apply record_round_trip.
  - rewrite lookup_insert_ne; [done|]. intros E. apply d_key_inj, string_app_inj in E. done.
Qed.

Lemma kept_bound l i r : kept l i r -> (attempt r <= u32_max)%Z.
Proof. intros (env & _ & Hf). by eapply record_read_bound. Qed.

(** What is kept after a record was put, whether it was kept or not. *)
Lemma put_kept rec l :
  (attempt rec <= u32_max)%Z ->
  let '(l', r) := put rec l in
  let written := forall i x, kept l' i x <-> if decide (i = id rec) then x = rec else kept l i x in
  match r with
  | Ok _ => written /\ records l' = <[id rec := rec]> (records l)
  | Err _ => written \/ forall i x, kept l' i x <-> kept l i x
  end.
Proof.
  intros Ha. pose proof (put_record_spec rec l) as Hp. destruct (put rec l) as [l' r].
  destruct Hp as (Hs & Hm & Hp). destruct l as [d m], l' as [d' m']. cbn [durable] in *. cbv zeta.
  destruct r as [[]|e].
  - destruct Hp as [-> (q & ts & Hv)]. split; [|done]. intros i x. by apply (kept_written d d' rec q ts).
  - destruct Hm as [Hv|(q & ts & Hv)]; [right|left; intros i x; by apply (kept_written d d' rec q ts)].
    intros i x. unfold kept, stored. cbn [durable]. by rewrite Hv, (d_key_static _ _ _ _ Hs).
Qed.

Lemma put_own_ids rec l :
  own_ids l -> (attempt rec <= u32_max)%Z -> own_ids (put rec l).1.
Proof.
  intros Hown Ha. pose proof (put_kept rec l Ha) as Hp. destruct (put rec l) as [l' [[]|e]]; cbn in *;
    intros i x Hk; [destruct Hp as [Hp _]|destruct Hp as [Hp|Hp]]; apply Hp in Hk;
    try case_decide; [congruence|by apply Hown|congruence|by apply Hown|by apply Hown].
Qed.

(** ** Reading the ledger back *)

Lemma read_record_spec l0 l ks i :
  own_ids l0 -> quiet (durable l0) (durable l) -> ks_key ks = d_key (durable l0) Cred (PREFIX +:+ i) ->
  let '(l', r) := read_record ks l in
  quiet (durable l0) (durable l') /\
  match r with
  | Ok _ =>
      (exists r, kept l0 i r /\ records l' = <[i := r]> (records l)) \/
      ((forall r, ~ kept l0 i r) /\ records l' = records l)
  | Err _ => True
  end.
Proof.
  intros Hown Hq Hk. unfold read_record, on_durable. run_st. rewrite Hk.
  assert (parse_key (d_prefix (durable l)) (d_instance (durable l))
    (d_key (durable l0) Cred (PREFIX +:+ i)) = Some ("cred", PREFIX +:+ i)) as ->.
  { destruct Hq as [(-> & -> & _) _]. apply (parse_d_key (durable l0) Cred). }
  assert (starts_with PREFIX (PREFIX +:+ i) = true) as ->
    by (unfold starts_with; by rewrite strip_prefix_app).
  cbn [negb]. run_st. pose proof (get_stored Cred (PREFIX +:+ i) (durable l)) as Hg.
  destruct (get_entity Cred (PREFIX +:+ i) (durable l)) as [d [[env|]|e]]; cbn [map_err];
    destruct Hg as [Hqg Hg]; [| |split; [by etrans|done]]; setoid_rewrite (stored_quiet _ _ _ _ _ Hq) in Hg.
  - destruct (from_value (env_state env)) as [c|] eqn:Ec; cbn -[from_value]; split; try (by etrans); [|done].
    left. exists c.
    assert (kept l0 i c) as Hkept by (exists env; done). split; [done|]. by rewrite (Hown i c Hkept).
  - split; [by etrans|]. right. split; [|done]. intros r (env & Hst & _). by destruct (Hg env).
Qed.

(** The first half of [open]: the records in memory are those kept. *)
Definition mirrored l : Prop := forall i r, records l !! i = Some r <-> kept l i r.

Lemma read_records_spec l :
  own_ids l -> records l = ∅ ->
  let '(l', r) := (list ← on_durable LStore (list_prefix Cred PREFIX);
                   for_each (fun _ ks => read_record ks) list tt) l in
  quiet (durable l) (durable l') /\ match r with Ok _ => mirrored l' | Err _ => True end.
Proof.
  intros Hown He. unfold on_durable. run_st.
  pose proof (list_prefix_spec Cred PREFIX (durable l)) as Hl.
  destruct (list_prefix Cred PREFIX (durable l)) as [d1 [ks|e]]; cbn [map_err];
    destruct Hl as (Hq1 & _ & Hl); [|done]. destruct Hl as (_ & Hlive & Hkeys).
  assert (forall ys xs s, ks = xs ++ ys -> quiet (durable l) (durable s) ->
    (forall i r, records s !! i = Some r <-> kept l i r /\ d_key (durable l) Cred (PREFIX +:+ i) ∈ (ks_key <$> xs)) ->
    let '(l', r) := for_each (fun (_ : unit) ks => read_record ks) ys tt s in
    quiet (durable l) (durable l') /\
    match r with Ok _ => forall i r, records l' !! i = Some r <-> kept l i r | Err _ => True end) as Hgen.
  { induction ys as [|x ys IH]; intros xs s Heq Hq Hs.
    - split; [done|]. intros i r. rewrite Hs. rewrite app_nil_r in Heq. subst xs. split; [by intros []|].
      intros Hk. split; [done|]. destruct Hk as (env & (q & v & Hv & _) & _). apply Hlive. by exists q, v.
    - rewrite for_each_cons. destruct (Hkeys (ks_key x)) as [i Hid].
      { apply list_elem_of_fmap. exists x. split; [done|]. rewrite Heq. set_solver. }
      pose proof (read_record_spec l s x i Hown Hq Hid) as Hr.
      destruct (read_record x s) as [s2 [[]|e]]; destruct Hr as (Hq2 & Hr); [|done].
      apply (IH (xs ++ [x])); [by rewrite <- app_assoc|done|]. intros j r.
      rewrite fmap_app, elem_of_app. cbn. rewrite list_elem_of_singleton, Hid.
      assert (d_key (durable l) Cred (PREFIX +:+ j) = d_key (durable l) Cred (PREFIX +:+ i) <-> j = i) as ->.
      { split; [intros E; by apply d_key_inj, string_app_inj in E|by intros ->]. }
      destruct Hr as [(r0 & Hr0 & ->)|[Hn ->]].
      + destruct (decide (j = i)) as [->|Hne]; [rewrite lookup_insert_eq|rewrite lookup_insert_ne, Hs by done; tauto].
        split; [intros [= <-]; tauto|]. intros [Hk _]. f_equal. by eapply kept_fun.
      + rewrite Hs. split; [tauto|]. intros [Hk [| ->]]; [done|]. by destruct (Hn r). }
  pose proof (Hgen ks [] (set_durable d1 l) eq_refl Hq1) as Hfor.
  destruct (for_each _ ks tt _) as [l2 r]. destruct Hfor as [Hq2 Hr].
  { intros i r'. cbn. rewrite He, lookup_empty. split; [done|]. intros [_ Hin]. by apply elem_of_nil in Hin. }
  split; [done|]. destruct r as [[]|]; [|done]. intros i r. by rewrite Hr, (kept_quiet _ _ i r Hq2).
Qed.

(** ** Opening after a crash *)

(** What restarting makes of a record, and of all those kept. *)
Definition ended (r r' : Record_) : Prop :=
  r' = r \/ (state r = Sending /\ exists t, r' = set_outcome Unknown STOPPED t r).
Definition carried l l' : Prop := forall i r, kept l i r -> exists r', ended r r' /\ kept l' i r'.

#[export] Instance carried_preorder : PreOrder carried.
Proof.
  split.
  - intros l i r Hk. exists r. by split; [left|].
  - intros l1 l2 l3 H12 H23 i r Hk. destruct (H12 i r Hk) as (r2 & Hr2 & Hk2).
    destruct (H23 i r2 Hk2) as (r3 & Hr3 & Hk3). exists r3. split; [|done].
    destruct Hr2 as [->|[Hs [t ->]]]; [done|]. destruct Hr3 as [->|[[=] _]]. right. split; [done|]. by exists t.
Qed.

Lemma carried_quiet l l' : quiet (durable l) (durable l') -> carried l l'.
Proof. intros Hq i r Hk. exists r. split; [by left|]. by apply (kept_quiet _ _ i r Hq). Qed.

Lemma own_ids_quiet l l' : quiet (durable l) (durable l') -> own_ids l -> own_ids l'.
Proof. intros Hq Hown i r Hk. apply Hown. by apply (kept_quiet _ _ i r Hq). Qed.

Lemma make_unknown_spec made r l :
  own_ids l -> kept l (id r) r -> state r = Sending ->
  let '(l', res) := make_unknown made r l in
  own_ids l' /\ carried l l' /\
  match res with
  | Ok made' => exists t, let u := set_outcome Unknown STOPPED t r in
      made' = made ++ [u] /\ records l' = <[id r := u]> (records l) /\
      forall i x, kept l' i x <-> if decide (i = id r) then x = u else kept l i x
  | Err _ => True
  end.
Proof.
  intros Hown Hk Hs. unfold make_unknown, on_durable. run_st. unfold now_ms. run_st. cbn [map_err]. cbv iota.
  set (t := wall _). set (l1 := set_durable _ l). change (set_outcome Unknown _ t r) with (set_outcome Unknown STOPPED t r). set (u := set_outcome Unknown STOPPED t r).
  assert (quiet (durable l) (durable l1)) as Hq by done.
  assert (forall i x, kept l1 i x <-> kept l i x) as Hk1 by (intros i x; by apply kept_quiet).
  pose proof (put_kept u l1 (kept_bound _ _ _ Hk)) as Hp. pose proof (put_own_ids u l1) as Ho.
  destruct (put u l1) as [l2 res]. cbn [fst] in Ho. change (id u) with (id r) in *.
  specialize (Ho (own_ids_quiet _ _ Hq Hown) (kept_bound l _ r Hk)).
  assert (forall i x, kept l i x -> i = id r -> ended x u) as Hend.
  { intros i x Hx ->. rewrite (kept_fun _ _ _ _ Hx Hk). right. split; [done|]. by exists t. }
  assert ((forall i x, kept l2 i x <-> if decide (i = id r) then x = u else kept l1 i x) -> carried l l2) as Hcar.
  { intros Hw i x Hx. destruct (decide (i = id r)) as [->|Hne].
    - exists u. split; [by eapply Hend|]. apply Hw. by rewrite decide_True.
    - exists x. split; [by left|]. apply Hw. rewrite decide_False by done. by apply Hk1. }
  destruct res as [[]|e]; (split; [done|]).
  - destruct Hp as [Hw Hr]. split; [by apply Hcar|]. exists t. cbv zeta. split; [done|]. split; [done|].
    intros i x. rewrite Hw. case_decide; [done|apply Hk1].
  - split; [|done]. destruct Hp as [Hw|Hw]; [by apply Hcar|]. intros i x Hx. exists x. split; [by left|].
    by apply Hw, Hk1.
Qed.

Lemma make_all_unknown rs : forall made l,
  NoDup (id <$> rs) -> own_ids l -> mirrored l ->
  (forall r, r ∈ rs -> kept l (id r) r /\ state r = Sending) ->
  (forall i r, kept l i r -> state r = Sending -> r ∈ rs) ->
  let '(l', res) := for_each make_unknown rs made l in
  own_ids l' /\ carried l l' /\
  match res with
  | Ok made' => mirrored l' /\ (forall i r, kept l' i r -> state r <> Sending) /\
      exists new, made' = made ++ new /\
        Forall2 (fun r u => exists t, u = set_outcome Unknown STOPPED t r) rs new
  | Err _ => True
  end.
Proof.
  induction rs as [|r rs IH]; intros made l Hnd Hown Hm Hin Hall.
  - cbn. split_and!; try done. { intros i r Hk Hs. by apply Hall, elem_of_nil in Hk. }
    exists []. by rewrite app_nil_r.
  - rewrite for_each_cons. destruct (Hin r) as [Hk Hs]; [set_solver|].
    pose proof (make_unknown_spec made r l Hown Hk Hs) as Hstep.
    destruct (make_unknown made r l) as [l1 [made1|e]]; destruct Hstep as (Hown1 & Hc1 & Hstep); [|done].
    destruct Hstep as (t & -> & Hr1 & Hk1). cbn in Hnd. apply NoDup_cons in Hnd as [Hnin Hnd].
    specialize (IH (made ++ [set_outcome Unknown STOPPED t r]) l1 Hnd Hown1).
    destruct (for_each _ rs _ l1) as [l2 res]. destruct IH as (Hown2 & Hc2 & Hres).
    + intros i x. rewrite Hk1, Hr1. case_decide as Hi; [subst i; rewrite lookup_insert_eq|rewrite lookup_insert_ne by done; apply Hm].
      split; [by intros [= <-]|by intros ->].
    + intros x Hx. destruct (Hin x) as [Hkx Hsx]; [set_solver|]. split; [|done]. apply Hk1.
      rewrite decide_False; [done|]. intros E. apply Hnin. rewrite <- E. by apply list_elem_of_fmap_2.
    + intros i x Hx Hsx. apply Hk1 in Hx. case_decide as Hi; [by subst x|].
      specialize (Hall i x Hx Hsx). apply elem_of_cons in Hall as [->|]; [|done]. by destruct Hi; apply Hown.
    + split; [done|]. split; [by etrans|]. destruct res as [made'|]; [|done].
      destruct Hres as (? & ? & new & -> & Hf). split_and!; try done.
      exists (set_outcome Unknown STOPPED t r :: new). rewrite <- app_assoc. split; [done|].
      constructor; [by exists t|done].
Qed.

Lemma sending_of l : mirrored l -> own_ids l ->
  let rs := List.filter is_sending (vals (records l)) in
  NoDup (id <$> rs) /\ (forall r, r ∈ rs -> kept l (id r) r /\ state r = Sending) /\
  forall i r, kept l i r -> state r = Sending -> r ∈ rs.
Proof.
  intros Hm Hown rs.
  assert (forall p, p ∈ entries (records l) -> id p.2 = p.1) as Hid.
  { intros [i r] Hp. cbn. symmetry. by apply Hown, Hm, elem_of_entries. }
  assert (id <$> vals (records l) = keys (records l)) as Hk.
  { unfold vals, keys. rewrite <- list_fmap_compose. apply list_fmap_ext. intros n p Hp. cbn.
    apply Hid. by eapply list_elem_of_lookup_2. }
  split_and!.
  - apply (sublist_NoDup _ (id <$> vals (records l))); [rewrite Hk; apply NoDup_keys|].
    apply fmap_sublist. unfold rs. clear. generalize (vals (records l)). intros rs.
    induction rs as [|r rs IH]; cbn; [done|]. destruct (is_sending r); by constructor.
  - intros r [Hr Hs]%elem_of_bfilter. apply bool_decide_eq_true in Hs. split; [|done].
    apply elem_of_vals in Hr as [i Hi]. rewrite <- (Hown i r); by apply Hm.
  - intros i r Hr Hs. apply elem_of_bfilter. split; [|by apply bool_decide_eq_true].
    apply elem_of_vals. exists i. by apply Hm.
Qed.

(** [open]: whatever it returns, what is kept is what was, a record still
    sending perhaps ended; and when it returns a ledger, the records in memory
    are those kept, none is still sending, and it told which it ended. *)
Lemma ledger_open_spec l :
  own_ids l -> records l = ∅ ->
  let '(l', res) := open l in
  own_ids l' /\ carried l l' /\
  match res with
  | Ok made => mirrored l' /\ (forall i r, kept l' i r -> state r <> Sending) /\
      forall i r, kept l i r -> state r = Sending -> exists t, set_outcome Unknown STOPPED t r ∈ made
  | Err _ => True
  end.
Proof.
  intros Hown He. pose proof (read_records_spec l Hown He) as Hr.
  revert Hr. set (read := (list ← on_durable LStore (list_prefix Cred PREFIX);
    for_each (fun (_ : unit) ks => read_record ks) list tt) : stM (Ledger S) LedgerError unit). intros Hr.
  assert (open l = (_ ← read; sending ← gets (fun l => List.filter is_sending (vals (records l)));
    for_each make_unknown sending []) l) as ->.
  { unfold open, read, on_durable. run_st. by destruct (list_prefix Cred PREFIX (durable l)) as [d [ks|e]]. }
  unfold mbind at 1, stM_bind at 1. destruct (read l) as [l1 [[]|e]]; destruct Hr as [Hq Hm].
  2: { split; [by apply (own_ids_quiet l)|]. split; [by apply carried_quiet|done]. }
  unfold gets. unfold mbind, stM_bind. pose proof (own_ids_quiet _ _ Hq Hown) as Hown1.
  destruct (sending_of l1 Hm Hown1) as (Hnd & Hin & Hall).
  pose proof (make_all_unknown _ [] l1 Hnd Hown1 Hm Hin Hall) as Hmade.
  destruct (for_each _ _ [] l1) as [l2 res]. destruct Hmade as (Hown2 & Hc & Hres). split; [done|].
  split; [transitivity l1; [by apply carried_quiet|done]|]. destruct res as [made|e]; [|done].
  destruct Hres as (? & ? & new & -> & Hf). split_and!; try done. intros i r Hk Hs.
  assert (r ∈ List.filter is_sending (vals (records l1))) as Hx.
  { apply (Hall i); [|done]. by apply (kept_quiet _ _ i r Hq). }
  apply list_elem_of_lookup in Hx as [n Hn]. destruct (Forall2_lookup_l _ _ _ _ _ Hf Hn) as (u & Hu & t & ->).
  exists t. cbn. by eapply list_elem_of_lookup_2.
Qed.

(** The ledger a restarted process begins with: the same store, nothing read. *)
Definition reboot (p : Policy) (fresh : bool) (digest : gmap string string) l : Ledger S :=
  mkLedger (durable_new (d_store (durable l)) (d_prefix (durable l)) (d_instance (durable l)) p fresh digest) ∅.

(** What may happen to a ledger after the record [i] was kept: another record
    is put, whether that succeeds or fails, or the process stops and the next
    one opens the ledger, whether that succeeds or fails. *)
Inductive moved (i : string) : Ledger S -> Ledger S -> Prop :=
  | moved_put rec l : id rec <> i -> (attempt rec <= u32_max)%Z -> moved i l (put rec l).1
  | moved_restart p fresh digest l : moved i l (open (reboot p fresh digest l)).1.

Definition recorded rec l : Prop := exists r, ended rec r /\ kept l (id rec) r.

Lemma moved_recorded rec l l' :
  moved (id rec) l l' -> own_ids l /\ recorded rec l -> own_ids l' /\ recorded rec l'.
Proof.
  intros [other l0 Hne Ha|p fresh digest l0] [Hown (r & Hr & Hk)].
  - split; [by apply put_own_ids|]. pose proof (put_kept other l0 Ha) as Hp.
    destruct (put other l0) as [l1 [[]|e]]; cbn [fst]; exists r; (split; [done|]).
    + destruct Hp as [Hp _]. apply Hp. by rewrite decide_False.
    + destruct Hp as [Hp|Hp]; apply Hp; [by rewrite decide_False|done].
  - assert (own_ids (reboot p fresh digest l0)) as Ho by done.
    pose proof (ledger_open_spec (reboot p fresh digest l0) Ho eq_refl) as Hop.
    destruct (open (reboot p fresh digest l0)) as [l1 res]. cbn [fst]. destruct Hop as (Hown1 & Hc & _).
    split; [done|]. destruct (Hc (id rec) r Hk) as (r' & Hr' & Hk'). exists r'. split; [|done].
    destruct Hr as [->|[Hs [t ->]]]; [done|]. destruct Hr' as [->|[[=] _]]. right. split; [done|]. by exists t.
Qed.

Lemma recorded_put rec l l1 :
  own_ids l -> (attempt rec <= u32_max)%Z -> put rec l = (l1, Ok tt) -> own_ids l1 /\ recorded rec l1.
Proof.
  intros Hown Ha E. pose proof (put_own_ids rec l Hown Ha) as Ho. pose proof (put_kept rec l Ha) as Hp.
  rewrite E in *. split; [done|]. exists rec. split; [by left|]. destruct Hp as [Hp _]. apply Hp.
  by rewrite decide_True.
Qed.

(** C30: a payment is never made twice: once the record of an attempt that is
    out (or settled, or of unknown outcome) was put, then through any later
    puts of other records and any number of stops and restarts, failed openings
    included, a ledger that opens blocks the request, with an attempt at least
    as late that is no longer sending; and if that attempt was sending when
    this process began, [open] reports it. *)
Theorem never_paid_twice rec l l1 l2 p fresh digest l3 made :
  own_ids l -> (attempt rec <= u32_max)%Z -> final_ rec = true ->
  put rec l = (l1, Ok tt) -> rtc (moved (id rec)) l1 l2 ->
  open (reboot p fresh digest l2) = (l3, Ok made) ->
  (exists b, blocking (request rec) l3 = Some b /\ final_ b = true /\ state b <> Sending /\
    (attempt rec <= attempt b)%Z) /\
  (kept l2 (id rec) rec -> state rec = Sending -> exists t, set_outcome Unknown STOPPED t rec ∈ made).
Proof.
  intros Hown Ha Hfin Hput Hmoved Hopen.
  assert (own_ids l2 /\ recorded rec l2) as [Hown2 (r & Hr & Hk)].
  { pose proof (recorded_put _ _ _ Hown Ha Hput) as Hi. clear -Hi Hmoved.
    induction Hmoved as [|a b c Hm _ IH]; [done|]. by apply IH, (moved_recorded rec a). }
  pose proof (ledger_open_spec (reboot p fresh digest l2) Hown2 eq_refl) as Hop. rewrite Hopen in Hop.
  destruct Hop as (_ & Hc & Hmir & Hns & Hmade). destruct (Hc (id rec) r Hk) as (r' & Hr' & Hk').
  assert (request r' = request rec /\ attempt r' = attempt rec /\ final_ r' = true) as (Hreq & Hatt & Hf).
  { destruct Hr as [->|[? [t ->]]]; destruct Hr' as [->|[? [t' ->]]]; done. }
  split; [|intros Hk0 Hs; by apply (Hmade (id rec))].
  pose proof (blocking_spec (request rec) l3) as Hb. destruct (blocking (request rec) l3) as [b|].
  - destruct Hb as (_ & Hfb & [k Hkb] & Hmax). exists b. split_and!; try done.
    + apply (Hns k), Hmir, Hkb.
    + rewrite <- Hatt. apply (Hmax (id rec) r'); [by apply Hmir|done|done].
  - by rewrite (Hb (id rec) r') in Hf; [|apply Hmir|].
Qed.

(** ** What the records count *)

Lemma atomic_range r : (0 <= atomic r <= u128_max)%Z.
Proof.
  unfold atomic. destruct (parse_uint u128_max (chars (amount r))) as [v|] eqn:E; cbn; [|unfold u128_max; lia].
  apply parse_uint_range in E. lia.
Qed.

Definition total (p : Record_ -> bool) (rs : list Record_) : Z :=
  list_sum ((fun r => if p r then atomic r else 0%Z) <$> rs).

Lemma total_nonneg p rs : (0 <= total p rs)%Z.
Proof.
  apply list_sum_nonneg, Forall_fmap, Forall_true. intros r. cbn. destruct (p r); [apply atomic_range|lia].
Qed.
Lemma total_record_cons p r rs : total p (r :: rs) = ((if p r then atomic r else 0) + total p rs)%Z.
Proof. done. Qed.

(** A saturating sum of the records that pass a test. *)
Lemma sat_sum_total (p : Record_ -> bool) rs s0 :
  (0 <= s0 <= u128_max)%Z ->
  fold_left (fun s r => if p r then u128_sat_add s (atomic r) else s) rs s0 =
    Z.min (s0 + total p rs) u128_max.
Proof.
  revert s0. induction rs as [|r rs IH]; intros s0 Hs; [cbn; unfold total; cbn; lia|].
  cbn [fold_left]. rewrite total_record_cons. pose proof (atomic_range r). pose proof (total_nonneg p rs).
  destruct (p r); [|by rewrite IH]. rewrite IH; unfold u128_sat_add in *; lia.
Qed.

(** What the caps are held against is exact: for a run, for the day and for
    a payee of the day, [spent] is the sum of the records that count for it,
    saturated at the largest amount, each record taken once. *)
Theorem spent_exact asset' run' pay_to' now l :
  let counted r := bool_decide (asset r = asset') && counts r now in
  let today r := counted r && (u64_sat_sub now DAY_MS <=? at_ms r)%Z in
  let rs := vals (records l) in
  spent asset' run' pay_to' now l =
    mkSpent (Z.min (total (fun r => counted r && bool_decide (run r = run')) rs) u128_max)
      (Z.min (total today rs) u128_max)
      (Z.min (total (fun r => today r && bool_decide (pay_to r = pay_to')) rs) u128_max).
Proof.
  intros counted today rs. unfold spent. set (since := u64_sat_sub now DAY_MS) in *. fold counted. fold rs.
  assert (forall rs s, fold_left (spend run' pay_to' since) (List.filter counted rs) s =
    mkSpent
      (fold_left (fun s r => if counted r && bool_decide (run r = run') then u128_sat_add s (atomic r) else s) rs (s_run s))
      (fold_left (fun s r => if today r then u128_sat_add s (atomic r) else s) rs (s_day s))
      (fold_left (fun s r => if today r && bool_decide (pay_to r = pay_to') then u128_sat_add s (atomic r) else s)
        rs (s_payee s))) as ->.
  { clear. intros rs. induction rs as [|r rs IH]; intros s; [by destruct s|].
    cbn [List.filter fold_left]. subst today. cbn beta. destruct (counted r); cbn [andb]; [|apply IH].
    cbn [fold_left]. rewrite IH. clear IH. unfold spend.
    destruct (since <=? at_ms r)%Z, (bool_decide (run r = run')), (bool_decide (pay_to r = pay_to')); done. }
  cbn [s_run s_day s_payee no_spent]. by rewrite !sat_sum_total by (unfold u128_max; lia).
Qed.

(** What the ledger counts against an allowance is what the spending ledger
    asks of the other rail. *)
Lemma charged_nonneg r : (0 <= charged r)%Z.
Proof.
  unfold charged. destruct (charge r) as [c|]; cbn; [|unfold u128_max; lia].
  pose proof (c_amount_nonneg (mkCharge nil_str nil_str nil_str nil_str c Sent 0 None)) as Hc.
  unfold c_amount in Hc. cbn in Hc. by destruct (parse_amount c SCALE).
Qed.

Lemma allowance_usage_range al cur since now l :
  (0 <= Spending.spent (allowance_usage al cur since now l) <= u128_max)%Z /\
  (0 <= payments (allowance_usage al cur since now l) <= u32_max)%Z.
Proof.
  unfold allowance_usage. set (rs := List.filter _ _).
  assert (forall u, (0 <= Spending.spent u <= u128_max)%Z /\ (0 <= payments u <= u32_max)%Z ->
    let u' := fold_left (fun u r => usage_add u (charged r)) rs u in
    (0 <= Spending.spent u' <= u128_max)%Z /\ (0 <= payments u' <= u32_max)%Z) as Hgen.
  { induction rs as [|r rs' IH]; intros u Hu; [done|]. apply IH. cbn. unfold u128_sat_add, u32_sat_add.
    pose proof (charged_nonneg r). unfold u128_max, u32_max in *. lia. }
  apply Hgen. cbn. unfold u128_max, u32_max. lia.
Qed.

Lemma ledger_x402_ok (sp : Spending S) l :
  x402 sp = Some (fun al cur since now => allowance_usage al cur since now l) -> x402_ok sp.
Proof. intros E x Hx. rewrite E in Hx. injection Hx as <-. intros. apply allowance_usage_range. Qed.
End ledger.

(** ** A sample life *)

Import SpendingSample.

Definition order : Record_ :=
  mkRecord "3f9a" 1 "run-7" "pay" "buy" "main" "eip155:84532" "usdc" "0x036c" "acme" "0xbeef"
    "250000" "0x01" 1700000600 "https://api.example/x" Sending None None None None 1700000000000 None
    None None None None.
Definition first : Ledger MemoryStore :=
  mkLedger (durable_new memory_new "agentd" "house" policy_default false ∅) ∅.
Definition sent : Ledger MemoryStore := (put order first).1.
(** The process stops with the request out; the next one starts. *)
Definition next : Ledger MemoryStore := (open (reboot policy_default false ∅ sent)).1.

Lemma first_own_ids : own_ids first.
Proof.
  intros i r (env & (q & v & [Hv _] & _) & _). revert Hv.
  assert (dview (durable first) = ∅) as -> by (vm_compute; reflexivity). by rewrite lookup_empty.
Qed.

Lemma never_paid_twice_witness :
  (exists b, blocking "3f9a" next = Some b /\ final_ b = true /\ state b <> Sending /\ (1 <= attempt b)%Z) /\
  (kept sent "3f9a.1" order -> state order = Sending ->
    exists t, set_outcome Unknown STOPPED t order ∈ [set_outcome Unknown STOPPED 1700000000001 order]).
Proof.
  refine (never_paid_twice order first sent sent policy_default false ∅ next
    [set_outcome Unknown STOPPED 1700000000001 order] first_own_ids _ _ _ _ _).
  - done.
  - reflexivity.
  - vm_compute; reflexivity.
  - apply rtc_refl.
  - vm_compute; reflexivity.
Defined.
End PayProps.
