(* ===== verification/Webhooks.v ===== *)
(** * Webhook deliveries

    [crates/agentd/src/sec/stdwebhooks.rs] (Module [StdWebhooks]): the Standard
    Webhooks signature, made and verified; and the listener's half of
    [crates/agentd/src/runtime/mcp_events/hook.rs] (Module [Hook]): what
    [serve] answers to a request and which ones it hands to the loop. *)

From S2P Require Export Spending Sha256.

Module StdWebhooks.
Local Open Scope Z_scope.

Definition SECRET_PREFIX : string := "whsec_".
Definition TOLERANCE_S : Z := 300.
Definition MAX_SIGNATURES : nat := 8.

Inductive SecretError : Type :=
  | NoPrefix
  | NotBase64 (e : Base64Error)
  | KeyLength (n : nat).

(** [mint_secret], of the 32 random bytes. *)
Definition mint_secret (random : list Z) : string := SECRET_PREFIX +:+ text (std_pad random).

Definition decode_secret (secret : string) : result SecretError (list Z) :=
  match strip_prefix SECRET_PREFIX secret with
  | None => Err NoPrefix
  | Some b64 =>
      match std_decode (chars b64) with
      | Err e => Err (NotBase64 e)
      | Ok key =>
          if decide (24 <= length key <= 64)%nat then Ok key else Err (KeyLength (length key))
      end
  end.

(** [id.timestamp.body], in bytes. *)
Definition signed_content (id : string) (timestamp : Z) (body : list Z) : list Z :=
  Sha.ascii (id +:+ "." +:+ text (decimal timestamp) +:+ ".") ++ body.

Definition sign (key : list Z) (id : string) (timestamp : Z) (body : list Z) : string :=
  "v1," +:+ text (std_pad (Sha.hmac_sha256 key (signed_content id timestamp body))).

Inductive Reject : Type :=
  | Missing (header : string)
  | Timestamp
  | Stale
  | Signature.

Definition as_str (r : Reject) : string :=
  match r with
  | Missing _ => "missing_header" | Timestamp => "bad_timestamp" | Stale => "stale"
  | Signature => "bad_signature"
  end.

Record Signed := mkSigned { s_id : option string; s_timestamp : option string; s_signature : option string }.

(** The [v1,] values of the header, the first eight. *)
Definition offered (header : string) : list string :=
  take MAX_SIGNATURES (omap (fun s => strip_prefix "v1," (text s)) (split_char " "%char (chars header))).

(** One key: every offered value is compared. *)
Definition hit (want : list char) (sigs : list string) : bool :=
  fold_left (fun h sig => h || ct_eq (Sha.ascii sig) (code <$> want)) sigs false.

Fixpoint try_keys (i : nat) (content : list Z) (sigs : list string) (keys : list (list Z)) : result Reject nat :=
  match keys with
  | [] => Err Signature
  | key :: keys' =>
      if hit (std_pad (Sha.hmac_sha256 key content)) sigs then Ok i
      else try_keys (S i) content sigs keys'
  end.

Definition verify (signed : Signed) (body : list Z) (keys : list (list Z)) (now_s : Z) : result Reject nat :=
  match s_id signed with
  | None => Err (Missing "webhook-id")
  | Some id =>
      match s_timestamp signed with
      | None => Err (Missing "webhook-timestamp")
      | Some ts =>
          match s_signature signed with
          | None => Err (Missing "webhook-signature")
          | Some header =>
              match parse_u64 (trim (chars ts)) with
              | None => Err Timestamp
              | Some ts =>
                  if TOLERANCE_S <? Z.abs (ts - now_s) then Err Stale
                  else try_keys 0 (signed_content id ts body) (offered header) keys
              end
          end
      end
  end.

(** ** What verifies *)

Lemma ascii_bytes s : bytes (Sha.ascii s).
Proof. apply Forall_fmap, Forall_true. intros c. apply code_range. Qed.

Lemma codes_bytes l : bytes (code <$> l).
Proof. apply Forall_fmap, Forall_true. intros c. apply code_range. Qed.

Lemma hit_iff want sigs : hit want sigs = true <-> text want ∈ sigs.
Proof.
  unfold hit. assert (forall sigs h,
    fold_left (fun h sig => h || ct_eq (Sha.ascii sig) (code <$> want)) sigs h = true <->
    h = true \/ text want ∈ sigs) as Hgen; [|rewrite Hgen; split; [by intros [|]|by right]].
  clear sigs. induction sigs as [|s sigs IH]; intros h; cbn [fold_left].
  - split; [by left|]. intros [|Hin]; [done|by apply elem_of_nil in Hin].
  - rewrite IH, orb_true_iff, elem_of_cons, ct_eq_iff by (apply ascii_bytes || apply codes_bytes).
    assert (Sha.ascii s = code <$> want <-> text want = s) as ->; [|tauto].
    unfold Sha.ascii. split; [|intros <-; by rewrite chars_text].
    intros E. apply (list_fmap_eq_inj code) in E; [|intros ? ?; apply code_inj]. subst want. apply text_chars.
Qed.

Lemma try_keys_spec i content sigs keys :
  match try_keys i content sigs keys with
  | Ok n => exists j key, n = (i + j)%nat /\ keys !! j = Some key /\
      text (std_pad (Sha.hmac_sha256 key content)) ∈ sigs /\
      forall j' key', (j' < j)%nat -> keys !! j' = Some key' ->
        text (std_pad (Sha.hmac_sha256 key' content)) ∉ sigs
  | Err e => e = Signature /\
      forall key, key ∈ keys -> text (std_pad (Sha.hmac_sha256 key content)) ∉ sigs
  end.
Proof.
  revert i. induction keys as [|key keys IH]; intros i; cbn [try_keys].
  - split; [done|]. by intros key ?%elem_of_nil.
  - destruct (hit _ sigs) eqn:Eh.
    + apply hit_iff in Eh. exists O, key. split_and!; [lia|done|done|]. intros j' ? ?; lia.
    + assert (text (std_pad (Sha.hmac_sha256 key content)) ∉ sigs) as Hn by (rewrite <- hit_iff, Eh; done).
      specialize (IH (S i)). destruct (try_keys (S i) content sigs keys) as [n|e].
      * destruct IH as (j & key' & -> & Hj & Hin & Hlt). exists (S j), key'. split_and!; [lia|done|done|].
        intros [|j'] k' Hj' Hk'; cbn in Hk'; [by injection Hk' as <-|]. apply (Hlt j'); [lia|done].
      * destruct IH as [-> Hall]. split; [done|]. intros k [->|Hk]%elem_of_cons; [done|by apply Hall].
Qed.

(** The key [i] is the first that signed one of the offered values for this
    id, time and body, and the time is within the tolerance. *)
Definition signed_by (signed : Signed) (body : list Z) (keys : list (list Z)) (now_s : Z) (i : nat) : Prop :=
  exists id ts header t key,
    signed = mkSigned (Some id) (Some ts) (Some header) /\ parse_u64 (trim (chars ts)) = Some t /\
    Z.abs (t - now_s) <= TOLERANCE_S /\ keys !! i = Some key /\
    sign key id t body ∈ (String.append "v1," <$> offered header) /\
    forall j key', (j < i)%nat -> keys !! j = Some key' -> sign key' id t body ∉ (String.append "v1," <$> offered header).

Lemma signed_value w (sigs : list string) : "v1," +:+ w ∈ (String.append "v1," <$> sigs) <-> w ∈ sigs.
Proof. rewrite list_elem_of_fmap. split; [by intros (x & ->%string_app_inj & Hx)|by exists w]. Qed.

Lemma verify_signed signed body keys now_s i :
  verify signed body keys now_s = Ok i <-> signed_by signed body keys now_s i.
Proof.
  unfold verify, signed_by, sign. setoid_rewrite signed_value. split.
  - destruct signed as [[id|] [ts|] [header|]]; cbn [s_id s_timestamp s_signature]; try discriminate.
    destruct (parse_u64 (trim (chars ts))) as [t|] eqn:Et; [|discriminate].
    destruct (Z.ltb_spec TOLERANCE_S (Z.abs (t - now_s))) as [|Ht]; [discriminate|]. intros E.
    pose proof (try_keys_spec 0 (signed_content id t body) (offered header) keys) as Hk. rewrite E in Hk.
    destruct Hk as (j & key & -> & Hj & Hin & Hlt). exists id, ts, header, t, key. split_and!; assumption || reflexivity.
  - intros (id & ts & header & t & key & -> & Et & Ht & Hi & Hin & Hlt).
    cbn [s_id s_timestamp s_signature]. rewrite Et.
    destruct (Z.ltb_spec TOLERANCE_S (Z.abs (t - now_s))) as [|_]; [lia|].
    pose proof (try_keys_spec 0 (signed_content id t body) (offered header) keys) as Hk.
    destruct (try_keys _ _ _ _) as [n|e].
    + destruct Hk as (j & key' & -> & Hj & Hin' & Hlt'). f_equal. cbn.
      destruct (decide (j < i)%nat) as [Hlt1|]; [by destruct (Hlt j key')|].
      destruct (decide (i < j)%nat) as [Hlt2|]; [by destruct (Hlt' i key)|]. lia.
    + destruct Hk as [-> Hall]. destruct (Hall key); [by eapply list_elem_of_lookup_2|done].
Qed.

(** What [sign] makes verifies. *)
Lemma split_char_none c l : c ∉ l -> split_char c l = [l].
Proof.
  induction l as [|a l IH]; intros Hn; [done|]. apply not_elem_of_cons in Hn as [Hne Hn]. cbn.
  rewrite decide_False by done. by rewrite (IH Hn).
Qed.

Lemma std_pad_no_space l : " "%char ∉ std_pad l.
Proof.
  assert (Forall (fun c => c ∈ "="%char :: STD) (std_pad l)) as Hall.
  { unfold std_pad, encode64. apply Forall_bind, Forall_forall. intros chunk _. unfold encode_chunk.
    assert (forall n, nth n STD "="%char ∈ "="%char :: STD) as Hn.
    { intros n. apply elem_of_cons. destruct (nth_in_or_default n STD "="%char) as [Hin| ->]; [right|by left].
      by apply list_elem_of_In. }
    repeat first [apply Forall_app; split | case_decide];
      repeat first [apply Forall_nil_2 | apply Forall_cons_2]; first [apply Hn | apply elem_of_cons; by left]. }
  intros Hin. rewrite Forall_forall in Hall. apply Hall in Hin.
  apply (bool_decide_pack _) in Hin. vm_compute in Hin. destruct Hin.
Qed.

Lemma offered_sign key id t body :
  offered (sign key id t body) = [text (std_pad (Sha.hmac_sha256 key (signed_content id t body)))].
Proof.
  unfold offered, sign. set (b := std_pad _). rewrite split_char_none.
  - cbn [omap list_omap]. rewrite text_chars, strip_prefix_app. done.
  - rewrite chars_app, chars_text, not_elem_of_app. split; [|apply std_pad_no_space].
    intros Hin. apply (bool_decide_pack _) in Hin. vm_compute in Hin. destruct Hin.
Qed.

Lemma trim_decimal n : 0 <= n -> trim (decimal n) = decimal n.
Proof.
  intros Hn. apply trim_none. intros a Ha. destruct (decimal_spec n Hn) as (_ & Hd & _).
  rewrite Forall_forall in Hd. by apply is_digit_not_space, Hd.
Qed.

Lemma sign_verifies key keys id t body now_s :
  is_u64 t -> Z.abs (t - now_s) <= TOLERANCE_S ->
  verify (mkSigned (Some id) (Some (text (decimal t))) (Some (sign key id t body))) body (key :: keys) now_s = Ok O.
Proof.
  intros Ht Hnow. apply verify_signed. exists id, (text (decimal t)), (sign key id t body), t, key.
  rewrite chars_text, trim_decimal by (unfold is_u64 in Ht; lia). split_and!; try done.
  - by apply parse_uint_decimal.
  - rewrite offered_sign. unfold sign. by apply list_elem_of_singleton.
  - intros; lia.
Qed.

(** What was signed is read off the bytes signed, when the id has no dot. *)
Lemma cut_inj {A} (c : A) (l l' r r' : list A) :
  c ∉ l -> c ∉ l' -> l ++ c :: r = l' ++ c :: r' -> l = l' /\ r = r'.
Proof.
  revert l'. induction l as [|a l IH]; intros [|a' l'] Hl Hl' E; cbn in E; injection E; intros.
  - done.
  - subst. by destruct Hl'; left.
  - subst. by destruct Hl; left.
  - subst. apply not_elem_of_cons in Hl as [_ Hl], Hl' as [_ Hl']. by destruct (IH l' Hl Hl') as [-> ->].
Qed.

Lemma dot_not_decimal t : 0 <= t -> 46 ∉ code <$> decimal t.
Proof.
  intros Ht (c & E & Hc)%list_elem_of_fmap. destruct (decimal_spec t Ht) as (_ & Hd & _).
  rewrite Forall_forall in Hd. specialize (Hd c Hc). unfold is_digit in Hd. lia.
Qed.

Lemma signed_content_inj id id' t t' body body' :
  "."%char ∉ chars id -> "."%char ∉ chars id' -> is_u64 t -> is_u64 t' ->
  signed_content id t body = signed_content id' t' body' -> id = id' /\ t = t' /\ body = body'.
Proof.
  intros Hid Hid' Ht Ht'.
  assert (forall id t body, signed_content id t body =
    (code <$> chars id) ++ 46 :: ((code <$> decimal t) ++ 46 :: body)) as Hs.
  { intros. unfold signed_content, Sha.ascii. rewrite !chars_app, chars_text, !fmap_app. cbn.
    change (code ".") with 46. rewrite <- !app_assoc. cbn. by rewrite <- app_assoc. }
  assert (forall s, "."%char ∉ chars s -> 46 ∉ code <$> chars s) as Hdot.
  { intros s Hn (c & E & Hc)%list_elem_of_fmap. apply Hn. by rewrite (code_inj "."%char c E). }
  unfold is_u64 in *. rewrite !Hs. intros [E1 E2]%cut_inj; [|by apply Hdot..].
  apply cut_inj in E2 as [E2 ->]; [|apply dot_not_decimal; lia..].
  apply (list_fmap_eq_inj code) in E1; [|intros ? ?; apply code_inj].
  apply (list_fmap_eq_inj code) in E2; [|intros ? ?; apply code_inj].
  split_and!; [by apply chars_inj| |done].
  apply (f_equal eval) in E2. destruct (decimal_spec t) as (_ & _ & Ev & _); [lia|].
  destruct (decimal_spec t') as (_ & _ & Ev' & _); [lia|]. congruence.
Qed.
End StdWebhooks.

Module Hook.
Local Open Scope Z_scope.
Import StdWebhooks.

Definition PATH_PREFIX : string := "/hooks/_mcp/".
Definition MAX_CHALLENGE_BYTES : nat := 1024.
Definition RETRY_AFTER_S : Z := 5.

(** One binding's route. *)
Record Route := mkRoute {
  server : string;
  name : string;
  secret : option (list Z);
  pending : option (list Z);
  r_id : option string;
  armed : bool;
}.

(** A request as the listener parsed it, header names in lower case. *)
Record RawRequest := mkRawRequest {
  method : string;
  target : string;
  headers : list (string * string);
  body : list Z;
}.
Definition header (req : RawRequest) (name : string) : option string :=
  snd <$> List.find (fun kv => bool_decide (kv.1 = name)) (headers req).
Definition path (req : RawRequest) : string :=
  match split_once "?" (target req) with Some (p, _) => p | None => target req end.

(** [trim_start_matches] of a text: as often as it stands there. *)
Fixpoint trim_prefix (fuel : nat) (p s : string) : string :=
  match fuel, strip_prefix p s with
  | S f, Some rest => trim_prefix f p rest
  | _, _ => s
  end.
Definition route_key (req : RawRequest) : string :=
  trim_prefix (String.length (path req)) PATH_PREFIX (path req).

Record Answer := mkAnswer {
  status : Z;
  reason : string;
  retry_after : option Z;
  a_body : Value;
}.
Definition answer_ok (status : string) : Answer :=
  mkAnswer 200 "OK" None (jobj [("status", VStr status)]).
Definition answer_retry (status after : Z) (why : string) : Answer :=
  mkAnswer status (if decide (status = 429) then "Too Many Requests" else "Service Unavailable")
    (Some (Z.max after 1)) (jobj [("error", VStr why)]).
Definition answer_gone (why : string) : Answer := mkAnswer 410 "Gone" None (jobj [("error", VStr why)]).
Definition answer_too_large : Answer :=
  mkAnswer 413 "Payload Too Large" None
    (jobj [("error", VStr "the occurrence is over the size this binding keeps")]).

(** What goes out: an answer, a text, or a challenge echoed. *)
Inductive Response : Type :=
  | Json_ (a : Answer)
  | Text_ (status : Z) (reason text : string)
  | Challenge (c : string).

(** A verified delivery for the loop. *)
Record Arrival := mkArrival { key : string; webhook_id : string; a_value : Value }.

(** What became of an arrival: the loop is gone, it answered, or it did not
    in time. *)
Inductive Outcome : Type := LoopGone | Answered (a : Answer) | TimedOut.

Definition opt_list {A} (o : option A) : list A := match o with Some a => [a] | None => [] end.
Definition route_keys (r : Route) : list (list Z) := opt_list (secret r) ++ opt_list (pending r).
Definition signed_of (req : RawRequest) : Signed :=
  mkSigned (header req "webhook-id") (header req "webhook-timestamp") (header req "webhook-signature").

(** Why the delivery is not taken for the subscription's. *)
Definition denied (r : Route) (verified : result Reject nat) (sub_id : option string) : option string :=
  match verified, sub_id with
  | Err e, _ => Some (as_str e)
  | Ok _, None => Some "missing_header"
  | Ok _, Some got =>
      match r_id r with
      | Some want => if decide (want = got) then None else Some "subscription_mismatch"
      | None => None
      end
  end.

Definition str_at (k : string) (v : Value) : option string := get k v ≫= Json.as_str.

Section serve.
(** [serde_json::from_slice] of the body. *)
Variable from_slice : list Z -> option Value.

(** What is answered, and what was handed to the loop. *)
Definition serve (routes : gmap string Route) (req : RawRequest) (now_ms : Z) (loop : Arrival -> Outcome) :
    Response * option Arrival :=
  let key := route_key req in
  match routes !! key with
  | None => (Json_ (answer_gone "no MCP Events binding at this path"), None)
  | Some r =>
      if negb (eq_ignore_case (method req) "POST")
      then (Text_ 405 "Method Not Allowed" "deliveries are POST", None)
      else
        let keys := route_keys r in
        if bool_decide (keys = []) then (Json_ (answer_retry 503 RETRY_AFTER_S "not armed yet"), None)
        else
          let signed := signed_of req in
          let verified := verify signed (body req) keys (now_ms / 1000) in
          match denied r verified (header req "x-mcp-subscription-id") with
          | Some _ => (Text_ 401 "Unauthorized" "authentication failed", None)
          | None =>
              match from_slice (body req) with
              | Some (VObj o) =>
                  let v := VObj o in
                  if decide (str_at "type" v = Some "verification") then
                    match str_at "challenge" v with
                    | Some c =>
                        if (String.length c <=? MAX_CHALLENGE_BYTES)%nat then (Challenge c, None)
                        else (Json_ (answer_gone "a verification without a usable challenge"), None)
                    | None => (Json_ (answer_gone "a verification without a usable challenge"), None)
                    end
                  else if negb (armed r) then (Json_ (answer_retry 503 RETRY_AFTER_S "not armed yet"), None)
                  else
                    let arrival := mkArrival key (default nil_str (s_id signed)) v in
                    match loop arrival with
                    | LoopGone => (Json_ (answer_retry 503 RETRY_AFTER_S "shutting down"), None)
                    | Answered a => (Json_ a, Some arrival)
                    | TimedOut =>
                        (Json_ (answer_retry 503 RETRY_AFTER_S "the runtime did not answer"), Some arrival)
                    end
              | _ => (Json_ (answer_gone "the body is not a JSON object"), None)
              end
          end
  end.

(** The request bears the subscription's own signature: over these bytes, by
    the route's live or pending secret, in time, for this subscription. *)
Definition authentic (r : Route) (req : RawRequest) (now_ms : Z) : Prop :=
  exists i sub, signed_by (signed_of req) (body req) (route_keys r) (now_ms / 1000) i /\
    header req "x-mcp-subscription-id" = Some sub /\ (r_id r = None \/ r_id r = Some sub).

Lemma denied_none r req now_ms :
  denied r (verify (signed_of req) (body req) (route_keys r) (now_ms / 1000))
    (header req "x-mcp-subscription-id") = None <-> authentic r req now_ms.
Proof.
  unfold authentic. setoid_rewrite <- verify_signed. unfold denied.
  destruct (verify _ _ _ _) as [i|e]; [|split; [discriminate|by intros (? & ? & [=] & _)]].
  destruct (header req "x-mcp-subscription-id") as [got|];
    [|split; [discriminate|by intros (? & ? & _ & [=] & _)]].
  destruct (r_id r) as [want|]; [case_decide as Hw|].
  - split; [|done]. intros _. exists i, got. split_and!; [done|done|right; by subst].
  - split; [discriminate|]. intros (i' & sub & _ & [= <-] & [[=]|[= ->]]). by destruct Hw.
  - split; [|done]. intros _. exists i, got. split_and!; [done|done|by left].
Qed.

Lemma authentic_keys r req now_ms : authentic r req now_ms -> route_keys r <> [].
Proof. intros (i & sub & (id & ts & h & t & k & _ & _ & _ & Hi & _) & _) E. by rewrite E in Hi. Qed.

(** A request as a route takes it. *)
Definition taken (routes : gmap string Route) (req : RawRequest) (now_ms : Z) (v : Value) : Prop :=
  exists r, routes !! route_key req = Some r /\ eq_ignore_case (method req) "POST" = true /\
    authentic r req now_ms /\ from_slice (body req) = Some v /\ (exists o, v = VObj o) /\
    (str_at "type" v = Some "verification" \/ armed r = true).

(** A challenge that is echoed; a delivery that is handed over. *)
Definition challenged (routes : gmap string Route) (req : RawRequest) (now_ms : Z) (c : string) : Prop :=
  exists v, taken routes req now_ms v /\ str_at "type" v = Some "verification" /\
    str_at "challenge" v = Some c /\ (String.length c <= MAX_CHALLENGE_BYTES)%nat.
Definition delivered (routes : gmap string Route) (req : RawRequest) (now_ms : Z) (loop : Arrival -> Outcome)
    (a : Arrival) : Prop :=
  exists v, taken routes req now_ms v /\ str_at "type" v <> Some "verification" /\
    a = mkArrival (route_key req) (default nil_str (header req "webhook-id")) v /\ loop a <> LoopGone.

(** A response and what is handed to the loop, as the request deserves. *)
Definition served (routes : gmap string Route) (req : RawRequest) (now_ms : Z) (loop : Arrival -> Outcome)
    (out : Response * option Arrival) : Prop :=
  (forall c, out.1 = Challenge c <-> challenged routes req now_ms c) /\
  (forall a, out.2 = Some a <-> delivered routes req now_ms loop a) /\
  (forall a b, out.2 = Some a -> loop a = Answered b -> out.1 = Json_ b).

Lemma served_refused routes req now_ms loop resp :
  (forall v, ~ taken routes req now_ms v) -> (forall c, resp <> Challenge c) ->
  served routes req now_ms loop (resp, None).
Proof.
  intros Hn Hc. split_and!; [|intros a|done].
  - intros c. split; [by intros ?%Hc|by intros (v & ?%Hn & _)].
  - split; [done|by intros (v & ?%Hn & _)].
Qed.

(** The one body a request can be taken with. *)
Lemma served_verification routes req now_ms loop v :
  taken routes req now_ms v -> (forall v', taken routes req now_ms v' -> v' = v) ->
  str_at "type" v = Some "verification" ->
  served routes req now_ms loop
    match str_at "challenge" v with
    | Some c => if (String.length c <=? MAX_CHALLENGE_BYTES)%nat then (Challenge c, None)
                else (Json_ (answer_gone "a verification without a usable challenge"), None)
    | None => (Json_ (answer_gone "a verification without a usable challenge"), None)
    end.
Proof.
  intros Hv Hone Ht.
  assert (forall a, ~ delivered routes req now_ms loop a) as Ha.
  { intros a (v' & Hv' & Hne & _). by apply Hone in Hv' as ->. }
  assert (forall c, challenged routes req now_ms c <->
    str_at "challenge" v = Some c /\ (String.length c <= MAX_CHALLENGE_BYTES)%nat) as Hc.
  { intros c. split; [|intros [? ?]; by exists v]. intros (v' & Hv' & _ & ?). by apply Hone in Hv' as ->. }
  unfold served. setoid_rewrite Hc. destruct (str_at "challenge" v) as [c'|]; [|naive_solver].
  destruct (Nat.leb_spec (String.length c') MAX_CHALLENGE_BYTES) as [Hl|Hl]; [naive_solver|].
  split_and!; [|naive_solver..]. intros c. split; [done|]. intros [[= ->] ?]. lia.
Qed.

Lemma served_delivery routes req now_ms loop v :
  taken routes req now_ms v -> (forall v', taken routes req now_ms v' -> v' = v) ->
  str_at "type" v <> Some "verification" ->
  let a := mkArrival (route_key req) (default nil_str (header req "webhook-id")) v in
  served routes req now_ms loop
    match loop a with
    | LoopGone => (Json_ (answer_retry 503 RETRY_AFTER_S "shutting down"), None)
    | Answered b => (Json_ b, Some a)
    | TimedOut => (Json_ (answer_retry 503 RETRY_AFTER_S "the runtime did not answer"), Some a)
    end.
Proof.
  intros Hv Hone Hne a.
  assert (forall a', delivered routes req now_ms loop a' <-> a' = a /\ loop a <> LoopGone) as Ha.
  { intros a'. split; [|intros [-> ?]; by exists v]. intros (v' & Hv' & _ & -> & Hl). by apply Hone in Hv' as ->. }
  assert (forall c, ~ challenged routes req now_ms c) as Hc.
  { intros c (v' & Hv' & Ht & _). by apply Hone in Hv' as ->. }
  destruct (loop a) as [|b|] eqn:El; (split_and!; cbn [fst snd];
    [intros c; split; [done|by intros ?%Hc]|intros a'; rewrite Ha|intros a' b' [= <-]]).
  all: try (rewrite El); naive_solver.
Qed.

Lemma serve_served routes req now_ms loop : served routes req now_ms loop (serve routes req now_ms loop).
Proof.
  unfold serve. destruct (routes !! route_key req) as [r|] eqn:Er.
  2: { apply served_refused; [|done]. intros v (r & E & _). congruence. }
  destruct (eq_ignore_case (method req) "POST") eqn:Em; cbn [negb].
  2: { apply served_refused; [|done]. intros v (r' & _ & E & _). congruence. }
  case_bool_decide as Hkeys.
  { apply served_refused; [|done]. intros v (r' & E & _ & Ha & _). apply (authentic_keys r' req now_ms); congruence. }
  pose proof (denied_none r req now_ms) as Hden. destruct (denied _ _ _) as [why|].
  { apply served_refused; [|done]. intros v (r' & E & _ & Ha & _).
    assert (Some why = None) as [=]. apply Hden. congruence. }
  apply proj1 in Hden. specialize (Hden eq_refl).
  destruct (from_slice (body req)) as [v|] eqn:Ev.
  2: { apply served_refused; [|done]. intros v (r' & _ & _ & _ & E & _). congruence. }
  destruct v as [| | | | |o];
    try (apply served_refused; [|done]; intros v (r' & _ & _ & _ & E & [o ->] & _); congruence).
  assert (forall v, taken routes req now_ms v -> v = VObj o) as Hone by (intros v (r' & _ & _ & _ & E & _); congruence).
  assert (str_at "type" (VObj o) = Some "verification" \/ armed r = true -> taken routes req now_ms (VObj o)) as Htake.
  { intros Hor. exists r. split_and!; [done|done|done|done|by exists o|done]. }
  case_decide as Ht; [by apply served_verification; [apply Htake; left| |]|].
  destruct (armed r) eqn:Ea; cbn [negb]; [apply served_delivery; [apply Htake; by right|done|done]|].
  apply served_refused; [|done]. intros v Hv. pose proof (Hone v Hv) as ->.
  destruct Hv as (r' & E & _ & _ & _ & _ & [|Ha]); [done|]. congruence.
Qed.

(** C31: the webhook listener hands a delivery to the loop, or echoes a
    challenge, exactly when the path names a route and the request is a POST
    that one of the route's own secrets signed, over the bytes received, its id
    and a time within five minutes, for the subscription the server gave; a
    delivery is handed over only once the route is armed, under the path's key
    and its own id, and the loop's answer is the response. *)
Theorem serve_authenticated routes req now_ms loop :
  let '(resp, handed) := serve routes req now_ms loop in
  (forall c, resp = Challenge c <-> exists v, taken routes req now_ms v /\
    str_at "type" v = Some "verification" /\ str_at "challenge" v = Some c /\
    (String.length c <= MAX_CHALLENGE_BYTES)%nat) /\
  (forall a, handed = Some a <-> exists v, taken routes req now_ms v /\
    str_at "type" v <> Some "verification" /\
    a = mkArrival (route_key req) (default nil_str (header req "webhook-id")) v /\ loop a <> LoopGone) /\
  (forall a b, handed = Some a -> loop a = Answered b -> resp = Json_ b).
Proof. pose proof (serve_served routes req now_ms loop) as Hs. by destruct (serve routes req now_ms loop). Qed.
End serve.
End Hook.
