(* ===== verification/JsonSchema.v ===== *)
(** * The JSON Schema validator

    [crates/agentd/src/jsonschema.rs]: a schema checked ([check_schema]) and a
    value validated against one ([validate], [validate_with]).  A violation is
    its place and a constructor that carries what the message prints.  The
    depth the source counts up to its limit is counted down here: [walk] at
    [65 - depth]. *)

From S2P Require Export Json Text.

Module Schema.

Definition MAX_DEPTH : nat := 64.

(** ** What the standard library and serde_json answer *)

(** [==] on two values: floating-point numbers compare as numbers. *)
Definition number_eqb (a b : number) : bool :=
  match a, b with
  | PosInt x, PosInt y | NegInt x, NegInt y => (x =? y)%Z
  | Float x, Float y => SFeqb x y
  | _, _ => false
  end.
Fixpoint value_eqb (v w : Value) {struct v} : bool :=
  match v, w with
  | VNull, VNull => true
  | VBool a, VBool b => eqb a b
  | VNum a, VNum b => number_eqb a b
  | VStr a, VStr b => bool_decide (a = b)
  | VArr l, VArr k =>
      (fix go (l k : list Value) : bool :=
         match l, k with
         | [], [] => true
         | x :: l', y :: k' => value_eqb x y && go l' k'
         | _, _ => false
         end) l k
  | VObj o, VObj p =>
      (fix go (o p : list (string * Value)) : bool :=
         match o, p with
         | [], [] => true
         | (a, x) :: o', (b, y) :: p' => bool_decide (a = b) && value_eqb x y && go o' p'
         | _, _ => false
         end) o p
  | _, _ => false
  end.

Definition contains_key (k : string) (o : list (string * Value)) : bool := bool_decide (is_Some (obj_get k o)).

(** [chars().count()]: the bytes that do not continue a character. *)
Definition continues (a : char) : bool := (128 <=? code a)%Z && (code a <=? 191)%Z.
Definition char_count (s : string) : Z := Z.of_nat (length (List.filter (fun a => negb (continues a)) (chars s))).

(** [f64::round], half away from zero, and [f64::trunc]. *)
Definition f64_signed (s : bool) (n : Z) : f64 :=
  if (n =? 0)%Z then S754_zero s else f64_of_Z (if s then - n else n)%Z.
Definition f64_round (x : f64) : f64 :=
  match x with
  | S754_finite s m e =>
      if (0 <=? e)%Z then x else f64_signed s ((Zpos m + 2 ^ (- e - 1)) / 2 ^ (- e))%Z
  | _ => x
  end.
Definition f64_trunc (x : f64) : f64 :=
  match x with
  | S754_finite s m e => if (0 <=? e)%Z then x else f64_signed s (Zpos m / 2 ^ (- e))%Z
  | _ => x
  end.
Definition f64_fract (x : f64) : f64 := f64_sub x (f64_trunc x).

(** [str::replace] of the two characters [a], [b] by the one [c]. *)
Fixpoint replace2 (a b c : char) (l : list char) : list char :=
  match l with
  | x :: ((y :: l'') as l') =>
      if decide (x = a /\ y = b) then c :: replace2 a b c l'' else x :: replace2 a b c l'
  | _ => l
  end.
(** [str::replace] of the character [a] by the two [b], [c]. *)
Definition replace1 (a b c : char) (l : list char) : list char :=
  l ≫= fun x => if decide (x = a) then [b; c] else [x].

(** [str::contains]. *)
Fixpoint contains (p l : list char) : bool :=
  bool_decide (p `prefix_of` l) || match l with [] => false | _ :: l' => contains p l' end.

(** ** Literal patterns *)

Definition trim_pattern (p : string) : list char :=
  trim_end (fun a => bool_decide (a = "$"%char)) (trim_start (fun a => bool_decide (a = "^"%char)) (chars p)).
Definition META : list char := chars ".*+?()[]{}|\".
Definition is_literal_pattern (p : string) : bool :=
  let core := trim_pattern p in
  bool_decide (core = chars ".*") || negb (existsb (fun c => bool_decide (c ∈ META)) core).
Definition literal_pattern_matches (p s : string) : bool :=
  if negb (is_literal_pattern p) then true
  else
    let anchored_start := bool_decide (head (chars p) = Some "^"%char) in
    let anchored_end := bool_decide (last (chars p) = Some "$"%char) in
    let core := trim_pattern p in
    if bool_decide (core = chars ".*") then true
    else match anchored_start, anchored_end with
      | true, true => bool_decide (chars s = core)
      | true, false => bool_decide (core `prefix_of` chars s)
      | false, true => bool_decide (core `suffix_of` chars s)
      | false, false => contains core (chars s)
      end.

(** ** Types *)

Definition KNOWN_TYPES : list string :=
  ["null"; "boolean"; "object"; "array"; "string"; "number"; "integer"].

Definition is_integer (v : Value) : bool :=
  match v with
  | VNum (PosInt _) | VNum (NegInt _) => true
  | VNum (Float f) => SFeqb (f64_fract f) (S754_zero false)
  | _ => false
  end.
Definition type_matches (t : string) (v : Value) : bool :=
  if decide (t = "null") then match v with VNull => true | _ => false end
  else if decide (t = "boolean") then match v with VBool _ => true | _ => false end
  else if decide (t = "object") then match v with VObj _ => true | _ => false end
  else if decide (t = "array") then match v with VArr _ => true | _ => false end
  else if decide (t = "string") then match v with VStr _ => true | _ => false end
  else if decide (t = "number") then match v with VNum _ => true | _ => false end
  else if decide (t = "integer") then is_integer v
  else true.

Definition type_name (v : Value) : string :=
  match v with
  | VNull => "null" | VBool _ => "boolean" | VNum _ => "number" | VStr _ => "string"
  | VArr _ => "array" | VObj _ => "object"
  end.

(** ** Violations *)

Inductive Error : Type := mkError (place : string) (why : Violation)
with Violation : Type :=
  | TooDeep
  | NoValue
  | InvalidSchema
  | Unresolvable (r : string)
  | WrongType (expected : Value) (got : string)
  | NotInEnum (allowed : list Value)
  | NotConst (c : Value)
  | NoneOf (best : option (list Error))
  | NotOne (n : nat) (best : option (list Error))
  | IsNot
  | MissingProperty (k : string)
  | UnknownProperty (k : string)
  | TooFewProperties (n : Z)
  | TooManyProperties (n : Z)
  | Requires (k needs : string)
  | NoMoreItems
  | TooFewItems (n : Z)
  | TooManyItems (n : Z)
  | Duplicate (i : nat)
  | NoneContained
  | TooShort (n : Z)
  | TooLong (n : Z)
  | PatternMiss (p : string)
  | NoPatternCheck (p : string)
  | BelowMinimum (m : f64)
  | AboveMaximum (m : f64)
  | NotAbove (m : f64)
  | NotBelow (m : f64)
  | NotMultiple (m : f64).

Definition ptr (path : string) : string := if decide (path = nil_str) then "/" else path.
Definition report (path : string) (bad : bool) (why : Violation) : list Error :=
  if bad then [mkError (ptr path) why] else [].
Definition escape (k : string) : string :=
  text (replace1 "/" "~" "1" (replace1 "~" "~" "0" (chars k))).

(** ** References *)

(** What [validate_with] adds: the documents a reference may name, and a check
    for each pattern. *)
Record Resolver := mkResolver {
  document : string -> option Value;
  pattern : string -> string -> option bool;
}.
Record Cx := mkCx { root : Value; resolver : option Resolver }.

Definition unescape (seg : list char) : list char := replace2 "~" "0" "~" (replace2 "~" "1" "/" seg).
Definition descend (cur : Value) (seg : list char) : option Value :=
  let seg := unescape seg in
  match cur with
  | VObj m => obj_get (text seg) m
  | VArr a => i ← parse_uint u64_max seg; if (i <? Z.of_nat (length a))%Z then a !! Z.to_nat i else None
  | _ => None
  end.
Definition resolve_ref (root : Value) (r : list char) : option Value :=
  match r with
  | a :: rest =>
      if decide (a = "#"%char) then
        match rest with
        | [] => Some root
        | _ => foldl (fun cur seg => c ← cur; descend c seg) (Some root)
                 (split_char "/" (trim_start (fun a => bool_decide (a = "/"%char)) rest))
        end
      else None
  | [] => None
  end.
Definition resolve (cx : Cx) (r : string) : option (Cx * Value) :=
  let '(doc, local) := match cut "#" (chars r) with
                       | Some (d, rest) => (d, "#"%char :: rest)
                       | None => (chars r, []) end in
  cx' ← match doc with
        | [] => Some cx
        | _ => res ← resolver cx; d ← document res (text doc); Some (mkCx d (resolver cx))
        end;
  t ← resolve_ref (root cx') (match local with [] => ["#"%char] | _ => local end);
  Some (cx', t).

(** ** The walk *)

Definition field_obj (k : string) (s : list (string * Value)) : option (list (string * Value)) :=
  obj_get k s ≫= as_object.
Definition field_arr (k : string) (s : list (string * Value)) : option (list Value) :=
  obj_get k s ≫= as_array.
Definition field_u64 (k : string) (s : list (string * Value)) : option Z := obj_get k s ≫= as_u64.
Definition field_f64 (k : string) (s : list (string * Value)) : option f64 := obj_get k s ≫= as_f64.
Definition field_str (k : string) (s : list (string * Value)) : option string := obj_get k s ≫= as_str.
Definition is_true (o : option Value) : bool := match o with Some (VBool true) => true | _ => false end.

(** Nothing to hold, or what is there is passed to the check. *)
Definition when {A} (o : option A) (f : A -> list Error) : list Error :=
  match o with Some a => f a | None => [] end.

Definition string_keywords (cx : Cx) (s : list (string * Value)) (st path : string) : list Error :=
  let len := char_count st in
  when (field_u64 "minLength" s) (fun n => report path (len <? n)%Z (TooShort n))
  ++ when (field_u64 "maxLength" s) (fun n => report path (n <? len)%Z (TooLong n))
  ++ when (field_str "pattern" s) (fun p =>
       let matched :=
         if is_literal_pattern p then Some (literal_pattern_matches p st)
         else match resolver cx with Some r => pattern r p st | None => Some true end in
       match matched with
       | Some true => []
       | Some false => [mkError (ptr path) (PatternMiss p)]
       | None => [mkError (ptr path) (NoPatternCheck p)]
       end).

(** [x >= m], [x > m]: false when either is not a number. *)
Definition multiple (x m : f64) : bool :=
  let q := f64_div x m in
  negb (f64_ltb (f64_ratio 1 (10 ^ 9)) (SFabs (f64_sub q (f64_round q)))).
Definition number_keywords (s : list (string * Value)) (v : Value) (path : string) : list Error :=
  when (as_f64 v) (fun x =>
    when (field_f64 "minimum" s) (fun m => report path (f64_ltb x m) (BelowMinimum m))
    ++ when (field_f64 "maximum" s) (fun m => report path (f64_ltb m x) (AboveMaximum m))
    ++ when (field_f64 "exclusiveMinimum" s) (fun m => report path (f64_leb x m) (NotAbove m))
    ++ when (field_f64 "exclusiveMaximum" s) (fun m => report path (f64_leb m x) (NotBelow m))
    ++ when (field_f64 "multipleOf" s) (fun m =>
         if f64_ltb (f64_of_Z 0) m then report path (negb (multiple x m)) (NotMultiple m) else [])).

(** The first item that stands again after it. *)
Fixpoint duplicate (i : nat) (arr : list Value) : option nat :=
  match arr with
  | [] => None
  | v :: arr' => if existsb (fun w => value_eqb w v) arr' then Some i else duplicate (S i) arr'
  end.

(** The shorter list of errors: the first of the shortest. *)
Definition shorter (best : option (list Error)) (e : list Error) : option (list Error) :=
  match best with
  | Some b => if (length e <? length b)%nat then Some e else best
  | None => Some e
  end.

Section keywords.
Variable rec : Cx -> Value -> Value -> string -> list Error.

Definition object_keywords (cx : Cx) (s obj : list (string * Value)) (path : string) : list Error :=
  when (field_arr "required" s) (fun req =>
    req ≫= fun r => when (as_str r) (fun r => report path (negb (contains_key r obj)) (MissingProperty r)))
  ++ (obj ≫= fun kv =>
        let '(k, v) := kv in
        let child := path +:+ "/" +:+ escape k in
        let by_name := field_obj "properties" s ≫= obj_get k in
        let by_pattern := List.filter (fun ps => literal_pattern_matches ps.1 k)
                            (default [] (field_obj "patternProperties" s)) in
        when by_name (fun sub => rec cx sub v child)
        ++ (by_pattern ≫= fun ps => rec cx ps.2 v child)
        ++ match by_name, by_pattern with
           | None, [] =>
               match obj_get "additionalProperties" s with
               | Some (VBool false) => [mkError (ptr path) (UnknownProperty k)]
               | Some (VObj sub) => rec cx (VObj sub) v child
               | _ => []
               end
           | _, _ => []
           end)
  ++ when (field_u64 "minProperties" s) (fun n =>
       report path (Z.of_nat (length obj) <? n)%Z (TooFewProperties n))
  ++ when (field_u64 "maxProperties" s) (fun n =>
       report path (n <? Z.of_nat (length obj))%Z (TooManyProperties n))
  ++ when (field_obj "dependentRequired" s) (fun deps =>
       deps ≫= fun kn =>
         if contains_key kn.1 obj then
           when (as_array kn.2) (fun needs =>
             omap as_str needs ≫= fun n => report path (negb (contains_key n obj)) (Requires kn.1 n))
         else []).

Definition array_item (cx : Cx) (s : list (string * Value)) (path : string) (i : nat) (v : Value) : list Error :=
  let child := path +:+ "/" +:+ text (decimal (Z.of_nat i)) in
  let prefix := field_arr "prefixItems" s in
  match prefix ≫= fun p => p !! i with
  | Some p => rec cx p v child
  | None =>
      match obj_get "items" s with
      | Some (VBool false) =>
          if prefix then [mkError (ptr child) NoMoreItems] else rec cx (VBool false) v child
      | Some (VObj sub) => rec cx (VObj sub) v child
      | Some (VBool true) => rec cx (VBool true) v child
      | _ => []
      end
  end.

Definition array_keywords (cx : Cx) (s : list (string * Value)) (arr : list Value) (path : string) : list Error :=
  concat (imap (array_item cx s path) arr)
  ++ when (field_u64 "minItems" s) (fun n => report path (Z.of_nat (length arr) <? n)%Z (TooFewItems n))
  ++ when (field_u64 "maxItems" s) (fun n => report path (n <? Z.of_nat (length arr))%Z (TooManyItems n))
  ++ (if is_true (obj_get "uniqueItems" s) then
        when (duplicate 0 arr) (fun i => [mkError (ptr path) (Duplicate i)])
      else [])
  ++ when (obj_get "contains" s) (fun c =>
       report path (negb (existsb (fun v => bool_decide (length (rec cx c v path) = 0)%nat) arr)) NoneContained).

(** [anyOf]: the schemas in turn, until one holds. *)
Fixpoint try_any (cx : Cx) (any : list Value) (v : Value) (path : string) (best : option (list Error)) : list Error :=
  match any with
  | [] => [mkError (ptr path) (NoneOf best)]
  | sub :: any' =>
      match rec cx sub v path with
      | [] => []
      | e => try_any cx any' v path (shorter best e)
      end
  end.

(** [oneOf]: how many hold, and the shortest failure. *)
Fixpoint count_one (cx : Cx) (one : list Value) (v : Value) (path : string) (n : nat)
    (best : option (list Error)) : nat * option (list Error) :=
  match one with
  | [] => (n, best)
  | sub :: one' =>
      match rec cx sub v path with
      | [] => count_one cx one' v path (S n) best
      | e => count_one cx one' v path n (shorter best e)
      end
  end.

Definition combinators (cx : Cx) (s : list (string * Value)) (v : Value) (path : string) : list Error :=
  when (field_arr "allOf" s) (fun all => all ≫= fun sub => rec cx sub v path)
  ++ when (field_arr "anyOf" s) (fun any => try_any cx any v path None)
  ++ when (field_arr "oneOf" s) (fun one =>
       let '(n, best) := count_one cx one v path 0 None in
       report path (negb (n =? 1)%nat) (NotOne n (if (n =? 0)%nat then best else None)))
  ++ when (obj_get "not" s) (fun sub => match rec cx sub v path with [] => [mkError (ptr path) IsNot] | _ => [] end)
  ++ when (obj_get "if" s) (fun cond =>
       when (obj_get (match rec cx cond v path with [] => "then" | _ => "else" end) s)
         (fun b => rec cx b v path)).

Definition types_ok (t v : Value) : bool :=
  match t with
  | VStr t => type_matches t v
  | VArr ts => existsb (fun t => match as_str t with Some t => type_matches t v | None => false end) ts
  | _ => true
  end.

Definition walk_inner (cx : Cx) (schema value : Value) (path : string) : list Error :=
  match schema with
  | VBool true => []
  | VBool false => [mkError (ptr path) NoValue]
  | VObj s =>
      when (field_str "$ref" s) (fun r =>
        match resolve cx r with
        | Some (at_, target) => rec at_ target value path
        | None => [mkError (ptr path) (Unresolvable r)]
        end)
      ++ (if is_null value && is_true (obj_get "nullable" s) then []
          else
            when (obj_get "type" s) (fun t => report path (negb (types_ok t value)) (WrongType t (type_name value)))
            ++ when (field_arr "enum" s) (fun e =>
                 report path (negb (existsb (fun x => value_eqb x value) e)) (NotInEnum e))
            ++ when (obj_get "const" s) (fun c => report path (negb (value_eqb c value)) (NotConst c))
            ++ match value with
               | VObj obj => object_keywords cx s obj path
               | VArr arr => array_keywords cx s arr path
               | VStr st => string_keywords cx s st path
               | VNum _ => number_keywords s value path
               | _ => []
               end
            ++ combinators cx s value path)
  | _ => [mkError (ptr path) InvalidSchema]
  end.
End keywords.

(** [fuel]: the levels left, [MAX_DEPTH + 1] at the root. *)
Fixpoint walk (fuel : nat) (cx : Cx) (schema value : Value) (path : string) : list Error :=
  match fuel with
  | O => [mkError (ptr path) TooDeep]
  | S f => walk_inner (walk f) cx schema value path
  end.

Definition run (cx : Cx) (value : Value) : result (list Error) unit :=
  match walk (S MAX_DEPTH) cx (root cx) value nil_str with [] => Ok tt | e => Err e end.
Definition validate (schema value : Value) : result (list Error) unit := run (mkCx schema None) value.
Definition validate_with (schema value : Value) (r : Resolver) : result (list Error) unit :=
  run (mkCx schema (Some r)) value.

(** ** A schema checked *)

Inductive SchemaViolation : Type :=
  | SchemaTooDeep
  | NotASchema
  | BadType
  | NotSchemas (k : string)
  | NotSchemaList (k : string)
  | BadRequired
  | BadEnum
  | NotNumber (k : string)
  | NotCount (k : string)
  | UnenforcedPattern (p : string)
  | BadPattern
  | NotLocal.
Definition SchemaError : Type := string * SchemaViolation.
Definition bad (path : string) (b : bool) (why : SchemaViolation) : list SchemaError :=
  if b then [(ptr path, why)] else [].

Definition is_known (t : string) : bool := bool_decide (t ∈ KNOWN_TYPES).
Definition known_types (v : Value) : bool :=
  match v with
  | VStr t => is_known t
  | VArr a => forallb (fun t => match as_str t with Some t => is_known t | None => false end) a
  | _ => false
  end.
Definition is_string (v : Value) : bool := match v with VStr _ => true | _ => false end.

Definition MAPS : list string := ["properties"; "patternProperties"; "$defs"; "definitions"].
Definition SUBS : list string :=
  ["items"; "additionalProperties"; "not"; "if"; "then"; "else"; "contains"].
Definition LISTS : list string := ["prefixItems"; "allOf"; "anyOf"; "oneOf"].
Definition NUMBERS : list string :=
  ["minimum"; "maximum"; "exclusiveMinimum"; "exclusiveMaximum"; "multipleOf"].
Definition COUNTS : list string :=
  ["minLength"; "maxLength"; "minItems"; "maxItems"; "minProperties"; "maxProperties"].

Definition check_keyword (rec : Value -> string -> list SchemaError) (path : string)
    (kv : string * Value) : list SchemaError :=
  let '(k, v) := kv in
  if decide (k = "type") then bad path (negb (known_types v)) BadType
  else if decide (k ∈ MAPS) then
    match v with
    | VObj m => m ≫= fun nv => rec nv.2 (path +:+ "/" +:+ k +:+ "/" +:+ escape nv.1)
    | _ => [(ptr path, NotSchemas k)]
    end
  else if decide (k ∈ SUBS) then rec v (path +:+ "/" +:+ k)
  else if decide (k ∈ LISTS) then
    match v with
    | VArr a => concat (imap (fun i sv => rec sv (path +:+ "/" +:+ k +:+ "/" +:+ text (decimal (Z.of_nat i)))) a)
    | _ => [(ptr path, NotSchemaList k)]
    end
  else if decide (k = "required") then
    bad path (match v with VArr a => negb (forallb is_string a) | _ => true end) BadRequired
  else if decide (k = "enum") then bad path (match v with VArr _ => false | _ => true end) BadEnum
  else if decide (k ∈ NUMBERS) then bad path (match v with VNum _ => false | _ => true end) (NotNumber k)
  else if decide (k ∈ COUNTS) then bad path (match as_u64 v with Some _ => false | None => true end) (NotCount k)
  else if decide (k = "pattern") then
    match as_str v with
    | Some p => bad path (negb (is_literal_pattern p)) (UnenforcedPattern p)
    | None => [(ptr path, BadPattern)]
    end
  else if decide (k = "$ref") then
    bad path (match as_str v with Some r => negb (starts_with "#" r) | None => true end) NotLocal
  else [].

Fixpoint check_schema_at (fuel : nat) (schema : Value) (path : string) : list SchemaError :=
  match fuel with
  | O => [(ptr path, SchemaTooDeep)]
  | S f =>
      match schema with
      | VBool _ => []
      | VObj s => s ≫= check_keyword (check_schema_at f) path
      | _ => [(ptr path, NotASchema)]
      end
  end.
Definition check_schema (schema : Value) : result (list SchemaError) unit :=
  match check_schema_at (S MAX_DEPTH) schema nil_str with [] => Ok tt | e => Err e end.

(** ** Samples *)

Definition sample : Value := jobj [("type", VStr "object");
  ("properties", jobj [("n", jobj [("type", VStr "integer"); ("minimum", ju64 1)]);
                       ("tags", jobj [("items", jobj [("$ref", VStr "#/$defs/tag")])])]);
  ("required", VArr [VStr "n"]); ("additionalProperties", VBool false);
  ("$defs", jobj [("tag", jobj [("pattern", VStr "^x-")])])].
Example sample_ok : check_schema sample = Ok tt /\
  validate sample (jobj [("n", ju64 3); ("tags", VArr [VStr "x-a"])]) = Ok tt.
Proof. vm_compute. done. Qed.
Example sample_bad :
  validate sample (jobj [("m", VNull); ("n", ju64 0); ("tags", VArr [VStr "a"])]) =
    Err [mkError "/" (UnknownProperty "m"); mkError "/n" (BelowMinimum (f64_of_Z 1));
         mkError "/tags/0" (PatternMiss "^x-")].
Proof. vm_compute. reflexivity. Qed.
Example sample_loop : exists e, validate (jobj [("$ref", VStr "#")]) VNull = Err [mkError "/" e].
Proof. eexists. vm_compute. reflexivity. Qed.
Example sample_halves : multiple (f64_ratio 3 2) (f64_ratio 1 2) = true /\ multiple (f64_ratio 8 5) (f64_ratio 1 2) = false
  /\ f64_round (f64_ratio (-5) 2) = f64_of_Z (-3) /\ is_integer (VNum (Float (f64_ratio 4 2))) = true.
Proof. vm_compute. done. Qed.
End Schema.
