(* ===== verification/JsonSchemaProps.v ===== *)
(** * The JSON Schema validator decides validity

    What it is for a value to be valid is stated for itself ([valid]: no
    errors, no places), keyword by keyword; the validator finds no violation
    exactly of the valid values.  A schema [check_schema] accepts, with no
    reference in it, never makes the validator stop at its depth limit or on
    something that is no schema. *)

From S2P Require Export JsonSchema.

Module SchemaProps.
Import Schema.

(** ** Lists of errors *)

Lemma when_nil {A} (o : option A) f : when o f = [] <-> forall a, o = Some a -> f a = [].
Proof. destruct o as [a|]; cbn; [split; [by intros ? ? [= <-]|by intros H; apply H]|by split]. Qed.

Lemma report_nil path b why : report path b why = [] <-> b = false.
Proof. by destruct b. Qed.

Lemma concat_imap_nil {A B} (f : nat -> A -> list B) (l : list A) :
  concat (imap f l) = [] <-> forall i a, l !! i = Some a -> f i a = [].
Proof.
  revert f. induction l as [|a l IH]; intros f; cbn; [by split|]. rewrite app_nil, IH. split.
  - intros [Ha Hl] [|i] x; cbn; [by intros [= <-]|apply Hl].
  - intros H. split; [by apply (H O)|]. intros i x. apply (H (S i)).
Qed.

Lemma existsb_iff {A} (f : A -> bool) l : existsb f l = true <-> exists x, x ∈ l /\ f x = true.
Proof.
  rewrite existsb_exists. split; intros (x & Hx & Hf); exists x; (split; [by apply list_elem_of_In|done]).
Qed.

Lemma duplicate_none i arr :
  duplicate i arr = None <->
    forall a b x y, (a < b)%nat -> arr !! a = Some x -> arr !! b = Some y -> value_eqb y x = false.
Proof.
  revert i. induction arr as [|v arr IH]; intros i; cbn [duplicate]; [by split|].
  destruct (existsb _ arr) eqn:Ee.
  - apply existsb_iff in Ee as (w & Hw & E). apply list_elem_of_lookup in Hw as [n Hn]. split; [done|].
    intros H. specialize (H O (S n) v w ltac:(lia) eq_refl Hn). congruence.
  - rewrite IH. split.
    + intros H [|a] [|b] x y Hab Hx Hy; cbn in Hx, Hy; try lia; [|by apply (H a b); [lia| |]].
      injection Hx as <-. destruct (value_eqb y v) eqn:Ey; [|done].
      assert (existsb (fun w => value_eqb w v) arr = true) by
        (apply existsb_iff; exists y; split; [by eapply list_elem_of_lookup_2|done]). congruence.
    + intros H a b x y Hab. apply (H (S a) (S b)). lia.
Qed.

(** ** Validity *)

Definition has (k : string) (o : list (string * Value)) : Prop := is_Some (obj_get k o).

Section holds.
Variable R : Cx -> Value -> Value -> Prop.
Implicit Types (s obj : list (string * Value)).

Definition covered s (k : string) : Prop :=
  (exists ps, field_obj "properties" s = Some ps /\ has k ps) \/
  (exists pp p sub, field_obj "patternProperties" s = Some pp /\ (p, sub) ∈ pp /\
    literal_pattern_matches p k = true).

Definition property_holds (cx : Cx) s (k : string) (v : Value) : Prop :=
  (forall ps sub, field_obj "properties" s = Some ps -> obj_get k ps = Some sub -> R cx sub v) /\
  (forall pp p sub, field_obj "patternProperties" s = Some pp -> (p, sub) ∈ pp ->
    literal_pattern_matches p k = true -> R cx sub v) /\
  (~ covered s k ->
    obj_get "additionalProperties" s <> Some (VBool false) /\
    forall sub, obj_get "additionalProperties" s = Some (VObj sub) -> R cx (VObj sub) v).

Definition object_holds (cx : Cx) s obj : Prop :=
  (forall req r, field_arr "required" s = Some req -> VStr r ∈ req -> has r obj) /\
  (forall k v, (k, v) ∈ obj -> property_holds cx s k v) /\
  (forall n, field_u64 "minProperties" s = Some n -> (n <= Z.of_nat (length obj))%Z) /\
  (forall n, field_u64 "maxProperties" s = Some n -> (Z.of_nat (length obj) <= n)%Z) /\
  (forall deps k needs n, field_obj "dependentRequired" s = Some deps -> (k, VArr needs) ∈ deps ->
    has k obj -> VStr n ∈ needs -> has n obj).

Definition item_holds (cx : Cx) s (i : nat) (v : Value) : Prop :=
  match field_arr "prefixItems" s ≫= fun p => p !! i, obj_get "items" s with
  | Some p, _ => R cx p v
  | None, Some (VBool false) => if field_arr "prefixItems" s then False else R cx (VBool false) v
  | None, Some ((VObj _ | VBool _) as sub) => R cx sub v
  | None, _ => True
  end.

Definition array_holds (cx : Cx) s (arr : list Value) : Prop :=
  (forall i v, arr !! i = Some v -> item_holds cx s i v) /\
  (forall n, field_u64 "minItems" s = Some n -> (n <= Z.of_nat (length arr))%Z) /\
  (forall n, field_u64 "maxItems" s = Some n -> (Z.of_nat (length arr) <= n)%Z) /\
  (obj_get "uniqueItems" s = Some (VBool true) ->
    forall a b x y, (a < b)%nat -> arr !! a = Some x -> arr !! b = Some y -> value_eqb y x = false) /\
  (forall c, obj_get "contains" s = Some c -> exists v, v ∈ arr /\ R cx c v).

Definition pattern_holds (cx : Cx) (p st : string) : Prop :=
  if is_literal_pattern p then literal_pattern_matches p st = true
  else match resolver cx with Some r => pattern r p st = Some true | None => True end.

Definition string_holds (cx : Cx) s (st : string) : Prop :=
  (forall n, field_u64 "minLength" s = Some n -> (n <= char_count st)%Z) /\
  (forall n, field_u64 "maxLength" s = Some n -> (char_count st <= n)%Z) /\
  (forall p, field_str "pattern" s = Some p -> pattern_holds cx p st).

Definition number_holds s (x : f64) : Prop :=
  (forall m, field_f64 "minimum" s = Some m -> f64_ltb x m = false) /\
  (forall m, field_f64 "maximum" s = Some m -> f64_ltb m x = false) /\
  (forall m, field_f64 "exclusiveMinimum" s = Some m -> f64_leb x m = false) /\
  (forall m, field_f64 "exclusiveMaximum" s = Some m -> f64_leb m x = false) /\
  (forall m, field_f64 "multipleOf" s = Some m -> f64_ltb (f64_of_Z 0) m = true -> multiple x m = true).

Definition combined (cx : Cx) s (v : Value) : Prop :=
  (forall all sub, field_arr "allOf" s = Some all -> sub ∈ all -> R cx sub v) /\
  (forall any, field_arr "anyOf" s = Some any -> exists sub, sub ∈ any /\ R cx sub v) /\
  (forall one, field_arr "oneOf" s = Some one ->
    exists i sub, one !! i = Some sub /\ R cx sub v /\
      forall j sub', one !! j = Some sub' -> R cx sub' v -> j = i) /\
  (forall sub, obj_get "not" s = Some sub -> ~ R cx sub v) /\
  (forall cond, obj_get "if" s = Some cond ->
    (R cx cond v -> forall b, obj_get "then" s = Some b -> R cx b v) /\
    (~ R cx cond v -> forall b, obj_get "else" s = Some b -> R cx b v)).

Definition holds (cx : Cx) (schema v : Value) : Prop :=
  match schema with
  | VBool b => b = true
  | VObj s =>
      (forall r, field_str "$ref" s = Some r ->
        exists cx' t, resolve cx r = Some (cx', t) /\ R cx' t v) /\
      ((v = VNull /\ obj_get "nullable" s = Some (VBool true)) \/
       ((forall t, obj_get "type" s = Some t -> types_ok t v = true) /\
        (forall e, field_arr "enum" s = Some e -> exists x, x ∈ e /\ value_eqb x v = true) /\
        (forall c, obj_get "const" s = Some c -> value_eqb c v = true) /\
        match v with
        | VObj obj => object_holds cx s obj
        | VArr arr => array_holds cx s arr
        | VStr st => string_holds cx s st
        | VNum _ => forall x, as_f64 v = Some x -> number_holds s x
        | _ => True
        end /\
        combined cx s v))
  | _ => False
  end.
End holds.

(** Valid within a number of levels. *)
Fixpoint valid (fuel : nat) (cx : Cx) (schema v : Value) : Prop :=
  match fuel with O => False | S f => holds (valid f) cx schema v end.

(** ** The walk finds nothing exactly of what is valid *)

Section walk.
Variable rec : Cx -> Value -> Value -> string -> list Error.
Variable R : Cx -> Value -> Value -> Prop.
Hypothesis HR : forall cx s v p, rec cx s v p = [] <-> R cx s v.
Implicit Types (s obj : list (string * Value)).

Lemma contains_key_iff k o : contains_key k o = true <-> has k o.
Proof. apply bool_decide_eq_true. Qed.

Lemma required_iff s obj path :
  when (field_arr "required" s) (fun req =>
    req ≫= fun r => when (as_str r) (fun r => report path (negb (contains_key r obj)) (MissingProperty r))) = [] <->
  forall req r, field_arr "required" s = Some req -> VStr r ∈ req -> has r obj.
Proof.
  rewrite when_nil. setoid_rewrite bind_nil. setoid_rewrite when_nil. setoid_rewrite report_nil.
  setoid_rewrite negb_false_iff. setoid_rewrite contains_key_iff. split.
  - intros H req r Hreq Hin. by apply (H req Hreq (VStr r)).
  - intros H req Hreq v Hv r Hr. destruct v; try discriminate. injection Hr as ->. by apply (H req).
Qed.

Lemma dependent_iff s obj path :
  when (field_obj "dependentRequired" s) (fun deps =>
    deps ≫= fun kn =>
      if contains_key kn.1 obj then
        when (as_array kn.2) (fun needs =>
          omap as_str needs ≫= fun n => report path (negb (contains_key n obj)) (Requires kn.1 n))
      else []) = [] <->
  forall deps k needs n, field_obj "dependentRequired" s = Some deps -> (k, VArr needs) ∈ deps ->
    has k obj -> VStr n ∈ needs -> has n obj.
Proof.
  rewrite when_nil. setoid_rewrite bind_nil. split.
  - intros H deps k needs n Hd Hk Hhas Hn. specialize (H deps Hd (k, VArr needs) Hk). cbn in H.
    rewrite (proj2 (contains_key_iff _ _) Hhas) in H. rewrite bind_nil in H.
    apply contains_key_iff, negb_false_iff, (report_nil path _ (Requires k n)), H.
    apply list_elem_of_omap. by exists (VStr n).
  - intros H deps Hd [k v] Hk. cbn. destruct (contains_key k obj) eqn:Ek; [|done].
    apply contains_key_iff in Ek. apply when_nil. intros needs Hv. destruct v; try discriminate.
    injection Hv as ->. apply bind_nil. intros n (w & Hw & Hs)%list_elem_of_omap. apply report_nil, negb_false_iff, contains_key_iff.
    destruct w; try discriminate. injection Hs as ->. by eapply H.
Qed.

Lemma by_pattern_iff s k p sub :
  (p, sub) ∈ List.filter (fun ps => literal_pattern_matches ps.1 k) (default [] (field_obj "patternProperties" s)) <->
  exists pp, field_obj "patternProperties" s = Some pp /\ (p, sub) ∈ pp /\ literal_pattern_matches p k = true.
Proof.
  rewrite list_elem_of_In, filter_In, <- list_elem_of_In. cbn. destruct (field_obj "patternProperties" s) as [pp|]; cbn.
  - split; [intros []; by exists pp|by intros (? & [= ->] & ? & ?)].
  - split; [by intros [?%elem_of_nil _]|by intros (? & ? & _)].
Qed.

Lemma property_iff cx s k v path :
  (let child := path +:+ "/" +:+ escape k in
   let by_name := field_obj "properties" s ≫= obj_get k in
   let by_pattern := List.filter (fun ps => literal_pattern_matches ps.1 k)
                       (default [] (field_obj "patternProperties" s)) in
   when by_name (fun sub => rec cx sub v child)
   ++ (by_pattern ≫= fun ps => rec cx ps.2 v child)
   ++ match by_name, by_pattern with
      | None, [] =>
          match obj_get "additionalProperties" s with
          | Some (VBool false) => [mkError (ptr path) (UnknownProperty k)]
          | Some (VObj sub) => rec cx (VObj sub) v child
          | _ => []
          end
      | _, _ => []
      end) = [] <-> property_holds R cx s k v.
Proof.
  cbv zeta. rewrite !app_nil, when_nil, bind_nil. setoid_rewrite HR. unfold property_holds.
  set (by_pattern := List.filter _ _). apply Morphisms_Prop.and_iff_morphism; [|apply Morphisms_Prop.and_iff_morphism].
  - split.
    + intros H ps sub Hps Hsub. apply H. by rewrite Hps.
    + intros H sub Hb. apply bind_Some in Hb as (ps & Hps & Hsub). by apply (H ps).
  - split.
    + intros H pp p sub Hpp Hin Hm. apply (H (p, sub)). apply by_pattern_iff. by exists pp.
    + intros H [p sub] Hin. apply by_pattern_iff in Hin as (pp & Hpp & Hin & Hm). by apply (H pp p).
  - assert (covered s k <-> is_Some (field_obj "properties" s ≫= obj_get k) \/ by_pattern <> []) as Hcov.
    { unfold covered, has. apply Morphisms_Prop.or_iff_morphism.
      - split; [intros (ps & -> & Hk); done|]. intros [sub Hb]. apply bind_Some in Hb as (ps & Hps & Hsub).
        exists ps. by split; [|exists sub].
      - split.
        + intros (pp & p & sub & Hpp & Hin & Hm) E. assert ((p, sub) ∈ by_pattern) as Hb.
          { apply by_pattern_iff. by exists pp. } rewrite E in Hb. by apply elem_of_nil in Hb.
        + destruct by_pattern as [|[p sub] l] eqn:E; [done|]. intros _.
          assert ((p, sub) ∈ by_pattern) as Hb by (rewrite E; by left).
          apply by_pattern_iff in Hb as (pp & ? & ? & ?). by exists pp, p, sub. }
    rewrite Hcov. destruct (field_obj "properties" s ≫= obj_get k) as [sub|].
    { split; [intros _ Hn; destruct Hn; by left|done]. }
    destruct by_pattern as [|pp l]; [|split; [intros _ Hn; destruct Hn; by right|done]].
    destruct (obj_get "additionalProperties" s) as [[| [] | | | |sub]|]; try (split; [intros _ _; done|done]).
    + split; [done|]. intros H. destruct H as [H _]; [|done]. intros [[? ?]|]; done.
    + rewrite HR. split; [intros HS _; split; [done|by intros ? [= <-]]|].
      intros H. apply H; [|done]. intros [[? ?]|]; done.
Qed.

Lemma object_iff cx s obj path :
  object_keywords rec cx s obj path = [] <-> object_holds R cx s obj.
Proof.
  unfold object_keywords, object_holds. rewrite !app_nil, required_iff, dependent_iff, bind_nil, !when_nil.
  setoid_rewrite report_nil. setoid_rewrite Z.ltb_ge.
  apply Morphisms_Prop.and_iff_morphism; [done|]. apply Morphisms_Prop.and_iff_morphism; [|done].
  split.
  - intros H k v Hkv. by apply (property_iff cx s k v path), (H (k, v)).
  - intros H [k v] Hkv. by apply property_iff, H.
Qed.

Lemma item_iff cx s path i v : array_item rec cx s path i v = [] <-> item_holds R cx s i v.
Proof.
  unfold array_item, item_holds. destruct (field_arr "prefixItems" s) as [pre|]; cbn.
  - destruct (pre !! i) as [p|]; [apply HR|].
    by destruct (obj_get "items" s) as [[| [] | | | | ]|]; rewrite ?HR.
  - by destruct (obj_get "items" s) as [[| [] | | | | ]|]; rewrite ?HR.
Qed.

Lemma is_true_iff o : is_true o = true <-> o = Some (VBool true).
Proof. destruct o as [[| [] | | | | ]|]; cbn; split; congruence. Qed.

Lemma array_iff cx s arr path :
  array_keywords rec cx s arr path = [] <-> array_holds R cx s arr.
Proof.
  unfold array_keywords, array_holds. rewrite !app_nil, concat_imap_nil, !when_nil.
  setoid_rewrite item_iff. setoid_rewrite report_nil. setoid_rewrite Z.ltb_ge.
  repeat (apply Morphisms_Prop.and_iff_morphism; [done|]). apply Morphisms_Prop.and_iff_morphism.
  - rewrite <- is_true_iff. destruct (is_true _); [|by split]. rewrite when_nil.
    setoid_rewrite <- (duplicate_none O). split.
    + intros H _. destruct (duplicate 0 arr) as [n|]; [|done]. by specialize (H n eq_refl).
    + intros H n. by rewrite H.
  - setoid_rewrite negb_false_iff. setoid_rewrite existsb_iff. setoid_rewrite bool_decide_eq_true.
    setoid_rewrite length_zero_iff_nil. by setoid_rewrite HR.
Qed.

Lemma string_iff cx s st path : string_keywords cx s st path = [] <-> string_holds cx s st.
Proof.
  unfold string_keywords, string_holds. rewrite !app_nil, !when_nil.
  setoid_rewrite report_nil. setoid_rewrite Z.ltb_ge.
  repeat (apply Morphisms_Prop.and_iff_morphism; [done|]).
  assert (forall p, match (if is_literal_pattern p then Some (literal_pattern_matches p st)
      else match resolver cx with Some r => pattern r p st | None => Some true end) with
    | Some true => []
    | Some false => [mkError (ptr path) (PatternMiss p)]
    | None => [mkError (ptr path) (NoPatternCheck p)]
    end = [] <-> pattern_holds cx p st) as Hp; [|by setoid_rewrite Hp].
  intros p. unfold pattern_holds. destruct (is_literal_pattern p).
  - by destruct (literal_pattern_matches p st).
  - destruct (resolver cx) as [r|]; [|done]. by destruct (pattern r p st) as [[]|].
Qed.

Lemma number_iff s v path :
  number_keywords s v path = [] <-> forall x, as_f64 v = Some x -> number_holds s x.
Proof.
  unfold number_keywords, number_holds. rewrite when_nil. setoid_rewrite app_nil. setoid_rewrite app_nil.
  setoid_rewrite app_nil. setoid_rewrite app_nil. setoid_rewrite when_nil. setoid_rewrite report_nil.
  assert (forall m x, (if f64_ltb (f64_of_Z 0) m then report path (negb (multiple x m)) (NotMultiple m) else []) = [] <->
    (f64_ltb (f64_of_Z 0) m = true -> multiple x m = true)) as Hm; [|by setoid_rewrite Hm].
  intros m x. destruct (f64_ltb _ _); [|by split]. rewrite report_nil, negb_false_iff. tauto.
Qed.

Lemma any_iff cx any v path best :
  try_any rec cx any v path best = [] <-> exists sub, sub ∈ any /\ R cx sub v.
Proof.
  revert best. induction any as [|sub any IH]; intros best; cbn [try_any].
  - split; [done|by intros (? & ?%elem_of_nil & _)].
  - destruct (rec cx sub v path) eqn:Er.
    + apply HR in Er. split; [|done]. intros _. exists sub. by split; [left|].
    + rewrite IH. split; intros (x & Hx & Hv); [by exists x; split; [right|]|].
      apply elem_of_cons in Hx as [->|Hx]; [apply (HR _ _ _ path) in Hv; congruence|by exists x].
Qed.

Lemma count_one_spec cx one v path n best :
  let k := (count_one rec cx one v path n best).1 in
  (n <= k)%nat /\
  ((k = n)%nat <-> forall sub, sub ∈ one -> ~ R cx sub v) /\
  ((k = S n)%nat <-> exists i sub, one !! i = Some sub /\ R cx sub v /\
      forall j sub', one !! j = Some sub' -> R cx sub' v -> j = i).
Proof.
  revert n best. induction one as [|sub one IH]; intros n best; cbn [count_one]; cbv zeta.
  - cbn. split; [lia|]. split; [split; [by intros _ ? ?%elem_of_nil|done]|].
    split; [lia|by intros (i & ? & ? & _)].
  - destruct (rec cx sub v path) eqn:Er.
    + apply HR in Er. destruct (IH (S n) best) as (Hle & H0 & _). split; [lia|]. split.
      * split; [lia|]. intros H. destruct (H sub); [by left|done].
      * rewrite H0. split.
        -- intros H. exists O, sub. split_and!; [done|done|]. intros [|j] x Hx Hv; [done|].
           destruct (H x); [by eapply list_elem_of_lookup_2|done].
        -- intros (i & x & Hi & Hx & Hu) y Hy Hvy. apply list_elem_of_lookup in Hy as [j Hj].
           pose proof (Hu O sub eq_refl Er). pose proof (Hu (S j) y Hj Hvy). lia.
    + assert (~ R cx sub v) as Hn by (intros Hv; apply (HR _ _ _ path) in Hv; congruence).
      destruct (IH n (shorter best (e :: l))) as (Hle & H0 & H1). split; [done|]. split.
      * rewrite H0. split; [intros H x [->|Hx]%elem_of_cons; auto|intros H x Hx; apply H; by right].
      * rewrite H1. split.
        -- intros (i & x & Hi & Hx & Hu). exists (S i), x. split_and!; [done|done|].
           intros [|j] y Hy Hvy; [by injection Hy as <-|]. f_equal. by apply (Hu j y).
        -- intros ([|i] & x & Hi & Hx & Hu); [by injection Hi as <-|]. exists i, x. split_and!; [done|done|].
           intros j y Hy Hvy. by injection (Hu (S j) y Hy Hvy).
Qed.

Lemma combined_iff cx s v path : combinators rec cx s v path = [] <-> combined R cx s v.
Proof.
  unfold combinators, combined. rewrite !app_nil, !when_nil. setoid_rewrite bind_nil. setoid_rewrite any_iff.
  setoid_rewrite HR. apply Morphisms_Prop.and_iff_morphism; [naive_solver|].
  apply Morphisms_Prop.and_iff_morphism; [done|]. apply Morphisms_Prop.and_iff_morphism.
  - assert (forall one, (let '(n, best) := count_one rec cx one v path 0 None in
        report path (negb (n =? 1)%nat) (NotOne n (if (n =? 0)%nat then best else None))) = [] <->
      exists i sub, one !! i = Some sub /\ R cx sub v /\
        forall j sub', one !! j = Some sub' -> R cx sub' v -> j = i) as H1; [|by setoid_rewrite H1].
    intros one. destruct (count_one_spec cx one v path 0 None) as (_ & _ & <-).
    destruct (count_one _ _ _ _ _ _ _) as [n best]. cbn. rewrite report_nil, negb_false_iff, Nat.eqb_eq. done.
  - apply Morphisms_Prop.and_iff_morphism.
    + assert (forall sub, (match rec cx sub v path with [] => [mkError (ptr path) IsNot] | _ => [] end) = [] <->
        ~ R cx sub v) as Hn; [|by setoid_rewrite Hn].
      intros sub. rewrite <- (HR cx sub v path). by destruct (rec cx sub v path).
    + setoid_rewrite when_nil. setoid_rewrite HR.
      split; intros H cond Hc; specialize (H cond Hc); rewrite <- (HR cx cond v path) in *;
        destruct (rec cx cond v path); naive_solver.
Qed.

Lemma walk_inner_iff cx schema v path : walk_inner rec cx schema v path = [] <-> holds R cx schema v.
Proof.
  destruct schema as [|[]| | | |s]; cbn [walk_inner holds]; try done. rewrite app_nil, when_nil.
  apply Morphisms_Prop.and_iff_morphism.
  - assert (forall r, match resolve cx r with
        | Some (at_, target) => rec at_ target v path
        | None => [mkError (ptr path) (Unresolvable r)]
        end = [] <-> exists cx' t, resolve cx r = Some (cx', t) /\ R cx' t v) as Hr; [|by setoid_rewrite Hr].
    intros r. destruct (resolve cx r) as [[cx' t]|]; [rewrite HR; naive_solver|]. split; [done|by intros (? & ? & [=] & _)].
  - destruct (is_null v && is_true (obj_get "nullable" s)) eqn:En.
    { apply andb_true_iff in En as [Hv Hn%is_true_iff]. split; [|done]. intros _. left. by destruct v. }
    rewrite !app_nil, !when_nil, combined_iff. setoid_rewrite report_nil. setoid_rewrite negb_false_iff.
    setoid_rewrite existsb_iff. split.
    + intros H. right. destruct H as (Ht & He & Hc & Hk & Hcomb). split_and!; try done.
      destruct v; [done|done|by rewrite number_iff in Hk|by rewrite string_iff in Hk|by rewrite array_iff in Hk|by rewrite object_iff in Hk].
    + intros [[-> Hn]|(Ht & He & Hc & Hk & Hcomb)]; [by rewrite Hn in En|]. split_and!; try done.
      destruct v; [done|done|by rewrite number_iff|by rewrite string_iff|by rewrite array_iff|by rewrite object_iff].
Qed.
End walk.

Lemma walk_iff fuel : forall cx schema v path, walk fuel cx schema v path = [] <-> valid fuel cx schema v.
Proof. induction fuel as [|f IH]; intros cx schema v path; cbn [walk valid]; [done|]. by apply walk_inner_iff. Qed.

(** ** A schema that was checked *)

(** Whether a reference stands anywhere in the value. *)
Fixpoint has_ref (v : Value) : bool :=
  match v with
  | VObj o =>
      (fix go (o : list (string * Value)) : bool :=
         match o with
         | [] => false
         | (k, x) :: o' => bool_decide (k = "$ref") || has_ref x || go o'
         end) o
  | VArr l => (fix go (l : list Value) : bool := match l with [] => false | x :: l' => has_ref x || go l' end) l
  | _ => false
  end.

Lemma has_ref_obj o k x : has_ref (VObj o) = false -> (k, x) ∈ o -> k <> "$ref" /\ has_ref x = false.
Proof.
  induction o as [|[k' x'] o IH]; intros Hr Hin; [by apply elem_of_nil in Hin|].
  change (has_ref (VObj ((k', x') :: o))) with (bool_decide (k' = "$ref") || has_ref x' || has_ref (VObj o)) in Hr.
  apply orb_false_iff in Hr as [[Hk Hx]%orb_false_iff Ho].
  apply elem_of_cons in Hin as [[= -> ->]|Hin]; [|by apply IH]. by apply bool_decide_eq_false in Hk.
Qed.

Lemma has_ref_arr l x : has_ref (VArr l) = false -> x ∈ l -> has_ref x = false.
Proof.
  induction l as [|y l IH]; intros Hr Hin; [by apply elem_of_nil in Hin|].
  change (has_ref (VArr (y :: l))) with (has_ref y || has_ref (VArr l)) in Hr.
  apply orb_false_iff in Hr as [Hy Hl]. apply elem_of_cons in Hin as [->|Hin]; auto.
Qed.

Lemma obj_get_in k (o : list (string * Value)) v : obj_get k o = Some v -> (k, v) ∈ o.
Proof.
  induction o as [|[k' x] o IH]; cbn; [done|]. case_decide as E.
  - intros [= ->]. subst. by left.
  - intros H. right. by apply IH.
Qed.

(** The validator stopped at its depth, on no schema, or on a reference. *)
Definition stopped (e : Error) : bool :=
  match e with mkError _ (TooDeep | InvalidSchema | Unresolvable _) => true | _ => false end.
Definition Held (l : list Error) : Prop := Forall (fun e => stopped e = false) l.

Lemma held_when {A} (o : option A) f : (forall a, o = Some a -> Held (f a)) -> Held (when o f).
Proof. destruct o as [a|]; cbn; [auto|intros _; apply Forall_nil_2]. Qed.
Lemma held_report path b why : stopped (mkError (ptr path) why) = false -> Held (report path b why).
Proof. intros E. destruct b; [by apply Forall_singleton|apply Forall_nil_2]. Qed.
Lemma held_bind {A} (l : list A) (f : A -> list Error) : (forall a, a ∈ l -> Held (f a)) -> Held (l ≫= f).
Proof. intros H. apply Forall_bind, Forall_forall. exact H. Qed.
Lemma held_app l k : Held l -> Held k -> Held (l ++ k).
Proof. intros. by apply Forall_app. Qed.
Lemma held_one path why : stopped (mkError (ptr path) why) = false -> Held [mkError (ptr path) why].
Proof. intros E. by apply Forall_singleton. Qed.
Lemma held_imap {A} (f : nat -> A -> list Error) (l : list A) :
  (forall i a, a ∈ l -> Held (f i a)) -> Held (concat (imap f l)).
Proof.
  revert f. induction l as [|a l IH]; intros f H; cbn; [apply Forall_nil_2|].
  apply held_app; [apply H; by left|]. apply IH. intros i x Hx. apply H. by right.
Qed.
Lemma held_nil : Held [].
Proof. apply Forall_nil_2. Qed.
Create HintDb held.
Hint Resolve held_when held_report held_bind held_app held_one held_nil : held.
Hint Extern 1 (stopped _ = false) => reflexivity : held.

Section checked.
Variable f : nat.
Variable rec : Cx -> Value -> Value -> string -> list Error.

Definition sound (sub : Value) : Prop := (exists p, check_schema_at f sub p = []) /\ has_ref sub = false.
Hypothesis Hrec : forall sub, sound sub -> forall cx v path, Held (rec cx sub v path).

Variable s : list (string * Value).
Variable p : string.
Hypothesis Hcheck : s ≫= check_keyword (check_schema_at f) p = [].
Hypothesis Hnoref : has_ref (VObj s) = false.

Lemma keyword_checked k v : obj_get k s = Some v ->
  check_keyword (check_schema_at f) p (k, v) = [] /\ has_ref v = false.
Proof.
  intros Hg%obj_get_in. split; [by apply (proj1 (bind_nil _ _) Hcheck)|]. by apply (has_ref_obj _ _ _ Hnoref Hg).
Qed.

Lemma kinds_apart :
  Forall (fun k => k <> "type") MAPS /\ Forall (fun k => k <> "type" /\ k ∉ MAPS) SUBS /\
  Forall (fun k => k <> "type" /\ k ∉ MAPS /\ k ∉ SUBS) LISTS.
Proof. apply (bool_decide_unpack _). vm_compute. exact I. Qed.

Lemma sub_sound k v : k ∈ SUBS -> obj_get k s = Some v -> sound v.
Proof.
  intros Hk Hg. destruct (keyword_checked k v Hg) as [Hc Hr]. split; [|done]. destruct kinds_apart as (_ & Hs & _).
  rewrite Forall_forall in Hs. destruct (Hs k Hk) as [H1 H2]. unfold check_keyword in Hc.
  rewrite decide_False, decide_False, decide_True in Hc by done. eexists. exact Hc.
Qed.

Lemma map_sound k m n v : k ∈ MAPS -> field_obj k s = Some m -> (n, v) ∈ m -> sound v.
Proof.
  intros Hk Hm Hin. apply bind_Some in Hm as (w & Hg & Hw). destruct w; try discriminate. injection Hw as ->.
  destruct (keyword_checked k (VObj m) Hg) as [Hc Hr]. split; [|by apply (has_ref_obj m n v)].
  destruct kinds_apart as (Hs & _). rewrite Forall_forall in Hs. unfold check_keyword in Hc.
  rewrite decide_False, decide_True in Hc by auto. eexists. exact (proj1 (bind_nil _ _) Hc (n, v) Hin).
Qed.

Lemma list_sound k a v : k ∈ LISTS -> field_arr k s = Some a -> v ∈ a -> sound v.
Proof.
  intros Hk Hm Hin. apply bind_Some in Hm as (w & Hg & Hw). destruct w; try discriminate. injection Hw as ->.
  destruct (keyword_checked k (VArr a) Hg) as [Hc Hr]. split; [|by apply (has_ref_arr a)].
  destruct kinds_apart as (_ & _ & Hs). rewrite Forall_forall in Hs. destruct (Hs k Hk) as (H1 & H2 & H3).
  unfold check_keyword in Hc. rewrite decide_False, decide_False, decide_False, decide_True in Hc by done.
  apply list_elem_of_lookup in Hin as [i Hi]. eexists. exact (proj1 (concat_imap_nil _ _) Hc i v Hi).
Qed.

Lemma keyword_of (k : string) (l : list string) : bool_decide (k ∈ l) = true -> k ∈ l.
Proof. apply bool_decide_eq_true. Qed.
Ltac known := first [reflexivity | apply keyword_of; vm_compute; reflexivity].

Lemma object_held cx obj path : Held (object_keywords rec cx s obj path).
Proof.
  unfold object_keywords. repeat apply held_app; auto 6 with held.
  - apply held_bind. intros [k v] Hkv. repeat apply held_app.
    + apply held_when. intros sub Hsub. apply bind_Some in Hsub as (ps & Hps & Hsub). apply Hrec.
      apply (map_sound "properties" ps k); [known|done|by apply obj_get_in].
    + apply held_bind. intros [pat sub] Hin. apply Hrec. apply (by_pattern_iff s k) in Hin as (pp & Hpp & Hin & _).
      by apply (map_sound "patternProperties" pp pat); [known| |].
    + destruct (field_obj "properties" s ≫= obj_get k); [auto with held|]. destruct (List.filter _ _); [|auto with held].
      destruct (obj_get "additionalProperties" s) as [w|] eqn:Ew; [|auto with held].
      pose proof (sub_sound "additionalProperties" w ltac:(known) Ew) as Hs.
      destruct w as [| [] | | | |sub]; auto with held.
  - apply held_when. intros deps _. apply held_bind. intros [k needs] _. cbn.
    destruct (contains_key k obj); [|auto with held]. auto 6 with held.
Qed.

Lemma item_held cx path i v : Held (array_item rec cx s path i v).
Proof.
  unfold array_item. destruct (field_arr "prefixItems" s ≫= fun p => p !! i) as [sub|] eqn:Es.
  - apply bind_Some in Es as (pre & Hpre & Hsub). apply Hrec, (list_sound "prefixItems" pre); [known|done|].
    by eapply list_elem_of_lookup_2.
  - destruct (obj_get "items" s) as [w|] eqn:Ew; [|auto with held].
    pose proof (sub_sound "items" w ltac:(known) Ew) as Hs. destruct w as [| [] | | | |sub]; auto with held.
    destruct (field_arr "prefixItems" s); auto with held.
Qed.

Lemma array_held cx arr path : Held (array_keywords rec cx s arr path).
Proof.
  unfold array_keywords. repeat apply held_app; auto 6 with held.
  - apply held_imap. intros i v _. apply item_held.
  - destruct (is_true _); auto with held.
Qed.

Lemma string_held cx st path : Held (string_keywords cx s st path).
Proof.
  unfold string_keywords. repeat apply held_app; auto with held. apply held_when. intros pat _.
  destruct (is_literal_pattern pat).
  - destruct (literal_pattern_matches pat st); auto with held.
  - destruct (resolver cx) as [r|]; [|auto with held]. destruct (pattern r pat st) as [[]|]; auto with held.
Qed.

Lemma number_held v path : Held (number_keywords s v path).
Proof.
  apply held_when. intros x _. repeat apply held_app; auto with held. apply held_when. intros m _.
  destruct (f64_ltb _ m); auto with held.
Qed.

Lemma combinators_held cx v path : Held (combinators rec cx s v path).
Proof.
  unfold combinators. repeat apply held_app; apply held_when.
  - intros all Hall. apply held_bind. intros sub Hsub. apply Hrec, (list_sound "allOf" all); [known|done|done].
  - intros any _. generalize (@None (list Error)). induction any as [|sub any IH]; intros best; cbn [try_any];
      [auto with held|]. destruct (rec cx sub v path); auto with held.
  - intros one _. destruct (count_one _ _ _ _ _ _ _). auto with held.
  - intros sub _. destruct (rec cx sub v path); auto with held.
  - intros cond _. apply held_when. intros b Hb. apply Hrec.
    destruct (rec cx cond v path); [apply (sub_sound "then")|apply (sub_sound "else")]; known || done.
Qed.

Lemma object_schema_held cx v path : Held (walk_inner rec cx (VObj s) v path).
Proof.
  cbn [walk_inner]. apply held_app.
  - apply held_when. intros r Hr. apply bind_Some in Hr as (w & Hg & _). apply obj_get_in in Hg.
    by destruct (has_ref_obj _ _ _ Hnoref Hg).
  - destruct (_ && _); [auto with held|]. do 3 (apply held_app; [solve [auto with held]|]).
    apply held_app; [|apply combinators_held].
    destruct v; auto with held; [apply number_held|apply string_held|apply array_held|apply object_held].
Qed.
End checked.

Lemma walk_held f : forall schema, (exists p, check_schema_at f schema p = []) -> has_ref schema = false ->
  forall cx v path, Held (walk f cx schema v path).
Proof.
  induction f as [|f IH]; intros schema [p Hc] Hr cx v path; [done|]. cbn [walk].
  destruct schema as [|[]| | | |s]; try done; [apply Forall_nil_2|by apply held_one|].
  apply (object_schema_held f (walk f)) with (p := p); [|done|done]. intros sub [Hs Hn] cx' v' path'. by apply IH.
Qed.
(** C32: [validate_with] accepts a value exactly when it is valid against the
    schema, keyword by keyword (references followed, patterns held to the
    resolver, the combinators as their meaning says), within the 65 levels the
    validator descends. *)
Theorem validate_with_iff schema v r :
  validate_with schema v r = Ok tt <-> valid (S MAX_DEPTH) (mkCx schema (Some r)) schema v.
Proof. unfold validate_with, run. rewrite <- (walk_iff _ _ _ _ nil_str). by destruct (walk _ _ _ _ _). Qed.

(** A schema that [check_schema] accepts, and that holds no reference, is
    one the validator can apply to the end: whatever the value and the
    resolver, no violation says that the nesting was too deep, that something
    was no schema or that a reference did not resolve. *)
Theorem checked_schema_applies schema v r errs :
  check_schema schema = Ok tt -> has_ref schema = false ->
  validate_with schema v r = Err errs -> forall e, e ∈ errs -> stopped e = false.
Proof.
  unfold check_schema, validate_with, run. intros Hc Hr He.
  destruct (check_schema_at (S MAX_DEPTH) schema nil_str) eqn:Ec; [|done].
  pose proof (walk_held (S MAX_DEPTH) schema (ex_intro _ _ Ec) Hr (mkCx schema (Some r)) v nil_str) as Hh.
  cbn [root] in He. destruct (walk (S MAX_DEPTH) _ schema v nil_str); [done|]. injection He as <-.
  by apply Forall_forall.
Qed.

Definition plain : Value := jobj [("type", VStr "object"); ("required", VArr [VStr "n"])].
Definition no_resolver : Resolver := mkResolver (fun _ => None) (fun _ _ => None).
Lemma checked_schema_applies_witness :
  validate_with plain (jobj []) no_resolver = Err [mkError "/" (MissingProperty "n")] /\
  stopped (mkError "/" (MissingProperty "n")) = false.
Proof.
  split; [vm_compute; reflexivity|].
  refine (checked_schema_applies plain (jobj []) no_resolver _ _ _ _ _ _);
    [vm_compute; reflexivity..|by left].
Defined.
End SchemaProps.
