(* ===== verification/Streams.v ===== *)
(** * Event streams

    [crates/agentd/src/runtime/streams.rs]: events appended to a named stream
    of the durable store, kept in order under create-only keys, trimmed by
    retention.  The fields an event takes on from a run or a span ([carries],
    [traceparent], [tracestate]) are an argument. *)

From S2P Require Export Durable Text.

Module Streams.

Definition HEAD_PROBES : nat := 1024.

(** [subject_matches]: exact, or a prefix and a star. *)
Definition strip_star (p : string) : option string :=
  match rev (chars p) with
  | c :: l => if decide (c = "*"%char) then Some (text (rev l)) else None
  | [] => None
  end.
Definition subject_matches (pattern subject : string) : bool :=
  match strip_star pattern with
  | Some prefix => starts_with prefix subject
  | None => bool_decide (pattern = subject)
  end.

(** [{stream}/e{seq:020}]. *)
Definition pad20 (n : Z) : list char := replicate (20 - length (decimal n)) "0"%char ++ decimal n.
Definition stream_key (stream : string) (seq : Z) : string := stream +:+ "/e" +:+ text (pad20 seq).

(** ** Settings *)

(** A declared stream: its retention, the age in milliseconds. *)
Record StreamCfg := mkStreamCfg { cfg_max_events : option Z; cfg_max_age : option Z }.
Definition max_events (c : StreamCfg) : Z := default 10000%Z (cfg_max_events c).
Definition max_age_ms (c : StreamCfg) : option Z := cfg_max_age c.

Inductive Refusal : Type :=
  | Undeclared (stream : string)
  | Pressure (cause : string)
  | StoreFailed (e : StoreError)
  | Recovering (from to : Z)
  | HeadNotSaved (e : StoreError).
Inductive AppendError : Type :=
  | TooLarge_ (e : StoreError)
  | Refused (why : Refusal).

(** What the runtime holds of it: the store, the declared streams, what
    pressure refuses new work with, and whether consumers are to be woken. *)
Record Producer (S : Type) := mkProducer {
  p_durable : Durable S;
  p_streams : gmap string StreamCfg;
  p_pressure : option string;
  stream_dirty : bool;
}.
Arguments mkProducer {S}.
Arguments p_durable {S}.
Arguments p_streams {S}.
Arguments p_pressure {S}.
Arguments stream_dirty {S}.

Section producer.
Context {S : Type} `{Store S} `{Clock} `{JsonLen}.
Implicit Types (p : Producer S).

Abbreviation prodM := (stM (Producer S) AppendError).

Definition set_durable (d : Durable S) p : Producer S :=
  mkProducer d (p_streams p) (p_pressure p) (stream_dirty p).
Definition wake p : Producer S := mkProducer (p_durable p) (p_streams p) (p_pressure p) true.
Definition on_durable {A} (f : StoreError -> AppendError) (m : stM (Durable S) StoreError A) : prodM A :=
  fun p => let '(d, r) := m (p_durable p) in (set_durable d p, map_err f r).

Definition append_error (e : StoreError) : AppendError :=
  match e with TooLarge _ _ _ => TooLarge_ e | _ => Refused (StoreFailed e) end.

(** The manifest's meta of a stream: none yet, nothing written, the first to
    come is 1. *)
Definition meta_of (stream : string) (d : Durable S) : StreamMeta :=
  let m := default (mkStreamMeta 0 0) (m_streams (d_manifest d) !! stream) in
  if (stream_first m =? 0)%Z then mkStreamMeta (stream_seq m) 1 else m.

Definition insert_stream (stream : string) (meta : StreamMeta) (m : Manifest) : Manifest :=
  mkManifest (m_generation m) (m_created m) (m_updated m) (m_entities m) (m_starts m)
    (<[stream := meta]> (m_streams m)) (m_breakers m) (m_budget m) (m_lifecycle m)
    (m_config_digest m) (m_retired m).
Definition put_meta (stream : string) (meta : StreamMeta) : stM (Durable S) StoreError unit :=
  manifest_update (insert_stream stream meta).

Definition event_value (stream subject : string) (correlation : option string) (data : Value)
    (id source : string) (extra : list (string * Value)) (seq ts : Z) : Value :=
  jobj ([("id", VStr id); ("stream", VStr stream); ("subject", VStr subject); ("seq", ju64 seq);
         ("ts", ju64 ts); ("source", VStr source); ("correlation", to_value correlation); ("data", data)]
    ++ extra).

(** The create-only write, past the keys already taken: the number written,
    or, out of probes, the last one found taken. *)
Fixpoint probe (left : nat) (stream : string) (event : Z -> Z -> Value) (seq : Z) :
    stM (Durable S) StoreError (Z * bool) :=
  ts ← now_ms;
  created ← create Event (stream_key stream seq) (event seq ts);
  match created with
  | Some _ => mret (seq, true)
  | None =>
      match left with
      | O => mret (seq, false)
      | Datatypes.S l => probe l stream event (u64_add seq 1)
      end
  end.

(** [let _ = self.durable.delete(..)]. *)
Definition drop_event (stream : string) (seq : Z) : stM (Durable S) StoreError unit :=
  _ ← attempt (delete_entity Event (stream_key stream seq)); mret tt.

(** [while seq - first + 1 > max_events]. *)
Fixpoint trim_count (fuel : nat) (stream : string) (seq max first : Z) : stM (Durable S) StoreError Z :=
  match fuel with
  | O => mret first
  | Datatypes.S f =>
      if (max <? u64_wrap (seq - first + 1))%Z then
        _ ← drop_event stream first; trim_count f stream seq max (u64_add first 1)
      else mret first
  end.

Definition expired (cutoff : Z) (old : result StoreError (option Envelope)) : bool :=
  match old with
  | Ok (Some e) =>
      match get "ts" (env_state e) ≫= as_u64 with Some ts => (ts <? cutoff)%Z | None => false end
  | _ => false
  end.

Fixpoint trim_age (budget : nat) (stream : string) (seq cutoff first : Z) : stM (Durable S) StoreError Z :=
  match budget with
  | O => mret first
  | Datatypes.S b =>
      if (first <? seq)%Z then
        old ← attempt (get_entity Event (stream_key stream first));
        if expired cutoff old then
          _ ← drop_event stream first; trim_age b stream seq cutoff (u64_add first 1)
        else mret first
      else mret first
  end.

Definition retain (cfg : StreamCfg) (stream : string) (seq first : Z) : stM (Durable S) StoreError Z :=
  first ← trim_count (Z.to_nat (seq - first + 1)) stream seq (max_events cfg) first;
  match max_age_ms cfg with
  | Some age => now ← now_ms; trim_age 8 stream seq (u64_sat_sub now age) first
  | None => mret first
  end.

Definition append (stream subject : string) (correlation : option string) (data : Value)
    (id source : string) (extra : list (string * Value)) : prodM Z :=
  cfg ← gets (fun p => p_streams p !! stream);
  match cfg with
  | None => throw (Refused (Undeclared stream))
  | Some cfg =>
      shed ← gets p_pressure;
      match shed with
      | Some cause => throw (Refused (Pressure cause))
      | None =>
          meta ← gets (fun p => meta_of stream (p_durable p));
          let head := stream_seq meta in
          found ← on_durable append_error
                    (probe (HEAD_PROBES - 1) stream
                       (event_value stream subject correlation data id source extra) (u64_add head 1));
          let '(seq, written) := found in
          if (written : bool) then
            first ← on_durable append_error (retain cfg stream seq (stream_first meta));
            _ ← on_durable append_error (put_meta stream (mkStreamMeta seq first));
            _ ← modify wake;
            mret seq
          else
            _ ← on_durable append_error (put_meta stream (mkStreamMeta seq (stream_first meta)));
            _ ← modify wake;
            throw (Refused (Recovering (u64_add head 1) seq))
      end
  end.

(** [append_event_acked]: the head is saved before the producer is answered. *)
Definition append_acked (stream subject : string) (correlation : option string) (data : Value)
    (id source : string) (extra : list (string * Value)) : prodM Z :=
  seq ← append stream subject correlation data id source extra;
  _ ← on_durable (fun e => Refused (HeadNotSaved e)) (flush true);
  mret seq.
End producer.
End Streams.
