(* ===== verification/StreamsProps.v ===== *)
(** * Event streams: nothing appended is overwritten or lost

    Theorems on [Streams]: an append leaves every event in the store where it
    was but those retention trims; an append answered outside the process is
    there, and under the head, in the next life. *)

From S2P Require Export Streams DurableProps.

Module StreamsProps.
Import Streams.

(** ** Keys *)

Lemma decimal_length n : (0 <= n < 10 ^ 20)%Z -> length (decimal n) <= 20.
Proof.
  intros Hn. destruct (decimal_spec n) as (_ & Hd & He & Hbig & Hsmall); [lia|].
  destruct (Z.ltb_spec n 10) as [Hlt|Hge]; [rewrite Hsmall by done; lia|].
  destruct (Hbig Hge) as (a & l & E & Ha). rewrite E in *.
  apply Forall_cons in Hd as [Hda Hdl]. pose proof (is_digit_val a Hda) as Hv.
  change (eval (a :: l)) with (eval_from (0 * 10 + digit_val a) l) in He. rewrite eval_from_val in He.
  pose proof (eval_bound l Hdl) as Hb. destruct (decide (length (a :: l) <= 20)) as [|Hgt]; [done|].
  exfalso. cbn in Hgt. assert (10 ^ 20 <= 10 ^ Z.of_nat (length l))%Z by (apply Z.pow_le_mono_r; lia). nia.
Qed.

Lemma pad20_length n : (0 <= n < 10 ^ 20)%Z -> length (pad20 n) = 20.
Proof.
  intros Hn. unfold pad20. rewrite length_app, length_replicate. pose proof (decimal_length n Hn). lia.
Qed.

Lemma pad20_inj n n' : (0 <= n)%Z -> (0 <= n')%Z -> pad20 n = pad20 n' -> n = n'.
Proof.
  intros Hn Hn' E. apply (f_equal eval) in E. unfold pad20 in E. rewrite !eval_zeros in E.
  destruct (decimal_spec n Hn) as (_ & _ & He & _). destruct (decimal_spec n' Hn') as (_ & _ & He' & _). congruence.
Qed.

Lemma stream_key_inj s s' n n' :
  is_u64 n -> is_u64 n' -> stream_key s n = stream_key s' n' -> s = s' /\ n = n'.
Proof.
  unfold is_u64, u64_max. intros Hn Hn' E. apply (f_equal chars) in E. unfold stream_key in E.
  rewrite !chars_app, !chars_text in E.
  assert (length (chars "/e" ++ pad20 n) = length (chars "/e" ++ pad20 n')) as Hl.
  { rewrite !length_app, !pad20_length by lia. done. }
  apply app_inj_2 in E as [E1 E2]; [|done]. apply app_inv_head, pad20_inj in E2; [|lia..].
  split; [by apply chars_inj|done].
Qed.

(** ** Events held *)

Section streams.
Context {S : Type} `{StoreOk S} `{Clock} `{JsonLen}.
Implicit Types (d : Durable S) (p : Producer S).

(** The manifest in memory untouched. *)
Definition same_manifest d d' : Prop :=
  d_manifest d' = d_manifest d /\ d_manifest_dirty d' = d_manifest_dirty d.

#[local] Instance same_manifest_preorder : PreOrder same_manifest.
Proof. unfold same_manifest. split; [by intros ?|]. intros x y z [-> ->] [-> ->]. done. Qed.

(** The store holds the event [ev] at a place of a stream. *)
Definition holds d (stream : string) (seq : Z) (ev : Value) : Prop :=
  exists q v, live (dview d) (d_key d Event (stream_key stream seq)) q v /\ get "state" v = Some ev.

(** Live records are numbered from 1. *)
Definition numbered d : Prop := forall k q v, live (dview d) k q v -> (1 <= q)%Z.

Lemma holds_fun d stream seq ev ev' : holds d stream seq ev -> holds d stream seq ev' -> ev = ev'.
Proof. intros (q & v & [Hv _] & Hs) (q' & v' & [Hv' _] & Hs'). congruence. Qed.

Lemma holds_same d d' stream seq ev :
  static d d' -> dview d' !! d_key d Event (stream_key stream seq) = dview d !! d_key d Event (stream_key stream seq) ->
  holds d' stream seq ev <-> holds d stream seq ev.
Proof. intros Hs E. unfold holds, live. by rewrite (d_key_static _ _ _ _ Hs), E. Qed.

Lemma same_write_holds d stream seq q v env :
  dview d !! d_key d Event (stream_key stream seq) = Some (q, v) -> same_write v env ->
  is_null (env_state env) = false -> holds d stream seq (env_state env).
Proof.
  intros Hv (_ & _ & _ & Hst) Hn. rewrite get_state_envelope in Hst. exists q, v. split; [|done].
  split; [done|]. unfold value_tombstone. rewrite Hst. by destruct (env_state env).
Qed.

(** A record written under a number from 1 on. *)
Lemma put_numbered d d' k seq v :
  dview d' = dview d \/ put_applied (dview d) k seq v (dview d') ->
  (accepts (dview d) k seq -> (1 <= seq)%Z) -> numbered d -> numbered d'.
Proof.
  intros [Hv|[Ha Hv]] Hseq Hnum k' q' v' [Hl Ht]; rewrite Hv in Hl; [by apply (Hnum k' q' v')|].
  apply lookup_insert_Some in Hl as [[<- [= <- <-]]|[_ Hl]]; [by apply Hseq|by apply (Hnum k' q' v')].
Qed.

(** A create-only write, whatever its outcome. *)
Lemma create_spec kind id state d :
  is_null state = false -> indexed kind = false ->
  let k := d_key d kind id in
  let '(d', r) := create kind id state d in
  static d d' /\ same_manifest d d' /\
  (forall j, j <> k -> dview d' !! j = dview d !! j) /\
  (numbered d -> forall q v, live (dview d) k q v -> dview d' = dview d) /\
  (numbered d -> numbered d') /\
  match r with
  | Ok (Some _) => on_error (d_policy d) = Degrade \/ exists q v seq ts, dview d' !! k = Some (q, v) /\
      same_write v (mkEnvelope (kind_as_str kind) id seq ts (d_instance d) None state)
  | Ok None => dview d' = dview d
  | Err _ => True
  end.
Proof.
  intros Hnull Hidx k.
  pose proof (fun a t d => create_pass kind id state None a t d) as P.
  pose proof (fun a t d => pass_manifest kind id state None true a t (d_manifest d, d_manifest_dirty d) Hidx d (conj eq_refl eq_refl)) as M.
  unfold create, write, mbind, stM_bind, gets.
  pose proof (check_size_spec (d_key d kind id) state d) as [E1 E2].
  destruct (check_size _ _ _) as [d0 [[]|e]]; cbn in E1, E2; subst d0; [|by split_and!]. clear E2.
  cbn [write_loop]. run_st. pose proof (P false None d) as P1. pose proof (M false None d) as M1. cbv zeta in P1.
  destruct (write_pass _ _ _ _ _ _ _ d) as [d1 r1]. cbn [fst] in M1. cbn [next_seq fst] in P1.
  destruct P1 as (Hs1 & Hv1 & Hr1). fold (same_manifest d d1) in M1.
  assert (forall q v, numbered d -> live (dview d) k q v -> dview d1 = dview d) as Hlive1.
  { intros q v Hnum Hl. destruct Hv1 as [|[Hacc _]]; [done|]. rewrite (accepts_live _ _ q v) in Hacc by done.
    pose proof (Hnum _ _ _ Hl). lia. }
  assert (numbered d -> numbered d1) as Hnum1 by (intros Hnum; by apply (put_numbered d d1 k 1 _ Hv1)).
  assert (forall j, j <> k -> dview d1 !! j = dview d !! j) as Hfr1.
  { intros j Hj. destruct Hv1 as [->|[_ ->]]; [done|]. by rewrite lookup_insert_ne. }
  destruct r1 as [[a t|[s|]]|e]; cbn.
  - destruct Hr1 as (_ & _ & Hnl & Hna). destruct (Hna Hnull) as [Hv Hacc1].
    pose proof (P a t d1) as P2. pose proof (M a t d1) as M2. cbv zeta in P2.
    destruct (write_pass _ _ _ _ _ _ _ d1) as [d2 r2]. destruct P2 as (Hs2 & Hv2 & Hr2).
    fold (same_manifest d1 d2) in M2.
    rewrite (d_key_static _ _ _ _ Hs1), Hv in Hv2, Hr2.
    assert (static d d2) as Hs by (by etrans). assert (same_manifest d d2) as Hm by (by etrans).
    assert (forall j, j <> k -> dview d2 !! j = dview d !! j) as Hfr2.
    { intros j Hj. destruct Hv2 as [->|[_ ->]]; [done|]. by rewrite lookup_insert_ne. }
    assert (numbered d -> forall q v, live (dview d) k q v -> dview d2 = dview d) as Hlive2.
    { intros _ q v Hl. rewrite Hv in Hnl. by destruct (Hnl q v). }
    assert (numbered d -> numbered d2) as Hnum2.
    { intros Hnum. apply (put_numbered d d2 k _ _ Hv2); [|done]. intros Ha. unfold accepts in Hacc1, Ha.
      fold k in Hacc1. destruct (dview d !! k) as [[q v]|]; [lia|done]. }
    destruct r2 as [[a' t'|[s|]]|e]; cbn.
    + destruct Hr2 as (-> & _ & _). by split_and!.
    + destruct Hr2 as [_ Hr2]. split_and!; try done. destruct Hr2 as [[_ Hd]|(q & v & Hk & Hsame)].
      { left. by destruct Hs1 as (_ & _ & <- & _). }
      right.
      eexists q, v, _, _. split; [done|]. unfold pass_env in Hsame.
      destruct Hs1 as (_ & Hi & _). rewrite Hi in Hsame. exact Hsame.
    + destruct (Hr2 Hnull) as [-> _]. by split_and!.
    + by split_and!.
  - destruct Hr1 as [_ Hr1]. split_and!; try done; [intros; by eapply Hlive1|].
    destruct Hr1 as [[_ ?]|(q & v & Hk & Hsame)]; [by left|right]. by eexists q, v, _, _.
  - destruct (Hr1 Hnull) as [-> _]. by split_and!.
  - split_and!; try done. intros; by eapply Hlive1.
Qed.

(** The store itself sets no limit on a value's size: the façade's check is the
    only source of [StoreError::TooLarge]. *)
Definition unsized : Prop :=
  (forall k seq v s s' k' n cap, store_put k seq v s <> (s', Err (TooLarge k' n cap))) /\
  (forall k o s s' k' n cap, store_get k o s <> (s', Err (TooLarge k' n cap))).

Lemma with_retry_unsized {A} (op : stM S StoreError A) n s s' k b cap :
  (forall s s', op s <> (s', Err (TooLarge k b cap))) -> with_retry op n s <> (s', Err (TooLarge k b cap)).
Proof.
  unfold with_retry. intros Hop. assert (@None StoreError <> Some (TooLarge k b cap)) as Hl by done. revert Hl.
  generalize (@None StoreError) as last. revert s. induction (n `max` 1) as [|m IH]; intros s last Hl; cbn [retry_loop].
  - unfold throw. destruct last as [e|]; cbn; intros E; [|done]. by injection E as _ ->.
  - specialize (Hop s). destruct (op s) as [s1 [a|[]]]; try (by intros [=]); [by apply IH|].
    intros [= -> -> -> ->]. by apply (Hop s').
Qed.

(** What a pass puts at its key is the state it was given. *)
Lemma create_pass_adds kind id state adopted tomb d q v :
  live (dview (write_pass kind id state None true adopted tomb d).1) (d_key d kind id) q v ->
  live (dview d) (d_key d kind id) q v \/ get "state" v = Some state.
Proof.
  pose proof (create_pass kind id state None adopted tomb d) as Hp. cbv zeta in Hp.
  destruct (write_pass _ _ _ _ _ _ _ d) as [d' r]. destruct Hp as (_ & Hv & _). cbn [fst].
  destruct Hv as [->|[_ ->]]; [by left|]. intros [Hl _]. rewrite lookup_insert_eq in Hl. injection Hl as <- <-.
  right. apply get_state_envelope.
Qed.

Lemma create_adds kind id state d q v :
  live (dview (create kind id state d).1) (d_key d kind id) q v ->
  live (dview d) (d_key d kind id) q v \/ get "state" v = Some state.
Proof.
  unfold create, write, mbind, stM_bind, gets.
  pose proof (check_size_spec (d_key d kind id) state d) as [E1 E2].
  destruct (check_size _ _ _) as [d0 [[]|e]]; cbn in E1, E2; subst d0; [|by left]. clear E2.
  cbn [write_loop]. run_st. pose proof (create_pass_adds kind id state false None d) as P1.
  pose proof (create_pass kind id state None false None d) as Hp. cbv zeta in Hp.
  destruct (write_pass _ _ _ _ _ _ _ d) as [d1 r1]. destruct Hp as (Hs1 & _).
  destruct r1 as [[a t|o]|e]; cbn; [|by apply P1..].
  pose proof (fun q v => create_pass_adds kind id state a t d1 q v) as P2.
  destruct (write_pass _ _ _ _ _ _ _ d1) as [d2 [[a' t'|o]|e]]; cbn in *;
    rewrite (d_key_static _ _ _ _ Hs1) in P2; intros [Hl|]%P2; auto.
Qed.

Lemma create_pass_unsized kind id state adopted tomb d d' k b cap :
  unsized -> write_pass kind id state None true adopted tomb d <> (d', Err (TooLarge k b cap)).
Proof.
  intros [Hput Hget]. unfold write_pass, resolve_conflict, conclude, create_conflict, on_store, remember, update_manifest, now_ms.
  run_st. destruct (next_seq true tomb (d_key d kind id) d) as [seq warmed]. cbn.
  pose proof (with_retry_unsized (store_put (d_key d kind id) seq (to_value (pass_env d kind id seq None state)))
    (retries (d_policy d)) (d_store d)) as Hp. unfold pass_env in Hp.
  change (d_key (tick d) kind id) with (d_key d kind id).
  destruct (with_retry (store_put _ _ _) _ _) as [s1 [[|latest]|e]].
  - by destruct (indexed kind).
  - set (n := retries _). set (st := d_store _).
    pose proof (with_retry_unsized (store_get (d_key d kind id) None) n st) as Hg.
    destruct (with_retry _ n st) as [s2 [o|e]].
    + repeat (case_match; cbn in *; try done).
    + cbn. intros [= _ ->]. by eapply Hg.
  - destruct (decide _); [done|]. cbn. intros [= _ ->]. by eapply Hp.
Qed.

(** A value is refused as too large before anything is written, by the
    policy's limit. *)
Lemma create_too_large kind id state d d' e :
  unsized -> create kind id state d = (d', Err e) -> append_error e = TooLarge_ e ->
  dview d' = dview d /\ exists cap, max_value_bytes (d_policy d) = Some cap /\ (cap < json_len state)%Z.
Proof.
  intros Hun E He. assert (exists k b cap, e = TooLarge k b cap) as (k & b & c & ->) by (destruct e; try done; eauto).
  revert E. unfold create, write, mbind, stM_bind, gets.
  pose proof (check_size_spec (d_key d kind id) state d) as [E1 E2].
  destruct (check_size _ _ _) as [d0 [[]|e]]; cbn in E1, E2; subst d0.
  2: { intros [= <- ->]. destruct (max_value_bytes (d_policy d)) as [cap|]; [|done].
       destruct (Z.ltb_spec cap (json_len state)); [|done]. split; [done|]. by exists cap. }
  cbn [write_loop]. run_st.
  pose proof (fun d' => create_pass_unsized kind id state false None d d' k b c Hun) as P1.
  destruct (write_pass _ _ _ _ _ _ _ d) as [d1 [[a t|o]|e]]; [|done|intros [= <- ->]; by destruct (P1 d1)].
  pose proof (fun d' => create_pass_unsized kind id state a t d1 d' k b c Hun) as P2.
  destruct (write_pass _ _ _ _ _ _ _ d1) as [d2 [[a' t'|o]|e]]; [done|done|intros [= <- ->]; by destruct (P2 d2)].
Qed.

Lemma delete_manifest kind id m : indexed kind = false -> preserves (manifest_is m) (delete_entity kind id).
Proof.
  intros Hi. unfold delete_entity. rewrite Hi.
  solve_preserves ltac:(first [apply on_store_manifest | by apply put_manifest | by apply modify_manifest]).
Qed.

Lemma get_manifest kind id m : preserves (manifest_is m) (get_entity kind id).
Proof.
  unfold get_entity, remember.
  solve_preserves ltac:(first [apply on_store_manifest | by apply modify_manifest]).
Qed.

(** What is not an event is left alone. *)
Definition aside d d' : Prop :=
  forall kind id, kind <> Event -> dview d' !! d_key d kind id = dview d !! d_key d kind id.

Lemma aside_trans d d1 d2 : static d d1 -> aside d d1 -> aside d1 d2 -> aside d d2.
Proof.
  intros Hs H1' H2' kind id Hne. rewrite <- (H1' kind id Hne).
  rewrite <- (d_key_static _ _ _ _ Hs). by apply H2'.
Qed.

Lemma aside_frame d d' id :
  (forall j, j <> d_key d Event id -> dview d' !! j = dview d !! j) -> aside d d'.
Proof. intros Hfr kind i Hne. apply Hfr. intros E. by apply d_key_kind_ne in E. Qed.

(** What stays where it is when places of one stream are given up. *)
Definition spared (stream : string) (from to : Z) d d' : Prop :=
  static d d' /\ same_manifest d d' /\ (numbered d -> numbered d') /\ aside d d' /\
  (forall st s ev, is_u64 s -> (st = stream -> (s < from \/ to <= s)%Z) -> holds d st s ev -> holds d' st s ev) /\
  forall st s ev, holds d' st s ev -> holds d st s ev.

Lemma spared_refl stream from to d : spared stream from to d d.
Proof. by split_and!. Qed.

Lemma spared_trans stream a b c d d1 d2 :
  (a <= b <= c)%Z -> spared stream a b d d1 -> spared stream b c d1 d2 -> spared stream a c d d2.
Proof.
  intros Habc (Hs1 & Hm1 & Hn1 & Ha1 & H1' & Hb1) (Hs2 & Hm2 & Hn2 & Ha2 & H2' & Hb2).
  split_and!; [by etrans|by etrans|by auto|by eapply aside_trans| |by auto].
  intros st s ev Hu Hor Hh. apply H2'; [done|intros E; specialize (Hor E); lia|].
  apply H1'; [done|intros E; specialize (Hor E); lia|done].
Qed.

Lemma spared_frame stream seq d d' :
  is_u64 seq -> static d d' -> same_manifest d d' ->
  (forall j, j <> d_key d Event (stream_key stream seq) -> dview d' !! j = dview d !! j) ->
  (forall q v, live (dview d') (d_key d Event (stream_key stream seq)) q v ->
    live (dview d) (d_key d Event (stream_key stream seq)) q v) ->
  spared stream seq (seq + 1) d d'.
Proof.
  intros Hseq Hs Hm Hfr Hlv. split_and!; [done|done| |by eapply aside_frame| |].
  { intros Hnum k q v Hl. destruct (decide (k = d_key d Event (stream_key stream seq))) as [->|Hne];
      [exact (Hnum _ _ _ (Hlv _ _ Hl))|]. destruct Hl as [Hl Ht]. rewrite Hfr in Hl by done. by apply (Hnum k q v). }
  - intros st s ev Hu Hor Hh. apply (holds_same d d'); [done| |done]. apply Hfr. intros E. apply d_key_inj in E.
    apply stream_key_inj in E as [-> ->]; [|done..]. specialize (Hor eq_refl). lia.
  - intros st s ev (q & v & Hl & Hev). exists q, v. split; [|done]. rewrite (d_key_static _ _ _ _ Hs) in Hl.
    destruct (decide (d_key d Event (stream_key st s) = d_key d Event (stream_key stream seq))) as [E|Hne].
    + rewrite E in *. by apply Hlv.
    + destruct Hl as [Hl Ht]. rewrite Hfr in Hl by done. by split.
Qed.

Lemma drop_event_spec stream seq d :
  is_u64 seq ->
  let '(d', r) := drop_event stream seq d in r = Ok tt /\ spared stream seq (seq + 1) d d'.
Proof.
  intros Hseq. unfold drop_event. run_st.
  pose proof (delete_spec Event (stream_key stream seq) d) as Hd.
  pose proof (delete_manifest Event (stream_key stream seq) (d_manifest d, d_manifest_dirty d) eq_refl d (conj eq_refl eq_refl)) as Hm.
  destruct (delete_entity _ _ d) as [d' r]. destruct Hd as (Hs & Hfr & Hlv & _). cbn in *.
  split; [done|]. by apply spared_frame.
Qed.

Lemma trim_count_spec fuel stream seq max : forall first d,
  is_u64 first -> is_u64 (first + Z.of_nat fuel) ->
  let '(d', r) := trim_count fuel stream seq max first d in
  exists f', r = Ok f' /\ (first <= f' <= first + Z.of_nat fuel)%Z /\
    (is_u64 (seq + 1) -> 1 <= max -> first <= seq -> f' <= seq)%Z /\ spared stream first f' d d'.
Proof.
  induction fuel as [|f IH]; intros first d Hu Hu'; cbn [trim_count].
  - exists first. split_and!; [done|lia|lia|done|apply spared_refl].
  - destruct (Z.ltb_spec max (u64_wrap (seq - first + 1))) as [Hmax|]; [|exists first; split_and!; [done|lia|lia|done|apply spared_refl]].
    unfold mbind at 1, stM_bind at 1. pose proof (drop_event_spec stream first d Hu) as Hd.
    destruct (drop_event stream first d) as [d1 r]. destruct Hd as [-> Hsp].
    assert (is_u64 (first + 1)) as Hu1 by (unfold is_u64 in *; lia). rewrite u64_add_small by done.
    specialize (IH (first + 1)%Z d1 Hu1). destruct (trim_count f _ _ _ _ d1) as [d2 r2].
    destruct IH as (f' & -> & Hf' & Hone & Hsp2); [unfold is_u64 in *; lia|].
    exists f'. split_and!; [done|lia|lia| |eapply spared_trans; [|done|done]; lia].
    intros Hsq H1m Hle. apply Hone; [done|done|]. unfold u64_wrap in Hmax. rewrite Z.mod_small in Hmax; [lia|].
    unfold is_u64, u64_max in *. lia.
Qed.

Lemma quiet_spared stream a d d' : quiet d d' -> same_manifest d d' -> spared stream a a d d'.
Proof.
  intros (Hs & Hv & _ & _) Hm. split_and!; [done|done|by unfold numbered; rewrite Hv|by intros kind id _; rewrite Hv| |];
    intros st s ev; [intros _ _|]; apply (holds_same d d'); try done; by rewrite Hv.
Qed.

Lemma trim_age_spec budget stream seq cutoff : forall first d,
  is_u64 first -> is_u64 seq ->
  let '(d', r) := trim_age budget stream seq cutoff first d in
  exists f', r = Ok f' /\ (first <= f' <= Z.max first seq)%Z /\ spared stream first f' d d'.
Proof.
  induction budget as [|b IH]; intros first d Hu Hs; cbn [trim_age].
  - exists first. split_and!; [done|lia|lia|apply spared_refl].
  - destruct (Z.ltb_spec first seq); [|exists first; split_and!; [done|lia|lia|apply spared_refl]].
    unfold attempt, mbind at 1, stM_bind at 1.
    pose proof (get_stored Event (stream_key stream first) d) as Hg.
    pose proof (get_manifest Event (stream_key stream first) (d_manifest d, d_manifest_dirty d) d (conj eq_refl eq_refl)) as Hm.
    destruct (get_entity _ _ d) as [d1 r1]. destruct Hg as [Hq _].
    apply (quiet_spared stream first) in Hq; [|done]. destruct (expired cutoff r1).
    2: { exists first. split_and!; [done|lia|lia|done]. }
    unfold mbind at 1, stM_bind at 1. pose proof (drop_event_spec stream first d1 Hu) as Hd.
    destruct (drop_event stream first d1) as [d2 r]. destruct Hd as [-> Hsp].
    assert (is_u64 (first + 1)) as Hu1 by (unfold is_u64 in *; lia). rewrite u64_add_small by done.
    specialize (IH (first + 1)%Z d2 Hu1 Hs). destruct (trim_age b _ _ _ _ d2) as [d3 r3].
    destruct IH as (f' & -> & Hf' & Hsp2). exists f'. split_and!; [done|lia|lia|].
    apply (spared_trans stream first first f' d d1 d3); [lia|done|].
    by apply (spared_trans stream first (first + 1) f' d1 d2 d3); [lia| |].
Qed.

Lemma retain_spec cfg stream seq first d :
  is_u64 first -> is_u64 seq -> is_u64 (seq + 1) ->
  let '(d', r) := retain cfg stream seq first d in
  exists f', r = Ok f' /\ (first <= f' <= Z.max first (seq + 1))%Z /\
    (1 <= max_events cfg -> first <= seq -> f' <= seq)%Z /\ spared stream first f' d d'.
Proof.
  intros Hf Hs0 Hseq. unfold retain. unfold mbind at 1, stM_bind at 1.
  pose proof (trim_count_spec (Z.to_nat (seq - first + 1)) stream seq (max_events cfg) first d Hf) as Hc.
  destruct (trim_count _ _ _ _ _ d) as [d1 r1]. destruct Hc as (f1 & -> & Hf1 & Hone & Hsp1); [unfold is_u64 in *; lia|].
  specialize (Hone Hseq). destruct (max_age_ms cfg) as [age|].
  2: { exists f1. split_and!; [done|lia|lia|done|done]. }
  unfold mbind, stM_bind, now_ms.
  assert (spared stream f1 f1 d1 (tick d1)) as Ht by (by apply quiet_spared).
  pose proof (trim_age_spec 8 stream seq (u64_sat_sub (wall (d_ticks d1)) age) f1 (tick d1)) as Ha.
  destruct (trim_age _ _ _ _ _ _) as [d2 r2]. destruct Ha as (f2 & -> & Hf2 & Hsp2); [unfold is_u64 in *; lia..|].
  exists f2. split_and!; [done|lia|lia|intros; specialize (Hone ltac:(lia) ltac:(lia)); lia|].
  apply (spared_trans stream first f1 f2 d d1 d2); [lia|done|].
  by apply (spared_trans stream f1 f1 f2 d1 (tick d1) d2); [lia| |].
Qed.

(** The create-only write, past the keys already taken. *)
Lemma probe_spec left stream event : forall seq d,
  (forall n t, is_null (event n t) = false) -> is_u64 seq -> is_u64 (seq + Z.of_nat left) -> numbered d ->
  let '(d', r) := probe left stream event seq d in
  static d d' /\ same_manifest d d' /\ numbered d' /\ aside d d' /\
  (forall st s ev, is_u64 s -> holds d st s ev -> holds d' st s ev) /\
  match r with
  | Ok (n, true) => (seq <= n <= seq + Z.of_nat left)%Z /\
      (on_error (d_policy d) = Degrade \/ exists t, holds d' stream n (event n t))
  | Ok (n, false) => n = (seq + Z.of_nat left)%Z
  | Err _ => True
  end.
Proof.
  induction left as [|l IH]; intros seq d Hnn Hu Hu' Hnum; cbn [probe].
  all: unfold mbind, stM_bind, now_ms; set (t := wall (d_ticks d)).
  all: pose proof (create_spec Event (stream_key stream seq) (event seq t) (tick d) (Hnn _ _) eq_refl) as Hc;
    cbv zeta in Hc; destruct (create _ _ _ (tick d)) as [d1 r1]; destruct Hc as (Hs & Hm & Hfr & Hlive & Hnum1 & Hr); specialize (Hnum1 Hnum).
  all: change (d_key (tick d)) with (d_key d) in *; change (dview (tick d)) with (dview d) in *;
    change (same_manifest (tick d)) with (same_manifest d) in *; change (d_instance (tick d)) with (d_instance d) in *.
  all: assert (static d d1) as Hs' by exact Hs.
  all: assert (aside d d1) as Ha by exact (aside_frame d d1 _ Hfr).
  all: assert (forall st s ev, is_u64 s -> holds d st s ev -> holds d1 st s ev) as Hk.
  1, 3: intros st s ev Hus Hh; apply (holds_same d d1); [done| |done];
    destruct (decide (d_key d Event (stream_key st s) = d_key d Event (stream_key stream seq))) as [E|Hne];
    [|by apply Hfr]; destruct Hh as (q & v & Hl & _); rewrite E in Hl; by rewrite (Hlive Hnum q v Hl).
  all: destruct r1 as [[n1|]|e]; [| |by split_and!].
  1, 3: do 5 (split; [done|]); split; [lia|]; destruct Hr as [|(q & v & sq & ts & Hv & Hsame)]; [by left|right];
    exists t; apply (same_write_holds d1 stream seq q v _) in Hsame; [done| |apply Hnn];
    by rewrite (d_key_static _ _ _ _ Hs').
  - cbn. do 5 (split; [done|]). lia.
  - assert (is_u64 (seq + 1)) as Hu1 by (unfold is_u64 in *; lia). rewrite u64_add_small by done.
    specialize (IH (seq + 1)%Z d1 Hnn Hu1). destruct (probe l _ _ _ d1) as [d2 r2].
    destruct IH as (Hs2 & Hm2 & Hn2 & Ha2 & Hk2 & Hr2); [unfold is_u64 in *; lia|done|].
    split; [by etrans|]. split; [by etrans|]. split; [done|]. split; [by eapply aside_trans|]. split; [by auto|].
    destruct r2 as [[n [|]]|e]; [|lia|done]. destruct Hr2 as [Hn Hr2]. split; [lia|].
    destruct Hs' as (_ & _ & <- & _). done.
Qed.

Lemma append_error_cases e : append_error e = TooLarge_ e \/ append_error e = Refused (StoreFailed e).
Proof. destruct e; auto. Qed.

(** What a probe puts in the store is its event, at the number it answers. *)
Lemma probe_adds left stream event : forall seq d,
  unsized -> (forall n t, is_null (event n t) = false) -> is_u64 seq -> is_u64 (seq + Z.of_nat left) ->
  let '(d', r) := probe left stream event seq d in
  (forall st s ev, is_u64 s -> holds d' st s ev -> holds d st s ev \/
    st = stream /\ (seq <= s)%Z /\ (exists t, ev = event s t) /\
    match r with Ok (n, w) => w = true /\ s = n | Err e => append_error e = Refused (StoreFailed e) end) /\
  match r with
  | Err e => append_error e = TooLarge_ e -> exists n t cap, (seq <= n)%Z /\
      max_value_bytes (d_policy d) = Some cap /\ (cap < json_len (event n t))%Z
  | _ => True
  end.
Proof.
  induction left as [|l IH]; intros seq d Hun Hnn Hu Hu'; cbn [probe].
  all: unfold mbind, stM_bind, now_ms; set (t := wall (d_ticks d)); set (k := stream_key stream seq).
  all: pose proof (create_spec Event k (event seq t) (tick d) (Hnn _ _) eq_refl) as Hc;
    pose proof (create_adds Event k (event seq t) (tick d)) as Hadd;
    pose proof (fun d' e => create_too_large Event k (event seq t) (tick d) d' e Hun) as Hbig;
    cbv zeta in Hc; destruct (create _ _ _ (tick d)) as [d1 r1]; destruct Hc as (Hs & _ & Hfr & _ & _ & Hr).
  all: change (d_key (tick d)) with (d_key d) in *; change (dview (tick d)) with (dview d) in *;
    change (d_policy (tick d)) with (d_policy d) in *; cbn [fst] in Hadd.
  all: assert (static d d1) as Hs' by exact Hs.
  all: assert (forall st s ev, is_u64 s -> holds d1 st s ev -> holds d st s ev \/ st = stream /\ s = seq /\ ev = event seq t) as Hnew.
  1, 3: intros st s ev Hus (q & v & Hl & Hev); rewrite (d_key_static _ _ _ _ Hs') in Hl;
    destruct (decide (d_key d Event (stream_key st s) = d_key d Event k)) as [E|Hne];
    [rewrite E in Hl; apply Hadd in Hl as [Hl|Hst];
      [left; exists q, v; by rewrite E
      |right; apply d_key_inj in E; apply stream_key_inj in E as [-> ->]; [|done..]; by split_and!; [..|congruence]]
    |left; exists q, v; split; [|done]; destruct Hl as [Hl ?]; rewrite Hfr in Hl by done; by split].
  all: assert (dview d1 = dview d -> forall st s ev, holds d1 st s ev -> holds d st s ev) as Hold
    by (intros Hv st s ev; apply (holds_same d d1); [done|by rewrite Hv]).
  all: destruct r1 as [[n1|]|e].
  1, 4: split; [|done]; intros st s ev Hus [|(-> & -> & ->)]%Hnew; [by left|right|done]; split_and!; [done|lia|by exists t|done|done].
  2, 4: (split; [intros st s ev Hus Hh|intros He; destruct (Hbig d1 e eq_refl He) as (_ & cap & ? & ?); exists seq, t, cap; by split_and!; [lia|..]]);
    (destruct (append_error_cases e) as [He|He];
      [left; eapply Hold, Hh; by apply (Hbig d1 e)
      |apply Hnew in Hh as [|(-> & -> & ->)]; [by left|right|done]; split_and!; [done|lia|by exists t|exact He]]).
  - split; [|done]. intros st s ev _ Hh. left. by eapply Hold.
  - assert (is_u64 (seq + 1)) as Hu1 by (unfold is_u64 in *; lia). rewrite u64_add_small by done.
    specialize (IH (seq + 1)%Z d1 Hun Hnn Hu1). destruct (probe l _ _ _ d1) as [d2 r2].
    destruct IH as [IHa IHb]; [unfold is_u64 in *; lia|]. split.
    + intros st s ev Hus Hh. apply IHa in Hh as [Hh|(? & ? & ? & ?)]; [|right|done]; [left; by eapply Hold|]. split_and!; [done|lia|done|done].
    + destruct r2 as [|e]; [done|]. intros (n & tt0 & cap & ? & Hcap & ?)%IHb. exists n, tt0, cap.
      destruct Hs' as (_ & _ & Hp & _). rewrite Hp in Hcap. split_and!; [lia|done|done].
Qed.

Lemma put_meta_spec stream meta d :
  let '(d', r) := put_meta stream meta d in
  r = Ok tt /\ static d d' /\ dview d' = dview d /\ d_manifest_dirty d' = true /\
  m_streams (d_manifest d') = <[stream := meta]> (m_streams (d_manifest d)).
Proof. unfold put_meta, manifest_update. rewrite update_manifest_run. by split_and!. Qed.

Lemma meta_of_in stream meta d :
  (stream_first meta <> 0)%Z -> m_streams (d_manifest d) !! stream = Some meta -> meta_of stream d = meta.
Proof.
  intros Hne Hm. unfold meta_of. rewrite Hm. cbn. destruct (Z.eqb_spec (stream_first meta) 0); [done|by destruct meta].
Qed.
Lemma meta_of_other stream meta other d d0 :
  other <> stream -> m_streams (d_manifest d) = <[stream := meta]> (m_streams (d_manifest d0)) ->
  meta_of other d = meta_of other d0.
Proof. intros Ho E. unfold meta_of. by rewrite E, lookup_insert_ne. Qed.

(** The counters of a stream within a [u64], with room for one append. *)
Definition room (stream : string) d : Prop :=
  let m := meta_of stream d in
  is_u64 (stream_first m) /\ is_u64 (stream_seq m) /\ is_u64 (stream_seq m + Z.of_nat HEAD_PROBES + 1).

(** The stream's counters in step, and room in it for one event. *)
Definition keeps_one (stream : string) p : Prop :=
  (stream_first (meta_of stream (p_durable p)) <= stream_seq (meta_of stream (p_durable p)) + 1)%Z /\
  forall cfg, p_streams p !! stream = Some cfg -> (1 <= max_events cfg)%Z.

(** What an append leaves of the store it found. *)
Record kept (stream : string) (p p' : Producer S) (trimmed : bool) : Prop := {
  k_static : static (p_durable p) (p_durable p');
  k_settings : p_streams p' = p_streams p /\ p_pressure p' = p_pressure p;
  k_numbered : numbered (p_durable p');
  k_aside : aside (p_durable p) (p_durable p');
  k_dirty : d_manifest_dirty (p_durable p) = true -> d_manifest_dirty (p_durable p') = true;
  k_counters : let m := meta_of stream (p_durable p) in let m' := meta_of stream (p_durable p') in
    (stream_seq m <= stream_seq m' <= stream_seq m + Z.of_nat HEAD_PROBES)%Z /\
    (stream_first m <= stream_first m')%Z /\ is_u64 (stream_first m');
  k_events : forall st s ev, is_u64 s -> holds (p_durable p) st s ev ->
    holds (p_durable p') st s ev \/
    (st = stream /\ trimmed = true /\
     (stream_first (meta_of stream (p_durable p)) <= s < stream_first (meta_of stream (p_durable p')))%Z);
  k_others : forall st, st <> stream -> meta_of st (p_durable p') = meta_of st (p_durable p);
}.

Lemma stream_append_spec stream subject correlation data id source extra p :
  numbered (p_durable p) -> room stream (p_durable p) ->
  let event := event_value stream subject correlation data id source extra in
  let m := meta_of stream (p_durable p) in
  let '(p', r) := append stream subject correlation data id source extra p in
  let m' := meta_of stream (p_durable p') in
  kept stream p p' (is_ok r) /\
  match r with
  | Ok seq => (stream_seq m < seq)%Z /\ stream_seq m' = seq /\ d_manifest_dirty (p_durable p') = true /\
      m_streams (d_manifest (p_durable p')) !! stream = Some m' /\
      (keeps_one stream p -> stream_first m' <= seq)%Z /\
      (on_error (d_policy (p_durable p)) = Degrade \/ (seq < stream_first m')%Z \/
       exists t, holds (p_durable p') stream seq (event seq t))
  | Err (Refused (Recovering from to)) =>
      from = (stream_seq m + 1)%Z /\ to = (stream_seq m + Z.of_nat HEAD_PROBES)%Z /\ m' = mkStreamMeta to (stream_first m)
  | Err _ => m' = m
  end.
Proof.
  intros Hnum (Huf & Hus & Hur) event m. unfold append. run_st. fold m.
  assert (kept stream p p false) as Hrefl.
  { split; cbv zeta; auto; [by split|by intros ?|]. fold m. split_and!; [lia|unfold HEAD_PROBES; lia|lia|done]. }
  destruct (p_streams p !! stream) as [cfg|] eqn:Ecfg; [|by split].
  destruct (p_pressure p) as [cause|]; [by split|].
  assert (stream_first m <> 0)%Z as Hf0.
  { unfold m, meta_of. destruct (Z.eqb_spec (stream_first (default (mkStreamMeta 0 0) (m_streams (d_manifest (p_durable p)) !! stream))) 0); done. }
  assert (is_u64 (stream_seq m + 1)) as Hu1 by (unfold HEAD_PROBES, is_u64 in *; fold m in Hus, Hur; lia).
  rewrite u64_add_small by done. unfold on_durable at 1.
  pose proof (probe_spec (HEAD_PROBES - 1) stream event (stream_seq m + 1) (p_durable p)) as Hp.
  fold event. destruct (probe _ _ _ _ (p_durable p)) as [d1 r1].
  destruct Hp as (Hs1 & Hm1 & Hn1 & Ha1 & Hk1 & Hr1); [done|done| |done|].
  { unfold HEAD_PROBES, is_u64 in *. fold m in Hur. lia. }
  assert (forall st, meta_of st d1 = meta_of st (p_durable p)) as Hmeta1 by (intros st; unfold meta_of; by rewrite (proj1 Hm1)).
  destruct r1 as [[seq [|]]|e]; cbn [map_err].
  3: { split.
    - split; cbn; [done|by split|done|done|by rewrite (proj2 Hm1)| |intros; left; by apply Hk1|intros st _; apply Hmeta1].
      rewrite Hmeta1. fold m. split_and!; [lia|unfold HEAD_PROBES; lia|lia|done].
    - destruct e; cbn; apply Hmeta1. }
  - destruct Hr1 as [Hseq Hev]. unfold on_durable. cbn [p_durable set_durable].
    assert (is_u64 seq /\ is_u64 (seq + 1)) as [Hu2 Hu3]
      by (unfold HEAD_PROBES, is_u64 in *; fold m in Hus, Hur; lia).
    pose proof (retain_spec cfg stream seq (stream_first m) d1 Huf Hu2 Hu3) as Hret.
    destruct (retain _ _ _ _ d1) as [d2 r2]. destruct Hret as (f' & -> & Hf' & Hone & Hs2 & Hm2 & Hn2 & Ha2 & Hk2 & _). cbn [map_err].
    pose proof (put_meta_spec stream (mkStreamMeta seq f') d2) as Hput. cbn [p_durable set_durable] in *.
    destruct (put_meta _ _ d2) as [d3 r3]. destruct Hput as (-> & Hs3 & Hv3 & Hdirty & Hm3). cbn [map_err].
    cbn [p_durable set_durable wake is_ok].
    assert (f' <> 0)%Z as Hf'0 by (unfold is_u64 in Huf; fold m in Huf; lia).
    assert (m_streams (d_manifest d3) !! stream = Some (mkStreamMeta seq f')) as Hin by (rewrite Hm3; apply lookup_insert_eq).
    pose proof (meta_of_in stream (mkStreamMeta seq f') d3 Hf'0 Hin) as Hmeta3.
    assert (forall st s ev, holds d2 st s ev -> holds d3 st s ev) as Hk3.
    { intros st s ev. apply (holds_same d2 d3); [done|by rewrite Hv3]. }
    split.
    + split; cbn.
      * etrans; [exact Hs1|]. by etrans.
      * done.
      * unfold numbered. rewrite Hv3. by apply Hn2.
      * intros kind i Hne. rewrite Hv3. by apply (aside_trans _ d1 d2).
      * done.
      * rewrite Hmeta3. fold m. cbn [stream_seq stream_first]. unfold HEAD_PROBES, is_u64 in *. fold m in Huf, Hus, Hur. split_and!; lia.
      * intros st s ev Hu Hh. rewrite Hmeta3. cbn.
        destruct (decide (st = stream /\ stream_first m <= s < f')%Z) as [[-> ?]|Hnot]; [by right|left].
        apply Hk3, Hk2; [done| |by apply Hk1]. intros ->.
        destruct (decide (stream_first m <= s < f')%Z); [by destruct Hnot|lia].
      * intros st Hst. rewrite <- Hmeta1. transitivity (meta_of st d2).
        -- by eapply meta_of_other.
        -- unfold meta_of. by rewrite (proj1 Hm2).
    + rewrite Hmeta3. cbn. split_and!; [lia|done|done|done|intros [Hin1 Hcfg]; apply Hone; [by apply Hcfg|fold m in Hin1; lia]|].
      destruct Hev as [|(t & Ht)]; [by left|right].
      destruct (decide (seq < f')%Z) as [|Hge]; [by left|right]. exists t. apply Hk3, Hk2; [done| |done].
      intros _. lia.
  - subst seq. unfold on_durable. cbn [p_durable set_durable].
    set (to := (stream_seq m + 1 + Z.of_nat (HEAD_PROBES - 1))%Z).
    pose proof (put_meta_spec stream (mkStreamMeta to (stream_first m)) d1) as Hput.
    destruct (put_meta _ _ d1) as [d2 r2]. destruct Hput as (-> & Hs2 & Hv2 & Hdirty & Hm2). cbn [map_err].
    cbn [p_durable set_durable wake is_ok].
    assert (m_streams (d_manifest d2) !! stream = Some (mkStreamMeta to (stream_first m))) as Hin by (rewrite Hm2; apply lookup_insert_eq).
    pose proof (meta_of_in stream (mkStreamMeta to (stream_first m)) d2 Hf0 Hin) as Hmeta2.
    split.
    + split; cbn; [by etrans|done|unfold numbered; by rewrite Hv2|intros kind i Hne; rewrite Hv2; by apply Ha1|done| | |].
      * rewrite Hmeta2. fold m. cbn [stream_seq stream_first]. unfold to, HEAD_PROBES, is_u64 in *. fold m in Huf, Hus, Hur. split_and!; lia.
      * intros st s ev Hu Hh. left. apply (holds_same d1 d2); [done|by rewrite Hv2|by apply Hk1].
      * intros st Hst. rewrite <- Hmeta1. by eapply meta_of_other.
    + rewrite Hmeta2. assert (to = (stream_seq m + Z.of_nat HEAD_PROBES)%Z) as -> by (unfold to, HEAD_PROBES; lia). done.
Qed.

(** What an append puts in the store is its event, under the number it
    answers (or, when the store's answer was lost, under another new one); and
    an event it calls too large is over the policy's limit. *)
Lemma append_adds stream subject correlation data id source extra p :
  unsized -> numbered (p_durable p) -> room stream (p_durable p) ->
  let event := event_value stream subject correlation data id source extra in
  let head := stream_seq (meta_of stream (p_durable p)) in
  let '(p', r) := append stream subject correlation data id source extra p in
  (forall st s ev, is_u64 s -> holds (p_durable p') st s ev -> holds (p_durable p) st s ev \/
    st = stream /\ (head < s)%Z /\ (exists t, ev = event s t) /\
    match r with Ok seq => s = seq | Err (Refused (StoreFailed _)) => True | _ => False end) /\
  match r with
  | Err (TooLarge_ _) => exists n t cap, (head < n)%Z /\
      max_value_bytes (d_policy (p_durable p)) = Some cap /\ (cap < json_len (event n t))%Z
  | _ => True
  end.
Proof.
  intros Hun Hnum (Huf & Hus & Hur) event head. unfold append. run_st. fold head.
  destruct (p_streams p !! stream) as [cfg|]; [|by split; [intros; left|]].
  destruct (p_pressure p) as [cause|]; [by split; [intros; left|]|].
  assert (is_u64 (head + 1) /\ is_u64 (head + 1 + Z.of_nat (HEAD_PROBES - 1))) as [Hu1 Hu2]
    by (fold head in Hus, Hur; unfold HEAD_PROBES, is_u64 in *; lia).
  rewrite u64_add_small by done. unfold on_durable at 1.
  pose proof (probe_adds (HEAD_PROBES - 1) stream event (head + 1) (p_durable p) Hun (fun _ _ => eq_refl) Hu1 Hu2) as Hp.
  pose proof (probe_spec (HEAD_PROBES - 1) stream event (head + 1) (p_durable p) (fun _ _ => eq_refl) Hu1 Hu2 Hnum) as Hq.
  fold event. destruct (probe _ _ _ _ (p_durable p)) as [d1 r1]. destruct Hp as [Hp Hbig]. destruct Hq as (_ & _ & _ & _ & _ & Hq).
  assert (forall d', (forall st s ev, holds d' st s ev -> holds d1 st s ev) -> forall st s ev, is_u64 s -> holds d' st s ev ->
    holds (p_durable p) st s ev \/ st = stream /\ (head < s)%Z /\ (exists t, ev = event s t) /\
    match r1 with Ok (n, w) => w = true /\ s = n | Err e => append_error e = Refused (StoreFailed e) end) as Hnew.
  { intros d' Hd st s ev Hu [|(-> & ? & ? & ?)]%Hd%Hp; [by left|right|done]. split_and!; [done|lia|done|done]. }
  destruct r1 as [[seq [|]]|e]; cbn [map_err]; unfold on_durable; cbn [p_durable set_durable].
  - destruct Hq as [Hq _]. assert (is_u64 seq /\ is_u64 (seq + 1)) as [Hu3 Hu4]
      by (fold head in Hus, Hur; unfold HEAD_PROBES, is_u64 in *; lia).
    pose proof (retain_spec cfg stream seq (stream_first (meta_of stream (p_durable p))) d1 Huf Hu3 Hu4) as Hret.
    destruct (retain _ _ _ _ d1) as [d2 r2]. destruct Hret as (f' & -> & _ & _ & _ & _ & _ & _ & _ & Hb). cbn [map_err p_durable set_durable].
    pose proof (put_meta_spec stream (mkStreamMeta seq f') d2) as Hput.
    destruct (put_meta _ _ d2) as [d3 r3]. destruct Hput as (-> & Hs3 & Hv3 & _). cbn [map_err p_durable set_durable wake].
    split; [|done]. intros st s ev Hu Hh. destruct (Hnew d3) with (st := st) (s := s) (ev := ev) as [|(? & ? & ? & _ & ?)]; [|done|done|by left|by right].
    intros st' s' ev' Hh'. apply Hb. by apply (holds_same d2 d3); [done|by rewrite Hv3|].
  - set (meta := mkStreamMeta _ _). pose proof (put_meta_spec stream meta d1) as Hput.
    destruct (put_meta _ _ d1) as [d2 r2]. destruct Hput as (-> & Hs2 & Hv2 & _). cbn [map_err p_durable set_durable wake].
    split; [|done]. intros st s ev Hu Hh. destruct (Hnew d2) with (st := st) (s := s) (ev := ev) as [|(_ & _ & _ & [=] & _)]; [|done|done|by left].
    intros st' s' ev'. apply (holds_same d1 d2); [done|by rewrite Hv2].
  - split.
    + intros st s ev Hu Hh. destruct (Hnew d1) with (st := st) (s := s) (ev := ev) as [|(? & ? & ? & ->)]; [done..|by left|by right].
    + destruct (append_error_cases e) as [He|He]; rewrite He; [|done].
      destruct (Hbig He) as (n & t & cap & ? & ? & ?). exists n, t, cap. split_and!; [lia|done|done].
Qed.

(** An append never overwrites or moves what is in the store: whatever it
    returns, every event of every stream is where it was, except those of this
    stream that retention trimmed after a successful one; the other streams'
    heads stand, and a successful append's event stands alone at the new head,
    past the one before, unless retention keeps not even it or the store runs
    degraded. *)
Theorem append_keeps stream subject correlation data id source extra p p' r :
  numbered (p_durable p) -> room stream (p_durable p) ->
  append stream subject correlation data id source extra p = (p', r) ->
  let m := meta_of stream (p_durable p) in
  let m' := meta_of stream (p_durable p') in
  (forall st s ev, is_u64 s -> holds (p_durable p) st s ev ->
    holds (p_durable p') st s ev \/ (st = stream /\ is_ok r = true /\ (stream_first m <= s < stream_first m')%Z)) /\
  (forall st, st <> stream -> meta_of st (p_durable p') = meta_of st (p_durable p)) /\
  forall seq, r = Ok seq -> (stream_seq m < seq)%Z /\ stream_seq m' = seq /\
    (on_error (d_policy (p_durable p)) = Degrade \/ (seq < stream_first m')%Z \/
     exists t, forall ev, holds (p_durable p') stream seq ev <->
       ev = event_value stream subject correlation data id source extra seq t).
Proof.
  intros Hnum Hroom E. pose proof (stream_append_spec stream subject correlation data id source extra p Hnum Hroom) as Hs.
  cbv zeta in *. rewrite E in Hs. destruct Hs as [[_ _ _ _ _ _ He Ho] Hr]. split; [done|]. split; [done|].
  intros seq ->. destruct Hr as (Hlt & Hseq & _ & _ & _ & [|[|(t & Ht)]]); (split; [done|]); (split; [done|]).
  - by left.
  - by right; left.
  - right; right. exists t. intros ev. split; [intros Hev; by eapply holds_fun|by intros ->].
Qed.

Lemma flush_halt d :
  on_error (d_policy d) = Halt -> d_manifest_dirty d = true ->
  let '(d', r) := flush true d in
  static d d' /\ d_manifest d' = d_manifest d /\
  (forall j, j <> d_key d Manifest_ MANIFEST_ID -> dview d' !! j = dview d !! j) /\
  (is_ok r = true -> stored_manifest (dview d') (d_key d Manifest_ MANIFEST_ID) = Some (d_manifest d)).
Proof.
  intros Hh Hd. pose proof (flush_spec true d) as Hf. destruct (flush true d) as [d' r] eqn:E.
  destruct Hf as (Hs & Hfr & Hm & _). split_and!; try done. intros Hok.
  unfold flush, write_manifest in E. revert E. run_st. rewrite Hd. cbn [negb].
  pose proof (put_spec Manifest_ MANIFEST_ID (to_value (d_manifest d)) None d) as Hp.
  destruct (put _ _ _ _ d) as [d1 [q|e]]; destruct Hp as (_ & _ & Hp); [|intros [= _ <-]; discriminate].
  unfold instant. intros [= <- _]. destruct Hp as [_ [(_ & _ & ts & Hv)|(_ & Hdeg & _)]]; [|congruence].
  change (dview (set_flushed _ _)) with (dview d1). 
  eapply stored_manifest_written with (q := q); [rewrite Hv; apply lookup_insert_eq|done].
Qed.

Lemma append_acked_ok stream subject correlation data id source extra p p' seq :
  numbered (p_durable p) -> room stream (p_durable p) -> on_error (d_policy (p_durable p)) = Halt ->
  append_acked stream subject correlation data id source extra p = (p', Ok seq) ->
  static (p_durable p) (p_durable p') /\ (stream_seq (meta_of stream (p_durable p)) < seq)%Z /\
  exists m, stored_manifest (dview (p_durable p')) (d_key (p_durable p) Manifest_ MANIFEST_ID) = Some m /\
    exists first, m_streams m !! stream = Some (mkStreamMeta seq first) /\ (first <> 0)%Z /\
    (keeps_one stream p -> first <= seq)%Z /\ ((first <= seq)%Z -> exists t, holds (p_durable p') stream seq
      (event_value stream subject correlation data id source extra seq t)).
Proof.
  intros Hnum Hroom Hh. unfold append_acked. run_st.
  pose proof (stream_append_spec stream subject correlation data id source extra p Hnum Hroom) as Hs.
  destruct (append _ _ _ _ _ _ _ p) as [p1 [seq1|e]]; [|done]. cbv zeta in Hs.
  destruct Hs as [[Hst _ _ _ _ _ _ _] (Hlt & Hseq & Hdirty & Hin & Hone & Hev)].
  unfold on_durable. pose proof (flush_halt (p_durable p1)) as Hf.
  destruct (flush true (p_durable p1)) as [d2 [b|e]]; [|done]. cbn [map_err set_durable p_durable].
  intros [= <- <-]. cbn [p_durable]. destruct Hf as (Hs2 & Hm2 & Hfr & Hok); [|done|].
  { by destruct Hst as (_ & _ & -> & _). }
  specialize (Hok eq_refl). rewrite (d_key_static _ _ _ _ Hst) in *. split; [by etrans|]. split; [done|].
  exists (d_manifest (p_durable p1)). split; [done|]. destruct (meta_of stream (p_durable p1)) as [sq first] eqn:Em.
  cbn in Hseq. subst sq. exists first. split; [done|]. split.
  { intros ->. unfold meta_of in Em. rewrite Hin in Em. by cbn in Em. }
  split; [done|].
  intros Hle. cbn in Hev. destruct Hev as [Hd|[?|(t & Ht)]]; [congruence|lia|]. exists t.
  apply (holds_same (p_durable p1) d2); [done| |done]. apply Hfr. rewrite (d_key_static _ _ _ _ Hst).
  by apply d_key_kind_ne.
Qed.

(** The next life, whatever the manifest in memory was: the streams' heads of
    the manifest stored, and every event. *)
Lemma restored_keeps d pol digest d3 out m :
  lists_supported S -> stored_manifest (dview d) (d_key d Manifest_ MANIFEST_ID) = Some m ->
  restore (durable_new (d_store d) (d_prefix d) (d_instance d) pol false digest) = (d3, Ok out) ->
  m_streams (d_manifest d3) = m_streams m /\
  forall stream seq ev, holds d stream seq ev <-> holds d3 stream seq ev.
Proof.
  intros Hl Hm Er. set (d2 := durable_new _ _ _ _ _ _) in Er. pose proof (restore_resumed d2 Hl eq_refl) as Hr.
  rewrite Er in Hr. destruct Hr as [Hs3 Hfr3 _ Hstr _ _ _ _ _ _].
  assert (prior d2 = m) as Hprior by (unfold prior; change (dview d2) with (dview d);
    change (d_key d2) with (d_key d); by rewrite Hm).
  split; [by rewrite Hstr, Hprior|]. intros stream seq ev.
  assert (d_key d Event (stream_key stream seq) = d_key d2 Event (stream_key stream seq)) as Hk by done.
  unfold holds, live in *. rewrite (d_key_static _ _ _ _ Hs3), Hfr3 by (by apply d_key_kind_ne). by rewrite Hk.
Qed.

(** C33: what an outside producer is told was appended is there after a crash.
    Under [on_error: halt] (under [degrade] a failed write is reported as made),
    over a store with [list] and records numbered from 1, with room for the
    probe's numbers under 2^64: once an acknowledged append answers [seq], a new
    number, the next life that restores, whatever the manifest in memory was,
    has [seq] for the stream's head and finds the event at its place unless
    retention has trimmed it; and it has not, in a stream that is to keep an
    event at all. *)
Theorem acked_survives_crash stream subject correlation data id source extra p p' seq pol digest d3 out :
  lists_supported S -> numbered (p_durable p) -> room stream (p_durable p) ->
  on_error (d_policy (p_durable p)) = Halt ->
  append_acked stream subject correlation data id source extra p = (p', Ok seq) ->
  restore (durable_new (d_store (p_durable p')) (d_prefix (p_durable p)) (d_instance (p_durable p))
    pol false digest) = (d3, Ok out) ->
  (stream_seq (meta_of stream (p_durable p)) < seq)%Z /\ stream_seq (meta_of stream d3) = seq /\
  ((stream_first (meta_of stream d3) <= seq)%Z -> exists t, holds d3 stream seq
    (event_value stream subject correlation data id source extra seq t)) /\
  (keeps_one stream p -> stream_first (meta_of stream d3) <= seq)%Z.
Proof.
  intros Hl Hnum Hroom Hh Ea Er. apply append_acked_ok in Ea as (Hs & Hlt & m & Hm & first & Hin & Hf0 & Hone & Hev); [|done..].
  rewrite <- (proj1 Hs), <- (proj1 (proj2 Hs)) in Er. rewrite <- (d_key_static _ _ _ _ Hs) in Hm.
  destruct (restored_keeps _ _ _ _ _ _ Hl Hm Er) as [Hstr Hk].
  assert (meta_of stream d3 = mkStreamMeta seq first) as -> by (apply meta_of_in; [done|by rewrite Hstr]).
  split; [done|]. split; [done|]. split; [|done]. intros Hle. destruct (Hev Hle) as (t & Ht). exists t. by apply Hk.
Qed.
End streams.

(** ** A sample stream *)

Module StreamSample.
#[export] Instance clock : Clock :=
  {| wall n := (1700000000000 + Z.of_nat n)%Z; mono n := Z.of_nat n |}.
#[export] Instance size : JsonLen := fun _ => 100%Z.

(** At most two events are retained. *)
Definition cfgs : gmap string StreamCfg := {["orders" := mkStreamCfg (Some 2%Z) None]}.
Definition first_life : Producer MemoryStore :=
  mkProducer (durable_new memory_new "agentd" "house" policy_default false ∅) cfgs None false.
Definition emit (id : string) (p : Producer MemoryStore) : Producer MemoryStore * result AppendError Z :=
  append "orders" "order.paid" None (ju64 7) id "billing" [] p.
Definition one : Producer MemoryStore := (emit "e1" first_life).1.
(** The manifest was never flushed: the next life's head is behind. *)
Definition next_life : Producer MemoryStore :=
  mkProducer (durable_new (d_store (p_durable one)) "agentd" "house" policy_default false ∅) cfgs None false.
Definition ack : Producer MemoryStore * result AppendError Z :=
  append_acked "orders" "order.paid" None (ju64 8) "e2" "billing" [] next_life.
Definition third_life : Durable MemoryStore :=
  durable_new (d_store (p_durable ack.1)) "agentd" "house" policy_default false ∅.
End StreamSample.
Import StreamSample.

Example heads : (meta_of "orders" (p_durable next_life), ack.2) = (mkStreamMeta 0 1, Ok 2%Z).
Proof. vm_compute. reflexivity. Qed.

Lemma numbered_by {S} `{StoreOk S} (d : Durable S) :
  bool_decide (map_Forall (fun _ qv => (1 <= qv.1)%Z) (dview d)) = true -> numbered d.
Proof. intros Hb%bool_decide_eq_true k q v [Hk _]. exact (Hb k (q, v) Hk). Qed.

Lemma memory_unsized : @unsized MemoryStore memory_store.
Proof.
  split.
  - intros k seq v s s' k' n cap. cbn. unfold memory_put, begin_op, act. run_st.
    destruct (0 <? _)%Z; cbn; [done|]. by repeat (case_match; cbn).
  - intros k o s s' k' n cap. cbn. unfold memory_get, begin_op, act. run_st.
    destruct (0 <? _)%Z; cbn; [done|]. by repeat (case_match; cbn).
Qed.

Lemma append_keeps_witness :
  let m := meta_of "orders" (p_durable next_life) in
  let m' := meta_of "orders" (p_durable (emit "e2" next_life).1) in
  (stream_seq m < 2)%Z /\ stream_seq m' = 2%Z /\
  (on_error (d_policy (p_durable next_life)) = Degrade \/ (2 < stream_first m')%Z \/
   exists t, forall ev, holds (p_durable (emit "e2" next_life).1) "orders" 2 ev <->
     ev = event_value "orders" "order.paid" None (ju64 7) "e2" "billing" [] 2 t).
Proof.
  refine (proj2 (proj2 (append_keeps "orders" "order.paid" None (ju64 7) "e2" "billing" [] next_life
    (emit "e2" next_life).1 (Ok 2%Z) _ _ _)) 2%Z eq_refl).
  - apply numbered_by. vm_compute. reflexivity.
  - vm_compute. repeat split; discriminate.
  - vm_compute. reflexivity.
Defined.

Lemma acked_survives_crash_witness :
  stream_seq (meta_of "orders" (restore third_life).1) = 2%Z /\
  exists t, holds (restore third_life).1 "orders" 2
    (event_value "orders" "order.paid" None (ju64 8) "e2" "billing" [] 2 t).
Proof.
  destruct (acked_survives_crash "orders" "order.paid" None (ju64 8) "e2" "billing" [] next_life
    ack.1 2 policy_default ∅ (restore third_life).1 (default restored_default (ok (restore third_life).2)) memory_lists)
    as (_ & Hseq & Hev & Hone).
  - apply numbered_by. vm_compute. reflexivity.
  - vm_compute. repeat split; discriminate.
  - vm_compute. reflexivity.
  - vm_compute. reflexivity.
  - vm_compute. reflexivity.
  - split; [exact Hseq|]. apply Hev, Hone. split; [vm_compute; discriminate|].
    intros cfg Hc. vm_compute in Hc. injection Hc as <-. vm_compute. discriminate.
Defined.
End StreamsProps.
