(* ===== verification/Events.v ===== *)
(** * MCP events taken in

    [crates/agentd/src/runtime/mcp_events/]: what an occurrence a server
    delivers becomes on a stream ([bridge.rs]), and how a binding takes
    occurrences in ([mod.rs]: [events_take], [events_polled],
    [events_load_records]; [hook.rs]: [events_hook_answer]).  Metrics and log
    lines are left out; the fields an event takes on from a span are an
    argument ([span]), and so are the random draw of a jitter and whether an
    unsubscribe could be submitted.  Requests to the servers, the listings and
    the runtime-made subscriptions are not modelled. *)

From S2P Require Export Streams Webhooks JsonSchema.

Module Bridge.
Local Open Scope Z_scope.

Definition MAX_OCCURRENCE_BYTES : Z := 262144.
Definition MAX_EVENT_ID_BYTES : nat := 1024.
Definition MAX_CURSOR_BYTES : nat := 4096.
Definition SEEN_TTL_MS : Z := 2100000.
Definition SEEN_CAP : nat := 4096.

Definition stream_event_id (server name event_id : string) : string :=
  let id := "mcp/" +:+ server +:+ "/" +:+ name +:+ "/" +:+ event_id in
  if decide (String.length id <= 200)%nat then id
  else "mcp/" +:+ server +:+ "/" +:+ name +:+ "/sha256:" +:+ text (Sha.sha256_hex (Sha.ascii event_id)).

Definition source (server : string) : string := "mcp:" +:+ server.

(** An occurrence as serde reads it: an object with at least its members, or
    the four values in order. *)
Record Occurrence := mkOccurrence {
  event_id : string;
  o_name : string;
  o_timestamp : string;
  o_data : Value;
}.
Definition occurrence_from_value (v : Value) : option Occurrence :=
  match v with
  | VArr [VStr i; VStr n; VStr t; d] => Some (mkOccurrence i n t d)
  | VObj _ =>
      i ← get "eventId" v ≫= Json.as_str;
      n ← get "name" v ≫= Json.as_str;
      t ← get "timestamp" v ≫= Json.as_str;
      d ← get "data" v;
      Some (mkOccurrence i n t d)
  | _ => None
  end.

Inductive Checked : Type :=
  | Append (id event_id : string) (data : Value) (schema_ok : bool)
  | Rejected (cause : string) (event_id : option string).

Definition is_object (v : Value) : bool := match v with VObj _ => true | _ => false end.

Section check.
Context `{JsonLen}.
Definition check (server name subscription : string) (raw : Value) (payload_schema : option Value)
    (max_value_bytes : option Z) : Checked :=
  let eid := get "eventId" raw ≫= Json.as_str in
  let size := json_len raw in
  if (MAX_OCCURRENCE_BYTES <? size) || match max_value_bytes with Some m => m <? size | None => false end
  then Rejected "oversize" eid
  else match occurrence_from_value raw with
  | None => Rejected "malformed" eid
  | Some o =>
      if bool_decide (event_id o = nil_str) || (MAX_EVENT_ID_BYTES <? String.length (event_id o))%nat
         || negb (bool_decide (o_name o = name)) || negb (is_object (o_data o))
      then Rejected "malformed" eid
      else
        let schema_ok := match payload_schema with
                         | Some s => is_ok (Schema.validate s (o_data o)) | None => true end in
        Append (stream_event_id server name (event_id o)) (event_id o)
          (jobj [("server", VStr server); ("event", VStr name); ("event_id", VStr (event_id o));
                 ("occurred_at", VStr (o_timestamp o)); ("schema_ok", VBool schema_ok);
                 ("subscription", VStr subscription); ("payload", o_data o)])
          schema_ok
  end.
End check.

Definition seen_key (event_id : string) : string := text (take 32 (Sha.sha256_hex (Sha.ascii event_id))).

(** ** The dedup set *)

Definition Seen : Type := list (string * Z).
Definition seen_contains (key : string) (s : Seen) : bool := existsb (fun e => bool_decide (e.1 = key)) s.
(** Over the cap, the oldest go first; how many went. *)
Definition seen_insert (key : string) (now : Z) (s : Seen) : Seen * nat :=
  let s := s ++ [(key, now)] in
  let evicted := (length s - SEEN_CAP)%nat in (drop evicted s, evicted).
Fixpoint seen_expire (now : Z) (s : Seen) : Seen :=
  match s with
  | (k, t) :: s' => if SEEN_TTL_MS <? u64_sat_sub now t then seen_expire now s' else s
  | [] => []
  end.
Definition seen_to_json (s : Seen) : Value := VArr ((fun e => VArr [VStr e.1; ju64 e.2]) <$> s).
Definition seen_entry (v : Value) : option (string * Z) :=
  match v with
  | VArr (k :: t :: _) => k ← Json.as_str k; t ← as_u64 t; Some (k, t)
  | _ => None
  end.
Definition seen_from_json (v : Value) : Seen :=
  match v with VArr l => omap seen_entry l | _ => [] end.
End Bridge.

Module Intake.
Import Streams Bridge.
Local Open Scope Z_scope.

Definition MAX_DRAIN : Z := 10.
Definition POLL_FLOOR_MS : Z := 1000.
Definition POLL_DEFAULT_MS : Z := 30000.
Definition POLL_CEILING_MS : Z := 900000.
Definition BACKOFF_MIN_MS : Z := 1000.
Definition BACKOFF_MAX_MS : Z := 300000.
Definition MAX_REFUSED : nat := 1024.

Inductive State : Type :=
  | Discovering
  | Active
  | Paused (cause : string)
  | RefusedFor (reason : string).
#[export] Instance state_eq_dec : EqDecision State.
Proof. solve_decision. Defined.
Definition state_name (s : State) : string :=
  match s with
  | Discovering => "discovering" | Active => "active" | Paused _ => "paused" | RefusedFor _ => "refused"
  end.

Inductive Owner : Type :=
  | Config
  | Wait (run step : string)
  | Tool (context : string) (run : option string) (expires_at : Z)
  | Instruction.
#[export] Instance owner_eq_dec : EqDecision Owner.
Proof. solve_decision. Defined.

Inductive Delivery : Type := Push | Poll | Webhook.
#[export] Instance delivery_eq_dec : EqDecision Delivery.
Proof. solve_decision. Defined.
Definition delivery_as_str (d : Delivery) : string :=
  match d with Push => "push" | Poll => "poll" | Webhook => "webhook" end.

Record EventInto := mkEventInto { into_stream : string; into_subject : string }.
Inductive Replay : Type := ReplayNone | Within (ms : Z).

Inductive Taken : Type :=
  | Appended
  | Duplicate
  | TakenRejected (cause : string)
  | Rate
  | TakenRefused (why : Refusal).

(** One binding, live: the part its occurrences go through.  [prior]: a
    connection a reload replaced is held. *)
Record Binding := mkBinding {
  b_key : string;
  b_server : string;
  b_name : string;
  b_owners : list Owner;
  b_into : option EventInto;
  b_replay : Replay;
  b_rate : option (Z * f64);
  b_tokens : f64;
  b_refilled_at : Z;
  b_state : State;
  b_mode : option Delivery;
  b_cursor : option string;
  b_loaded : bool;
  b_seen : Seen;
  b_due_at : Z;
  b_in_flight : bool;
  b_drain : Z;
  b_failures : Z;
  b_payload_schema : option Value;
  b_schema_relist : bool;
  b_schema_relisted : bool;
  b_generation : Z;
  b_secret : option string;
  b_armed : bool;
  b_subscribed : bool;
  b_prior : bool;
  b_refused : gmap string Z;
  b_recorded : bool;
}.

Definition set_tokens (x : f64) (b : Binding) : Binding :=
  mkBinding (b_key b) (b_server b) (b_name b) (b_owners b) (b_into b) (b_replay b) (b_rate b) x
    (b_refilled_at b) (b_state b) (b_mode b) (b_cursor b) (b_loaded b) (b_seen b) (b_due_at b) (b_in_flight b)
    (b_drain b) (b_failures b) (b_payload_schema b) (b_schema_relist b) (b_schema_relisted b) (b_generation b)
    (b_secret b) (b_armed b) (b_subscribed b) (b_prior b) (b_refused b) (b_recorded b).
Definition set_refilled_at (x : Z) (b : Binding) : Binding :=
  mkBinding (b_key b) (b_server b) (b_name b) (b_owners b) (b_into b) (b_replay b) (b_rate b) (b_tokens b) x
    (b_state b) (b_mode b) (b_cursor b) (b_loaded b) (b_seen b) (b_due_at b) (b_in_flight b) (b_drain b)
    (b_failures b) (b_payload_schema b) (b_schema_relist b) (b_schema_relisted b) (b_generation b)
    (b_secret b) (b_armed b) (b_subscribed b) (b_prior b) (b_refused b) (b_recorded b).
Definition set_state (x : State) (b : Binding) : Binding :=
  mkBinding (b_key b) (b_server b) (b_name b) (b_owners b) (b_into b) (b_replay b) (b_rate b) (b_tokens b)
    (b_refilled_at b) x (b_mode b) (b_cursor b) (b_loaded b) (b_seen b) (b_due_at b) (b_in_flight b)
    (b_drain b) (b_failures b) (b_payload_schema b) (b_schema_relist b) (b_schema_relisted b) (b_generation b)
    (b_secret b) (b_armed b) (b_subscribed b) (b_prior b) (b_refused b) (b_recorded b).
Definition set_cursor (x : option string) (b : Binding) : Binding :=
  mkBinding (b_key b) (b_server b) (b_name b) (b_owners b) (b_into b) (b_replay b) (b_rate b) (b_tokens b)
    (b_refilled_at b) (b_state b) (b_mode b) x (b_loaded b) (b_seen b) (b_due_at b) (b_in_flight b)
    (b_drain b) (b_failures b) (b_payload_schema b) (b_schema_relist b) (b_schema_relisted b) (b_generation b)
    (b_secret b) (b_armed b) (b_subscribed b) (b_prior b) (b_refused b) (b_recorded b).
Definition set_loaded (x : bool) (b : Binding) : Binding :=
  mkBinding (b_key b) (b_server b) (b_name b) (b_owners b) (b_into b) (b_replay b) (b_rate b) (b_tokens b)
    (b_refilled_at b) (b_state b) (b_mode b) (b_cursor b) x (b_seen b) (b_due_at b) (b_in_flight b)
    (b_drain b) (b_failures b) (b_payload_schema b) (b_schema_relist b) (b_schema_relisted b) (b_generation b)
    (b_secret b) (b_armed b) (b_subscribed b) (b_prior b) (b_refused b) (b_recorded b).
Definition set_seen (x : Seen) (b : Binding) : Binding :=
  mkBinding (b_key b) (b_server b) (b_name b) (b_owners b) (b_into b) (b_replay b) (b_rate b) (b_tokens b)
    (b_refilled_at b) (b_state b) (b_mode b) (b_cursor b) (b_loaded b) x (b_due_at b) (b_in_flight b)
    (b_drain b) (b_failures b) (b_payload_schema b) (b_schema_relist b) (b_schema_relisted b) (b_generation b)
    (b_secret b) (b_armed b) (b_subscribed b) (b_prior b) (b_refused b) (b_recorded b).
Definition set_due_at (x : Z) (b : Binding) : Binding :=
  mkBinding (b_key b) (b_server b) (b_name b) (b_owners b) (b_into b) (b_replay b) (b_rate b) (b_tokens b)
    (b_refilled_at b) (b_state b) (b_mode b) (b_cursor b) (b_loaded b) (b_seen b) x (b_in_flight b)
    (b_drain b) (b_failures b) (b_payload_schema b) (b_schema_relist b) (b_schema_relisted b) (b_generation b)
    (b_secret b) (b_armed b) (b_subscribed b) (b_prior b) (b_refused b) (b_recorded b).
Definition set_in_flight (x : bool) (b : Binding) : Binding :=
  mkBinding (b_key b) (b_server b) (b_name b) (b_owners b) (b_into b) (b_replay b) (b_rate b) (b_tokens b)
    (b_refilled_at b) (b_state b) (b_mode b) (b_cursor b) (b_loaded b) (b_seen b) (b_due_at b) x (b_drain b)
    (b_failures b) (b_payload_schema b) (b_schema_relist b) (b_schema_relisted b) (b_generation b)
    (b_secret b) (b_armed b) (b_subscribed b) (b_prior b) (b_refused b) (b_recorded b).
Definition set_drain (x : Z) (b : Binding) : Binding :=
  mkBinding (b_key b) (b_server b) (b_name b) (b_owners b) (b_into b) (b_replay b) (b_rate b) (b_tokens b)
    (b_refilled_at b) (b_state b) (b_mode b) (b_cursor b) (b_loaded b) (b_seen b) (b_due_at b) (b_in_flight b)
    x (b_failures b) (b_payload_schema b) (b_schema_relist b) (b_schema_relisted b) (b_generation b)
    (b_secret b) (b_armed b) (b_subscribed b) (b_prior b) (b_refused b) (b_recorded b).
Definition set_failures (x : Z) (b : Binding) : Binding :=
  mkBinding (b_key b) (b_server b) (b_name b) (b_owners b) (b_into b) (b_replay b) (b_rate b) (b_tokens b)
    (b_refilled_at b) (b_state b) (b_mode b) (b_cursor b) (b_loaded b) (b_seen b) (b_due_at b) (b_in_flight b)
    (b_drain b) x (b_payload_schema b) (b_schema_relist b) (b_schema_relisted b) (b_generation b) (b_secret b)
    (b_armed b) (b_subscribed b) (b_prior b) (b_refused b) (b_recorded b).
Definition set_schema_relist (x : bool) (b : Binding) : Binding :=
  mkBinding (b_key b) (b_server b) (b_name b) (b_owners b) (b_into b) (b_replay b) (b_rate b) (b_tokens b)
    (b_refilled_at b) (b_state b) (b_mode b) (b_cursor b) (b_loaded b) (b_seen b) (b_due_at b) (b_in_flight b)
    (b_drain b) (b_failures b) (b_payload_schema b) x (b_schema_relisted b) (b_generation b) (b_secret b)
    (b_armed b) (b_subscribed b) (b_prior b) (b_refused b) (b_recorded b).
Definition set_schema_relisted (x : bool) (b : Binding) : Binding :=
  mkBinding (b_key b) (b_server b) (b_name b) (b_owners b) (b_into b) (b_replay b) (b_rate b) (b_tokens b)
    (b_refilled_at b) (b_state b) (b_mode b) (b_cursor b) (b_loaded b) (b_seen b) (b_due_at b) (b_in_flight b)
    (b_drain b) (b_failures b) (b_payload_schema b) (b_schema_relist b) x (b_generation b) (b_secret b)
    (b_armed b) (b_subscribed b) (b_prior b) (b_refused b) (b_recorded b).
Definition set_generation (x : Z) (b : Binding) : Binding :=
  mkBinding (b_key b) (b_server b) (b_name b) (b_owners b) (b_into b) (b_replay b) (b_rate b) (b_tokens b)
    (b_refilled_at b) (b_state b) (b_mode b) (b_cursor b) (b_loaded b) (b_seen b) (b_due_at b) (b_in_flight b)
    (b_drain b) (b_failures b) (b_payload_schema b) (b_schema_relist b) (b_schema_relisted b) x (b_secret b)
    (b_armed b) (b_subscribed b) (b_prior b) (b_refused b) (b_recorded b).
Definition set_secret (x : option string) (b : Binding) : Binding :=
  mkBinding (b_key b) (b_server b) (b_name b) (b_owners b) (b_into b) (b_replay b) (b_rate b) (b_tokens b)
    (b_refilled_at b) (b_state b) (b_mode b) (b_cursor b) (b_loaded b) (b_seen b) (b_due_at b) (b_in_flight b)
    (b_drain b) (b_failures b) (b_payload_schema b) (b_schema_relist b) (b_schema_relisted b) (b_generation b)
    x (b_armed b) (b_subscribed b) (b_prior b) (b_refused b) (b_recorded b).
Definition set_armed (x : bool) (b : Binding) : Binding :=
  mkBinding (b_key b) (b_server b) (b_name b) (b_owners b) (b_into b) (b_replay b) (b_rate b) (b_tokens b)
    (b_refilled_at b) (b_state b) (b_mode b) (b_cursor b) (b_loaded b) (b_seen b) (b_due_at b) (b_in_flight b)
    (b_drain b) (b_failures b) (b_payload_schema b) (b_schema_relist b) (b_schema_relisted b) (b_generation b)
    (b_secret b) x (b_subscribed b) (b_prior b) (b_refused b) (b_recorded b).
Definition set_subscribed (x : bool) (b : Binding) : Binding :=
  mkBinding (b_key b) (b_server b) (b_name b) (b_owners b) (b_into b) (b_replay b) (b_rate b) (b_tokens b)
    (b_refilled_at b) (b_state b) (b_mode b) (b_cursor b) (b_loaded b) (b_seen b) (b_due_at b) (b_in_flight b)
    (b_drain b) (b_failures b) (b_payload_schema b) (b_schema_relist b) (b_schema_relisted b) (b_generation b)
    (b_secret b) (b_armed b) x (b_prior b) (b_refused b) (b_recorded b).
Definition set_prior (x : bool) (b : Binding) : Binding :=
  mkBinding (b_key b) (b_server b) (b_name b) (b_owners b) (b_into b) (b_replay b) (b_rate b) (b_tokens b)
    (b_refilled_at b) (b_state b) (b_mode b) (b_cursor b) (b_loaded b) (b_seen b) (b_due_at b) (b_in_flight b)
    (b_drain b) (b_failures b) (b_payload_schema b) (b_schema_relist b) (b_schema_relisted b) (b_generation b)
    (b_secret b) (b_armed b) (b_subscribed b) x (b_refused b) (b_recorded b).
Definition set_refused (x : gmap string Z) (b : Binding) : Binding :=
  mkBinding (b_key b) (b_server b) (b_name b) (b_owners b) (b_into b) (b_replay b) (b_rate b) (b_tokens b)
    (b_refilled_at b) (b_state b) (b_mode b) (b_cursor b) (b_loaded b) (b_seen b) (b_due_at b) (b_in_flight b)
    (b_drain b) (b_failures b) (b_payload_schema b) (b_schema_relist b) (b_schema_relisted b) (b_generation b)
    (b_secret b) (b_armed b) (b_subscribed b) (b_prior b) x (b_recorded b).
Definition set_recorded (x : bool) (b : Binding) : Binding :=
  mkBinding (b_key b) (b_server b) (b_name b) (b_owners b) (b_into b) (b_replay b) (b_rate b) (b_tokens b)
    (b_refilled_at b) (b_state b) (b_mode b) (b_cursor b) (b_loaded b) (b_seen b) (b_due_at b) (b_in_flight b)
    (b_drain b) (b_failures b) (b_payload_schema b) (b_schema_relist b) (b_schema_relisted b) (b_generation b)
    (b_secret b) (b_armed b) (b_subscribed b) (b_prior b) (b_refused b) x.


Definition cursor_key (b : Binding) : string := "_mcpev/" +:+ b_key b +:+ "/cursor".
Definition seen_record (b : Binding) : string := "_mcpev/" +:+ b_key b +:+ "/seen".

(** ** The intake ceiling *)

Definition f64_max (a b : f64) : f64 :=
  if is_nan a then b else if is_nan b then a else if f64_ltb a b then b else a.
(** [f64::ceil], of what is not negative. *)
Definition f64_ceil (x : f64) : f64 :=
  if f64_ltb (f64_of_Z 0) (Schema.f64_fract x) then f64_add (Schema.f64_trunc x) (f64_of_Z 1) else Schema.f64_trunc x.
Definition per_ms (burst : Z) (per_s : f64) : f64 := f64_div (f64_of_Z burst) (f64_max per_s (f64_ratio 1 1000)).

Definition refill (now : Z) (b : Binding) : Binding :=
  match b_rate b with
  | Some (burst, per_s) =>
      let rate := per_ms burst per_s in
      let elapsed := f64_div (f64_of_Z (u64_sat_sub now (b_refilled_at b))) (f64_of_Z 1000) in
      set_refilled_at now
        (set_tokens (f64_min (f64_add (b_tokens b) (f64_mul elapsed rate)) (f64_of_Z burst)) b)
  | None => b
  end.
Definition refill_at (now : Z) (b : Binding) : Z :=
  match b_rate b with
  | Some (burst, per_s) =>
      u64_add now (f64_to_u64 (f64_ceil (f64_mul
        (f64_div (f64_max (f64_sub (f64_of_Z 1) (b_tokens b)) (f64_of_Z 0)) (per_ms burst per_s)) (f64_of_Z 1000))))
  | None => now
  end.
Definition dry (b : Binding) : bool := match b_rate b with Some _ => f64_ltb (b_tokens b) (f64_of_Z 1) | None => false end.

(** The wait after a failure, spread by a tenth when random bytes are to be
    had ([draw]). *)
Definition jitter (draw : option Z) (base : Z) : Z :=
  match draw with
  | None => base
  | Some r =>
      let spread := base / 10 in
      if spread =? 0 then base
      else u64_sat_add (base - spread) (r mod Z.min (Z.min (spread * 2) u64_max + 1) u64_max)
  end.
Definition backoff (draw : option Z) (failures max : Z) : Z :=
  jitter draw (Z.min (Z.min (BACKOFF_MIN_MS * 2 ^ Z.min failures 20) u64_max) max).

(** ** The runtime's part *)

Record Runtime (S : Type) := mkRuntime {
  r_producer : Producer S;
  r_bindings : gmap string Binding;
  r_hooks : gmap string Hook.Route;
  r_next_generation : Z;
  r_max_value_bytes : option Z;
  r_reread : option (string * string);
}.
Arguments mkRuntime {S}.
Arguments r_producer {S}.
Arguments r_bindings {S}.
Arguments r_hooks {S}.
Arguments r_next_generation {S}.
Arguments r_max_value_bytes {S}.
Arguments r_reread {S}.

Section runtime.
Context {S : Type} `{Store S} `{Clock} `{JsonLen}.
Implicit Types (w : Runtime S).

Definition with_producer (p : Producer S) w : Runtime S :=
  mkRuntime p (r_bindings w) (r_hooks w) (r_next_generation w) (r_max_value_bytes w) (r_reread w).
Definition with_bindings (m : gmap string Binding) w : Runtime S :=
  mkRuntime (r_producer w) m (r_hooks w) (r_next_generation w) (r_max_value_bytes w) (r_reread w).
Definition with_hooks (m : gmap string Hook.Route) w : Runtime S :=
  mkRuntime (r_producer w) (r_bindings w) m (r_next_generation w) (r_max_value_bytes w) (r_reread w).
Definition with_generation (g : Z) w : Runtime S :=
  mkRuntime (r_producer w) (r_bindings w) (r_hooks w) g (r_max_value_bytes w) (r_reread w).
Definition with_reread (x : string * string) w : Runtime S :=
  mkRuntime (r_producer w) (r_bindings w) (r_hooks w) (r_next_generation w) (r_max_value_bytes w) (Some x).
(** [if let Some(b) = bindings.get_mut(key)]. *)
Definition update (key : string) (f : Binding -> Binding) w : Runtime S := with_bindings (alter f key (r_bindings w)) w.
(** A call on the durable store. *)
Definition store {A} (m : stM (Durable S) StoreError A) w : Runtime S * result StoreError A :=
  let '(d, r) := m (p_durable (r_producer w)) in (with_producer (set_durable d (r_producer w)) w, r).
(** The time, read from the same clock. *)
Definition clock w : Runtime S * Z :=
  let d := p_durable (r_producer w) in (with_producer (set_durable (tick d) (r_producer w)) w, wall (d_ticks d)).

(** ** One occurrence *)

Definition target (b : Binding) : option EventInto :=
  if existsb (fun o => negb (bool_decide (o = Instruction))) (b_owners b) then b_into b else None.

(** The binding remembers what it appended. *)
Definition noted (now : Z) (event_id : string) (b : Binding) : Binding :=
  set_seen (seen_insert (seen_key event_id) now (b_seen b)).1 b.
Definition spent (schema_ok : bool) (b : Binding) : Binding :=
  let b := match b_rate b with
           | Some _ => set_tokens (f64_max (f64_sub (b_tokens b) (f64_of_Z 1)) (f64_of_Z 0)) b | None => b end in
  if negb schema_ok && negb (b_schema_relisted b) then set_schema_relisted true (set_schema_relist true b) else b.

Definition events_take (key : string) (raw : Value) (span : list (string * Value)) (now : Z) w :
    Runtime S * Taken :=
  match r_bindings w !! key with
  | None => (w, TakenRejected "malformed")
  | Some b =>
      match check (b_server b) (b_name b) key raw (b_payload_schema b) (r_max_value_bytes w) with
      | Rejected cause _ => (w, TakenRejected cause)
      | Append id event_id data schema_ok =>
          if seen_contains (seen_key event_id) (b_seen b) then (w, Duplicate)
          else if dry b then (w, Rate)
          else
            let w := if bool_decide (Instruction ∈ b_owners b) then with_reread (b_server b, b_name b) w else w in
            match target b with
            | None => (update key (noted now event_id) w, Appended)
            | Some into =>
                let '(p, r) := append (into_stream into) (into_subject into) None data id (source (b_server b)) span
                                 (r_producer w) in
                let w := with_producer p w in
                match r with
                | Ok _ => (update key (fun b => spent schema_ok (noted now event_id b)) w, Appended)
                | Err (TooLarge_ _) => (w, TakenRejected "oversize")
                | Err (Refused why) => (w, TakenRefused why)
                end
            end
      end
  end.

(** ** A page polled *)

Record PollPage := mkPollPage {
  pg_events : list Value;
  pg_cursor : option string;
  pg_truncated : bool;
  pg_has_more : bool;
  pg_next_poll_ms : option Z;
}.

Inductive Stop : Type := StopRate | StopRefused (why : Refusal).

(** The occurrences in order, until one stops the page: how many were
    appended, whether anything was new, and what stopped it. *)
Fixpoint take_page (key : string) (span : Value -> list (string * Value)) (now : Z) (raws : list Value)
    (appended fresh : Z) w : Runtime S * (Z * Z * option Stop) :=
  match raws with
  | [] => (w, (appended, fresh, None))
  | raw :: raws' =>
      let '(w, t) := events_take key raw (span raw) now w in
      match t with
      | Appended => take_page key span now raws' (appended + 1) (fresh + 1) w
      | Duplicate | TakenRejected _ => take_page key span now raws' appended fresh w
      | Rate => (w, (appended, fresh, Some StopRate))
      | TakenRefused why => (w, (appended, fresh + 1, Some (StopRefused why)))
      end
  end.

Definition events_pause_for (key cause : string) (draw : option Z) w : Runtime S :=
  match r_bindings w !! key with
  | None => w
  | Some b =>
      let w := update key (set_state (Paused cause)) w in
      if decide (cause = "rate") then w
      else
        let '(w, t) := clock w in
        update key (fun b => let n := (b_failures b + 1) mod 2 ^ 32 in
          set_due_at (u64_add t (Z.min (backoff draw n BACKOFF_MAX_MS) 30000)) (set_failures n b)) w
  end.

Definition events_record (key : string) w : Runtime S :=
  match r_bindings w !! key with
  | None => w
  | Some b =>
      let '(w, t) := clock w in
      let record := jobj [("mode", to_value (delivery_as_str <$> b_mode b)); ("cursor", to_value (b_cursor b));
                          ("state", VStr (state_name (b_state b))); ("since", ju64 t)] in
      let '(w, r) := store (put Memory (cursor_key b) record None) w in
      if is_ok r then update key (set_recorded true) w else w
  end.

(** [let _ = self.durable.put(.. seen ..)]. *)
Definition save_seen (key : string) w : Runtime S :=
  match r_bindings w !! key with
  | None => w
  | Some b => (store (put Memory (seen_record b) (jobj [("entries", seen_to_json (b_seen b))]) None) w).1
  end.

(** What a page came to; a request that failed, or a cursor too long, is
    handled elsewhere ([events_poll_failed]). *)
Inductive Polled : Type := Ignored | CursorTooLong | Held (why : Stop) | Moved.

Definition next_due (draw : option Z) (page : PollPage) (fresh now : Z) (b : Binding) : Binding :=
  if pg_has_more page && (0 <? fresh) && (b_drain b <? MAX_DRAIN)
  then set_due_at now (set_drain (b_drain b + 1) b)
  else
    let interval := Z.max POLL_FLOOR_MS (Z.min (default POLL_DEFAULT_MS (pg_next_poll_ms page)) POLL_CEILING_MS) in
    set_due_at (u64_add now (jitter draw interval)) (set_drain 0 b).

(** The records of a page taken in: flushed first if anything was appended or
    the cursor is to move. *)
Definition settle_page (key : string) (draw : option Z) (page : PollPage) (now appended fresh : Z)
    (stopped : option Stop) w : Runtime S * Polled :=
  let moving := match stopped, r_bindings w !! key with
                | None, Some b => negb (bool_decide (b_cursor b = pg_cursor page)) | _, _ => false end in
  let '(w, flushed) := if (0 <? appended) || moving then store (flush true) w else (w, Ok true) in
  let stopped := match flushed with Err e => Some (StopRefused (HeadNotSaved e)) | Ok _ => stopped end in
  let w := update key (fun b => set_seen (seen_expire now (b_seen b)) b) w in
  let w := if (0 <? appended) && is_ok flushed then save_seen key w else w in
  match stopped with
  | Some StopRate =>
      (events_pause_for key "rate" draw (update key (fun b => set_due_at (refill_at now b) b) w), Held StopRate)
  | Some (StopRefused why) =>
      (events_pause_for key (if p_pressure (r_producer w) then "pressure" else "store_degraded") draw w,
       Held (StopRefused why))
  | None =>
      let write := match r_bindings w !! key with
                   | Some b => negb (bool_decide (pg_cursor page = b_cursor b)) || negb (b_recorded b) | None => false end in
      let w := update key (fun b => next_due draw page fresh now
                 (set_cursor (pg_cursor page) (set_failures 0 b))) w in
      (if write then events_record key w else w, Moved)
  end.

Definition events_polled (key : string) (draw : option Z) (span : Value -> list (string * Value))
    (page : PollPage) w : Runtime S * Polled :=
  let '(w, now) := clock w in
  match r_bindings w !! key with
  | None => (w, Ignored)
  | Some _ =>
      let w := update key (set_in_flight false) w in
      match r_bindings w !! key with
      | Some b =>
          if negb (bool_decide (b_state b = Active)) then (w, Ignored)
          else if match pg_cursor page with
                  | Some c => (MAX_CURSOR_BYTES <? String.length c)%nat | None => false end
          then (w, CursorTooLong)
          else
            let '(w, (appended, fresh, stopped)) := take_page key span now (pg_events page) 0 0 w in
            settle_page key draw page now appended fresh stopped w
      | None => (w, Ignored)
      end
  end.

(** ** Deliveries to the webhook *)

Definition quiet_route (r : Hook.Route) : Hook.Route :=
  Hook.mkRoute (Hook.server r) (Hook.name r) None None None false.

(** [sent]: whether an unsubscribe could be submitted. *)
Definition events_hook_stop (key : string) (removing sent : bool) w : Runtime S :=
  match r_bindings w !! key with
  | None => w
  | Some b =>
      let w := update key (fun b => set_secret None (set_armed false b)) w in
      let w := with_hooks (alter quiet_route key (r_hooks w)) w in
      if b_in_flight b || negb (b_subscribed b || b_prior b) then w
      else
        let w := update key (fun b => set_prior false (set_subscribed false b)) w in
        let g := u64_add (r_next_generation w) 1 in
        let w := update key (set_generation g) (with_generation g w) in
        if sent && negb removing then update key (set_in_flight true) w else w
  end.

Definition events_hook_pause (key cause : string) (draw : option Z) (sent : bool) w : Runtime S :=
  events_pause_for key cause draw (events_hook_stop key false sent w).

Definition refusal_key (webhook_id : string) : string := text (take 32 (Sha.sha256_hex (Sha.ascii webhook_id))).

(** A delivery refused for a reason that may pass is held until it is taken. *)
Definition events_hook_refused (key refusal : string) (now : Z) (draw : option Z) (sent : bool) w : Runtime S :=
  match r_bindings w !! key with
  | None => w
  | Some b =>
      match b_refused b !! refusal with
      | Some _ => w
      | None =>
          if (MAX_REFUSED <=? size (b_refused b))%nat then events_hook_pause key "refusal" draw sent w
          else update key (set_refused (<[refusal := now]> (b_refused b))) w
      end
  end.

Definition events_hook_watermark (key : string) (cursor : option string) w : Runtime S :=
  match r_bindings w !! key with
  | None => w
  | Some b =>
      if negb (bool_decide (b_refused b = ∅)) || (bool_decide (b_cursor b = cursor) && b_recorded b) then w
      else match b_replay b with
           | ReplayNone => w
           | Within _ => events_record key (update key (set_cursor cursor) w)
           end
  end.

(** A cursor of a length the program keeps. *)
Definition short_cursor (v : option Value) : option string :=
  match v ≫= Json.as_str with
  | Some c => if (String.length c <=? MAX_CURSOR_BYTES)%nat then Some c else None
  | None => None
  end.

Definition events_hook_gap (key : string) (cursor : option Value) w : Runtime S :=
  match r_bindings w !! key with
  | None => w
  | Some _ => match short_cursor cursor with Some c => events_hook_watermark key (Some c) w | None => w end
  end.

(** Kept, or kept already: answered once the stream's head is saved. *)
Definition hook_taken (key refusal : string) (cursor : option string) (now : Z) (draw : option Z) (sent fresh : bool) w :
    Runtime S * Hook.Answer :=
  let '(w, flushed) := store (flush true) w in
  match flushed with
  | Err _ =>
      (events_hook_refused key refusal now draw sent w, Hook.answer_retry 503 30 "the stream head was not saved")
  | Ok _ =>
      match r_bindings w !! key with
      | None => (w, Hook.answer_ok "appended")
      | Some _ =>
          let w := update key (fun b => set_seen (seen_expire now (b_seen b))
                                          (set_refused (delete refusal (b_refused b)) b)) w in
          let w := if fresh then save_seen key w else w in
          let w := match cursor with Some _ => events_hook_watermark key cursor w | None => w end in
          (w, Hook.answer_ok (if fresh then "appended" else "duplicate"))
      end
  end.

(** A delivery, answered; an end of the subscription ([inr], its error) is
    handled elsewhere ([events_hook_terminated]) and then accepted. *)
Definition events_hook_answer (key webhook_id : string) (body : Value) (span : list (string * Value))
    (draw : option Z) (sent : bool) w : Runtime S * (Hook.Answer + Value) :=
  let '(w, now) := clock w in
  match r_bindings w !! key with
  | None => (w, inl (Hook.answer_gone "no MCP Events binding at this path"))
  | Some b =>
      if negb (bool_decide (b_mode b = Some Webhook)) || negb (b_armed b)
      then (w, inl (Hook.answer_retry 503 Hook.RETRY_AFTER_S "not armed"))
      else match get "type" body ≫= Json.as_str with
      | Some kind =>
          if decide (kind = "gap") then (events_hook_gap key (get "cursor" body) w, inl (Hook.answer_ok "accepted"))
          else if decide (kind = "terminated") then (w, inr (default VNull (get "error" body)))
          else (w, inl (Hook.answer_ok "accepted"))
      | None =>
          let refusal := refusal_key webhook_id in
          match p_pressure (r_producer w) with
          | Some _ => (events_hook_refused key refusal now draw sent w, inl (Hook.answer_retry 429 30 "under pressure"))
          | None =>
              if d_degraded (p_durable (r_producer w))
              then (events_hook_refused key refusal now draw sent w,
                    inl (Hook.answer_retry 503 30 "the store is degraded"))
              else
                let w := update key (refill now) w in
                let cursor := short_cursor (get "cursor" body) in
                let '(w, t) := events_take key body span now w in
                match t with
                | TakenRejected cause =>
                    (w, inl (if decide (cause = "oversize") then Hook.answer_too_large
                             else Hook.answer_gone "malformed occurrence"))
                | Rate =>
                    let w := events_hook_refused key refusal now draw sent w in
                    let after := match r_bindings w !! key with
                                 | Some b => (u64_sat_sub (refill_at now b) now + 999) / 1000
                                 | None => Hook.RETRY_AFTER_S end in
                    (w, inl (Hook.answer_retry 429 (after mod 2 ^ 32) "the binding's rate is spent"))
                | TakenRefused _ =>
                    (events_hook_refused key refusal now draw sent w,
                     inl (Hook.answer_retry 503 30 "the stream refused it"))
                | Appended => let '(w, a) := hook_taken key refusal cursor now draw sent true w in (w, inl a)
                | Duplicate => let '(w, a) := hook_taken key refusal cursor now draw sent false w in (w, inl a)
                end
          end
      end
  end.

(** The records read back, once per life. *)
Definition events_load_records (key : string) w : Runtime S * result unit unit :=
  match r_bindings w !! key with
  | None => (w, Ok tt)
  | Some b =>
      let '(w, record) := store (get_entity Memory (cursor_key b)) w in
      let '(w, seen) := store (get_entity Memory (seen_record b)) w in
      match record, seen with
      | Ok record, Ok seen =>
          let b := set_recorded (bool_decide (is_Some record)) (set_loaded true b) in
          let b := match seen with
                   | Some e => set_seen (seen_from_json (default VNull (get "entries" (env_state e)))) b | None => b end in
          let b := match record with
                   | Some e => set_cursor (match b_replay b with
                                           | ReplayNone => None
                                           | Within _ => get "cursor" (env_state e) ≫= Json.as_str end) b
                   | None => b
                   end in
          (with_bindings (<[key := b]> (r_bindings w)) w, Ok tt)
      | _, _ => (w, Err tt)
      end
  end.
End runtime.
End Intake.
