(* ===== verification/EventsProps.v ===== *)
(** * What an events binding guarantees

    A page's cursor is recorded only past occurrences that are in the stream,
    or never will be; an occurrence the dedup set remembers is not appended
    again; a delivery answered as appended is in the stream after a crash. *)

From S2P Require Import Events StreamsProps DurableProps.

Module EventsProps.
Import Streams StreamsProps Bridge Intake.
Local Open Scope Z_scope.

(** ** The dedup set *)

Lemma seen_contains_app k s s' : seen_contains k (s ++ s') = seen_contains k s || seen_contains k s'.
Proof. apply existsb_app. Qed.

Lemma seen_contains_elem k s : seen_contains k s = true <-> k ∈ s.*1.
Proof.
  unfold seen_contains. rewrite existsb_exists. split.
  - intros ([k' t] & Hin & E%bool_decide_eq_true). cbn in E. subst k'. apply list_elem_of_fmap. exists (k, t).
    split; [done|]. by apply list_elem_of_In.
  - intros ([k' t] & -> & Hin)%list_elem_of_fmap. exists (k', t). split; [by apply list_elem_of_In|].
    by apply bool_decide_eq_true.
Qed.

Lemma seen_insert_contains k k' now s :
  seen_contains k (seen_insert k' now s).1 = true -> seen_contains k s = true \/ k = k'.
Proof.
  rewrite !seen_contains_elem. unfold seen_insert. cbn [fst]. rewrite fmap_drop. intros Hin.
  assert (k ∈ (s ++ [(k', now)]).*1) as Hin2.
  { rewrite <- (take_drop (length (s ++ [(k', now)]) - SEEN_CAP) (s ++ [(k', now)]).*1).
    apply elem_of_app. by right. }
  rewrite fmap_app in Hin2. apply elem_of_app in Hin2 as [Hin2|Hin2]; [by left|right].
  by apply list_elem_of_singleton in Hin2.
Qed.

Lemma seen_insert_room k now s : (length s < SEEN_CAP)%nat -> (seen_insert k now s).1 = s ++ [(k, now)].
Proof.
  intros Hlt. unfold seen_insert. cbn [fst]. rewrite length_app. cbn [length].
  replace (length s + 1 - SEEN_CAP)%nat with 0%nat by lia. done.
Qed.

(** The set read back is the set written. *)
Lemma seen_round_trip s : Forall (fun e => is_u64 e.2) s -> seen_from_json (seen_to_json s) = s.
Proof.
  unfold seen_from_json, seen_to_json. induction 1 as [|[k t] s Ht _ IH]; [done|].
  cbn [fmap list_fmap omap list_omap seen_entry fst snd Json.as_str mbind option_bind ju64 as_u64].
  destruct s; cbn in *; congruence.
Qed.

(** ** One binding through the intake *)

(** What the intake leaves of a binding. *)
Definition same_binding (b b' : Binding) : Prop :=
  b_key b' = b_key b /\ b_server b' = b_server b /\ b_name b' = b_name b /\ b_owners b' = b_owners b /\
  b_into b' = b_into b /\ b_payload_schema b' = b_payload_schema b /\ b_cursor b' = b_cursor b /\
  b_recorded b' = b_recorded b /\ b_replay b' = b_replay b.

#[local] Instance same_binding_preorder : PreOrder same_binding.
Proof. unfold same_binding. split; [by intros ?|]. intros x y z Hx Hy. destruct_and!. split_and!; congruence. Qed.

Lemma spent_same ok now eid b : same_binding b (spent ok (noted now eid b)).
Proof. destruct b. unfold spent. cbn. by repeat case_match. Qed.
Lemma spent_seen ok b : b_seen (spent ok b) = b_seen b.
Proof. destruct b. unfold spent. cbn. by repeat case_match. Qed.
Lemma target_same b b' : same_binding b b' -> target b' = target b.
Proof. unfold target. by intros (_ & _ & _ & -> & -> & _). Qed.

Section intake.
Context {S : Type} `{StoreOk S} `{Clock} `{JsonLen}.
Implicit Types (w : Runtime S) (p : Producer S) (d : Durable S).

(** An event in its place, under the head, unless retention has trimmed it. *)
Definition kept_at d (stream : string) (seq : Z) (ev : Value) : Prop :=
  is_u64 seq /\ (seq <= stream_seq (meta_of stream d))%Z /\
  (holds d stream seq ev \/ (seq < stream_first (meta_of stream d))%Z).

(** What appends to a stream leave behind. *)
Record grown (stream : string) (p p' : Producer S) : Prop := {
  g_static : static (p_durable p) (p_durable p');
  g_settings : p_streams p' = p_streams p /\ p_pressure p' = p_pressure p;
  g_numbered : numbered (p_durable p) -> numbered (p_durable p');
  g_aside : aside (p_durable p) (p_durable p');
  g_head : stream_seq (meta_of stream (p_durable p)) <= stream_seq (meta_of stream (p_durable p'));
  g_dirty : d_manifest_dirty (p_durable p) = true -> d_manifest_dirty (p_durable p') = true;
  g_kept : forall seq ev, kept_at (p_durable p) stream seq ev -> kept_at (p_durable p') stream seq ev;
}.

Lemma grown_refl stream p : grown stream p p.
Proof. split; [done|done|by intros ?|done|lia|by intros ?|by intros ?]. Qed.
Lemma grown_trans stream p p1 p2 : grown stream p p1 -> grown stream p1 p2 -> grown stream p p2.
Proof.
  intros [? [] ? ? ? ? ?] [? [] ? ? ? ? ?].
  split; [by etrans|split; congruence|by auto|by eapply aside_trans|by etrans|by auto|by auto].
Qed.

Lemma kept_grown stream p p' t : kept stream p p' t -> grown stream p p'.
Proof.
  intros [? ? ? ? ? (Hseq & Hfirst & _) Hev _]. split; [done|done|done|done|apply Hseq|done|].
  intros seq ev (Hu & Hle & Hor). split; [done|]. split; [lia|]. destruct Hor as [Hh|Hlt]; [|right; lia].
  destruct (Hev _ _ _ Hu Hh) as [|(_ & _ & _ & Hlt)]; [by left|by right].
Qed.

(** Room for [n] appends. *)
Definition ample (n : nat) (stream : string) d : Prop :=
  let m := meta_of stream d in
  is_u64 (stream_first m) /\ is_u64 (stream_seq m) /\
  is_u64 (stream_seq m + Z.of_nat n * Z.of_nat HEAD_PROBES + 1).

Lemma ample_room n stream d : ample (Datatypes.S n) stream d -> room stream d.
Proof. unfold ample, room, is_u64. intros (? & ? & ?). split_and!; lia. Qed.
Lemma ample_le n n' stream d : (n <= n')%nat -> ample n' stream d -> ample n stream d.
Proof. unfold ample, is_u64. intros Hle (? & ? & ?). split_and!; nia. Qed.
Lemma ample_kept n stream p p' t :
  kept stream p p' t -> ample (Datatypes.S n) stream (p_durable p) -> ample n stream (p_durable p').
Proof.
  intros [_ _ _ _ _ ((?&?) & ? & ?) _ _] (? & ? & ?). unfold ample, is_u64 in *. split_and!; lia.
Qed.

(** ** One occurrence *)

Definition event_of (into : EventInto) (server id : string) (data : Value) (span : list (string * Value)) (seq t : Z) : Value :=
  event_value (into_stream into) (into_subject into) None data id (source server) span seq t.

(** The binding [b] under [key] in a runtime. *)
Abbreviation at_ w key b := (r_bindings w !! key = Some b).
Abbreviation dur w := (p_durable (r_producer w)).
Abbreviation judged w key b raw :=
  (check (b_server b) (b_name b) key raw (b_payload_schema b) (r_max_value_bytes w)).

(** One of a page's occurrences in the stream: its number and its dedup key. *)
Record Logged := mkLogged { e_seq : Z; e_raw : Value; e_key : string }.
Implicit Types (e : Logged).

(** The event of an entry, stamped at some time. *)
Definition written w key b into (span : Value -> list (string * Value)) e (ev : Value) : Prop :=
  exists id eid data ok ts, judged w key b (e_raw e) = Append id eid data ok /\ e_key e = seen_key eid /\
    ev = event_of into (b_server b) id data (span (e_raw e)) (e_seq e) ts.

(** An occurrence whose event would be over the store's limit on a value, at
    a number past the stream's head. *)
Definition oversized w key b into (span : Value -> list (string * Value)) (raw : Value) : Prop :=
  exists id eid data ok n ts cap, judged w key b raw = Append id eid data ok /\
    stream_seq (meta_of (into_stream into) (dur w)) < n /\ max_value_bytes (d_policy (dur w)) = Some cap /\
    cap < json_len (event_of into (b_server b) id data (span raw) n ts).

(** No event that was not there. *)
Definition nothing_new d d' : Prop := forall st s ev, is_u64 s -> holds d' st s ev -> holds d st s ev.

Lemma take_spec key raw span now w b into :
  at_ w key b -> target b = Some into -> numbered (dur w) -> on_error (d_policy (dur w)) = Halt -> unsized ->
  forall n, ample (Datatypes.S n) (into_stream into) (dur w) ->
  let '(w', t) := events_take key raw (span raw) now w in
  exists b', at_ w' key b' /\ same_binding b b' /\ r_max_value_bytes w' = r_max_value_bytes w /\
    grown (into_stream into) (r_producer w) (r_producer w') /\ ample n (into_stream into) (dur w') /\
    match t with
    | Appended => exists e, e_raw e = raw /\ seen_contains (e_key e) (b_seen b) = false /\
        b_seen b' = (seen_insert (e_key e) now (b_seen b)).1 /\ d_manifest_dirty (dur w') = true /\
        stream_seq (meta_of (into_stream into) (dur w)) < e_seq e /\
        stream_seq (meta_of (into_stream into) (dur w')) = e_seq e /\
        (keeps_one (into_stream into) (r_producer w) -> stream_first (meta_of (into_stream into) (dur w')) <= e_seq e) /\
        (exists ev, written w key b into span e ev /\ kept_at (dur w') (into_stream into) (e_seq e) ev) /\
        forall st s ev, is_u64 s -> holds (dur w') st s ev -> holds (dur w) st s ev \/
          st = into_stream into /\ s = e_seq e /\ written w key b into span e ev
    | TakenRefused _ => b_seen b' = b_seen b /\
        forall st s ev, is_u64 s -> holds (dur w') st s ev -> holds (dur w) st s ev \/
          st = into_stream into /\ exists e, e_raw e = raw /\ e_seq e = s /\
            seen_contains (e_key e) (b_seen b) = false /\ written w key b into span e ev
    | Duplicate => w' = w /\ exists id eid data ok, judged w key b raw = Append id eid data ok /\
        seen_contains (seen_key eid) (b_seen b) = true
    | TakenRejected c => b_seen b' = b_seen b /\ nothing_new (dur w) (dur w') /\
        ((exists x, judged w key b raw = Rejected c x) \/ oversized w key b into span raw)
    | Rate => b_seen b' = b_seen b /\ nothing_new (dur w) (dur w')
    end.
Proof.
  intros Hb Ht Hnum Hh Hun n Hn. unfold events_take. rewrite Hb, Ht.
  assert (exists b', at_ w key b' /\ same_binding b b' /\ r_max_value_bytes w = r_max_value_bytes w /\
      grown (into_stream into) (r_producer w) (r_producer w) /\ ample n (into_stream into) (dur w) /\
      b_seen b' = b_seen b) as Hsame.
  { exists b. split_and!; [done|done|done|apply grown_refl|eapply ample_le, Hn; lia|done]. }
  destruct (judged w key b raw) as [id eid data ok|cause e] eqn:Ej.
  2: { destruct Hsame as (b' & ? & ? & ? & ? & ? & ?). exists b'. split_and!; try done; [by intros ?|left; by eexists]. }
  destruct (seen_contains (seen_key eid) (b_seen b)) eqn:Es.
  { destruct Hsame as (b' & ? & ? & ? & ? & ? & ?). exists b'. split_and!; try done. by exists id, eid, data, ok. }
  destruct (dry b); [destruct Hsame as (b' & ? & ? & ? & ? & ? & ?); exists b'; split_and!; try done; by intros ?|].
  set (w1 := if bool_decide (Instruction ∈ b_owners b) then _ else w).
  assert (r_producer w1 = r_producer w /\ r_bindings w1 = r_bindings w /\ r_max_value_bytes w1 = r_max_value_bytes w)
    as (Ep & Eb & Em) by (unfold w1; by case_bool_decide). clearbody w1. rewrite Ep.
  pose proof (stream_append_spec (into_stream into) (into_subject into) None data id (source (b_server b)) (span raw)
    (r_producer w) Hnum (ample_room _ _ _ Hn)) as Ha.
  pose proof (append_adds (into_stream into) (into_subject into) None data id (source (b_server b)) (span raw)
    (r_producer w) Hun Hnum (ample_room _ _ _ Hn)) as Hadd. cbv zeta in Ha, Hadd.
  destruct (append _ _ _ _ _ _ _ (r_producer w)) as [p1 r] eqn:Eap. destruct Ha as [Hk Hr]. destruct Hadd as [Hadd Hbig].
  pose proof (kept_grown _ _ _ _ Hk) as Hg. pose proof (ample_kept n _ _ _ _ Hk Hn) as Han.
  assert (forall seq ts ev, ev = event_of into (b_server b) id data (span raw) seq ts ->
    written w key b into span (mkLogged seq raw (seen_key eid)) ev) as Hwr
    by (intros seq ts ev ->; by exists id, eid, data, ok, ts).
  destruct r as [seq|[e|why]].
  - destruct Hr as (Hlt & Hseq & Hd & _ & Hone & Hev). exists (spent ok (noted now eid b)).
    cbn [update with_bindings with_producer r_bindings r_producer r_max_value_bytes]. rewrite Eb.
    split_and!; [by rewrite lookup_alter_eq, Hb|apply spent_same|done|done|done|].
    exists (mkLogged seq raw (seen_key eid)). cbn [e_seq e_raw e_key]. rewrite spent_seen.
    split_and!; [done|done|done|done|done|done|done| |].
    + assert (is_u64 seq) as Hu.
      { destruct Hn as (_ & ? & ?). destruct Hk as [_ _ _ _ _ (? & _) _ _]. unfold is_u64 in *. lia. }
      destruct Hev as [|[Htr|(ts & Hts)]]; [congruence|exists (event_of into (b_server b) id data (span raw) seq 0)|eexists];
        (split; [by eapply Hwr|]); (split; [done|]); (split; [lia|]); [by right|by left; apply Hts].
    + intros st s ev Hus [|(-> & _ & (ts & ->) & ->)]%Hadd; [by left|right|done]. split_and!; [done|done|by eapply Hwr].
  - exists b. cbn. rewrite Eb. split_and!; try done.
    + intros st s ev Hus [|(_ & _ & _ & [])]%Hadd; done.
    + right. destruct Hbig as (m & ts & cap & ? & ? & ?). by exists id, eid, data, ok, m, ts, cap.
  - exists b. cbn. rewrite Eb. split_and!; try done.
    intros st s ev Hus [|(-> & _ & (ts & ->) & _)]%Hadd; [by left|right|done]. split; [done|].
    exists (mkLogged s raw (seen_key eid)). split_and!; [done|done|done|by eapply Hwr].
Qed.
(** ** A page *)

(** What a page put in the stream: occurrences of it, under rising numbers past
    the head, and each in its place. *)
Record page_log w key b into span (raws : list Value) (log : list Logged) d : Prop := {
  pl_order : StronglySorted Z.lt (stream_seq (meta_of (into_stream into) (dur w)) :: (e_seq <$> log));
  pl_kept : forall e, e ∈ log -> e_raw e ∈ raws /\
    exists ev, written w key b into span e ev /\ kept_at d (into_stream into) (e_seq e) ev;
}.

(** What a page that was not held leaves no question about. *)
Definition accounted w key b into span (log : list Logged) (raw : Value) : Prop :=
  match judged w key b raw with
  | Rejected _ _ => True
  | Append _ eid _ _ => seen_contains (seen_key eid) (b_seen b) = true \/ seen_key eid ∈ (e_key <$> log) \/
      oversized w key b into span raw
  end.

Lemma judged_same w w' key b b' raw :
  same_binding b b' -> r_max_value_bytes w' = r_max_value_bytes w -> judged w' key b' raw = judged w key b raw.
Proof. by intros (_ & -> & -> & _ & _ & -> & _) ->. Qed.

Lemma written_same w w' key b b' into span e ev :
  same_binding b b' -> r_max_value_bytes w' = r_max_value_bytes w ->
  written w' key b' into span e ev <-> written w key b into span e ev.
Proof. intros Hs Hm. unfold written. by rewrite (judged_same w w' key b b' _ Hs Hm), (proj1 (proj2 Hs)). Qed.

Lemma oversized_grown w w' key b b' into span raw :
  same_binding b b' -> r_max_value_bytes w' = r_max_value_bytes w ->
  grown (into_stream into) (r_producer w) (r_producer w') ->
  oversized w' key b' into span raw -> oversized w key b into span raw.
Proof.
  intros Hs Hm [(_ & _ & Hp & _) _ _ _ Hhd _ _] (id & eid & data & ok & n & ts & cap & Hj & Hlt & Hcap & Hbig).
  rewrite (judged_same w w' key b b' _ Hs Hm) in Hj. rewrite (proj1 (proj2 Hs)) in Hbig. rewrite Hp in Hcap.
  exists id, eid, data, ok, n, ts, cap. split_and!; [done|lia|done|done].
Qed.

(** [accounted] and [page_log] read from the first binding alone. *)
Lemma accounted_same w w' key b b' into span log raw :
  same_binding b b' -> r_max_value_bytes w' = r_max_value_bytes w -> b_seen b' = b_seen b ->
  grown (into_stream into) (r_producer w) (r_producer w') ->
  accounted w' key b' into span log raw -> accounted w key b into span log raw.
Proof.
  intros Hs Hm Es Hg. unfold accounted. rewrite (judged_same w w' key b b' _ Hs Hm), Es.
  destruct (judged w key b raw); [|done]. intros [|[|Hb]]; [by left|by right; left|right; right; by eapply oversized_grown].
Qed.

Lemma accounted_app w key b into span log new raw :
  accounted w key b into span log raw -> accounted w key b into span (log ++ new) raw.
Proof.
  unfold accounted. destruct (judged w key b raw); [|done]. rewrite fmap_app, elem_of_app. tauto.
Qed.

Section page.
Context (w0 : Runtime S) (key : string) (b0 : Binding) (into : EventInto) (all : list Value)
  (span : Value -> list (string * Value)) (now : Z).

(** The dedup set has room for the page. *)
Definition roomy : Prop := (length (b_seen b0) + length all <= SEEN_CAP)%nat.

(** Every event that was not there is the log's, or, if the page was stopped,
    of the occurrence that stopped it (the store's answer was lost). *)
Definition only_log w (log : list Logged) (stop : option Stop) : Prop :=
  forall st s ev, is_u64 s -> holds (dur w) st s ev -> holds (dur w0) st s ev \/
    st = into_stream into /\ exists e, e_seq e = s /\ written w0 key b0 into span e ev /\
      (e ∈ log \/ stop <> None /\ e_raw e ∈ all /\ e_key e ∉ (e_key <$> log) /\ seen_contains (e_key e) (b_seen b0) = false).

(** No key twice, and none remembered before. *)
Definition new_keys (log : list Logged) : Prop :=
  NoDup (e_key <$> log) /\ forall k, k ∈ (e_key <$> log) -> seen_contains k (b_seen b0) = false.

(** The binding mid-page: its dedup set remembers what it did and what the
    page put in the stream. *)
Record midway w (log : list Logged) (stop : option Stop) : Prop := {
  mw_binding : exists b, at_ w key b /\ same_binding b0 b /\
    (forall k, seen_contains k (b_seen b) = true -> seen_contains k (b_seen b0) = true \/ k ∈ (e_key <$> log)) /\
    (roomy -> b_seen b = b_seen b0 ++ ((fun e => (e_key e, now)) <$> log));
  mw_max : r_max_value_bytes w = r_max_value_bytes w0;
  mw_grown : grown (into_stream into) (r_producer w0) (r_producer w);
  mw_dirty : log <> [] -> d_manifest_dirty (dur w) = true;
  mw_log : page_log w0 key b0 into span all log (dur w);
  mw_once : roomy -> new_keys log /\ only_log w log stop;
}.

Context (Hb0 : at_ w0 key b0) (Ht0 : target b0 = Some into) (Hnum0 : numbered (dur w0))
  (Hh0 : on_error (d_policy (dur w0)) = Halt) (Hun : unsized).

Lemma midway_start : midway w0 [] None.
Proof using Hb0.
  split; [|done|apply grown_refl|done| |].
  - exists b0. split_and!; [done|done|by left|by rewrite app_nil_r].
  - split; [by repeat constructor|]. by intros e He%elem_of_nil.
  - intros _. split; [split; [constructor|by intros k Hk%elem_of_nil]|]. by left.
Qed.

Lemma log_grown w w' log :
  grown (into_stream into) (r_producer w) (r_producer w') ->
  page_log w0 key b0 into span all log (dur w) -> page_log w0 key b0 into span all log (dur w').
Proof.
  intros Hg [Ho Hk]. split; [done|]. intros e (Hr & ev & Hw & Hat)%Hk. split; [done|]. exists ev.
  split; [done|]. by apply (g_kept _ _ _ Hg).
Qed.

(** An entry joins the log. *)
Lemma log_snoc w w' log e ev :
  grown (into_stream into) (r_producer w0) (r_producer w) -> grown (into_stream into) (r_producer w) (r_producer w') ->
  page_log w0 key b0 into span all log (dur w) -> e_raw e ∈ all ->
  stream_seq (meta_of (into_stream into) (dur w)) < e_seq e ->
  written w0 key b0 into span e ev -> kept_at (dur w') (into_stream into) (e_seq e) ev ->
  page_log w0 key b0 into span all (log ++ [e]) (dur w').
Proof.
  intros Hg0 Hg Hlog Hraw Hlt Hw Hat. destruct (log_grown w w' log Hg Hlog) as [_ Hk']. destruct Hlog as [Ho Hk]. split.
  - rewrite fmap_app. change (?x :: ?l ++ _) with ((x :: l) ++ [e_seq e]). apply StronglySorted_app_2; [|done|by repeat constructor].
    intros x y Hx Hy%list_elem_of_singleton. subst y. apply elem_of_cons in Hx as [->|(e' & -> & He')%list_elem_of_fmap].
    + pose proof (g_head _ _ _ Hg0). lia.
    + apply Hk in He' as (_ & ev' & _ & _ & ? & _). lia.
  - intros e' [He'|He'%list_elem_of_singleton]%elem_of_app; [by apply Hk'|]. subst e'. split; [done|]. by exists ev.
Qed.

Lemma keys_snoc (log : list Logged) e k : k ∈ (e_key <$> (log ++ [e])) <-> k ∈ (e_key <$> log) \/ k = e_key e.
Proof. rewrite fmap_app, elem_of_app. cbn [fmap list_fmap]. by rewrite list_elem_of_singleton. Qed.

(** The page goes on with nothing new in the stream. *)
Lemma midway_idle w w' log :
  midway w log None -> r_max_value_bytes w' = r_max_value_bytes w ->
  grown (into_stream into) (r_producer w) (r_producer w') ->
  (exists b b', at_ w key b /\ at_ w' key b' /\ same_binding b b' /\ b_seen b' = b_seen b) ->
  (d_manifest_dirty (dur w) = true -> d_manifest_dirty (dur w') = true) ->
  forall stop, (roomy -> only_log w' log stop) -> midway w' log stop.
Proof.
  intros [(b & Hb & Hs & Hseen & Hex) Hm Hg Hd Hlog Ho] Hm' Hg' (b1 & b' & Hb1 & Hb' & Hs' & Es) Hd' stop Hnew.
  assert (b1 = b) as -> by congruence. split; [|congruence|by eapply grown_trans|by auto|by eapply log_grown|].
  - exists b'. rewrite Es. split_and!; [done|by etrans|done|done].
  - intros Hr. split; [by apply Ho|by apply Hnew].
Qed.

Lemma midway_nothing w w' log :
  midway w log None -> nothing_new (dur w) (dur w') -> roomy -> only_log w' log None.
Proof. intros [_ _ _ _ _ Ho] Hn Hr st s ev Hu Hh. apply (proj2 (Ho Hr)); [done|]. by apply Hn. Qed.

Lemma only_log_stop w log stop : only_log w log None -> only_log w log stop.
Proof.
  intros Ho st s ev Hu Hh. destruct (Ho st s ev Hu Hh) as [|(-> & e & ? & ? & [|[? _]])]; [by left|right|done].
  split; [done|]. exists e. tauto.
Qed.

(** One occurrence of the page. *)
Lemma midway_take raw w log n :
  raw ∈ all -> midway w log None -> (length log < length all)%nat -> ample (Datatypes.S n) (into_stream into) (dur w) ->
  let '(w', t) := events_take key raw (span raw) now w in
  ample n (into_stream into) (dur w') /\
  match t with
  | Appended => exists e, midway w' (log ++ [e]) None /\ accounted w0 key b0 into span (log ++ [e]) raw
  | Duplicate | TakenRejected _ => midway w' log None /\ accounted w0 key b0 into span log raw
  | Rate => midway w' log (Some StopRate)
  | TakenRefused why => midway w' log (Some (StopRefused why))
  end.
Proof using Hb0 Ht0 Hnum0 Hh0 Hun.
  intros Hraw Hw Hlen Hn. pose proof Hw as [(b & Hb & Hsame & Hseen & Hex) Hmax Hg Hd Hlog Ho].
  assert (target b = Some into) as Ht by (by rewrite (target_same _ _ Hsame)).
  assert (on_error (d_policy (dur w)) = Halt) as Hh by (destruct Hg as [(_ & _ & -> & _) _ _ _ _ _ _]; done).
  assert (roomy -> forall k, seen_contains k (b_seen b) = false ->
    seen_contains k (b_seen b0) = false /\ k ∉ (e_key <$> log)) as Hfresh.
  { intros Hr k Hk. rewrite (Hex Hr), seen_contains_app in Hk. apply orb_false_iff in Hk as [? Hk]. split; [done|].
    intros Hin. apply not_true_iff_false in Hk. apply Hk, seen_contains_elem. rewrite <- list_fmap_compose. exact Hin. }
  pose proof (take_spec key raw span now w b into Hb Ht (g_numbered _ _ _ Hg Hnum0) Hh Hun n Hn) as Hs.
  destruct (events_take key raw (span raw) now w) as [w' t].
  destruct Hs as (b' & Hb' & Hsame' & Hmax' & Hg' & Hn' & Hr). split; [done|].
  assert (judged w key b raw = judged w0 key b0 raw) as Hj by (by apply judged_same).
  assert (b_seen b' = b_seen b -> forall stop, (roomy -> only_log w' log stop) -> midway w' log stop) as Hidle.
  { intros Es. apply (midway_idle w w' log Hw Hmax' Hg'); [by exists b, b'|by apply (g_dirty _ _ _ Hg')]. }
  pose proof (midway_nothing w w' log Hw) as Hnothing.
  destruct t as [| |c| |why].
  - destruct Hr as (e & <- & Hkn & Es & Hdirty & Hlt & _ & _ & (ev & Hwr & Hat) & Honly). exists e.
    rewrite (written_same w0 w key b0 b) in Hwr by done. split.
    2: { destruct Hwr as (id & eid & data & ok & ts & Hjj & Hk & _). unfold accounted. rewrite Hjj, <- Hk.
         right; left. by apply keys_snoc; right. }
    split; [|congruence|by eapply grown_trans|done|by eapply log_snoc|].
    + exists b'. split_and!; [done|by etrans| |].
      * intros k. rewrite Es, keys_snoc. intros [[|]%Hseen| ->]%seen_insert_contains; tauto.
      * intros Hrm. rewrite Es, seen_insert_room, (Hex Hrm); [by rewrite <- app_assoc, fmap_app|].
        rewrite (Hex Hrm), length_app, length_fmap. unfold roomy in Hrm. lia.
    + intros Hrm. destruct (Ho Hrm) as [[Hnd Hns] Hol]. destruct (Hfresh Hrm _ Hkn) as [Hk0 Hkl]. split; [split|].
      * rewrite fmap_app. apply NoDup_app. split_and!; [done|by intros k Hk ->%list_elem_of_singleton|apply NoDup_singleton].
      * intros k [Hk| ->]%keys_snoc; [by apply Hns|done].
      * intros st s ev' Hu [Hh'|(-> & -> & Hw')]%Honly; [|right|done].
        -- apply Hol in Hh' as [|(? & e' & ? & ? & [|[? _]])]; [by left|right|done|done]. split; [done|].
           exists e'. rewrite elem_of_app. tauto.
        -- split; [done|]. exists e. rewrite elem_of_app, list_elem_of_singleton.
           rewrite (written_same w0 w key b0 b) in Hw' by done. tauto.
  - destruct Hr as (-> & id & eid & data & ok & Hk & Hin). split; [done|]. unfold accounted. rewrite <- Hj, Hk.
    apply Hseen in Hin as [|]; [by left|by right; left].
  - destruct Hr as (Es & Hnn & Hr). split; [apply Hidle; auto|]. unfold accounted. rewrite <- Hj.
    destruct Hr as [(x & ->)|Hbig]; [done|]. destruct (judged w key b raw); [|done]. right; right. by eapply oversized_grown.
  - destruct Hr as (Es & Hnn). apply Hidle; [done|]. intros Hrm. apply only_log_stop. by apply Hnothing.
  - destruct Hr as (Es & Honly). apply Hidle; [done|]. intros Hrm st s ev Hu [Hh'|(-> & e & <- & <- & Hk & Hw')]%Honly; [| |done].
    + apply (proj2 (Ho Hrm)) in Hh' as [|(-> & e & ? & ? & [|[? _]])]; [by left|right|done|done]. split; [done|]. exists e. tauto.
    + right. split; [done|]. exists e. rewrite (written_same w0 w key b0 b) in Hw' by done.
      destruct (Hfresh Hrm _ Hk). split_and!; [done|done|]. by right.
Qed.

(** The page, up to what stops it. *)
Lemma midway_page raws : forall w log a f,
  (forall raw, raw ∈ raws -> raw ∈ all) -> midway w log None -> (length log + length raws <= length all)%nat ->
  ample (length raws) (into_stream into) (dur w) ->
  let '(w', (a', _, stop)) := take_page key span now raws a f w in
  exists new, midway w' (log ++ new) stop /\ a' = a + Z.of_nat (length new) /\
    (stop = None -> forall raw, raw ∈ raws -> accounted w0 key b0 into span (log ++ new) raw).
Proof using Hb0 Ht0 Hnum0 Hh0 Hun.
  induction raws as [|raw raws IH]; intros w log a f Hin Hw Hlen Hn; cbn [take_page].
  { exists []. rewrite app_nil_r. split_and!; [done|cbn; lia|]. by intros _ raw Hr%elem_of_nil. }
  cbn [length] in Hlen, Hn.
  pose proof (midway_take raw w log (length raws) (Hin raw ltac:(by left)) Hw ltac:(lia) Hn) as Ht.
  destruct (events_take key raw (span raw) now w) as [w1 t]. destruct Ht as [Hn1 Ht].
  assert (forall log1 f', midway w1 (log ++ log1) None -> (length (log ++ log1) + length raws <= length all)%nat ->
    accounted w0 key b0 into span (log ++ log1) raw ->
    let '(w', (a'', _, stop)) := take_page key span now raws (a + Z.of_nat (length log1)) f' w1 in
    exists new, midway w' (log ++ new) stop /\ a'' = a + Z.of_nat (length new) /\
      (stop = None -> forall r, r ∈ raw :: raws -> accounted w0 key b0 into span (log ++ new) r)) as Hgo.
  { intros log1 f' Hw1 Hl1 Hacc.
    specialize (IH w1 (log ++ log1) (a + Z.of_nat (length log1)) f' (fun r Hr => Hin r (list_elem_of_further _ _ _ Hr)) Hw1 Hl1 Hn1).
    destruct (take_page _ _ _ raws _ f' w1) as [w2 [[a2 f2] stop]]. destruct IH as (new & Hw2 & -> & Hacc2).
    exists (log1 ++ new). rewrite app_assoc. split_and!; [done|rewrite length_app; lia|].
    intros Hs r [->|Hr]%elem_of_cons; [by apply accounted_app|by apply Hacc2]. }
  assert (midway w1 log None /\ accounted w0 key b0 into span log raw -> forall f',
    let '(w', (a'', _, stop)) := take_page key span now raws a f' w1 in
    exists new, midway w' (log ++ new) stop /\ a'' = a + Z.of_nat (length new) /\
      (stop = None -> forall r, r ∈ raw :: raws -> accounted w0 key b0 into span (log ++ new) r)) as Hskip.
  { intros [Hw1 Hacc] f'. specialize (Hgo [] f'). rewrite app_nil_r, Z.add_0_r in Hgo. apply Hgo; [done|lia|done]. }
  destruct t as [| |c| |why].
  - destruct Ht as (e & Hw1 & Hacc). apply (Hgo [e] (f + 1) Hw1); [|done]. rewrite length_app. cbn [length]. lia.
  - by apply Hskip.
  - by apply Hskip.
  - exists []. rewrite app_nil_r. split_and!; [done|cbn; lia|done].
  - exists []. rewrite app_nil_r. split_and!; [done|cbn; lia|done].
Qed.
End page.
(** ** The records *)

Lemma cursor_not_seen d b : d_key d Memory (seen_record b) <> d_key d Memory (cursor_key b).
Proof.
  intros E. apply d_key_inj, (f_equal chars) in E. unfold seen_record, cursor_key in E. rewrite !chars_app in E.
  apply app_inv_head, app_inv_head in E. discriminate.
Qed.

(** A record put, whatever comes of it. *)
Lemma store_put_memory id v w :
  let '(w', _) := store (put Memory id v None) w in
  r_bindings w' = r_bindings w /\ static (dur w) (dur w') /\
  forall j, j <> d_key (dur w) Memory id -> dview (dur w') !! j = dview (dur w) !! j.
Proof.
  unfold store. pose proof (put_spec Memory id v None (dur w)) as Hp.
  destruct (put _ _ _ _ (dur w)) as [d' r]. destruct Hp as (Hs & Hm & _). split_and!; [done|done|].
  intros j Hj. exact (maybe_wrote_frame _ _ _ _ _ _ _ Hm Hj).
Qed.

(** The events, the manifest and one record, as they were. *)
Definition unmoved w w' b : Prop :=
  static (dur w) (dur w') /\
  (forall kind id, kind <> Memory -> dview (dur w') !! d_key (dur w) kind id = dview (dur w) !! d_key (dur w) kind id) /\
  dview (dur w') !! d_key (dur w) Memory (cursor_key b) = dview (dur w) !! d_key (dur w) Memory (cursor_key b).

Lemma save_seen_spec key w b :
  at_ w key b -> r_bindings (save_seen key w) = r_bindings w /\ unmoved w (save_seen key w) b.
Proof.
  intros Hb. unfold save_seen. rewrite Hb.
  pose proof (store_put_memory (seen_record b) (jobj [("entries", seen_to_json (b_seen b))]) w) as Hp.
  destruct (store _ w) as [w' r]. cbn [fst]. destruct Hp as (Hbs & Hs & Hf). split; [done|]. split_and!; [done| |].
  - intros kind id Hne. apply Hf. by apply d_key_kind_ne.
  - apply Hf. apply not_eq_sym, cursor_not_seen.
Qed.

Lemma pause_spec key cause draw w b :
  at_ w key b -> exists b', at_ (events_pause_for key cause draw w) key b' /\ same_binding b b' /\
    unmoved w (events_pause_for key cause draw w) b.
Proof.
  intros Hb. unfold events_pause_for. rewrite Hb. destruct (decide _) as [_|_].
  - eexists. cbn. rewrite lookup_alter_eq, Hb. split_and!; [done|done|]. by split_and!.
  - eexists. cbn. rewrite !lookup_alter_eq, Hb. split_and!; [done|done|]. by split_and!.
Qed.

Lemma store_flush w :
  on_error (d_policy (dur w)) = Halt ->
  let '(w', r) := store (flush true) w in
  r_bindings w' = r_bindings w /\ r_max_value_bytes w' = r_max_value_bytes w /\ static (dur w) (dur w') /\
  (forall kind id, kind <> Manifest_ -> dview (dur w') !! d_key (dur w) kind id = dview (dur w) !! d_key (dur w) kind id) /\
  (d_manifest_dirty (dur w) = true -> is_ok r = true ->
    stored_manifest (dview (dur w')) (d_key (dur w) Manifest_ MANIFEST_ID) = Some (d_manifest (dur w))).
Proof.
  intros Hh. unfold store. pose proof (flush_spec true (dur w)) as Hf.
  pose proof (flush_halt (dur w) Hh) as Hfh. destruct (flush true (dur w)) as [d r].
  destruct Hf as (Hs & Hfr & _). split_and!; [done|done|done| |].
  - intros kind id Hne. apply Hfr. by apply d_key_kind_ne.
  - intros Hd Hok. by apply (Hfh Hd).
Qed.

Lemma record_spec key w b :
  at_ w key b -> static (dur w) (dur (events_record key w)) /\
  (forall kind id, kind <> Memory ->
    dview (dur (events_record key w)) !! d_key (dur w) kind id = dview (dur w) !! d_key (dur w) kind id) /\
  exists b', at_ (events_record key w) key b' /\ b_cursor b' = b_cursor b /\ b_seen b' = b_seen b.
Proof.
  intros Hb. unfold events_record. rewrite Hb. destruct (clock w) as [w1 now] eqn:Ec. injection Ec as <- <-.
  set (w1 := with_producer _ w). set (record := jobj _).
  pose proof (store_put_memory (cursor_key b) record w1) as Hp.
  destruct (store (put Memory (cursor_key b) record None) w1) as [w2 r]. destruct Hp as (Hbs & Hs & Hf).
  assert (forall kind id, kind <> Memory -> dview (dur w2) !! d_key (dur w) kind id = dview (dur w) !! d_key (dur w) kind id)
    as Hfr by (intros kind id Hne; apply (Hf (d_key (dur w) kind id)); by apply (d_key_kind_ne (dur w))).
  destruct (is_ok r); cbn; (split_and!; [done|done|]); rewrite ?Hbs.
  - eexists. rewrite lookup_alter_eq. cbn. rewrite Hb. by split.
  - by exists b.
Qed.

Lemma settle_page_spec key draw page now a f stopped w b :
  at_ w key b -> on_error (d_policy (dur w)) = Halt -> (0 < a -> d_manifest_dirty (dur w) = true) ->
  let '(w', out) := settle_page key draw page now a f stopped w in
  static (dur w) (dur w') /\
  (forall id, dview (dur w') !! d_key (dur w) Event id = dview (dur w) !! d_key (dur w) Event id) /\
  exists b', at_ w' key b' /\ b_seen b' = seen_expire now (b_seen b) /\
  match out with
  | Moved => stopped = None /\ b_cursor b' = pg_cursor page /\ (0 < a ->
      stored_manifest (dview (dur w')) (d_key (dur w) Manifest_ MANIFEST_ID) = Some (d_manifest (dur w)))
  | _ => b_cursor b' = b_cursor b /\
      dview (dur w') !! d_key (dur w) Memory (cursor_key b) = dview (dur w) !! d_key (dur w) Memory (cursor_key b)
  end.
Proof.
  intros Hb Hh Hd. unfold settle_page. set (moving := match stopped with None => _ | _ => _ end).
  pose proof (store_flush w Hh) as Hfl. destruct (store (flush true) w) as [wf rf].
  assert (exists w1 flushed, (if (0 <? a) || moving then (wf, rf) else (w, Ok true)) = (w1, flushed) /\
    at_ w1 key b /\ static (dur w) (dur w1) /\
    (forall kind id, kind <> Manifest_ -> dview (dur w1) !! d_key (dur w) kind id = dview (dur w) !! d_key (dur w) kind id) /\
    (0 < a -> is_ok flushed = true ->
      stored_manifest (dview (dur w1)) (d_key (dur w) Manifest_ MANIFEST_ID) = Some (d_manifest (dur w)))) as Hstage.
  { destruct Hfl as (Hbs & _ & Hs & Hfr & Hst). destruct (Z.ltb_spec 0 a) as [Ha|Ha]; cbn [orb].
    - exists wf, rf. rewrite Hbs. split_and!; try done. intros _. by apply Hst, Hd.
    - destruct moving; eexists _, _; (split; [done|]); rewrite ?Hbs; split_and!; try done; lia. }
  clear Hfl. destruct Hstage as (w1 & flushed & -> & Hb1 & Hs1 & Hf1 & Hst1).
  set (stop2 := match flushed with Err e => _ | Ok _ => stopped end).
  set (w2 := update key (fun b => set_seen (seen_expire now (b_seen b)) b) w1).
  assert (at_ w2 key (set_seen (seen_expire now (b_seen b)) b)) as Hb2 by (cbn; by rewrite lookup_alter_eq, Hb1).
  set (b2 := set_seen _ b) in Hb2.
  set (w3 := if (0 <? a) && is_ok flushed then save_seen key w2 else w2).
  assert (at_ w3 key b2 /\ unmoved w2 w3 b2) as [Hb3 Hu3].
  { unfold w3. destruct (_ && _); [|split; [done|by split_and!]].
    destruct (save_seen_spec key w2 b2 Hb2) as [E Hu]. by rewrite E. }
  change (unmoved w1 w3 b) in Hu3. destruct Hu3 as (Hs3 & Ho3 & Hc3).
  assert (static (dur w) (dur w3)) as Hs by (by etrans).
  assert (forall id, dview (dur w3) !! d_key (dur w) Event id = dview (dur w) !! d_key (dur w) Event id) as Hev.
  { intros id. rewrite <- (Hf1 Event id) by done. rewrite <- !(d_key_static _ _ _ _ Hs1). by apply Ho3. }
  assert (dview (dur w3) !! d_key (dur w) Memory (cursor_key b) = dview (dur w) !! d_key (dur w) Memory (cursor_key b)) as Hcur.
  { rewrite <- (Hf1 Memory) by done. rewrite <- !(d_key_static _ _ _ _ Hs1). by apply Hc3. }
  clearbody w3. clear Hc3.
  assert (forall cause f', exists b', at_ (events_pause_for key cause draw (update key f' w3)) key b' /\
    (b_cursor (f' b2) = b_cursor b2 -> b_cursor b' = b_cursor b) /\ (b_seen (f' b2) = b_seen b2 -> b_seen b' = b_seen b2) /\
    static (dur w) (dur (events_pause_for key cause draw (update key f' w3))) /\
    dview (dur (events_pause_for key cause draw (update key f' w3))) = dview (dur w3)) as Hpause.
  { intros cause f'. unfold events_pause_for. cbn. rewrite lookup_alter_eq, Hb3. cbn.
    destruct (decide _); eexists; cbn; rewrite ?lookup_alter_eq, ?Hb3; by split_and!. }
  destruct stop2 as [[|why]|] eqn:Estop.
  - destruct (Hpause "rate" (fun b => set_due_at (refill_at now b) b)) as (b' & Hb' & Hc & He & Hs' & Hv').
    split; [done|]. rewrite Hv'. split; [done|]. exists b'. split_and!; [done|by apply He|by apply Hc|done].
  - set (cause := if p_pressure _ then _ else _).
    assert (update key id w3 = w3) as Eid.
    { unfold update. rewrite alter_id; [by destruct w3|done]. }
    destruct (Hpause cause id) as (b' & Hb' & Hc & He & Hs' & Hv'). rewrite Eid in *.
    split; [done|]. rewrite Hv'. split; [done|]. exists b'. split_and!; [done|by apply He|by apply Hc|done].
  - assert (stopped = None /\ is_ok flushed = true) as [-> Hok] by (unfold stop2 in Estop; by destruct flushed).
    rewrite Hb3. set (nb := fun b => next_due draw page f now (set_cursor (pg_cursor page) (set_failures 0 b))).
    assert (at_ (update key nb w3) key (nb b2)) as Hb4 by (cbn; by rewrite lookup_alter_eq, Hb3).
    assert (b_cursor (nb b2) = pg_cursor page /\ b_seen (nb b2) = b_seen b2) as [Hc4 He4] by (unfold nb, next_due; by destruct (_ && _)).
    assert (0 < a -> stored_manifest (dview (dur w3)) (d_key (dur w) Manifest_ MANIFEST_ID) = Some (d_manifest (dur w))) as Hst3.
    { intros Ha. rewrite <- (Hst1 Ha Hok). unfold stored_manifest.
      by rewrite <- !(d_key_static _ _ _ _ Hs1), Ho3. }
    destruct (_ || _).
    + pose proof (record_spec key (update key nb w3) _ Hb4) as (Hs5 & Hf5 & b5 & Hb5 & Hc5 & He5).
      assert (forall kind id, kind <> Memory -> dview (dur (events_record key (update key nb w3))) !! d_key (dur w) kind id =
        dview (dur w3) !! d_key (dur w) kind id) as Hf6.
      { intros kind id Hne. rewrite <- !(d_key_static _ _ _ _ Hs). by apply Hf5. }
      split; [by etrans|]. split; [intros id; by rewrite Hf6|]. exists b5. split_and!; [done|by rewrite He5|done|congruence|].
      intros Ha. unfold stored_manifest. rewrite Hf6 by done. by apply Hst3.
    + split; [done|]. split; [done|]. exists (nb b2). by split_and!.
Qed.
(** What was put in the stream and flushed is there in the next life, under the
    same head. *)
Lemma kept_restored wm w' stream pol digest d3 out :
  lists_supported S -> static (dur wm) (dur w') ->
  (forall id, dview (dur w') !! d_key (dur wm) Event id = dview (dur wm) !! d_key (dur wm) Event id) ->
  stored_manifest (dview (dur w')) (d_key (dur wm) Manifest_ MANIFEST_ID) = Some (d_manifest (dur wm)) ->
  restore (durable_new (d_store (dur w')) (d_prefix (dur wm)) (d_instance (dur wm)) pol false digest) = (d3, Ok out) ->
  meta_of stream d3 = meta_of stream (dur wm) /\
  forall seq ev, kept_at (dur wm) stream seq ev -> kept_at d3 stream seq ev.
Proof.
  intros Hl Hs Hev Hm Er. rewrite <- (d_key_static _ _ _ _ Hs) in Hm.
  rewrite <- (proj1 Hs), <- (proj1 (proj2 Hs)) in Er.
  destruct (restored_keeps _ _ _ _ _ _ Hl Hm Er) as [Hstr Hk].
  assert (meta_of stream d3 = meta_of stream (dur wm)) as E by (unfold meta_of; by rewrite Hstr).
  split; [done|]. intros seq ev (Hu & Hle & Hor). split; [done|]. rewrite E. split; [done|].
  destruct Hor as [Hh|]; [left|by right]. apply Hk. by apply (holds_same (dur wm) (dur w') _ _ _ Hs (Hev _)).
Qed.


(** What a poll comes to: nothing of the page, or the page up to what stopped
    it, settled. *)
Lemma events_polled_spec key draw span page w b into :
  at_ w key b -> target b = Some into -> numbered (dur w) -> unsized ->
  ample (length (pg_events page)) (into_stream into) (dur w) -> on_error (d_policy (dur w)) = Halt ->
  let '(w', out) := events_polled key draw span page w in
  (out <> Moved /\ static (dur w) (dur w') /\ dview (dur w') = dview (dur w) /\ exists b', at_ w' key b' /\ b_cursor b' = b_cursor b) \/
  exists now wm bm log stop, midway w key b into (pg_events page) span now wm log stop /\
    at_ wm key bm /\ same_binding b bm /\
    (roomy b (pg_events page) -> b_seen bm = b_seen b ++ ((fun e => (e_key e, now)) <$> log)) /\
    (stop = None -> forall raw, raw ∈ pg_events page -> accounted w key b into span log raw) /\
    static (dur wm) (dur w') /\
    (forall id, dview (dur w') !! d_key (dur wm) Event id = dview (dur wm) !! d_key (dur wm) Event id) /\
    exists b', at_ w' key b' /\ b_seen b' = seen_expire now (b_seen bm) /\
    match out with
    | Moved => stop = None /\ b_cursor b' = pg_cursor page /\ (log <> [] ->
        stored_manifest (dview (dur w')) (d_key (dur wm) Manifest_ MANIFEST_ID) = Some (d_manifest (dur wm)))
    | _ => b_cursor b' = b_cursor bm /\
        dview (dur w') !! d_key (dur wm) Memory (cursor_key bm) = dview (dur wm) !! d_key (dur wm) Memory (cursor_key bm)
    end.
Proof.
  intros Hb Ht Hnum Hun Hn Hh. unfold events_polled, clock. set (now := wall _). set (wc := with_producer _ w).
  change (r_bindings wc) with (r_bindings w). rewrite Hb.
  set (w1 := update key (set_in_flight false) wc). set (b1 := set_in_flight false b).
  assert (at_ w1 key b1) as Hb1 by (cbn; by rewrite lookup_alter_eq, Hb). rewrite Hb1.
  destruct (negb _); [left; split_and!; [done|done|done|by exists b1]|].
  destruct (match pg_cursor page with Some c => _ | None => false end); [left; split_and!; [done|done|done|by exists b1]|].
  assert (midway w key b into (pg_events page) span now w1 [] None) as Hw1.
  { assert (same_binding b b1) as Hs by (by split_and!).
    apply (midway_idle w key b into _ span now w w1 [] (midway_start _ _ _ _ _ _ _ Hb)); [done|by split|by exists b, b1|done|].
    intros _. by left. }
  pose proof (midway_page w key b into (pg_events page) span now Hb Ht Hnum Hh Hun (pg_events page) w1 [] 0 0
    (fun _ Hr => Hr) Hw1 (le_n _) Hn) as Hp.
  destruct (take_page key span now (pg_events page) 0 0 w1) as [wm [[a f] stop]].
  destruct Hp as (log & Hwm & Ha & Hacc). cbn [app] in Hwm, Hacc.
  pose proof Hwm as [(bm & Hbm & Hsm & _ & Hex) _ Hg Hd _ _].
  assert (on_error (d_policy (dur wm)) = Halt) as Hhm by (destruct (g_static _ _ _ Hg) as (_ & _ & -> & _); done).
  assert (0 < a <-> log <> []) as Hpos by (destruct log; cbn [length] in Ha; split; [lia|done|done|lia]).
  pose proof (settle_page_spec key draw page now a f stop wm bm Hbm Hhm (fun Hl => Hd (proj1 Hpos Hl))) as Hsp.
  destruct (settle_page key draw page now a f stop wm) as [w2 o2].
  destruct Hsp as (Hs2 & Hev & b2 & Hb2 & He2 & Ho). right. exists now, wm, bm, log, stop. split_and!; try done.
  exists b2. split_and!; [done|done|]. destruct o2; try done. destruct Ho as (? & ? & Hman). split_and!; [done|done|].
  intros Hne. by apply Hman, Hpos.
Qed.

(** C34: a poll never moves past an occurrence that is not kept.  The binding
    appends to a stream, under [on_error: halt], over a store with [list] that
    sets no limit on a value's size itself; its records are numbered from 1 and
    the stream has room for the page's numbers under 2^64.  When a page moves
    the cursor there is a log of it: occurrences of the page under rising
    numbers past the stream's old head.  After a crash and any restart, every
    entry's event is in its place under the restored head, unless retention has
    moved the stream's first number past it; and every occurrence of the page is
    malformed or oversize, or was in the binding's dedup set, or has its dedup
    key in the log, or would be over the store's limit on a value.  When the
    page does not move the cursor, the cursor in memory and the record a restart
    reads it from are what they were. *)
Theorem cursor_never_passes key draw span page w b into w' out :
  lists_supported S -> unsized -> at_ w key b -> target b = Some into -> numbered (dur w) ->
  ample (length (pg_events page)) (into_stream into) (dur w) -> on_error (d_policy (dur w)) = Halt ->
  events_polled key draw span page w = (w', out) ->
  match out with
  | Moved => (exists b', at_ w' key b' /\ b_cursor b' = pg_cursor page) /\
      exists log, (forall raw, raw ∈ pg_events page -> accounted w key b into span log raw) /\
      forall pol digest d3 o,
      restore (durable_new (d_store (dur w')) (d_prefix (dur w)) (d_instance (dur w)) pol false digest) = (d3, Ok o) ->
      page_log w key b into span (pg_events page) log d3
  | _ => (exists b', at_ w' key b' /\ b_cursor b' = b_cursor b) /\
      dview (dur w') !! d_key (dur w) Memory (cursor_key b) = dview (dur w) !! d_key (dur w) Memory (cursor_key b)
  end.
Proof.
  intros Hl Hun Hb Ht Hnum Hn Hh E.
  pose proof (events_polled_spec key draw span page w b into Hb Ht Hnum Hun Hn Hh) as Hp. rewrite E in Hp.
  destruct Hp as [(Hne & _ & Hv & Hc)|(now & wm & bm & log & stop & Hwm & Hbm & Hsm & _ & Hacc & Hs & Hev & b2 & Hb2 & _ & Ho)].
  { destruct out; try done; by rewrite Hv. }
  destruct Hwm as [_ _ Hg _ Hlog _]. pose proof (g_static _ _ _ Hg) as Hst.
  assert (b_cursor b2 = b_cursor bm /\
    dview (dur w') !! d_key (dur wm) Memory (cursor_key bm) = dview (dur wm) !! d_key (dur wm) Memory (cursor_key bm) ->
    (exists b', at_ w' key b' /\ b_cursor b' = b_cursor b) /\
    dview (dur w') !! d_key (dur w) Memory (cursor_key b) = dview (dur w) !! d_key (dur w) Memory (cursor_key b)) as Hheld.
  { intros [Hc Hv]. split; [exists b2; split; [done|]; rewrite Hc; apply Hsm|].
    rewrite (d_key_static _ _ _ _ Hst) in Hv. unfold cursor_key in *. rewrite (proj1 Hsm) in Hv.
    rewrite Hv. by apply (g_aside _ _ _ Hg Memory). }
  destruct out; try (by apply Hheld). destruct Ho as (-> & Hc & Hman). split; [by exists b2|]. exists log. split; [by apply Hacc|].
  intros pol digest d3 o Er. destruct Hlog as [Hord Hk]. split; [done|]. intros e He.
  assert (log <> []) as Hne by (by intros ->; apply elem_of_nil in He).
  destruct (Hk e He) as (Hr & ev & Hw & Hat). split; [done|]. exists ev. split; [done|].
  rewrite <- (proj1 Hst), <- (proj1 (proj2 Hst)) in Er.
  by apply (kept_restored wm w' _ pol digest d3 o Hl Hs Hev (Hman Hne) Er).
Qed.


(** ** Deliveries *)

Lemma refill_same now b : same_binding b (refill now b) /\ b_seen (refill now b) = b_seen b.
Proof. destruct b. unfold refill. cbn. by repeat case_match. Qed.

Lemma watermark_spec key cursor w b :
  at_ w key b -> static (dur w) (dur (events_hook_watermark key cursor w)) /\
  forall kind id, kind <> Memory ->
    dview (dur (events_hook_watermark key cursor w)) !! d_key (dur w) kind id = dview (dur w) !! d_key (dur w) kind id.
Proof.
  intros Hb. unfold events_hook_watermark. rewrite Hb. destruct (_ || _); [by split|]. destruct (b_replay b); [by split|].
  assert (at_ (update key (set_cursor cursor) w) key (set_cursor cursor b)) as Hb1 by (cbn; by rewrite lookup_alter_eq, Hb).
  by destruct (record_spec key _ _ Hb1) as (Hs & Hf & _).
Qed.

(** The head is saved before a delivery is said to be kept. *)
Lemma hook_taken_spec key refusal cursor now draw sent taken w b :
  at_ w key b -> on_error (d_policy (dur w)) = Halt -> d_manifest_dirty (dur w) = true ->
  let '(w', a) := hook_taken key refusal cursor now draw sent taken w in
  Hook.status a = 200 -> static (dur w) (dur w') /\
  (forall id, dview (dur w') !! d_key (dur w) Event id = dview (dur w) !! d_key (dur w) Event id) /\
  stored_manifest (dview (dur w')) (d_key (dur w) Manifest_ MANIFEST_ID) = Some (d_manifest (dur w)).
Proof.
  intros Hb Hh Hd. unfold hook_taken. pose proof (store_flush w Hh) as Hf.
  destruct (store (flush true) w) as [w1 [flushed|e]]; [|done].
  destruct Hf as (Hbs & _ & Hs & Hfr & Hst). specialize (Hst Hd eq_refl). rewrite Hbs, Hb.
  set (w2 := update key _ w1). set (b2 := set_seen (seen_expire now (b_seen (set_refused (delete refusal (b_refused b)) b)))
    (set_refused (delete refusal (b_refused b)) b)).
  assert (at_ w2 key b2) as Hb2 by (cbn [w2 update with_bindings r_bindings]; by rewrite lookup_alter_eq, Hbs, Hb).
  set (w3 := if taken then save_seen key w2 else w2).
  assert (at_ w3 key b2 /\ unmoved w2 w3 b2) as [Hb3 (Hs3 & Ho3 & _)].
  { unfold w3. destruct taken; [|split; [done|by split_and!]].
    destruct (save_seen_spec key w2 b2 Hb2) as [E Hu]. by rewrite E. }
  set (w4 := match cursor with Some _ => _ | None => w3 end).
  assert (static (dur w3) (dur w4) /\ forall kind id, kind <> Memory ->
    dview (dur w4) !! d_key (dur w3) kind id = dview (dur w3) !! d_key (dur w3) kind id) as [Hs4 Ho4].
  { unfold w4. destruct cursor as [c|]; [by apply (watermark_spec key (Some c) w3 b2)|by split]. }
  intros _. change (dur w2) with (dur w1) in Hs3, Ho3. clearbody w3 w4.
  assert (static (dur w) (dur w3)) as Hs13 by (by etrans).
  assert (forall kind id, kind <> Memory -> dview (dur w4) !! d_key (dur w) kind id = dview (dur w1) !! d_key (dur w) kind id) as Hall.
  { intros kind id Hne. transitivity (dview (dur w3) !! d_key (dur w) kind id).
    - rewrite <- (d_key_static _ _ kind id Hs13). by apply Ho4.
    - rewrite <- (d_key_static _ _ kind id Hs). by apply Ho3. }
  split; [by etrans|]. split.
  - intros id. rewrite Hall by done. by apply Hfr.
  - unfold stored_manifest in *. by rewrite Hall.
Qed.

(** C36: a webhook delivery answered as appended is kept.  Under [on_error:
    halt], over a store with [list], with records numbered from 1, room in the
    binding's stream for the probe's numbers under 2^64, and no limit on a
    value's size by the store itself: the occurrence is well formed, its event
    id was not in the dedup set, and after a crash and any restart the stream's
    head is a new number, past the one before the delivery, with the
    occurrence's event at that number unless retention trimmed it; and it has
    not, in a stream that is to keep an event at all. *)
Theorem delivery_kept key wid body span draw sent w b into w' :
  lists_supported S -> unsized -> at_ w key b -> target b = Some into -> numbered (dur w) ->
  ample 1 (into_stream into) (dur w) -> on_error (d_policy (dur w)) = Halt ->
  events_hook_answer key wid body span draw sent w = (w', inl (Hook.answer_ok "appended")) ->
  forall pol digest d3 o,
  restore (durable_new (d_store (dur w')) (d_prefix (dur w)) (d_instance (dur w)) pol false digest) = (d3, Ok o) ->
  exists e ev, e_raw e = body /\ seen_contains (e_key e) (b_seen b) = false /\
    written w key b into (fun _ => span) e ev /\
    stream_seq (meta_of (into_stream into) (dur w)) < e_seq e /\
    stream_seq (meta_of (into_stream into) d3) = e_seq e /\
    (stream_first (meta_of (into_stream into) d3) <= e_seq e -> holds d3 (into_stream into) (e_seq e) ev) /\
    (keeps_one (into_stream into) (r_producer w) -> stream_first (meta_of (into_stream into) d3) <= e_seq e).
Proof.
  intros Hl Hun Hb Ht Hnum Hn Hh. unfold events_hook_answer, clock. set (now := wall _). set (wc := with_producer _ w).
  change (r_bindings wc) with (r_bindings w). rewrite Hb.
  destruct (negb _ || _); [intros [=]|].
  destruct (get "type" body ≫= Json.as_str) as [kind|].
  { destruct (decide (kind = "gap")); [intros [=]|]. by destruct (decide (kind = "terminated")). }
  destruct (p_pressure _); [intros [=]|]. destruct (d_degraded _); [intros [=]|].
  set (w1 := update key (refill now) wc). destruct (refill_same now b) as [Hsb Hseen].
  assert (at_ w1 key (refill now b)) as Hb1 by (unfold w1, wc; cbn [update with_bindings with_producer r_bindings]; by rewrite lookup_alter_eq, Hb).
  assert (target (refill now b) = Some into) as Ht1 by (by rewrite (target_same _ _ Hsb)).
  pose proof (take_spec key body (fun _ => span) now w1 _ into Hb1 Ht1 Hnum Hh Hun 0 Hn) as Hs.
  destruct (events_take key body span now w1) as [w2 t]. destruct Hs as (b2 & Hb2 & Hs2 & _ & Hg & _ & Hr).
  destruct t as [| |c| |why].
  - destruct Hr as (e & He & Hk & _ & Hd & Hlt & Heq & Hone & (ev & Hw & Hat) & _).
    assert (static (dur w) (dur w2)) as Hst by exact (g_static _ _ _ Hg).
    assert (on_error (d_policy (dur w2)) = Halt) as Hh2 by (by destruct Hst as (_ & _ & -> & _)).
    pose proof (hook_taken_spec key (refusal_key wid) (short_cursor (get "cursor" body)) now draw sent true w2 b2 Hb2 Hh2 Hd) as Hkt.
    destruct (hook_taken _ _ _ _ _ _ _ w2) as [w3 a]. intros [= <- ->]. destruct Hkt as (Hs3 & Hev & Hm); [done|].
    intros pol digest d3 o Er. rewrite <- (proj1 Hst), <- (proj1 (proj2 Hst)) in Er.
    destruct (kept_restored w2 w3 (into_stream into) pol digest d3 o Hl Hs3 Hev Hm Er) as [Em Hkr].
    exists e, ev. rewrite Hseen in Hk. rewrite (written_same w w1 key b (refill now b)) in Hw by done. rewrite Em.
    split_and!; [done|done|done|done|done| |done].
    intros Hle. destruct (Hkr _ _ Hat) as (_ & _ & [|Htr]); [done|]. rewrite Em in Htr. lia.
  - destruct Hr as [-> _]. unfold hook_taken. pose proof (store_flush w1 Hh) as Hf.
    destruct (store (flush true) w1) as [w4 [fl|e]]; [|intros [=]]. destruct Hf as (Hbs & _). rewrite Hbs, Hb1.
    intros [=].
  - intros [= _ E]. revert E. by destruct (decide (c = "oversize")).
  - intros [=].
  - intros [=].
Qed.
End intake.

(** ** A sample binding *)

Module EventsSample.
Import StreamSample.

Definition pager : Binding :=
  mkBinding "k1" "pd" "incident" [Config] (Some (mkEventInto "orders" "incident")) (Within 3600000)
    None (f64_of_Z 0) 0 Active (Some Webhook) (Some "c0") true [] 0 true 0 0 None false false 0 None true true false ∅ true.
Definition live_runtime : Runtime MemoryStore :=
  mkRuntime first_life {["k1" := pager]} ∅ 0 None None.
Definition occurrence (id : string) : Value :=
  jobj [("eventId", VStr id); ("name", VStr "incident"); ("timestamp", VStr "2026-10-10T00:00:00Z"); ("data", jobj [])].
Definition page : PollPage := mkPollPage [occurrence "e-1"; VNull] (Some "c1") false false None.
Definition polled : Runtime MemoryStore * Polled := events_polled "k1" None (fun _ => []) page live_runtime.
Definition restarted : Durable MemoryStore :=
  durable_new (d_store (p_durable (r_producer polled.1))) "agentd" "house" policy_default false ∅.
Definition delivered : Runtime MemoryStore * (Hook.Answer + Value) :=
  events_hook_answer "k1" "msg-1" (occurrence "e-1") [] None true live_runtime.
Definition after_delivery : Durable MemoryStore :=
  durable_new (d_store (p_durable (r_producer delivered.1))) "agentd" "house" policy_default false ∅.
End EventsSample.
Import EventsSample StreamSample.

Lemma live_numbered : numbered (p_durable (r_producer live_runtime)).
Proof. apply numbered_by. vm_compute. reflexivity. Qed.

Abbreviation orders := (mkEventInto "orders" "incident").

Lemma cursor_never_passes_witness :
  exists log, accounted live_runtime "k1" pager orders (fun _ => []) log (occurrence "e-1") /\
    page_log live_runtime "k1" pager orders (fun _ => []) (pg_events page) log (restore restarted).1.
Proof.
  destruct (proj2 (cursor_never_passes "k1" None (fun _ => []) page live_runtime pager orders
    polled.1 Moved memory_lists memory_unsized eq_refl eq_refl live_numbered
    ltac:(vm_compute; repeat split; discriminate) eq_refl ltac:(vm_compute; reflexivity)))
    as (log & Hacc & Hlog).
  exists log. split; [apply Hacc; by left|].
  apply (Hlog policy_default ∅ (restore restarted).1 (default restored_default (ok (restore restarted).2))).
  vm_compute. reflexivity.
Defined.


Lemma delivery_kept_witness :
  exists e ev, e_raw e = occurrence "e-1" /\ written live_runtime "k1" pager orders (fun _ => []) e ev /\
    holds (restore after_delivery).1 "orders" (e_seq e) ev.
Proof.
  assert (events_hook_answer "k1" "msg-1" (occurrence "e-1") [] None true live_runtime =
    (delivered.1, inl (Hook.answer_ok "appended"))) as Ha by (vm_compute; reflexivity).
  assert (restore after_delivery = ((restore after_delivery).1, Ok (default restored_default (ok (restore after_delivery).2))))
    as Hr by (vm_compute; reflexivity).
  assert (ample 1 "orders" (p_durable (r_producer live_runtime))) as Hn by (vm_compute; repeat split; discriminate).
  destruct (delivery_kept "k1" "msg-1" (occurrence "e-1") [] None true live_runtime pager orders
    delivered.1 memory_lists memory_unsized eq_refl eq_refl live_numbered Hn eq_refl Ha policy_default ∅ _ _ Hr)
    as (e & ev & Hraw & _ & Hw & _ & _ & Hheld & Hkeep).
  exists e, ev. split; [exact Hraw|]. split; [exact Hw|]. apply Hheld, Hkeep. split; [vm_compute; discriminate|].
  intros cfg Hc. vm_compute in Hc. injection Hc as <-. vm_compute. discriminate.
Defined.
End EventsProps.
