(* ===== verification/PayPolicy.v ===== *)
(** * What agentd may pay

    The spend policy of [crates/agentd/src/payments/]: chain and asset ids
    ([caip.rs], Module [Caip]), EVM addresses ([evm.rs], Module [Evm]), an
    [accepts] entry ([x402.rs], Module [X402]), the chain families
    ([scheme.rs], Module [Scheme]), which entry is paid ([policy.rs], Module
    [Policy]), and the record a payment is put under before it is signed
    ([runtime/payments.rs], [authorize]).  Keccak-256 is a parameter, a reason
    a constructor with the values it shows. *)

From S2P Require Export Spending PayLedger Svm.

Module Caip.

Definition is_lower (a : char) : bool := is_alpha a && bool_decide (lower a = a).
Definition is_upper (a : char) : bool := is_alpha a && negb (bool_decide (lower a = a)).
Definition one_of (l : string) (a : char) : bool := bool_decide (a ∈ chars l).
Definition sized (lo hi : nat) (s : string) : bool := (lo <=? String.length s)%nat && (String.length s <=? hi)%nat.

Record ChainId := mkChainId { c_namespace : string; c_reference : string }.
#[export] Instance chain_id_eq_dec : EqDecision ChainId.
Proof. solve_decision. Defined.
Record AssetId := mkAssetId { a_chain : ChainId; a_namespace : string; a_reference : string }.

Definition namespace (s : string) : bool :=
  sized 3 8 s && forallb (fun a => is_lower a || is_digit a || one_of "-" a) (chars s).

Definition chain_parse (s : string) : option ChainId :=
  match split_once ":" s with
  | Some (ns, reference) =>
      if namespace ns && sized 1 32 reference && forallb (fun a => is_alnum a || one_of "-_" a) (chars reference)
      then Some (mkChainId ns reference) else None
  | None => None
  end.
Definition chain_display (c : ChainId) : string := c_namespace c +:+ ":" +:+ c_reference c.

Definition chain_evm (c : ChainId) : option Z :=
  let r := chars (c_reference c) in
  if bool_decide (c_namespace c = "eip155")
     && negb ((1 <? length r)%nat && match r with a :: _ => bool_decide (a = "0"%char) | [] => false end)
     && forallb is_digit r
  then n ← parse_uint u64_max r; if (0 <? n)%Z then Some n else None
  else None.

Definition asset_parse (s : string) : option AssetId :=
  match split_once "/" s with
  | None => None
  | Some (chain, asset) =>
      chain ← chain_parse chain;
      match split_once ":" asset with
      | Some (ns, reference) =>
          if namespace ns && sized 1 128 reference && forallb (fun a => is_alnum a || one_of "-.%" a) (chars reference)
          then Some (mkAssetId chain ns reference) else None
      | None => None
      end
  end.
Definition asset_display (a : AssetId) : string :=
  chain_display (a_chain a) +:+ "/" +:+ a_namespace a +:+ ":" +:+ a_reference a.
End Caip.

Module Evm.
Import Caip.
Local Open Scope Z_scope.

Class Keccak := keccak256 : list Z -> list Z.
Definition Address : Type := list Z.

Inductive AddressError : Type := NotAddress | BadChecksum (holds : string).

Definition hex0x (bytes : list Z) : string := "0x" +:+ text (to_hex bytes).
Definition unhex0x (s : string) : option (list Z) :=
  match strip_prefix "0x" s with
  | Some h =>
      if (length (chars h) mod 2 =? 0)%nat && forallb is_hexdigit (chars h) then unhex_pairs (chars h) else None
  | None => None
  end.

Section keccak.
Context `{Keccak}.

(** EIP-55. *)
Definition checksum_char (hash : list Z) (i : nat) (c : char) : char :=
  let byte := nth (i / 2) hash 0 in
  let nibble := Z.land (if (i mod 2 =? 0)%nat then Z.shiftr byte 4 else byte) 15 in
  if is_alpha c && (8 <=? nibble) then upper c else c.
Definition checksummed (a : Address) : string :=
  let low := to_hex a in
  "0x" +:+ text (imap (checksum_char (keccak256 (Sha.ascii (text low)))) low).

Definition address_parse (s : string) : result AddressError Address :=
  match strip_prefix "0x" s with
  | None => Err NotAddress
  | Some h =>
      let h := chars h in
      if negb (length h =? 40)%nat || negb (forallb is_hexdigit h) then Err NotAddress
      else
        let a := default [] (unhex_pairs h) in
        if existsb is_lower h && existsb is_upper h && negb (bool_decide (checksummed a = s))
        then Err (BadChecksum (checksummed a)) else Ok a
  end.
Definition parse_any (s : string) : result AddressError Address :=
  if negb (starts_with "0x" s) then Err NotAddress else address_parse (text (lower <$> chars s)).

(** [AssetId::erc20]. *)
Definition erc20 (a : AssetId) : option (Z * Address) :=
  if bool_decide (a_namespace a = "erc20")
  then c ← chain_evm (a_chain a); k ← ok (address_parse (a_reference a)); Some (c, k)
  else None.
End keccak.
End Evm.

Module X402.

Definition VERSION : Z := 2.

(** A [PaymentRequired]. *)
Record Required := mkRequired {
  rq_raw : Value;
  rq_url : string;
  rq_description : option string;
  rq_accepts : list Value;
}.
Inductive RequiredError : Type := BadVersion | NoUrl | NoAccepts.
Definition required_parse (v : Value) : result RequiredError Required :=
  if negb (bool_decide (get "x402Version" v ≫= as_u64 = Some VERSION)) then Err BadVersion
  else match (get "resource" v ≫= get "url") ≫= Json.as_str with
  | None => Err NoUrl
  | Some url =>
      if decide (url = nil_str) then Err NoUrl
      else match get "accepts" v ≫= as_array with
      | None | Some [] => Err NoAccepts
      | Some accepts => Ok (mkRequired v url ((get "resource" v ≫= get "description") ≫= Json.as_str) accepts)
      end
  end.

(** One [accepts] entry. *)
Record Entry := mkEntry {
  e_scheme : string;
  e_network : string;
  e_amount : string;
  e_asset : string;
  e_pay_to : string;
  e_max_timeout : Z;
  e_extra : Value;
}.
(** The member that is missing. *)
Definition entry_str (k : string) (v : Value) : result string string := ok_or k (get k v ≫= Json.as_str).
Definition entry_parse (v : Value) : result string Entry :=
  scheme ← entry_str "scheme" v;
  network ← entry_str "network" v;
  amount ← entry_str "amount" v;
  asset ← entry_str "asset" v;
  pay_to ← entry_str "payTo" v;
  timeout ← ok_or "maxTimeoutSeconds" (get "maxTimeoutSeconds" v ≫= as_u64);
  mret (mkEntry scheme network amount asset pay_to timeout (default VNull (get "extra" v))).
End X402.

Module Scheme.
Import Caip Evm X402 Svm.
Local Open Scope Z_scope.

Definition SKEW_S : Z := 30.
Definition LANDS_WITHIN_S : Z := 300.

Inductive Family : Type := FEvm | FSvm.
#[export] Instance family_eq_dec : EqDecision Family.
Proof. solve_decision. Defined.

Inductive Token : Type :=
  | TEvm (chain_id : Z) (contract : Address)
  | TSvm (mint : Pubkey) (program : TokenProgram).
#[export] Instance token_eq_dec : EqDecision Token.
Proof. solve_decision. Defined.

Inductive Account : Type :=
  | AEvm (a : Address)
  | ASvm (k : Pubkey).
#[export] Instance account_eq_dec : EqDecision Account.
Proof. solve_decision. Defined.

Definition family_of_account (a : Account) : Family := match a with AEvm _ => FEvm | ASvm _ => FSvm end.
Definition account_svm (a : Account) : option Pubkey := match a with ASvm k => Some k | AEvm _ => None end.

(** What a signature is made under. *)
Inductive STerms : Type :=
  | TermsEvm (name version : string)
  | TermsSvm (t : Svm.Terms).

Definition family_of (network : ChainId) : option Family :=
  if decide (c_namespace network = "eip155") then Some FEvm
  else if decide (c_namespace network = "solana") then Some FSvm
  else None.

Definition mint_of (id : AssetId) : option Pubkey :=
  if bool_decide (c_namespace (a_chain id) = "solana") && bool_decide (a_namespace id = "token")
  then ok (pubkey_parse (chars (a_reference id))) else None.

Inductive SchemeError : Type :=
  | NotErc20
  | NotSpl
  | UnknownProgram (name : string)
  | BadEvmAddress (e : AddressError)
  | BadSvmAddress
  | NotAnAddress (s : string).

(** Why an entry cannot be signed. *)
Inductive TermsWhy : Type :=
  | TransferMethod (m : string)
  | NoDomain
  | Past64
  | NoFeePayer
  | BadFeePayer (f : string)
  | MemoTooLong
  | MemoNotText
  | NoBlockhash (network : string).

(** A blockhash that does not read is as none. *)
Definition blockhash_of (e : Entry) : option (list Z) :=
  b ← get "recentBlockhash" (e_extra e) ≫= Json.as_str; ok (decode32 (chars b)).
(** [Terms::read] on Solana. *)
Definition svm_terms_why (e : Entry) (rpc : option string) : list TermsWhy :=
  match get "feePayer" (e_extra e) ≫= Json.as_str with
  | None => [NoFeePayer]
  | Some f => if is_ok (pubkey_parse (chars f)) then [] else [BadFeePayer f]
  end
  ++ match get "memo" (e_extra e) with
     | None | Some VNull => []
     | Some (VStr s) => if (String.length s <=? MAX_MEMO)%nat then [] else [MemoTooLong]
     | Some _ => [MemoNotText]
     end
  ++ match blockhash_of e, rpc with
     | None, None => [NoBlockhash (e_network e)]
     | _, _ => []
     end.
Definition svm_terms (e : Entry) (mint : Pubkey) (program : TokenProgram) (decimals : nat)
    (pay_to : option Pubkey) (rpc : option string) : option Svm.Terms :=
  to ← pay_to;
  payer ← (get "feePayer" (e_extra e) ≫= Json.as_str) ≫= (fun f => ok (pubkey_parse (chars f)));
  Some (mkTerms mint program (Z.of_nat decimals) to payer
    (match get "memo" (e_extra e) with Some (VStr s) => Some (Sha.ascii s) | _ => None end)
    (blockhash_of e) rpc).

Section keccak.
Context `{Keccak}.

(** Whether an entry's [asset] is this token. *)
Definition token_is (t : Token) (asset : string) : bool :=
  match t with
  | TEvm _ contract => bool_decide (ok (parse_any asset) = Some contract)
  | TSvm mint _ => bool_decide (ok (pubkey_parse (chars asset)) = Some mint)
  end.

Definition account_display (a : Account) : string :=
  match a with AEvm a => checksummed a | ASvm k => text (Base58.encode k) end.
Definition account_parse (s : string) : result SchemeError Account :=
  if starts_with "0x" s then match address_parse s with Ok a => Ok (AEvm a) | Err e => Err (BadEvmAddress e) end
  else match pubkey_parse (chars s) with Ok k => Ok (ASvm k) | Err _ => Err BadSvmAddress end.

Definition family_token (f : Family) (asset : AssetId) (program : option string) : result SchemeError Token :=
  match f with
  | FEvm => match erc20 asset with Some (c, k) => Ok (TEvm c k) | None => Err NotErc20 end
  | FSvm =>
      match mint_of asset with
      | None => Err NotSpl
      | Some mint =>
          let name := default (token_program_name Spl) program in
          match token_program_parse name with Some p => Ok (TSvm mint p) | None => Err (UnknownProgram name) end
      end
  end.

Definition entry_account (f : Family) (s : string) : result SchemeError Account :=
  match f with
  | FEvm => match parse_any s with Ok a => Ok (AEvm a) | Err _ => Err (NotAnAddress s) end
  | FSvm => match pubkey_parse (chars s) with Ok k => Ok (ASvm k) | Err _ => Err (NotAnAddress s) end
  end.

(** [Family::terms], of the allowed asset's token and decimals. *)
Definition family_terms (f : Family) (e : Entry) (asset : option (Token * nat)) (pay_to : option Account)
    (rpc : option string) : result (list TermsWhy) STerms :=
  match f with
  | FEvm =>
      let why := match get "assetTransferMethod" (e_extra e) ≫= Json.as_str with
                 | None => []
                 | Some m => if decide (m = "eip3009") then [] else [TransferMethod m] end in
      match get "name" (e_extra e) ≫= Json.as_str, get "version" (e_extra e) ≫= Json.as_str with
      | Some name, Some version => match why with [] => Ok (TermsEvm name version) | _ => Err why end
      | _, _ => Err (why ++ [NoDomain])
      end
  | FSvm =>
      let why := match parse_atomic (e_amount e) with
                 | Ok a => if u64_max <? a then [Past64] else [] | Err _ => [] end in
      match asset with
      | Some (TSvm mint program, decimals) =>
          let why2 := svm_terms_why e rpc in
          match why2, svm_terms e mint program decimals (pay_to ≫= account_svm) rpc with
          | [], Some t => match why with [] => Ok (TermsSvm t) | _ => Err why end
          | _, _ => Err (why ++ why2)
          end
      | _ => Err why
      end
  end.
End keccak.

(** What is fixed before a payment is signed, of 32 random bytes. *)
Record Prepared := mkPrepared { pr_nonce : string; pr_valid_before : Z; pr_valid_after : option Z }.
Definition prepare (terms : STerms) (max_timeout max_validity_s now_s : Z) (random : list Z) : Prepared :=
  match terms with
  | TermsEvm _ _ =>
      mkPrepared (hex0x random) (u64_add now_s (Z.max (Z.min max_timeout max_validity_s) 1)) (Some (u64_sat_sub now_s SKEW_S))
  | TermsSvm t =>
      mkPrepared (text ((fun z => Ascii.ascii_of_N (Z.to_N z)) <$> memo_for t random)) (u64_add now_s LANDS_WITHIN_S) None
  end.
End Scheme.

Module Policy.
Import Caip Evm X402 Svm Scheme.
Local Open Scope Z_scope.

(** ** The settings and what is read of them *)

Record Limits := mkLimits {
  lm_per_payment : option string;
  lm_per_run : option string;
  lm_per_day : option string;
  lm_per_payee : option string;
}.
Record AssetSettings := mkAssetSettings {
  cf_asset : string;
  cf_decimals : nat;
  cf_token_program : option string;
  cf_limits : Limits;
  cf_approve_above : option string;
  cf_currency : option string;
}.
Record PayeeSettings := mkPayeeSettings { cf_address : string; cf_assets : option (list string) }.
(** The part of [security.payments] the policy is read from, durations in
    milliseconds. *)
Record Payments := mkPayments {
  cf_approver : option string;
  cf_approval_timeout : option Z;
  cf_ask_when_tainted : option bool;
  cf_max_validity : option Z;
  cf_all_assets : gmap string AssetSettings;
  cf_all_payees : gmap string PayeeSettings;
  cf_rpc : gmap string string;
}.

Record Asset := mkAsset {
  as_name : string;
  as_id : AssetId;
  as_family : Family;
  as_token : Token;
  as_decimals : nat;
  as_per_payment : option Z;
  as_per_run : Z;
  as_per_day : Z;
  as_per_payee : Z;
  as_approve_above : option Z;
  as_currency : option string;
}.
Record Payee := mkPayee { py_name : string; py_address : Account; py_assets : option (list string) }.
Record Policy := mkPolicy {
  po_approver : string;
  po_approval_timeout : Z;
  po_ask_when_tainted : bool;
  po_max_validity : Z;
  po_assets : gmap string Asset;
  po_payees : gmap string Payee;
  po_rpc : gmap string string;
}.

Inductive PolicyError : Type :=
  | BadAssetId (name : string)
  | NoChain (name : string)
  | BadToken (name : string) (e : SchemeError)
  | BadAmount (name key : string) (e : AmountError)
  | NotSet (name key : string)
  | BadPayee (name : string) (e : SchemeError).

Definition amount_of (name key : string) (decimals : nat) (v : option string) : result PolicyError (option Z) :=
  match v with
  | None => Ok None
  | Some v => match parse_amount v decimals with Ok a => Ok (Some a) | Err e => Err (BadAmount name key e) end
  end.
Definition need (name key : string) (v : option Z) : result PolicyError Z := ok_or (NotSet name key) v.

Section keccak.
Context `{Keccak}.

Definition read_asset (name : string) (a : AssetSettings) : result PolicyError Asset :=
  id ← ok_or (BadAssetId name) (asset_parse (cf_asset a));
  family ← ok_or (NoChain name) (family_of (a_chain id));
  token ← map_err (BadToken name) (family_token family id (cf_token_program a));
  let d := cf_decimals a in
  let l := cf_limits a in
  per_payment ← amount_of name "limits.per_payment" d (lm_per_payment l);
  per_run ← amount_of name "limits.per_run" d (lm_per_run l) ≫= need name "per_run";
  per_day ← amount_of name "limits.per_day" d (lm_per_day l) ≫= need name "per_day";
  per_payee ← amount_of name "limits.per_payee" d (lm_per_payee l) ≫= need name "per_payee";
  above ← amount_of name "approve_above" d (cf_approve_above a);
  mret (mkAsset name id family token d per_payment per_run per_day per_payee above (cf_currency a)).

Definition read_payee (name : string) (p : PayeeSettings) : result PolicyError Payee :=
  address ← map_err (BadPayee name) (account_parse (cf_address p));
  mret (mkPayee name address (cf_assets p)).

(** A table read in the order of its names, or its first error. *)
Definition read_table {A B} (f : string -> A -> result PolicyError B) (m : gmap string A) :
    result PolicyError (gmap string B) :=
  foldl (fun acc kv => acc ← acc; b ← f kv.1 kv.2; mret (<[kv.1 := b]> acc)) (Ok ∅) (entries m).

Definition from_settings (p : Payments) : result PolicyError Policy :=
  assets ← read_table read_asset (cf_all_assets p);
  payees ← read_table read_payee (cf_all_payees p);
  mret (mkPolicy (default "operator" (cf_approver p)) (default 3600000 (cf_approval_timeout p))
    (default true (cf_ask_when_tainted p)) (default 300000 (cf_max_validity p)) assets payees (cf_rpc p)).

(** ** The choice *)

Record StepPayment := mkStepPayment {
  sp_wallet : string;
  sp_max : list (string * Z);
  sp_approve : bool;
  sp_allowance : option string;
}.

Record Choice := mkChoice {
  ch_index : nat;
  ch_entry : Value;
  ch_asset : string;
  ch_asset_id : string;
  ch_payee : string;
  ch_pay_to : Account;
  ch_network : string;
  ch_amount : Z;
  ch_token : Token;
  ch_terms : STerms;
  ch_max_timeout : Z;
  ch_above_threshold : bool;
  ch_allowance : option string;
  ch_charge : option Z;
  ch_allowance_above : bool;
  ch_ceiling : option string;
  ch_ceiling_above : bool;
}.

(** Why an entry is passed over. *)
Inductive Reason : Type :=
  | Malformed (missing : string)
  | RScheme (scheme : string)
  | RFlow (flow : string)
  | RTimeout
  | RZero
  | RAmount (e : AmountError)
  | RNoFamily (network : string)
  | RNotCaip2 (network : string)
  | RNoAssetOn (network : string)
  | RAsset (asset network : string)
  | RStepAsset (asset : string)
  | RPayee (address : Account)
  | RPayeeAsset (payee asset : string)
  | RBadPayee (e : SchemeError)
  | RTerms (w : TermsWhy)
  | RMax (amount max : Z)
  | RPerPayment (amount cap : Z)
  | RPerRun (amount used cap : Z)
  | RPerDay (amount used cap : Z)
  | RPerPayee (amount used cap : Z)
  | RWallet (allowance wallet : string)
  | RNoCurrency (allowance asset : string)
  | RCurrency (allowance currency : string)
  | RUncountable (allowance : string) (amount : Z)
  | RAllowance (w : Why).

Record Passed := mkPassed { pa_index : nat; pa_reasons : list Reason }.

(** The allowance a step draws on, and what counts against it. *)
Record Under := mkUnder { un_allowance : Allowance; un_usage : SUsage; un_now : Z; un_host : option string }.

Definition why_if (b : bool) (r : Reason) : list Reason := if b then [r] else [].
(** A value, or the reasons there is none. *)
Definition found {A} (r : result (list Reason) A) : option A := ok r.
Definition missed {A} (r : result (list Reason) A) : list Reason := match r with Ok _ => [] | Err w => w end.

Definition read_entry_amount (e : Entry) : result (list Reason) Z :=
  match parse_atomic (e_amount e) with
  | Ok a => if a =? 0 then Err [RZero] else Ok a
  | Err err => Err [RAmount err]
  end.

Definition find_family (e : Entry) : result (list Reason) (ChainId * Family) :=
  match chain_parse (e_network e) with
  | None => Err [RNotCaip2 (e_network e)]
  | Some n => match family_of n with Some f => Ok (n, f) | None => Err [RNoFamily (e_network e)] end
  end.

Definition find_asset (p : Policy) (e : Entry) (nf : option (ChainId * Family)) : result (list Reason) Asset :=
  match nf with
  | None => Err []
  | Some (n, f) =>
      match List.filter (fun a => bool_decide (a_chain (as_id a) = n)) (vals (po_assets p)) with
      | [] => Err [RNoAssetOn (e_network e)]
      | on_network =>
          match List.find (fun a => bool_decide (as_family a = f) && token_is (as_token a) (e_asset e)) on_network with
          | Some a => Ok a
          | None => Err [RAsset (e_asset e) (e_network e)]
          end
      end
  end.

Definition find_max (step : StepPayment) (asset : option Asset) : result (list Reason) Z :=
  match asset with
  | None => Err []
  | Some a =>
      match List.find (fun m => bool_decide (m.1 = as_name a)) (sp_max step) with
      | Some m => Ok m.2
      | None => Err [RStepAsset (as_name a)]
      end
  end.

Definition find_payee (p : Policy) (pay_to : option (result SchemeError Account)) (asset : option Asset) :
    result (list Reason) Payee :=
  match pay_to with
  | None => Err []
  | Some (Err err) => Err [RBadPayee err]
  | Some (Ok addr) =>
      match List.find (fun y => bool_decide (py_address y = addr)) (vals (po_payees p)) with
      | None => Err [RPayee addr]
      | Some y =>
          match asset, py_assets y with
          | Some a, Some l => if bool_decide (as_name a ∈ l) then Ok y else Err [RPayeeAsset (py_name y) (as_name a)]
          | _, _ => Ok y
          end
      end
  end.

Definition over (used amount cap : Z) : bool :=
  match u128_checked_add used amount with None => true | Some t => cap <? t end.

Definition limits_why (a : Asset) (amount : Z) (max : option Z) (payee : option Payee)
    (spent : string -> Account -> Pay.Spent) : list Reason :=
  match max with Some m => why_if (m <? amount) (RMax amount m) | None => [] end
  ++ match as_per_payment a with Some cap => why_if (cap <? amount) (RPerPayment amount cap) | None => [] end
  ++ match payee with
     | None => []
     | Some y =>
         let s := spent (as_name a) (py_address y) in
         why_if (over (Pay.s_run s) amount (as_per_run a)) (RPerRun amount (Pay.s_run s) (as_per_run a))
         ++ why_if (over (Pay.s_day s) amount (as_per_day a)) (RPerDay amount (Pay.s_day s) (as_per_day a))
         ++ why_if (over (Pay.s_payee s) amount (as_per_payee a)) (RPerPayee amount (Pay.s_payee s) (as_per_payee a))
     end.

(** What an allowance makes of the entry: the reasons against it, the charge
    in its currency, and whether it is above its [approve_above]. *)
Definition under_one (step : StepPayment) (asset : option Asset) (amount : option Z) (payee : option Payee) (u : Under) :
    list Reason * option Z * bool :=
  let al := un_allowance u in
  let wallet := match wallets al with
                | Some l => why_if (negb (bool_decide (sp_wallet step ∈ l))) (RWallet (a_id al) (sp_wallet step))
                | None => [] end in
  match asset, amount with
  | Some a, Some amount =>
      match as_currency a with
      | None => (wallet ++ [RNoCurrency (a_id al) (as_name a)], None, false)
      | Some c =>
          if decide (c = currency al) then
            match to_currency amount (as_decimals a) with
            | None => (wallet ++ [RUncountable (a_id al) amount], None, false)
            | Some charge =>
                match payee with
                | None => (wallet, Some charge, false)
                | Some y =>
                    match judge al (py_name y) (un_host u) charge (un_usage u) (un_now u) with
                    | Ok above => (wallet, Some charge, above)
                    | Err ws => (wallet ++ (RAllowance <$> ws), Some charge, false)
                    end
                end
            end
          else (wallet ++ [RCurrency (a_id al) c], None, false)
      end
  | _, _ => (wallet, None, false)
  end.

Definition entry_why (e : Entry) : list Reason :=
  why_if (negb (bool_decide (e_scheme e = "exact"))) (RScheme (e_scheme e))
  ++ match get "paymentFlow" (e_extra e) ≫= Json.as_str with
     | None => []
     | Some f => why_if (negb (bool_decide (f = "authorization"))) (RFlow f)
     end
  ++ why_if (e_max_timeout e =? 0) RTimeout.

Definition find_terms (p : Policy) (e : Entry) (nf : option (ChainId * Family)) (asset : option Asset)
    (pay_to : option (result SchemeError Account)) : result (list Reason) STerms :=
  match nf with
  | None => Err []
  | Some (_, f) =>
      map_err (fmap RTerms) (family_terms f e ((fun a => (as_token a, as_decimals a)) <$> asset) (pay_to ≫= ok)
        (po_rpc p !! e_network e))
  end.

Definition one (p : Policy) (step : StepPayment) (index : nat) (v : Value)
    (spent : string -> Account -> Pay.Spent) (unders : list Under) : result (list Reason) Choice :=
  match entry_parse v with
  | Err k => Err [Malformed k]
  | Ok e =>
      let amount := read_entry_amount e in
      let nf := find_family e in
      let asset := find_asset p e (found nf) in
      let max := find_max step (found asset) in
      let pay_to := (fun nf => entry_account nf.2 (e_pay_to e)) <$> found nf in
      let payee := find_payee p pay_to (found asset) in
      let terms := find_terms p e (found nf) (found asset) pay_to in
      let limits := match found asset, found amount with
                    | Some a, Some am => limits_why a am (found max) (found payee) spent | _, _ => [] end in
      let us := under_one step (found asset) (found amount) (found payee) <$> unders in
      let why := entry_why e ++ missed amount ++ missed nf ++ missed asset ++ missed max ++ missed payee
                 ++ missed terms ++ limits ++ mjoin (us.*1.*1) in
      match why with
      | _ :: _ => Err why
      | [] =>
          match found asset, found payee, found amount, found terms with
          | Some a, Some y, Some am, Some t =>
              Ok (mkChoice index v (as_name a) (asset_display (as_id a)) (py_name y) (py_address y) (e_network e) am
                (as_token a) t (e_max_timeout e)
                (match as_approve_above a with Some th => th <? am | None => false end)
                (a_id ∘ un_allowance <$> head unders)
                (head us ≫= (fun u => u.1.2))
                (match head us with Some u => u.2 | None => false end)
                (a_id ∘ un_allowance <$> unders !! 1%nat)
                (existsb (fun u => u.2) (List.tl us)))
          | _, _, _, _ => Err [Malformed "malformed"]
          end
      end
  end.

Fixpoint choose_from (p : Policy) (step : StepPayment) (index : nat) (accepts : list Value)
    (spent : string -> Account -> Pay.Spent) (unders : list Under) (passed : list Passed) :
    result (list Passed) Choice :=
  match accepts with
  | [] => Err passed
  | v :: accepts' =>
      match one p step index v spent unders with
      | Ok c => Ok c
      | Err why => choose_from p step (S index) accepts' spent unders (passed ++ [mkPassed index why])
      end
  end.
Definition choose (p : Policy) (step : StepPayment) (accepts : list Value)
    (spent : string -> Account -> Pay.Spent) (unders : list Under) : result (list Passed) Choice :=
  choose_from p step 0 accepts spent unders [].
End keccak.
End Policy.

(** [Runtime::pay] in [runtime/payments.rs], from the policy held again to the
    record that is put before anything is signed. *)
Module Paying.
Import Caip Evm X402 Svm Scheme Policy.
Local Open Scope Z_scope.

Inductive NotPaid : Type :=
  | NotAllowed (passed : list Passed)
  | AskAgain (choice : Choice)
  | Blocked (by_ : Pay.Record_)
  | NotKept (e : Pay.LedgerError).

(** What the step's call says of itself, and who approved it. *)
Record Call := mkCall {
  call_key : string;
  call_run : string;
  call_step : string;
  call_workflow : string;
  call_url : string;
  call_approved_by : option string;
  call_currency : option string;
}.

Section paying.
Context {S : Type} `{Store S} `{Clock} `{JsonLen} `{Keccak}.

Definition record_of (c : Call) (wallet : string) (attempt : Z) (ch : Choice) (pr : Prepared) (now : Z) : Pay.Record_ :=
  Pay.mkRecord (call_key c) attempt (call_run c) (call_step c) (call_workflow c) wallet (ch_network ch) (ch_asset ch)
    (ch_asset_id ch) (ch_payee ch) (account_display (ch_pay_to ch)) (text (decimal (ch_amount ch))) (pr_nonce pr)
    (pr_valid_before pr) (call_url c) Pay.Sending None None None (call_approved_by c) now None (ch_allowance ch)
    ((fun a => format_amount a SCALE) <$> ch_charge ch) (call_currency c) (ch_ceiling ch).

(** What the ledger counts for an asset and a payee. *)
Definition ledger_spent (c : Call) (now : Z) (l : Pay.Ledger S) (asset : string) (payee : Account) : Pay.Spent :=
  Pay.spent asset (call_run c) (account_display payee) now l.

(** The choice with what the second look says of it. *)
Definition renewed (chosen again : Choice) : Choice :=
  mkChoice (ch_index chosen) (ch_entry chosen) (ch_asset chosen) (ch_asset_id chosen) (ch_payee chosen)
    (ch_pay_to chosen) (ch_network chosen) (ch_amount chosen) (ch_token chosen) (ch_terms chosen)
    (ch_max_timeout chosen) (ch_above_threshold again) (ch_allowance chosen) (ch_charge again)
    (ch_allowance_above again) (ch_ceiling again) (ch_ceiling_above again).

(** Whether the policy is held again: an approval was waited for, or an
    allowance is drawn on. *)
Definition held_again (step : StepPayment) (c : Call) : bool :=
  match call_approved_by c, sp_allowance step with None, None => false | _, _ => true end.

(** [covered]: whether the approvals given cover what the choice now asks. *)
Definition pay (p : Policy) (step : StepPayment) (c : Call) (chosen : Choice) (unders : list Under)
    (covered : Choice -> bool) (random : list Z) (now : Z) : stM (Pay.Ledger S) NotPaid (Choice * Pay.Record_) :=
  fun l =>
    let second :=
      if held_again step c then
        match choose p step [ch_entry chosen] (ledger_spent c now l) unders with
        | Err passed => Err (NotAllowed passed)
        | Ok again =>
            let choice := renewed chosen again in
            if covered choice then Ok choice else Err (AskAgain choice)
        end
      else Ok chosen in
    match second with
    | Err e => (l, Err e)
    | Ok choice =>
        match Pay.blocking (call_key c) l with
        | Some r => (l, Err (Blocked r))
        | None =>
            let pr := prepare (ch_terms choice) (ch_max_timeout choice) (po_max_validity p / 1000) (now / 1000) random in
            let rec := record_of c (sp_wallet step) (Pay.next_attempt (call_key c) l) choice pr now in
            let '(l, kept) := Pay.put rec l in
            (l, match kept with Ok _ => Ok (choice, rec) | Err e => Err (NotKept e) end)
        end
    end.
End paying.
End Paying.
