(* ===== verification/PayPolicyProps.v ===== *)
(** * What is paid stays within the policy

    Theorems on [PayPolicy]: an entry that is chosen is the first one the
    policy, the step and the allowances all allow; a payment that is put on
    record keeps every cap of its asset, over the records the ledger then
    holds; and an account reads back as it is shown. *)

From S2P Require Export PayPolicy PayLedgerProps.

Module PolicyProps.
Import Caip Evm X402 Svm Scheme Policy Paying.
Local Open Scope Z_scope.

(** ** Accounts *)

Lemma hex_val_upper n : 0 <= n < 16 -> hex_val (upper (hex_digit n)) = Some n.
Proof.
  intros Hn.
  assert (forallb (fun n => bool_decide (hex_val (upper (hex_digit n)) = Some n)) (Z.of_nat <$> seq 0 16) = true) as Hall
    by (vm_compute; reflexivity).
  rewrite forallb_forall in Hall. specialize (Hall n). apply bool_decide_eq_true in Hall; [done|].
  apply list_elem_of_In, list_elem_of_fmap. exists (Z.to_nat n). split; [lia|]. apply elem_of_seq. lia.
Qed.

Lemma unhex_pairs_ext l k : (hex_val <$> l) = (hex_val <$> k) -> unhex_pairs l = unhex_pairs k.
Proof.
  remember (length l) as n eqn:En. revert l k En.
  induction n as [n IH] using lt_wf_ind. intros l k En E.
  destruct l as [|a [|b l]], k as [|a' [|b' k]]; try done. cbn in E. injection E as Ea Eb E.
  cbn [unhex_pairs]. rewrite Ea, Eb. by rewrite (IH (length l)) with (k := k) by (cbn in *; lia || done).
Qed.

Lemma to_hex_digits l c : bytes l -> c ∈ to_hex l -> exists n, 0 <= n < 16 /\ c = hex_digit n.
Proof.
  intros Hl Hc. unfold to_hex in Hc. apply list_elem_of_bind in Hc as (b & Hc & Hb).
  unfold bytes in Hl. rewrite Forall_forall in Hl. destruct (byte_nibbles b (Hl b Hb)) as (? & ? & _).
  apply elem_of_cons in Hc as [->|Hc]; [by exists (b / 16)|].
  apply list_elem_of_singleton in Hc as ->. by exists (b mod 16).
Qed.

Lemma checksum_hex_val hash i n : 0 <= n < 16 -> hex_val (checksum_char hash i (hex_digit n)) = Some n.
Proof. intros Hn. unfold checksum_char. destruct (_ && _); [by apply hex_val_upper|by apply hex_val_digit]. Qed.

Lemma checksum_hex_vals hash l : bytes l ->
  (hex_val <$> imap (checksum_char hash) (to_hex l)) = (hex_val <$> to_hex l).
Proof.
  intros Hl. apply list_eq. intros i. rewrite !list_lookup_fmap, list_lookup_imap.
  destruct (to_hex l !! i) as [c|] eqn:Ec; [|done]. cbn. f_equal.
  destruct (to_hex_digits l c Hl) as (n & Hn & ->); [by eapply list_elem_of_lookup_2|].
  by rewrite checksum_hex_val, hex_val_digit.
Qed.

(** An address, of either family. *)
Definition account_wf (x : Account) : Prop :=
  match x with
  | AEvm a => bytes a /\ length a = 20%nat
  | ASvm k => bytes k /\ length k = 32%nat
  end.

Lemma address_checksummed `{Keccak} a : bytes a -> length a = 20%nat -> address_parse (checksummed a) = Ok a.
Proof.
  intros Ha Hl. unfold address_parse. pose proof (eq_refl (checksummed a)) as E. unfold checksummed at 1 in E.
  set (h := imap _ _) in E. rewrite <- E at 1. rewrite strip_prefix_app, chars_text.
  assert ((hex_val <$> h) = (hex_val <$> to_hex a)) as Hv by by apply checksum_hex_vals.
  assert (length h = 40%nat) as -> by (unfold h; rewrite length_imap, to_hex_length; lia). cbn [negb Nat.eqb].
  assert (forallb is_hexdigit h = true) as ->.
  { apply forallb_forall. intros c Hc. apply list_elem_of_In, list_elem_of_lookup in Hc as [i Hi].
    assert ((hex_val <$> h) !! i = Some (hex_val c)) as Hx by by rewrite list_lookup_fmap, Hi.
    rewrite Hv, list_lookup_fmap in Hx. destruct (to_hex a !! i) as [d|] eqn:Ed; [|done].
    destruct (to_hex_digits a d Ha) as (n & Hn & ->); [by eapply list_elem_of_lookup_2|].
    cbn in Hx. rewrite hex_val_digit in Hx by done. injection Hx as Hx. unfold is_hexdigit. by rewrite <- Hx. }
  cbn [negb orb]. rewrite (unhex_pairs_ext _ _ Hv), unhex_to_hex by done. cbn [default].
  rewrite bool_decide_true by done. by rewrite andb_false_r.
Qed.

Lemma encode_not_hex k : bytes k -> length k = 32%nat -> starts_with "0x" (text (Base58.encode k)) = false.
Proof.
  intros Hk Hl. unfold starts_with. destruct (strip_prefix _ _) as [r|] eqn:E; [|done].
  apply strip_prefix_Some in E. apply (f_equal chars) in E. rewrite chars_text in E. cbn in E.
  pose proof (decode32_encode k Hk Hl) as Hd. rewrite E in Hd. unfold decode32, Base58.decode in Hd.
  revert Hd. case_decide; intros Hd; [done|]. by vm_compute in Hd.
Qed.

(** An account is the text it is shown as: the EIP-55 form of an EVM
    address, whatever its case-fold hash, and the base58 form of a Solana key
    read back to it; so two payees are never counts_for as one. *)
Theorem account_round_trip `{Keccak} x : account_wf x -> account_parse (account_display x) = Ok x.
Proof.
  intros Hx. unfold account_parse. destruct x as [a|k]; destruct Hx as [Hb Hl]; cbn [account_display].
  - assert (starts_with "0x" (checksummed a) = true) as -> by done. by rewrite address_checksummed.
  - rewrite encode_not_hex by done. unfold pubkey_parse. by rewrite chars_text, decode32_encode.
Qed.

(** ** Reasons *)

Lemma why_if_nil b r : why_if b r = [] <-> b = false.
Proof. by destruct b. Qed.

Lemma found_Some {A} (r : result (list Reason) A) a : found r = Some a <-> r = Ok a.
Proof. unfold found. destruct r; cbn; split; congruence. Qed.

Lemma over_within used amount cap : over used amount cap = false <-> used + amount <= u128_max /\ used + amount <= cap.
Proof.
  unfold over, u128_checked_add. destruct (Z.leb_spec (used + amount) u128_max); [rewrite Z.ltb_ge|]; [lia|].
  split; [done|lia].
Qed.

(** Splits a list of reasons that is empty. *)
Ltac no_reasons :=
  repeat match goal with
  | E : _ ++ _ = [] |- _ => apply app_eq_nil in E as [? E]
  | E : why_if _ _ = [] |- _ => rewrite why_if_nil in E
  end.

Section keccak.
Context `{Keccak}.
Implicit Types (p : Policy) (spent : string -> Account -> Pay.Spent).

(** What an allowance that does not object has found. *)
Definition under_holds (wallet : string) (a : Asset) (y : Payee) (amount : Z) (u : Under) : Prop :=
  (forall l, wallets (un_allowance u) = Some l -> wallet ∈ l) /\
  as_currency a = Some (currency (un_allowance u)) /\
  exists charge above, to_currency amount (as_decimals a) = Some charge /\
    judge (un_allowance u) (py_name y) (un_host u) charge (un_usage u) (un_now u) = Ok above.

Lemma judge_says_why al payee host charge usage now : judge al payee host charge usage now <> Err [].
Proof. unfold judge. by destruct (_ ++ _). Qed.

Lemma under_one_nil step a amount y u :
  (under_one step (Some a) (Some amount) (Some y) u).1.1 = [] -> under_holds (sp_wallet step) a y amount u.
Proof.
  unfold under_one, under_holds.
  destruct (as_currency a) as [c|] eqn:Ec; [|cbn [fst]; intros E; no_reasons; done].
  case_decide as Hc; [|cbn [fst]; intros E; no_reasons; done].
  destruct (to_currency amount (as_decimals a)) as [charge|] eqn:Et; [|cbn [fst]; intros E; no_reasons; done].
  destruct (judge _ _ _ charge _ _) as [above|ws] eqn:Ej; cbn [fst]; intros E.
  - split_and!; [|by rewrite Hc|by exists charge, above].
    intros l El. rewrite El in E. no_reasons. by apply negb_false_iff, bool_decide_eq_true in E.
  - no_reasons. destruct ws; [|done]. by apply judge_says_why in Ej.
Qed.

(** ** What an entry was found to be *)

(** The parts of an entry that is chosen, each as its reader found it. *)
Record parts p (step : StepPayment) (v : Value) spent (unders : list Under) (c : Choice)
    (e : Entry) (f : Family) (a : Asset) (y : Payee) (m : Z) : Prop := mkParts {
  pt_entry : entry_parse v = Ok e;
  pt_scheme : entry_why e = [];
  pt_amount : read_entry_amount e = Ok (ch_amount c);
  pt_family : find_family e = Ok (a_chain (as_id a), f);
  pt_asset : find_asset p e (Some (a_chain (as_id a), f)) = Ok a;
  pt_max : find_max step (Some a) = Ok m;
  pt_payee : find_payee p (Some (entry_account f (e_pay_to e))) (Some a) = Ok y;
  pt_terms : find_terms p e (Some (a_chain (as_id a), f)) (Some a) (Some (entry_account f (e_pay_to e))) = Ok (ch_terms c);
  pt_limits : limits_why a (ch_amount c) (Some m) (Some y) spent = [];
  pt_unders : Forall (under_holds (sp_wallet step) a y (ch_amount c)) unders;
  pt_kept : ch_entry c = v /\ ch_asset c = as_name a /\ ch_asset_id c = asset_display (as_id a) /\
    ch_payee c = py_name y /\ ch_pay_to c = py_address y /\ ch_network c = e_network e /\ ch_token c = as_token a;
}.

Lemma find_asset_spec p e n f a :
  find_asset p e (Some (n, f)) = Ok a ->
  (exists k, po_assets p !! k = Some a) /\ a_chain (as_id a) = n /\ as_family a = f /\
  token_is (as_token a) (e_asset e) = true.
Proof.
  unfold find_asset. destruct (List.filter _ _) as [|x l] eqn:El; [done|].
  destruct (List.find _ (x :: l)) as [b|] eqn:Ef; [|done]. intros E. injection E as ->.
  apply List.find_some in Ef as [Hin Ht]. rewrite <- El in Hin. apply List.filter_In in Hin as [Hin Hn].
  apply list_elem_of_In, elem_of_vals in Hin. apply bool_decide_eq_true in Hn.
  apply andb_true_iff in Ht as [Hf Ht]. by apply bool_decide_eq_true in Hf.
Qed.

Lemma find_payee_spec p addr a y :
  find_payee p (Some addr) (Some a) = Ok y ->
  (exists k, po_payees p !! k = Some y) /\ addr = Ok (py_address y) /\
  forall l, py_assets y = Some l -> as_name a ∈ l.
Proof.
  unfold find_payee. destruct addr as [addr|]; [|done].
  destruct (List.find _ _) as [z|] eqn:Ef; [|done].
  apply List.find_some in Ef as [Hin Ha]. apply list_elem_of_In, elem_of_vals in Hin. apply bool_decide_eq_true in Ha.
  destruct (py_assets z) as [l|] eqn:El; [case_bool_decide|]; intros E; simplify_eq; split_and!; try done;
    intros ? ?; simplify_eq; done.
Qed.

Lemma find_max_spec step a m : find_max step (Some a) = Ok m -> (as_name a, m) ∈ sp_max step.
Proof.
  unfold find_max. destruct (List.find _ _) as [[n x]|] eqn:Ef; [|done]. intros E. injection E as <-.
  apply List.find_some in Ef as [Hin Hn]. apply bool_decide_eq_true in Hn. cbn in *. subst.
  by apply list_elem_of_In.
Qed.

Lemma read_entry_amount_spec e am :
  read_entry_amount e = Ok am -> 0 < am <= u128_max /\ e_amount e = text (decimal am).
Proof.
  unfold read_entry_amount. destruct (parse_atomic (e_amount e)) as [x|] eqn:E; [|done].
  apply parse_atomic_canonical in E as [Hx E]. destruct (Z.eqb_spec x 0); [done|]. intros ?. simplify_eq. split; [lia|done].
Qed.

Lemma one_parts p step i v spent unders c :
  one p step i v spent unders = Ok c -> ch_index c = i /\ exists e f a y m, parts p step v spent unders c e f a y m.
Proof.
  unfold one. destruct (entry_parse v) as [e|] eqn:Ee; [|done].
  set (amount := read_entry_amount e). set (nf := find_family e). cbv zeta.
  destruct (_ ++ _) as [|w ws] eqn:Ew; [|done].
  destruct (found (find_asset _ _ _)) as [a|] eqn:Ea; [|done].
  destruct (found (find_payee _ _ _)) as [y|] eqn:Ey; [|done].
  destruct (found amount) as [am|] eqn:Eam; [|done].
  destruct (found (find_terms _ _ _ _ _)) as [t|] eqn:Et; [|done].
  intros E. injection E as <-. split; [done|].
  destruct (found nf) as [[n f]|] eqn:En; [|done]. cbn [fmap option_fmap option_map snd] in *.
  apply found_Some in Ea as Ha, Ey as Hy, Eam as Ham, Et as Ht, En as Hn.
  destruct (find_asset_spec _ _ _ _ _ Ha) as (_ & Hc & _ & _). subst n.
  no_reasons.
  destruct (find_max step (Some a)) as [m|ws] eqn:Em.
  2: { cbn in *. unfold find_max in Em. destruct (List.find _ _); simplify_eq. }
  exists e, f, a, y, m. split; try done.
  apply Forall_forall. intros u Hu. apply under_one_nil.
  assert (forall l : list (list Reason * option Z * bool), mjoin (l.*1.*1) = [] -> forall x, x ∈ l -> x.1.1 = []) as Hj.
  { clear. induction l as [|x l IH]; intros E y Hy; [by apply elem_of_nil in Hy|].
    cbn in E. apply app_eq_nil in E as [? E]. apply elem_of_cons in Hy as [->|Hy]; [done|by apply IH]. }
  by eapply Hj; [eassumption|]; apply list_elem_of_fmap; exists u.
Qed.

(** ** The choice *)

Definition refused p (step : StepPayment) spent unders (v : Value) : Prop :=
  forall i, exists w ws, one p step i v spent unders = Err (w :: ws).

Lemma one_refused p step i v spent unders why :
  one p step i v spent unders = Err why -> refused p step spent unders v /\ why <> [].
Proof.
  intros E. assert (forall j, one p step j v spent unders = Err why) as Hj.
  { intros j. revert E. unfold one. destruct (entry_parse v) as [e|]; [|done]. cbv zeta.
    destruct (_ ++ _); [|done].
    destruct (found (find_asset _ _ _)); [|done]. destruct (found (find_payee _ _ _)); [|done].
    destruct (found (read_entry_amount e)); [|done]. by destruct (found (find_terms _ _ _ _ _)). }
  assert (why <> []) as Hn.
  { revert E. unfold one. destruct (entry_parse v) as [e|]; [|congruence]. cbv zeta.
    destruct (_ ++ _); [|congruence].
    destruct (found (find_asset _ _ _)); [|congruence]. destruct (found (find_payee _ _ _)); [|congruence].
    destruct (found (read_entry_amount e)); [|congruence]. destruct (found (find_terms _ _ _ _ _)); congruence. }
  split; [|done]. intros j. destruct why as [|w ws]; [done|]. exists w, ws. apply Hj.
Qed.

Lemma choose_from_spec p step i l spent unders passed :
  match choose_from p step i l spent unders passed with
  | Ok c => exists pre v post, l = pre ++ v :: post /\ Forall (refused p step spent unders) pre /\
      one p step (i + length pre) v spent unders = Ok c
  | Err why => exists new, why = passed ++ new /\ Forall (refused p step spent unders) l /\
      Forall2 (fun j x => pa_index x = j /\ pa_reasons x <> []) (seq i (length l)) new
  end.
Proof.
  revert i passed. induction l as [|v l IH]; intros i passed; cbn [choose_from].
  { exists []. by rewrite app_nil_r. }
  destruct (one p step i v spent unders) as [c|why] eqn:E.
  - exists [], v, l. cbn. by rewrite Nat.add_0_r.
  - apply one_refused in E as [Hr Hn]. specialize (IH (S i) (passed ++ [mkPassed i why])).
    destruct (choose_from _ _ _ _ _ _ _) as [c|ws].
    + destruct IH as (pre & x & post & -> & Hpre & Ho). exists (v :: pre), x, post.
      split_and!; [done|by constructor|]. cbn [length]. by rewrite Nat.add_succ_r, <- Nat.add_succ_l.
    + destruct IH as (new & -> & Hl & Hf). exists (mkPassed i why :: new).
      split_and!; [by rewrite <- app_assoc|by constructor|]. cbn [length seq]. by constructor.
Qed.

(** What the policy, the step and the allowances ask of an entry that is
    paid. *)
Record payable p (step : StepPayment) spent unders (e : Entry) (c : Choice) (a : Asset) (y : Payee) : Prop := mkWithin {
  wi_scheme : e_scheme e = "exact";
  wi_flow : forall f, get "paymentFlow" (e_extra e) ≫= Json.as_str = Some f -> f = "authorization";
  wi_timeout : e_max_timeout e <> 0;
  wi_amount : 0 < ch_amount c <= u128_max /\ e_amount e = text (decimal (ch_amount c));
  wi_asset : (exists k, po_assets p !! k = Some a) /\ ch_asset c = as_name a;
  wi_token : chain_parse (e_network e) = Some (a_chain (as_id a)) /\ token_is (as_token a) (e_asset e) = true;
  wi_max : exists m, (as_name a, m) ∈ sp_max step /\ ch_amount c <= m;
  wi_per_payment : forall cap, as_per_payment a = Some cap -> ch_amount c <= cap;
  wi_payee : (exists k, po_payees p !! k = Some y) /\ ch_payee c = py_name y /\ ch_pay_to c = py_address y;
  wi_pay_to : entry_account (as_family a) (e_pay_to e) = Ok (py_address y);
  wi_payee_asset : forall l, py_assets y = Some l -> as_name a ∈ l;
  wi_caps : let s := spent (as_name a) (py_address y) in
    Pay.s_run s + ch_amount c <= Z.min (as_per_run a) u128_max /\
    Pay.s_day s + ch_amount c <= Z.min (as_per_day a) u128_max /\
    Pay.s_payee s + ch_amount c <= Z.min (as_per_payee a) u128_max;
  wi_unders : Forall (under_holds (sp_wallet step) a y (ch_amount c)) unders;
}.

Lemma parts_payable p step v spent unders c e f a y m :
  parts p step v spent unders c e f a y m -> payable p step spent unders e c a y.
Proof.
  intros [He Hs Ham Hf Ha Hm Hy Ht Hl Hu (Hv & Hn & Hi & Hpn & Hpa & Hw & Htok)].
  apply find_asset_spec in Ha as (Hk & _ & <- & Hta). apply find_payee_spec in Hy as (Hky & Hacc & Hpl).
  apply find_max_spec in Hm. apply read_entry_amount_spec in Ham.
  unfold entry_why in Hs. unfold limits_why in Hl. cbv zeta in Hl. no_reasons.
  repeat match goal with E : over _ _ _ = false |- _ => apply over_within in E end.
  split; try done.
  - match goal with E : negb _ = false |- _ => by apply negb_false_iff, bool_decide_eq_true in E end.
  - intros fl Ef. rewrite Ef in *. no_reasons.
    match goal with E : negb _ = false |- _ => by apply negb_false_iff, bool_decide_eq_true in E end.
  - by apply Z.eqb_neq.
  - split; [|done]. unfold find_family in Hf. destruct (chain_parse _) as [n|]; [|done].
    destruct (family_of n); by simplify_eq.
  - exists m. split; [done|lia].
  - intros cap Ec. rewrite Ec in *. no_reasons. lia.
  - cbn. lia.
Qed.

(** C38: what is paid is what was allowed: the entry chosen is the first of the
    server's that is not refused, and its scheme, amount, chain, token, payee,
    the step's bound, the asset's caps over what is spent already and every
    allowance hold it; an offer with no such entry is refused with a reason for
    every entry, in the server's order. *)
Theorem chosen_within_policy p step accepts spent unders :
  match choose p step accepts spent unders with
  | Ok c => exists pre post e a y,
      accepts = pre ++ ch_entry c :: post /\ ch_index c = length pre /\
      Forall (refused p step spent unders) pre /\
      entry_parse (ch_entry c) = Ok e /\ payable p step spent unders e c a y
  | Err passed =>
      Forall (refused p step spent unders) accepts /\
      Forall2 (fun i x => pa_index x = i /\ pa_reasons x <> []) (seq 0 (length accepts)) passed
  end.
Proof.
  unfold choose. pose proof (choose_from_spec p step 0 accepts spent unders []) as Hc.
  destruct (choose_from _ _ _ _ _ _ _) as [c|why].
  - destruct Hc as (pre & v & post & -> & Hpre & Ho). apply one_parts in Ho as (Hi & e & f & a & y & m & Hp).
    pose proof (pt_kept _ _ _ _ _ _ _ _ _ _ _ Hp) as (Hv & _). exists pre, post, e, a, y.
    rewrite Hv. split_and!; try done; [by apply (pt_entry _ _ _ _ _ _ _ _ _ _ _ Hp)|by eapply parts_payable].
  - by destruct Hc as (new & -> & Hl & Hf).
Qed.
End keccak.

(** ** What is put on record *)

Section paying.
Context {S : Type} `{StoreOk S} `{Clock} `{JsonLen} `{Keccak}.
Implicit Types (l : Pay.Ledger S) (p : Policy).
Import PayProps.

(** The records a ledger counts for an asset at a time. *)
Definition counts_for (asset : string) (now : Z) (r : Pay.Record_) : bool :=
  bool_decide (Pay.asset r = asset) && Pay.counts r now.
Definition in_run (asset run : string) (now : Z) (r : Pay.Record_) : bool :=
  counts_for asset now r && bool_decide (Pay.run r = run).
Definition in_day (asset : string) (now : Z) (r : Pay.Record_) : bool :=
  counts_for asset now r && (u64_sat_sub now Pay.DAY_MS <=? Pay.at_ms r)%Z.
Definition to_payee (asset pay_to : string) (now : Z) (r : Pay.Record_) : bool :=
  in_day asset now r && bool_decide (Pay.pay_to r = pay_to).
Definition sum_of (f : Pay.Record_ -> bool) l : Z := total f (vals (Pay.records l)).

(** The caps of an asset and a payee, over the records as they are. *)
Definition caps_kept (a : Asset) (run pay_to : string) (now : Z) l : Prop :=
  sum_of (in_run (as_name a) run now) l <= as_per_run a /\
  sum_of (in_day (as_name a) now) l <= as_per_day a /\
  sum_of (to_payee (as_name a) pay_to now) l <= as_per_payee a.

(** A record of a new id adds its amount to what counts it. *)
Lemma sum_of_added f r l l' :
  Pay.records l !! Pay.id r = None -> Pay.records l' = <[Pay.id r := r]> (Pay.records l) ->
  sum_of f l' <= Pay.atomic r + sum_of f l.
Proof.
  intros Hn E. unfold sum_of, total. rewrite E, list_sum_insert by congruence.
  pose proof (atomic_range r). destruct (f r); lia.
Qed.

Definition ids_fresh l : Prop :=
  forall k r, Pay.records l !! k = Some r -> k = Pay.id r /\ (0 <= Pay.attempt r < u32_max)%Z.

Lemma decimal_inj n n' : 0 <= n -> 0 <= n' -> decimal n = decimal n' -> n = n'.
Proof.
  intros Hn Hn' E. pose proof (parse_uint_decimal (Z.max n n') n ltac:(lia)) as E1.
  rewrite E, parse_uint_decimal in E1 by lia. by injection E1.
Qed.

Lemma decimal_no_dot n : 0 <= n -> "."%char ∉ rev (decimal n).
Proof.
  intros Hn Hin. apply list_elem_of_In, in_rev, list_elem_of_In in Hin. revert Hin. by apply digit_not_dot, decimal_spec.
Qed.

Lemma record_id_inj q n q' n' : 0 <= n -> 0 <= n' -> Pay.record_id q n = Pay.record_id q' n' -> q = q' /\ n = n'.
Proof.
  intros Hn Hn' E. apply (f_equal (fun s => cut "."%char (rev (chars s)))) in E. unfold Pay.record_id in E.
  rewrite !chars_app, !chars_text, !rev_app_distr in E. cbn [chars String.list_ascii_of_string rev app] in E.
  rewrite <- !app_assoc in E. cbn [app] in E.
  rewrite !cut_app in E by by apply decimal_no_dot.
  injection E as Ed Eq. split; [apply chars_inj; by rewrite <- (rev_involutive (chars q)), Eq, rev_involutive|].
  apply decimal_inj; [done..|]. by rewrite <- (rev_involutive (decimal n)), Ed, rev_involutive.
Qed.

(** The number of the next attempt is of no record. *)
Lemma next_id_fresh req l :
  ids_fresh l -> Pay.records l !! Pay.record_id req (Pay.next_attempt req l) = None.
Proof.
  intros Hf. destruct (_ !! _) as [r|] eqn:E; [|done]. destruct (Hf _ _ E) as [Hid Hr].
  apply record_id_inj in Hid as [Hreq Hn]; [|by apply Z.mod_pos_bound|lia].
  pose proof (next_attempt_fresh req l _ r E (eq_sym Hreq) (fun k r Hk => proj2 (Hf k r Hk))). lia.
Qed.

(** ** A payment *)

(** The two looks at one entry find the same parts. *)
Lemma parts_agree p step v spent spent' unders unders' c c' e e' f f' a a' y y' m m' :
  parts p step v spent unders c e f a y m -> parts p step v spent' unders' c' e' f' a' y' m' ->
  e = e' /\ a = a' /\ y = y' /\ ch_amount c = ch_amount c'.
Proof.
  intros [He _ Ham Hf Ha _ Hy _ _ _ _] [He' _ Ham' Hf' Ha' _ Hy' _ _ _ _].
  rewrite He in He'. injection He' as <-. rewrite Hf in Hf'. injection Hf' as Hn <-.
  rewrite <- Hn, Ha in Ha'. injection Ha' as <-. rewrite Hy in Hy'. injection Hy' as <-.
  rewrite Ham in Ham'. by injection Ham' as <-.
Qed.

(** An entry within the caps of what the ledger counts keeps them. *)
Lemma caps_added a c now am pay_to rec l l' :
  Pay.records l !! Pay.id rec = None -> Pay.records l' = <[Pay.id rec := rec]> (Pay.records l) ->
  Pay.atomic rec = am -> 0 < am ->
  (let s := Pay.spent (as_name a) (call_run c) pay_to now l in
    Pay.s_run s + am <= Z.min (as_per_run a) u128_max /\
    Pay.s_day s + am <= Z.min (as_per_day a) u128_max /\
    Pay.s_payee s + am <= Z.min (as_per_payee a) u128_max) ->
  caps_kept a (call_run c) pay_to now l'.
Proof.
  intros Hn Hr Ham Hpos Hs. rewrite spent_exact in Hs. cbn [Pay.s_run Pay.s_day Pay.s_payee] in Hs.
  pose proof (sum_of_added (in_run (as_name a) (call_run c) now) rec l l' Hn Hr) as Hrun.
  pose proof (sum_of_added (in_day (as_name a) now) rec l l' Hn Hr) as Hday.
  pose proof (sum_of_added (to_payee (as_name a) pay_to now) rec l l' Hn Hr) as Hto.
  unfold caps_kept. unfold sum_of, in_run, to_payee, in_day, counts_for in *. lia.
Qed.

Lemma chosen_parts p step v spent unders c :
  choose p step [v] spent unders = Ok c -> exists e f a y m, parts p step v spent unders c e f a y m.
Proof.
  unfold choose. cbn [choose_from]. destruct (one _ _ _ _ _ _) as [c'|why] eqn:E; [|done].
  intros Ec. injection Ec as <-. by apply one_parts in E as [_ E].
Qed.

(** The choice that is put on record is within what the ledger counts now. *)
Lemma second_look p step c accepts l0 now0 unders0 chosen unders covered now l choice :
  choose p step accepts (ledger_spent c now0 l0) unders0 = Ok chosen ->
  held_again step c = true \/ (l0 = l /\ now0 = now) ->
  (if held_again step c then
     match choose p step [ch_entry chosen] (ledger_spent c now l) unders with
     | Err passed => Err (NotAllowed passed)
     | Ok again => if (covered (renewed chosen again) : bool) then Ok (renewed chosen again)
                   else Err (AskAgain (renewed chosen again))
     end
   else Ok chosen) = Ok choice ->
  exists c' e a y unders', payable p step (ledger_spent c now l) unders' e c' a y /\
    ch_amount choice = ch_amount c' /\ ch_asset choice = as_name a /\ ch_pay_to choice = py_address y.
Proof.
  intros Hc Hheld Hsec. unfold choose in Hc.
  pose proof (choose_from_spec p step 0 accepts (ledger_spent c now0 l0) unders0 []) as Hs. rewrite Hc in Hs.
  destruct Hs as (pre & v & post & _ & _ & Ho). apply one_parts in Ho as (_ & e & f & a & y & m & Hp).
  pose proof (pt_kept _ _ _ _ _ _ _ _ _ _ _ Hp) as (Hv & Has & _ & _ & Hto & _ & _).
  destruct (held_again step c).
  - destruct (choose p step [ch_entry chosen] _ _) as [again|] eqn:Ea; [|done].
    destruct (covered _); [|done]. injection Hsec as <-. rewrite Hv in Ea.
    apply chosen_parts in Ea as (e' & f' & a' & y' & m' & Hp').
    destruct (parts_agree _ _ _ _ _ _ _ _ _ _ _ _ _ _ _ _ _ _ _ Hp Hp') as (<- & <- & <- & Ham).
    exists again, e, a, y, unders. by split; [eapply parts_payable|].
  - injection Hsec as <-. destruct Hheld as [|[-> ->]]; [done|].
    exists chosen, e, a, y, unders0. by split; [eapply parts_payable|].
Qed.

(** C37: no cap is passed by a payment: when the policy held again lets a payment
    be put on record (or nothing was waited for, and the choice was made of the
    same ledger), the record is a new one, for the amount that was chosen, and
    the sums of the records for the run, the last day and the payee are then
    each within the asset's caps. *)
Theorem payment_keeps_caps p step c accepts l0 now0 unders0 chosen unders covered random now l l' ch r :
  choose p step accepts (ledger_spent c now0 l0) unders0 = Ok chosen ->
  held_again step c = true \/ (l0 = l /\ now0 = now) ->
  ids_fresh l ->
  pay p step c chosen unders covered random now l = (l', Ok (ch, r)) ->
  exists a y,
    (exists k, po_assets p !! k = Some a) /\ (exists k, po_payees p !! k = Some y) /\
    Pay.asset r = as_name a /\ Pay.pay_to r = account_display (py_address y) /\
    Pay.state r = Pay.Sending /\ Pay.atomic r = ch_amount ch /\ 0 < ch_amount ch /\
    Pay.blocking (call_key c) l = None /\
    Pay.records l !! Pay.id r = None /\ Pay.records l' = <[Pay.id r := r]> (Pay.records l) /\
    caps_kept a (call_run c) (Pay.pay_to r) now l'.
Proof.
  intros Hc Hheld Hids. unfold pay.
  pose proof (second_look p step c accepts l0 now0 unders0 chosen unders covered now l) as Hsec.
  destruct (if held_again step c then _ else _) as [choice|]; [|intros E; simplify_eq].
  destruct (Hsec choice Hc Hheld eq_refl) as (c' & e & a & y & us & Hw & Ham & Has & Hto). clear Hsec.
  destruct (Pay.blocking (call_key c) l) as [b|] eqn:Eb; [intros E; simplify_eq|]. cbv zeta.
  set (rec := record_of _ _ _ _ _ _). pose proof (put_record_spec rec l) as Hp.
  destruct (Pay.put rec l) as [l1 [[]|]]; intros E; [|simplify_eq].
  injection E as -> -> <-.
  destruct Hp as (_ & _ & Hrec & _).
  pose proof (wi_amount _ _ _ _ _ _ _ _ Hw) as [Hpos _]. rewrite <- Ham in Hpos.
  assert (Pay.records l !! Pay.id rec = None) as Hn by by apply next_id_fresh.
  assert (Pay.atomic rec = ch_amount ch) as Hat.
  { unfold Pay.atomic, rec. cbn [Pay.amount record_of]. by rewrite chars_text, parse_uint_decimal by lia. }
  exists a, y. split_and!; try done; try apply (wi_asset _ _ _ _ _ _ _ _ Hw); try apply (wi_payee _ _ _ _ _ _ _ _ Hw).
  - cbn. by rewrite Hto.
  - lia.
  - eapply caps_added; [done..|lia|]. pose proof (wi_caps _ _ _ _ _ _ _ _ Hw) as Hcaps.
    rewrite <- Ham in Hcaps. cbn [rec record_of Pay.pay_to]. by rewrite Hto.
Qed.
End paying.

(** ** A sample payment *)

Module Sample.
Import SpendingSample.

#[export] Instance flat : Keccak := fun _ => replicate 32 0.

Definition USDC : string := "0x000000000000000000000000000000000000000c".
Definition ACME : string := "0x00000000000000000000000000000000000000ac".
Definition settings : Payments :=
  mkPayments None None None None
    {[ "usdc" := mkAssetSettings ("eip155:8453/erc20:" +:+ USDC) 6 None
         (mkLimits (Some "0.30") (Some "0.25") (Some "1.00") (Some "0.50")) None None ]}
    {[ "acme" := mkPayeeSettings ACME None ]} ∅.
Definition address (b : Z) : Address := replicate 19 0 ++ [b].
Definition usdc : Asset :=
  mkAsset "usdc" (mkAssetId (mkChainId "eip155" "8453") "erc20" USDC) FEvm (TEvm 8453 (address 12)) 6
    (Some 300000) 250000 1000000 500000 None None.
Definition policy : Policy :=
  mkPolicy "operator" 3600000 true 300000 {[ "usdc" := usdc ]} {[ "acme" := mkPayee "acme" (AEvm (address 172)) None ]} ∅.
Definition offer (amount : string) : Value :=
  jobj [("scheme", VStr "exact"); ("network", VStr "eip155:8453"); ("amount", VStr amount); ("asset", VStr USDC);
    ("payTo", VStr ACME); ("maxTimeoutSeconds", ju64 60);
    ("extra", jobj [("name", VStr "USD Coin"); ("version", VStr "2")])].
Definition buy : StepPayment := mkStepPayment "main" [("usdc", 250000)] false None.
Definition buying : Call := mkCall "3f9a" "run-7" "pay" "buy" "https://api.example/x" (Some "operator") None.
Definition chosen : Choice :=
  mkChoice 1 (offer "250000") "usdc" ("eip155:8453/erc20:" +:+ USDC) "acme" (AEvm (address 172)) "eip155:8453" 250000
    (TEvm 8453 (address 12)) (TermsEvm "USD Coin" "2") 60 false None None false None false.
Definition start : Pay.Ledger MemoryStore := PayProps.first.
Definition paid : Pay.Ledger MemoryStore * result NotPaid (Choice * Pay.Record_) :=
  pay policy buy buying chosen [] (fun _ => true) (replicate 32 1) 1700000000000 start.
Definition written : Pay.Record_ :=
  record_of buying "main" 1 chosen (prepare (TermsEvm "USD Coin" "2") 60 300 1700000000 (replicate 32 1)) 1700000000000.

Example settings_read : from_settings settings = Ok policy.
Proof. vm_compute. reflexivity. Qed.

(** The first offer is past the step's bound; the second is paid; a second
    payment of that run would pass the cap of the run. *)
Example offers :
  choose policy buy [offer "250001"; offer "250000"] (ledger_spent buying 1700000000000 start) [] = Ok chosen /\
  choose policy buy [offer "1"] (ledger_spent buying 1700000000000 paid.1) [] =
    Err [mkPassed 0 [RPerRun 1 250000 250000]].
Proof. vm_compute. done. Qed.

Lemma payment_keeps_caps_witness : exists a y,
    (exists k, po_assets policy !! k = Some a) /\ (exists k, po_payees policy !! k = Some y) /\
    Pay.asset written = as_name a /\ Pay.pay_to written = account_display (py_address y) /\
    Pay.state written = Pay.Sending /\ Pay.atomic written = ch_amount chosen /\ 0 < ch_amount chosen /\
    Pay.blocking (call_key buying) start = None /\
    Pay.records start !! Pay.id written = None /\ Pay.records paid.1 = <[Pay.id written := written]> (Pay.records start) /\
    caps_kept a (call_run buying) (Pay.pay_to written) 1700000000000 paid.1.
Proof.
  refine (payment_keeps_caps policy buy buying [offer "250001"; offer "250000"] start 1700000000000 [] chosen []
    (fun _ => true) (replicate 32 1) 1700000000000 start paid.1 chosen written _ _ _ _).
  - vm_compute. reflexivity.
  - by left.
  - intros k r Hr. vm_compute in Hr. done.
  - vm_compute. reflexivity.
Defined.

Lemma account_round_trip_witness :
  account_parse (account_display (AEvm (address 172))) = Ok (AEvm (address 172)).
Proof. refine (account_round_trip (AEvm (address 172)) _). split; [repeat constructor; lia|done]. Defined.
End Sample.
End PolicyProps.
