(* ===== verification/Vault.v ===== *)
(** * The grant vault

    [crates/agentd/src/auth/seal.rs] (Module [Seal]) and
    [crates/agentd/src/delegation/vault.rs] (Module [Vault]): a person's grant,
    its refresh token sealed, and the tombstone register that revokes one; the
    personal keys and the approvals kept beside them.  AES-256-GCM, the
    external signer and the random draws are parameters; the audit chain is
    the interface [AnchorLog], which [VaultProps] gives by the chain of
    [Chain]. *)

From S2P Require Export Restore Principals Sha256 Calendar.
From S2P Require Chain Base58.

(** ** Sealing *)

Module Seal.
Local Open Scope Z_scope.

Definition KEY_LEN : nat := 32.
Definition NONCE_LEN : nat := 12.
Definition TAG_LEN : nat := 16.

(** AES-256-GCM: of a key, a nonce, the associated data and a text. *)
Class Aead := {
  gcm_seal : list Z -> list Z -> list Z -> list Z -> option (list Z);
  gcm_open : list Z -> list Z -> list Z -> list Z -> option (list Z);
}.

Inductive SealError : Type := BadKeyLength (n : nat) | NoRandomness | SealFailed | NotOpened.

Section seal.
Context `{Aead}.

Definition seal_key (b : list Z) : result SealError (list Z) :=
  if decide (length b = KEY_LEN) then Ok b else Err (BadKeyLength (length b)).

(** [nonce]: what the system drew, if it drew. *)
Definition key_seal (key ad plaintext : list Z) (nonce : option (list Z)) : result SealError (list Z) :=
  n ← ok_or NoRandomness nonce;
  b ← ok_or SealFailed (gcm_seal key n ad plaintext);
  mret (n ++ b).

Definition key_open (key ad sealed : list Z) : result SealError (list Z) :=
  if (length sealed <? NONCE_LEN + TAG_LEN)%nat then Err NotOpened
  else ok_or NotOpened (gcm_open key (take NONCE_LEN sealed) ad (drop NONCE_LEN sealed)).
End seal.

Definition associated_data (parts : list (list Z)) : list Z :=
  mjoin ((fun p => to_be 4 (u32_wrap (Z.of_nat (length p))) ++ p) <$> parts).
End Seal.

(** ** The audit chain, as the vault uses it *)

(** The floors it anchors, and anchoring one: whether it was taken. *)
Class AnchorLog (C : Type) := {
  log_anchors : C -> gmap string Chain.Anchor;
  log_anchor : string -> Chain.Anchor -> C -> C * bool;
}.

Module Vault.
Import Seal.
#[local] Existing Instance Chain.anchor_eq_dec.
Local Open Scope Z_scope.

Definition GRANT_PREFIX : string := "delegation/grant/".
Definition REGISTER : string := "delegation/register".
Definition PERSONAL_PREFIX : string := "delegation/personal/".
Definition APPROVAL_PREFIX : string := "delegation/approval/".

(** ** Records *)

(** [(YYYY-MM-DD, YYYY-MM)] of an instant. *)
Definition days (ms : Z) : string * string :=
  let z := ms / 86400000 + 719468 in
  let era := z / 146097 in
  let doe := z mod 146097 in
  let yoe := Z.quot (doe - Z.quot doe 1460 + Z.quot doe 36524 - Z.quot doe 146096) 365 in
  let doy := doe - (365 * yoe + Z.quot yoe 4 - Z.quot yoe 100) in
  let mp := Z.quot (5 * doy + 2) 153 in
  let d := doy - Z.quot (153 * mp + 2) 5 + 1 in
  let m := if mp <? 10 then mp + 3 else mp - 9 in
  let y := yoe + era * 400 + (if m <=? 2 then 1 else 0) in
  (text (pad 4 y ++ "-"%char :: pad 2 m ++ "-"%char :: pad 2 d), text (pad 4 y ++ "-"%char :: pad 2 m)).

Record Quota := mkQuota { q_day : string; q_day_count : Z; q_month : string; q_month_count : Z }.
Definition quota_default : Quota := mkQuota nil_str 0 nil_str 0.
Definition quota_at (now : Z) (q : Quota) : Quota :=
  let '(day, month) := days now in
  mkQuota day (if decide (q_day q = day) then q_day_count q else 0)
    month (if decide (q_month q = month) then q_month_count q else 0).

#[export] Instance quota_codec : Codec Quota := {|
  to_value q := jobj [("day", to_value (q_day q)); ("day_count", to_value (q_day_count q));
    ("month", to_value (q_month q)); ("month_count", to_value (q_month_count q))];
  from_value := object (fun v =>
    d ← field "day" v; dc ← field_u32 "day_count" v; m ← field "month" v; mc ← field_u32 "month_count" v;
    Some (mkQuota d dc m mc));
|}.

(** [PrincipalRef], its [source] in lower case. *)
Definition source_from_value (v : Value) : option Source :=
  s ← Json.as_str v;
  List.find (fun x => bool_decide (source_as_str x = s))
    [Oidc; X509; Bearer; Device; Aauth; SOperator; Autonomous; SInstance].
#[export] Instance source_codec : Codec Source :=
  {| to_value s := VStr (source_as_str s); from_value := source_from_value |}.
#[export] Instance principal_ref_codec : Codec PrincipalRef := {|
  to_value p := jobj ([("source", to_value (source p)); ("issuer", to_value (issuer p))]
    ++ opt_field "tenant" (tenant p) ++ [("stable_id", to_value (stable_id p))]
    ++ opt_field "client" (client p));
  from_value := object (fun v =>
    s ← field "source" v; i ← field "issuer" v; t ← field_opt "tenant" v; d ← field "stable_id" v;
    c ← field_opt "client" v; Some (mkRef s i t d c));
|}.

Record Grant := mkGrant {
  grant_id_ : string;
  principal : PrincipalRef;
  fingerprint : string;
  idp : string;
  idp_iss : string;
  sub : string;
  email_hash : option string;
  template : string;
  ceilings : gmap string (list string);
  created_ms : Z;
  expires_ms : Z;
  epoch : Z;
  rt_version : Z;
  quota : gmap string Quota;
  bound_by : option string;
  unattended : gmap string string;
  ciba : option Quota;
}.

Definition grant_to_value (g : Grant) : Value :=
  jobj ([("grant_id", to_value (grant_id_ g)); ("principal", to_value (principal g));
         ("fingerprint", to_value (fingerprint g)); ("idp", to_value (idp g));
         ("idp_iss", to_value (idp_iss g)); ("sub", to_value (sub g))]
    ++ opt_field "email_hash" (email_hash g)
    ++ [("template", to_value (template g)); ("ceilings", to_value (ceilings g));
        ("created_ms", to_value (created_ms g)); ("expires_ms", to_value (expires_ms g));
        ("epoch", to_value (epoch g)); ("rt_version", to_value (rt_version g));
        ("quota", to_value (quota g))]
    ++ opt_field "bound_by" (bound_by g)
    ++ field_unless "unattended" (bool_decide (unattended g = ∅)) (unattended g)
    ++ opt_field "ciba" (ciba g)).
Definition grant_from_value : Value -> option Grant := object (fun v =>
  i ← field "grant_id" v; p ← field "principal" v; f ← field "fingerprint" v; d ← field "idp" v;
  iss ← field "idp_iss" v; s ← field "sub" v; h ← field_opt "email_hash" v; t ← field "template" v;
  c ← field "ceilings" v; cr ← field "created_ms" v; ex ← field "expires_ms" v; e ← field "epoch" v;
  r ← field "rt_version" v; q ← field_or "quota" ∅ v; b ← field_opt "bound_by" v;
  u ← field_or "unattended" ∅ v; ci ← field_opt "ciba" v;
  Some (mkGrant i p f d iss s h t c cr ex e r q b u ci)).
#[export] Instance grant_codec : Codec Grant := {| to_value := grant_to_value; from_value := grant_from_value |}.

(** The register's entry for a grant. *)
Record Floor := mkFloor { f_revoked : option Z; f_version : Z }.
#[export] Instance floor_eq_dec : EqDecision Floor.
Proof. solve_decision. Defined.
Definition floor_default : Floor := mkFloor None 0.
#[export] Instance floor_codec : Codec Floor := {|
  to_value f := jobj (opt_field "revoked_epoch" (f_revoked f) ++ [("rt_version", to_value (f_version f))]);
  from_value := object (fun v => e ← field_opt "revoked_epoch" v; r ← field "rt_version" v; Some (mkFloor e r));
|}.

Record Wrapped := mkWrapped { w_key : string; w_wrapped : string }.
#[export] Instance wrapped_codec : Codec Wrapped := {|
  to_value w := jobj [("key", to_value (w_key w)); ("wrapped", to_value (w_wrapped w))];
  from_value := object (fun v => k ← field "key" v; w ← field "wrapped" v; Some (mkWrapped k w));
|}.

Record Stored := mkStored { s_grant : Grant; s_sealed : string; s_dek : option Wrapped }.
#[export] Instance stored_codec : Codec Stored := {|
  to_value s := jobj ([("grant", to_value (s_grant s)); ("sealed", to_value (s_sealed s))]
    ++ opt_field "dek" (s_dek s));
  from_value := object (fun v =>
    g ← field "grant" v; s ← field "sealed" v; d ← field_opt "dek" v; Some (mkStored g s d));
|}.

Record StoredPersonal := mkStoredPersonal {
  sp_principal : string; sp_id : string; sp_sealed : option string; sp_wrapped : option Wrapped;
}.
#[export] Instance stored_personal_codec : Codec StoredPersonal := {|
  to_value s := jobj ([("principal", to_value (sp_principal s)); ("id", to_value (sp_id s))]
    ++ opt_field "sealed" (sp_sealed s) ++ opt_field "wrapped" (sp_wrapped s));
  from_value := object (fun v =>
    p ← field "principal" v; i ← field "id" v; s ← field_opt "sealed" v; w ← field_opt "wrapped" v;
    Some (mkStoredPersonal p i s w));
|}.

Record Approval := mkApproval { ap_firing : string; ap_run : string; ap_grant : string; ap_idp : string }.
#[export] Instance approval_codec : Codec Approval := {|
  to_value a := jobj [("firing", to_value (ap_firing a)); ("run", to_value (ap_run a));
    ("grant_id", to_value (ap_grant a)); ("idp", to_value (ap_idp a))];
  from_value := object (fun v =>
    f ← field "firing" v; r ← field "run" v; g ← field "grant_id" v; i ← field "idp" v;
    Some (mkApproval f r g i));
|}.
Definition approval_name (a : Approval) : string := ap_firing a +:+ "." +:+ ap_grant a.
Definition approval_ad (kind : string) (a : Approval) : list Z :=
  associated_data (Sha.ascii <$> [kind; ap_firing a; ap_run a; ap_grant a; ap_idp a]).

Record StoredApproval := mkStoredApproval { sa_approval : Approval; sa_sealed : string; sa_dek : option Wrapped }.
#[export] Instance stored_approval_codec : Codec StoredApproval := {|
  to_value s := jobj ([("approval", to_value (sa_approval s)); ("sealed", to_value (sa_sealed s))]
    ++ opt_field "dek" (sa_dek s));
  from_value := object (fun v =>
    a ← field "approval" v; s ← field "sealed" v; d ← field_opt "dek" v; Some (mkStoredApproval a s d));
|}.

Definition personal_ad (principal id : string) : list Z :=
  associated_data (Sha.ascii <$> ["delegation-personal-key"; principal; id]).
Definition personal_floor (id : string) : string := "personal:" +:+ id.

(** ** Who holds the key *)

Inductive SignerError : Type :=
  | SignerUnavailable
  | SignerPeer
  | SignerRefused (code : string).
(** The external signer: wrapping and unwrapping under one of its keys. *)
Record Signer := mkSigner {
  sg_wrap : string -> list Z -> list Z -> result SignerError (list Z);
  sg_unwrap : string -> list Z -> list Z -> result SignerError (list Z);
}.

Inductive Custody : Type :=
  | Local (key : list Z) (previous : option (list Z))
  | External (signer : Signer) (key : string) (previous : option string).
Definition custody_local (key : list Z) (previous : option (list Z)) : result SealError Custody :=
  k ← seal_key key;
  p ← match previous with
      | None => Ok None
      | Some p => match seal_key p with Ok k => Ok (Some k) | Err e => Err e end
      end;
  mret (Local k p).
Definition key_held (key : string) (previous : option string) (w : Wrapped) : bool :=
  bool_decide (w_key w = key) || bool_decide (previous = Some (w_key w)).

(** ** Errors *)

(** Why a record does not open. *)
Inductive Why : Type :=
  | WStore (e : StoreError)
  | WNotRecord
  | WNotBase64
  | WSeal (e : SealError)
  | WOtherCustody
  | WOtherKey (key : string)
  | WSigner (e : SignerError)
  | WNotUtf8
  | WNotThirtyTwo.
Inductive Refused : Type :=
  | Revoked
  | Stale
  | Unreadable (w : Why)
  | NoSigner (e : SignerError).
Inductive Unopened : Type :=
  | UnSigner (e : SignerError)
  | UnStore (e : StoreError)
  | UnNever (w : Why).
Inductive NotStored : Type :=
  | NsSigner (e : SignerError)
  | NsSeal (e : SealError)
  | NsRotated (now : option Z) (want : Z)
  | NsStore (e : StoreError)
  | NsNoKey.

Definition unwrap_refused (e : SignerError) : Refused :=
  match e with
  | SignerRefused code => if decide (code = "unwrap_failed") then Unreadable (WSigner e) else NoSigner e
  | _ => NoSigner e
  end.

(** A data key drawn and wrapped ahead of a rotation. *)
Record Ahead := mkAhead { ah_epoch : Z; ah_rt_version : Z; ah_dek : list Z; ah_wrapped : Wrapped }.
Definition is_for (a : Ahead) (next : Grant) : bool :=
  (ah_epoch a =? epoch next) && (ah_rt_version a =? rt_version next).

(** What the system's randomness gives a write: a nonce, a key, an id. *)
Record Draws := mkDraws { dr_nonce : option (list Z); dr_key : option (list Z); dr_id : option string }.

Definition parts (g : Grant) (kind : string) : list Z :=
  associated_data (Sha.ascii <$> [kind; grant_id_ g; idp_iss g; sub g; text (decimal (epoch g));
    text (decimal (rt_version g))]).
Definition ad (g : Grant) : list Z := parts g "delegation-grant".
Definition wrap_ad (g : Grant) : list Z := parts g "delegation-grant-key".

(** ** The vault *)

Record Vault (S C : Type) := mkVault { v_durable : Durable S; v_custody : Custody; v_chain : option C }.
Arguments mkVault {S C}.
Arguments v_durable {S C}.
Arguments v_custody {S C}.
Arguments v_chain {S C}.

Section vault.
Context {S C : Type} `{Store S} `{Clock} `{JsonLen} `{AnchorLog C} `{Aead} {sha : Sha}.
Implicit Types (v : Vault S C).

Abbreviation vaultM E := (stM (Vault S C) E).

Definition set_durable (d : Durable S) v : Vault S C := mkVault d (v_custody v) (v_chain v).
Definition set_chain (c : C) v : Vault S C := mkVault (v_durable v) (v_custody v) (Some c).

(** A call on the store, its error shown. *)
Definition on_durable {A E} (f : StoreError -> E) (m : stM (Durable S) StoreError A) : vaultM E A := fun v =>
  let '(d, r) := m (v_durable v) in (set_durable d v, map_err f r).

Definition external v : bool := match v_custody v with External _ _ _ => true | Local _ _ => false end.

Definition id (grant_id : string) : string := GRANT_PREFIX +:+ grant_id.

(** *** The tombstone register *)

(** The register as the store holds it: empty when it does not read. *)
Definition stored_floors {E} : vaultM E (gmap string Floor) := fun v =>
  let '(d, r) := get_entity Cred REGISTER (v_durable v) in
  (set_durable d v, Ok match r with
    | Ok (Some env) => default ∅ (from_value (env_state env))
    | _ => ∅
    end).

Definition raise_to (f : Floor) (a : Chain.Anchor) : Floor :=
  mkFloor (Chain.opt_max (f_revoked f) (Chain.revoked_epoch a)) (Z.max (f_version f) (Chain.rt_version a)).

(** The register: the store's, raised to what the audit chain anchors. *)
Definition raised_by (a : gmap string Chain.Anchor) (m : gmap string Floor) : gmap string Floor :=
  fold_left (fun m p => <[p.1 := raise_to (default floor_default (m !! p.1)) p.2]> m) (entries a) m.
Definition floors {E} : vaultM E (gmap string Floor) :=
  all ← stored_floors;
  gets (fun v => match v_chain v with Some c => raised_by (log_anchors c) all | None => all end).

Definition floor_of (g : string) (m : gmap string Floor) : Floor := default floor_default (m !! g).

(** Anchor every floor of [want] the chain lacks; it stops at one not taken. *)
Fixpoint anchor_each (have : gmap string Chain.Anchor) (want : list (string * Floor)) (c : C) : C * bool :=
  match want with
  | [] => (c, true)
  | (g, f) :: want' =>
      let held := default Chain.anchor_default (have !! g) in
      let raised := Chain.merge held (Chain.mkAnchor (f_revoked f) (f_version f)) in
      if decide (raised = held) then anchor_each have want' c
      else match log_anchor g raised c with
           | (c, true) => anchor_each have want' c
           | (c, false) => (c, false)
           end
  end.

Definition anchor_lacking {E} (this : option (string * Floor)) : vaultM E bool :=
  chain ← gets v_chain;
  match chain with
  | None => mret true
  | Some c =>
      want ← stored_floors;
      let want := match this with
                  | Some (g, f) =>
                      let e := floor_of g want in
                      <[g := mkFloor (Chain.opt_max (f_revoked e) (f_revoked f)) (Z.max (f_version e) (f_version f))]> want
                  | None => want
                  end in
      let '(c, taken) := anchor_each (log_anchors c) (entries want) c in
      _ ← modify (set_chain c);
      mret taken
  end.

(** [Vault::new]: what the chain lacks is anchored. *)
Definition vault_new (d : Durable S) (k : Custody) (c : option C) : Vault S C :=
  ((anchor_lacking None : vaultM unit bool) (mkVault d k c)).1.

(** Never lowered; anchored before the store's register is written. *)
Definition raise {E} (shown : StoreError -> E) (g : string) (f : Floor -> Floor) : vaultM E unit :=
  all ← floors;
  let before := floor_of g all in
  let after := f before in
  let after := mkFloor (Chain.opt_max (f_revoked after) (f_revoked before)) (Z.max (f_version after) (f_version before)) in
  _ ← anchor_lacking (Some (g, after));
  all ← stored_floors;
  if decide (all !! g = Some after) then mret tt
  else _ ← on_durable shown (put Cred REGISTER (to_value (<[g := after]> all)) None); mret tt.

(** *** Grants *)

(** The record of a grant, held to the register. *)
Definition stored (g : string) : vaultM Refused (option Stored) :=
  env ← on_durable (fun e => Unreadable (WStore e)) (get_entity Cred (id g));
  match env with
  | None => mret None
  | Some env =>
      s ← lift (ok_or (Unreadable WNotRecord) (from_value (env_state env) : option Stored));
      all ← floors;
      let floor := floor_of g all in
      if match f_revoked floor with Some r => epoch (s_grant s) <=? r | None => false end then throw Revoked
      else if rt_version (s_grant s) <? f_version floor then throw Stale
      else mret (Some s)
  end.

(** Opens under the key, else under the one before it. *)
Definition open_local (key : list Z) (previous : option (list Z)) (aad sealed : list Z) : result SealError (list Z) :=
  match key_open key aad sealed, previous with
  | Err _, Some p => key_open p aad sealed
  | r, _ => r
  end.

Definition open_with_dek (dek aad sealed : list Z) : result SealError (list Z) :=
  k ← seal_key dek; key_open k aad sealed.

Definition open_plain (k : Custody) (s : Stored) (sealed : list Z) : result Refused (list Z) :=
  let aad := ad (s_grant s) in
  match k, s_dek s with
  | Local key previous, None => map_err (fun e => Unreadable (WSeal e)) (open_local key previous aad sealed)
  | Local _ _, Some _ | External _ _ _, None => Err (Unreadable WOtherCustody)
  | External signer key previous, Some w =>
      if negb (key_held key previous w) then Err (Unreadable (WOtherKey (w_key w)))
      else
        wrapped ← ok_or (Unreadable WNotBase64) (url_decode (chars (w_wrapped w)));
        dek ← map_err unwrap_refused (sg_unwrap signer (w_key w) wrapped (wrap_ad (s_grant s)));
        map_err (fun e => Unreadable (WSeal e)) (open_with_dek dek aad sealed)
  end.
Definition open (k : Custody) (s : Stored) : result Refused string :=
  sealed ← ok_or (Unreadable WNotBase64) (url_decode (chars (s_sealed s)));
  plain ← open_plain k s sealed;
  ok_or (Unreadable WNotUtf8) (from_utf8 plain).

Definition load (g : string) : vaultM Refused (option (Grant * string)) :=
  s ← stored g;
  match s with
  | None => mret None
  | Some s => k ← gets v_custody; rt ← lift (open k s); mret (Some (s_grant s, rt))
  end.

Definition meta (g : string) : vaultM Refused (option Grant) :=
  ext ← gets external;
  if (ext : bool) then s ← stored g; mret (s_grant <$> s) else l ← load g; mret (fst <$> l).

(** A data key for a grant's record, wrapped; none under a local key. *)
Definition draw (k : Custody) (g : Grant) (r : Draws) : result NotStored (option Ahead) :=
  match k with
  | Local _ _ => Ok None
  | External signer key _ =>
      dek ← ok_or (NsSeal NoRandomness) (dr_key r);
      wrapped ← map_err NsSigner (sg_wrap signer key dek (wrap_ad g));
      mret (Some (mkAhead (epoch g) (rt_version g) dek (mkWrapped key (text (url_nopad wrapped)))))
  end.

Definition with_version (n : Z) (g : Grant) : Grant :=
  mkGrant (grant_id_ g) (principal g) (fingerprint g) (idp g) (idp_iss g) (sub g) (email_hash g) (template g)
    (ceilings g) (created_ms g) (expires_ms g) (epoch g) n (quota g) (bound_by g) (unattended g) (ciba g).
Definition ahead (k : Custody) (g : Grant) (r : Draws) : result NotStored (option Ahead) :=
  draw k (with_version (u64_add (rt_version g) 1) g) r.

Definition seal_grant (k : Custody) (g : Grant) (rt : string) (a : option Ahead) (r : Draws) :
    result NotStored (list Z * option Wrapped) :=
  match k with
  | Local key _ =>
      s ← map_err NsSeal (key_seal key (ad g) (Sha.ascii rt) (dr_nonce r)); mret (s, None)
  | External signer key _ =>
      a ← match a with
          | Some a => if is_for a g && bool_decide (w_key (ah_wrapped a) = key) then Ok a
                      else d ← draw k g r; ok_or NsNoKey d
          | None => d ← draw k g r; ok_or NsNoKey d
          end;
      s ← map_err NsSeal (k ← seal_key (ah_dek a); key_seal k (ad g) (Sha.ascii rt) (dr_nonce r));
      mret (s, Some (ah_wrapped a))
  end.

(** The version stored now, or none that reads. *)
Definition version_now (g : string) : vaultM NotStored (option Z) :=
  env ← on_durable NsStore (get_entity Cred (id g));
  mret (env ≫= fun env => (fun s => rt_version (s_grant s)) <$> (from_value (env_state env) : option Stored)).

Definition store_ahead (g : Grant) (rt : string) (over : option Z) (a : option Ahead) (r : Draws) :
    vaultM NotStored unit :=
  _ ← match over with
      | None => mret tt
      | Some want =>
          now ← version_now (grant_id_ g);
          if decide (now = Some want) then mret tt else throw (NsRotated now want)
      end;
  k ← gets v_custody;
  sd ← lift (seal_grant k g rt a r);
  _ ← on_durable NsStore (put Cred (id (grant_id_ g))
        (to_value (mkStored g (text (url_nopad sd.1)) sd.2)) None);
  raise NsStore (grant_id_ g) (fun f => mkFloor (f_revoked f) (rt_version g)).
Definition store (g : Grant) (rt : string) (over : option Z) (r : Draws) : vaultM NotStored unit :=
  store_ahead g rt over None r.

(** The register first, then the record, deleted whatever the register said. *)
Definition raise_then_delete (floor key : string) (e : Z) : vaultM StoreError unit :=
  raised ← attempt (raise (fun e => e) floor (fun f => mkFloor (Some e) (f_version f)));
  deleted ← attempt (on_durable (fun e => e) (delete_entity Cred key));
  lift (_ ← raised; deleted).
Definition tombstone (g : string) (e : Z) : vaultM StoreError unit := raise_then_delete g (id g) e.

(** [rsplit('/').next()]. *)
Definition last_part (s : string) : string :=
  text (rev (Base58.take_while (fun a => negb (bool_decide (a = "/"%char))) (rev (chars s)))).
Definition names (ks : list KeySeq) : list string :=
  List.filter (fun n => negb (bool_decide (n = nil_str))) (last_part ∘ ks_key <$> ks).
Definition ids {E} : vaultM E (list string) := fun v =>
  let '(d, r) := list_prefix Cred GRANT_PREFIX (v_durable v) in
  (set_durable d v, Ok (names (default [] (ok r)))).

(** *** Personal keys *)

Definition personal_id (principal : string) : string := PERSONAL_PREFIX +:+ sha256_hex (chars principal).

(** The key stored for a principal, when its record reads. *)
Definition personal_stored (principal : string) : vaultM StoreError (option StoredPersonal) :=
  env ← on_durable (fun e => e) (get_entity Cred (personal_id principal));
  mret (env ≫= fun env => from_value (env_state env)).

(** A new key, sealed or wrapped, and kept. *)
Definition personal_made (principal : string) (r : Draws) : vaultM Refused (string * list Z) :=
  key ← lift (ok_or (Unreadable (WSeal NoRandomness)) (dr_key r));
  i ← lift (ok_or (Unreadable (WSeal NoRandomness)) (dr_id r));
  let ad := personal_ad principal i in
  k ← gets v_custody;
  kept ← match k with
         | Local k _ =>
             s ← lift (map_err (fun e => Unreadable (WSeal e)) (key_seal k ad key (dr_nonce r)));
             mret (Some (text (url_nopad s)), None)
         | External signer k _ =>
             w ← lift (map_err (fun e => match e with
                                        | SignerUnavailable => NoSigner e
                                        | e => Unreadable (WSigner e)
                                        end) (sg_wrap signer k key ad));
             mret (None, Some (mkWrapped k (text (url_nopad w))))
         end;
  _ ← on_durable (fun e => Unreadable (WStore e))
        (put Cred (personal_id principal) (to_value (mkStoredPersonal principal i kept.1 kept.2)) None);
  mret (i, key).

(** The key of a record, opened. *)
Definition personal_open (k : Custody) (s : StoredPersonal) (principal : string) : result Refused (list Z) :=
  let ad := personal_ad principal (sp_id s) in
  raw ← match k, sp_sealed s, sp_wrapped s with
        | Local key previous, Some sealed, None =>
            b ← ok_or (Unreadable WNotBase64) (url_decode (chars sealed));
            map_err (fun e => Unreadable (WSeal e)) (open_local key previous ad b)
        | External signer key previous, None, Some w =>
            if key_held key previous w then
              b ← ok_or (Unreadable WNotBase64) (url_decode (chars (w_wrapped w)));
              map_err unwrap_refused (sg_unwrap signer (w_key w) b ad)
            else Err (Unreadable WOtherCustody)
        | _, _, _ => Err (Unreadable WOtherCustody)
        end;
  if decide (length raw = 32%nat) then Ok raw else Err (Unreadable WNotThirtyTwo).

Definition personal_key (principal : string) (create : bool) (r : Draws) : vaultM Refused (option (string * list Z)) :=
  s ← (fun v => let '(v, s) := personal_stored principal v in (v, map_err (fun e => Unreadable (WStore e)) s));
  match (s ≫= fun s => if decide (sp_principal s = principal) then Some s else None) with
  | None => if create then k ← personal_made principal r; mret (Some k) else mret None
  | Some s =>
      all ← floors;
      match f_revoked (floor_of (personal_floor (sp_id s)) all) with
      | Some _ => throw Revoked
      | None => k ← gets v_custody; raw ← lift (personal_open k s principal); mret (Some (sp_id s, raw))
      end
  end.

(** Its id is forgotten in the register, and the record deleted. *)
Definition forget_personal (principal : string) : vaultM StoreError (option string) :=
  s ← personal_stored principal;
  match s with
  | None => mret None
  | Some s =>
      _ ← raise_then_delete (personal_floor (sp_id s)) (personal_id principal) 1;
      mret (Some (sp_id s))
  end.

(** *** Approvals *)

Definition approval_id (name : string) : string := APPROVAL_PREFIX +:+ name.

Definition keep_approval (a : Approval) (rt : string) (r : Draws) : vaultM NotStored unit :=
  let aad := approval_ad "delegation-ciba-refresh" a in
  k ← gets v_custody;
  sd ← lift match k with
       | Local key _ => s ← map_err NsSeal (key_seal key aad (Sha.ascii rt) (dr_nonce r)); mret (s, None)
       | External signer key _ =>
           dek ← ok_or (NsSeal NoRandomness) (dr_key r);
           w ← map_err NsSigner (sg_wrap signer key dek (approval_ad "delegation-ciba-refresh-key" a));
           s ← map_err NsSeal (k ← seal_key dek; key_seal k aad (Sha.ascii rt) (dr_nonce r));
           mret (s, Some (mkWrapped key (text (url_nopad w))))
       end;
  _ ← on_durable NsStore (put Cred (approval_id (approval_name a))
        (to_value (mkStoredApproval a (text (url_nopad sd.1)) sd.2)) None);
  mret tt.

(** A store that cannot list has none. *)
Definition approvals : vaultM StoreError (list string) :=
  l ← attempt (on_durable (fun e => e) (list_prefix Cred APPROVAL_PREFIX));
  match l with
  | Ok l => mret (names l)
  | Err (Unsupported _) => mret []
  | Err e => throw e
  end.

Definition approval_plain (k : Custody) (s : StoredApproval) (sealed : list Z) : result Unopened (list Z) :=
  let aad := approval_ad "delegation-ciba-refresh" (sa_approval s) in
  match k, sa_dek s with
  | Local key previous, None => map_err (fun e => UnNever (WSeal e)) (open_local key previous aad sealed)
  | External signer key previous, Some w =>
      if key_held key previous w then
        wrapped ← ok_or (UnNever WNotBase64) (url_decode (chars (w_wrapped w)));
        dek ← map_err (fun e => match unwrap_refused e with
                                | Unreadable w => UnNever w
                                | _ => UnSigner e
                                end)
                (sg_unwrap signer (w_key w) wrapped (approval_ad "delegation-ciba-refresh-key" (sa_approval s)));
        map_err (fun e => UnNever (WSeal e)) (open_with_dek dek aad sealed)
      else Err (UnNever WOtherCustody)
  | _, _ => Err (UnNever WOtherCustody)
  end.

Definition open_approval (name : string) : vaultM Unopened (option (Approval * string)) :=
  env ← on_durable (fun e => match e with Corrupt _ => UnNever (WStore e) | _ => UnStore e end)
          (get_entity Cred (approval_id name));
  match env with
  | None => mret None
  | Some env =>
      k ← gets v_custody;
      rt ← lift (s ← ok_or (UnNever WNotRecord) (from_value (env_state env) : option StoredApproval);
                 sealed ← ok_or (UnNever WNotBase64) (url_decode (chars (sa_sealed s)));
                 plain ← approval_plain k s sealed;
                 rt ← ok_or (UnNever WNotUtf8) (from_utf8 plain);
                 mret (sa_approval s, rt));
      mret (Some rt)
  end.

Definition forget_approval (name : string) : vaultM StoreError unit :=
  on_durable (fun e => e) (delete_entity Cred (approval_id name)).
End vault.
End Vault.
