(* ===== verification/VaultProps.v ===== *)
(** * The vault keeps what was revoked, revoked

    Theorems on [Vault]: a record reads back as it was stored; and a revoked
    grant, or a refresh token rotated out, does not load again, whatever the
    store is put back to, while the audit chain is kept.  [world_log] is the
    chain of [Chain] as the vault uses it. *)

From S2P Require Export Vault ChainLife Memory.

Module VaultProps.
Import Seal Vault.
Local Open Scope Z_scope.

(** ** Codecs *)

Lemma match_option {A} (o : option A) : match o with Some a => Some a | None => None end = o.
Proof. by destruct o. Qed.

(** The fields of a written record, one by one. *)
Ltac read_here := obj_simpl; rewrite ?match_option; reflexivity.
Ltac read_fields :=
  repeat first
    [ erewrite field_written by read_here
    | erewrite field_opt_written by read_here
    | erewrite field_u32_written by first [read_here | assumption]
    | erewrite field_or_written by read_here
    | progress cbn [mbind option_bind] ].
Ltac as_object :=
  match goal with |- object ?f (jobj ?l) = _ => change (object f (jobj l)) with (f (jobj l)) end; cbn beta.
Ltac reads := as_object; read_fields.

#[export] Instance source_codec_ok : CodecOk Source.
Proof. by intros []. Qed.
#[export] Instance principal_ref_codec_ok : CodecOk PrincipalRef.
Proof. intros [s i t d c]. cbn [to_value from_value principal_ref_codec]. by reads. Qed.
#[export] Instance floor_codec_ok : CodecOk Floor.
Proof. intros [e r]. cbn [to_value from_value floor_codec]. by reads. Qed.
#[export] Instance wrapped_codec_ok : CodecOk Wrapped.
Proof. intros [k w]. cbn [to_value from_value wrapped_codec]. by reads. Qed.
#[export] Instance wrapped_non_null : NonNull Wrapped.
Proof. done. Qed.
#[export] Instance stored_personal_codec_ok : CodecOk StoredPersonal.
Proof. intros [p i s w]. cbn [to_value from_value stored_personal_codec]. by reads. Qed.
#[export] Instance approval_codec_ok : CodecOk Approval.
Proof. intros [f r g i]. cbn [to_value from_value approval_codec]. by reads. Qed.
#[export] Instance stored_approval_codec_ok : CodecOk StoredApproval.
Proof. intros [a s d]. cbn [to_value from_value stored_approval_codec]. by reads. Qed.

Definition quota_ok (q : Quota) : Prop := q_day_count q <= u32_max /\ q_month_count q <= u32_max.
Definition grant_ok (g : Grant) : Prop :=
  (forall k q, quota g !! k = Some q -> quota_ok q) /\ (forall q, ciba g = Some q -> quota_ok q).

Lemma quota_round_trip q : quota_ok q -> from_value (to_value q) = Some q.
Proof. destruct q as [d dc m mc]. intros [? ?]. cbn [to_value from_value quota_codec q_day_count q_month_count] in *. by reads. Qed.
Lemma quota_object q : is_null (to_value q : Value) = false.
Proof. done. Qed.

Lemma field_or_reads {A} `{Codec A} k (d : A) v w (a : A) :
  get k v = Some w -> from_value w = Some a -> field_or k d v = Some a.
Proof. intros E Ha. unfold field_or. by rewrite E. Qed.
Lemma field_opt_reads {A} `{Codec A} `{!NonNull A} k v (o : option A) :
  get k v = to_value <$> o -> (forall a, o = Some a -> from_value (to_value a) = Some a) -> field_opt k v = Some o.
Proof.
  intros E Ha. unfold field_opt. rewrite E. destruct o as [a|]; [|done]. cbn [fmap option_fmap option_map].
  by rewrite to_value_non_null, Ha.
Qed.
#[export] Instance quota_non_null : NonNull Quota.
Proof. done. Qed.

Lemma grant_round_trip g : grant_ok g -> from_value (to_value g) = Some g.
Proof.
  intros [Hq Hc]. cbn [to_value from_value grant_codec]. unfold grant_from_value, grant_to_value.
  as_object.
  erewrite (field_opt_reads "ciba") by first [read_here | intros q Hk; apply quota_round_trip; by apply Hc].
  erewrite (field_or_reads "quota") by
    first [read_here | apply map_written; intros k q Hk; apply quota_round_trip; by eapply Hq].
  match goal with |- context [field_or "unattended" ?d ?v] => assert (field_or "unattended" d v = Some (unattended g)) as -> end.
  { case_bool_decide as Hu.
    - unfold field_or. rewrite Hu. by obj_simpl.
    - apply field_or_written. read_here. }
  read_fields. by destruct g.
Qed.

Lemma stored_round_trip s : grant_ok (s_grant s) -> from_value (to_value s) = Some s.
Proof.
  intros Hg. cbn [to_value from_value stored_codec].
  as_object.
  match goal with |- field (A := Grant) "grant" ?v ≫= _ = _ => assert (field "grant" v = Some (s_grant s)) as -> end.
  { unfold field. obj_simpl. by apply grant_round_trip. }
  cbn [mbind option_bind]. erewrite field_written by read_here. cbn [mbind option_bind].
  erewrite field_opt_written by read_here. by destruct s.
Qed.
End VaultProps.

(** ** What the chain promises the vault *)

(** An anchor that is taken raises the floor it names and no other; one that
    is not changes none; a healthy chain takes every one. *)
Class AnchorLogOk (C : Type) `{AnchorLog C} := {
  log_healthy : C -> Prop;
  anchor_exact : forall g a c,
    log_anchors (log_anchor g a c).1 =
      if (log_anchor g a c).2 then Chain.merge_entry g a (log_anchors c) else log_anchors c;
  anchor_healthy : forall g a c, log_healthy c ->
    (log_anchor g a c).2 = true /\ log_healthy (log_anchor g a c).1;
}.

(** The chain of [Chain] keeps it: it is healthy while its disk does what it
    is told. *)
Module WorldLog.
Import Chain.

Section world.
Context `{JsonTextOk} {sha : Sha256} (o : Options) (now : Z).

Definition world_log : AnchorLog World := {|
  log_anchors w := anchors (inner w);
  log_anchor g a w := let '(w', r) := anchor o now g a w in (w', is_ok r);
|}.
#[local] Existing Instance world_log.

(** What a record's line does to the floors in memory. *)
Definition floors_after (g : Inner) (rec : Value) : gmap string Anchor :=
  if decide (idx "action" (line_of g rec) = VStr REGISTER) then register_entry (line_of g rec) (anchors g) else anchors g.

Lemma write_anchors rec sync w :
  let '(w', r) := write rec sync w in
  (io w = [] -> io w' = [] /\ is_ok r = true) /\
  anchors (inner w') = if is_ok r then floors_after (inner w) rec else anchors (inner w).
Proof.
  unfold write, next_io. run_st. destruct (io w) as [|[|kept] l] eqn:E; cbn; by split_and!.
Qed.

(** An operation that leaves the floors, and that a healthy disk lets through. *)
Definition steady {A} (m : op A) : Prop := forall w,
  let '(w', r) := m w in
  anchors (inner w') = anchors (inner w) /\ (io w = [] -> io w' = [] /\ is_ok r = true).

Lemma steady_bind {A B} (m : op A) (f : A -> op B) : steady m -> (forall a, steady (f a)) -> steady (m ≫= f).
Proof.
  intros Hm Hf w. unfold mbind, stM_bind. specialize (Hm w). destruct (m w) as [w1 [a|e]].
  - specialize (Hf a w1). destruct (f a w1) as [w2 r]. destruct Hm as [E1 H1], Hf as [E2 H2].
    split; [congruence|]. intros Hw. apply H2, H1, Hw.
  - destruct Hm as [E1 H1]. split; [done|]. intros Hw. by apply H1 in Hw as [_ ?].
Qed.
Lemma steady_ret {A} (a : A) : steady (mret a).
Proof. done. Qed.
Lemma steady_gets {A} (f : World -> A) : steady (gets f).
Proof. done. Qed.
Lemma steady_disk f : steady (on_disk f).
Proof. done. Qed.
Lemma steady_inner f : (forall g, anchors (f g) = anchors g) -> steady (on_inner f).
Proof. intros Hf w. cbn. by rewrite Hf. Qed.
Lemma steady_call : steady call.
Proof. intros w. unfold call, next_io. run_st. destruct (io w) as [|[|kept] l] eqn:E; cbn; rewrite ?E; by split. Qed.

Lemma steady_write rec sync :
  (forall g, idx "action" (line_of g rec) <> VStr REGISTER) -> steady (write rec sync).
Proof.
  intros Hr w. pose proof (write_anchors rec sync w) as Hw. destruct (write rec sync w) as [w' r].
  destruct Hw as [Hio Hw]. split; [|done]. rewrite Hw. destruct (is_ok r); [|done].
  unfold floors_after. by rewrite decide_False by apply Hr.
Qed.

Ltac steady :=
  repeat first
    [ apply steady_ret | apply steady_gets | apply steady_disk | apply steady_call
    | apply steady_inner; intros []; reflexivity
    | apply steady_write; intros ?; rewrite line_idx by done; unfold retired_record, header_record;
      rewrite jobj_record, jobj_idx; discriminate
    | apply steady_bind; [|intros ?] ].

Lemma steady_retire_loop horizon l : steady (retire_loop o now horizon l).
Proof. induction l as [|c l IH]; cbn [retire_loop]; [steady|]. destruct (_ <=? _); [steady|]. steady. apply IH. Qed.
Lemma steady_rotate : steady (rotate o now).
Proof. unfold rotate. steady. apply steady_retire_loop. Qed.

(** It never fails. *)
Lemma put_head_steady b w :
  anchors (inner (put_head b now w).1) = anchors (inner w) /\ is_ok (put_head b now w).2 = true /\
  (io w = [] -> io (put_head b now w).1 = []).
Proof.
  unfold put_head. destruct (sink w); cbn [negb]; [|done]. destruct (negb b && _); [done|].
  unfold on_inner, on_disk, next_io. run_st. destruct (_ <? _); [|done]. cbn.
  destruct (io w) as [|[|kept] l] eqn:E; cbn; by rewrite ?E.
Qed.

Lemma append_anchors rec w :
  let '(w', r) := append o now rec true w in
  (io w = [] -> io w' = [] /\ is_ok r = true) /\
  exists g, anchors g = anchors (inner w) /\ anchors (inner w') = if is_ok r then floors_after g rec else anchors g.
Proof.
  unfold append. unfold gets at 1. unfold mbind at 1, stM_bind at 1. cbn beta iota.
  assert (steady (if rotate_at o <=? size (inner w) then rotate o now else mret tt)) as Hr
    by (destruct (_ <=? _); [apply steady_rotate|steady]).
  specialize (Hr w). unfold mbind at 1, stM_bind at 1.
  destruct ((if rotate_at o <=? size (inner w) then rotate o now else mret tt) w) as [w1 [[]|e]].
  2: { destruct Hr as [Hr Hio]. split; [done|]. by exists (inner w1). }
  destruct Hr as [Hr Hio]. pose proof (write_anchors rec true w1) as Hw. unfold mbind at 1, stM_bind at 1.
  destruct (write rec true w1) as [w2 [h|e]]; destruct Hw as [Hw1 Hw2]; cbn [is_ok] in *.
  2: { split; [intros Hi; by apply Hw1, Hio|]. by exists (inner w1). }
  pose proof (put_head_steady true w2) as (Hp1 & Hp2 & Hp3). unfold mbind, stM_bind, mret, stM_ret.
  destruct (put_head true now w2) as [w3 [[]|e]]; cbn [fst snd is_ok] in *; [|done].
  split; [intros Hi; split; [by apply Hp3, Hw1, Hio|done]|]. exists (inner w1). by rewrite Hp1.
Qed.

Lemma anchor_floors g gid a : floors_after g (anchor_record now gid a) = merge_entry gid a (anchors g).
Proof.
  unfold floors_after, anchor_record. rewrite !line_idx by done. rewrite jobj_record, jobj_idx. cbn [obj_get].
  repeat first [rewrite decide_False by done | rewrite decide_True by done].
  unfold register_entry. rewrite !line_idx by done. rewrite jobj_record, !jobj_idx.
  cbn [obj_get]. repeat first [rewrite decide_False by done | rewrite decide_True by done].
  cbn [default from_option Datatypes.id]. rewrite !jobj_idx. by destruct a as [[e|] rv].
Qed.

#[export] Instance world_log_ok : AnchorLogOk World.
Proof.
  apply (Build_AnchorLogOk World world_log (fun w => io w = [])).
  - intros g a w. cbn [log_anchor log_anchors world_log]. unfold anchor.
    pose proof (append_anchors (anchor_record now g a) w) as Ha. unfold mbind, stM_bind, mret, stM_ret.
    destruct (append o now (anchor_record now g a) true w) as [w' [h|e]]; cbn [fst snd is_ok] in *;
      destruct Ha as (_ & g' & Eg & ->); [by rewrite anchor_floors, Eg|done].
  - intros g a w Hw. cbn [log_anchor world_log]. unfold anchor.
    pose proof (append_anchors (anchor_record now g a) w) as Ha. unfold mbind, stM_bind, mret, stM_ret.
    destruct (append o now (anchor_record now g a) true w) as [w' [h|e]]; cbn [fst snd is_ok] in *;
      destruct Ha as [Ha _]; destruct (Ha Hw) as [Ei Eo]; [by split|done].
Qed.
End world.
End WorldLog.

(** ** No going back *)

Module VaultKeeps.
Import Seal Vault.
Local Open Scope Z_scope.

(** A floor of the vault is in what the chain anchors. *)
Definition at_least (f : Floor) (o : option Chain.Anchor) : Prop :=
  (forall e, f_revoked f = Some e -> exists a r, o = Some a /\ Chain.revoked_epoch a = Some r /\ e <= r) /\
  (0 < f_version f -> exists a, o = Some a /\ f_version f <= Chain.rt_version a).

Lemma merge_le a b : Chain.merge b a = b ->
  (forall e, Chain.revoked_epoch a = Some e -> exists r, Chain.revoked_epoch b = Some r /\ e <= r) /\
  Chain.rt_version a <= Chain.rt_version b.
Proof.
  destruct a as [ea va], b as [eb vb]. unfold Chain.merge. cbn. intros E. injection E as Ee Ev. split; [|lia].
  intros e ->. destruct eb as [r|]; cbn in Ee; [|done]. injection Ee as Ee. exists r. split; [done|lia].
Qed.

Lemma at_least_mono f m m' (g : string) : floors_le m m' -> at_least f (m !! g) -> at_least f (m' !! g).
Proof.
  intros Hle [He Hv]. split.
  - intros e Hf. destruct (He e Hf) as (a & r & Ha & Hr & Hl). destruct (Hle g a Ha) as (b & Hb & Hm).
    apply merge_le in Hm as [Hm _]. destruct (Hm r Hr) as (r' & Hr' & ?). exists b, r'. split_and!; [done..|lia].
  - intros Hf. destruct (Hv Hf) as (a & Ha & Hl). destruct (Hle g a Ha) as (b & Hb & Hm).
    apply merge_le in Hm as [_ Hm]. exists b. split; [done|lia].
Qed.

(** A floor no higher than another. *)
Definition floor_le (f f' : Floor) : Prop :=
  (forall e, f_revoked f = Some e -> exists e', f_revoked f' = Some e' /\ e <= e') /\
  (0 < f_version f -> f_version f <= f_version f').

Lemma at_least_le f f' o : floor_le f f' -> at_least f' o -> at_least f o.
Proof.
  intros [Hre Hve] [He Hv]. split.
  - intros e Hf. destruct (Hre e Hf) as (e' & Hf' & ?). destruct (He e' Hf') as (a & x & ? & ? & ?).
    exists a, x. split_and!; [done..|lia].
  - intros Hf. destruct Hv as (a & ? & ?); [lia|]. exists a. split; [done|lia].
Qed.

Lemma raised_by_lookup (a : gmap string Chain.Anchor) m g x :
  a !! g = Some x -> raised_by a m !! g = Some (raise_to (default floor_default (m !! g)) x).
Proof.
  intros Hg. apply elem_of_entries in Hg. unfold raised_by.
  assert (NoDup (entries a).*1) as Hnd by (rewrite entries_perm; apply NoDup_fst_map_to_list).
  revert m. induction (entries a) as [|[k y] l IH]; intros m; [by apply elem_of_nil in Hg|].
  apply NoDup_cons in Hnd as [Hk Hnd]. cbn [fold_left fst snd].
  apply elem_of_cons in Hg as [E|Hg].
  - injection E as <- <-.
    assert (forall m : gmap string Floor, g ∉ l.*1 ->
      fold_left (fun m p => <[p.1 := raise_to (default floor_default (m !! p.1)) p.2]> m) l m !! g = m !! g) as Hf.
    { clear. induction l as [|[k y] l IH]; intros m Hg; [done|]. cbn [fold_left fst snd].
      cbn in Hg. rewrite IH by set_solver. rewrite lookup_insert_ne by set_solver. done. }
    rewrite Hf by done. by rewrite lookup_insert_eq.
  - rewrite IH by done. rewrite lookup_insert_ne; [done|]. intros ->. apply Hk. apply list_elem_of_fmap. by exists (g, x).
Qed.

Lemma at_least_merge f held :
  at_least f (Some (Chain.merge held (Chain.mkAnchor (f_revoked f) (f_version f)))).
Proof.
  split.
  - intros e Hf. rewrite Hf. unfold Chain.merge. cbn. destruct (Chain.revoked_epoch held) as [x|]; cbn;
      eexists _, _; (split_and!; [done..|lia]).
  - intros _. eexists. split; [done|]. cbn. lia.
Qed.

Lemma at_least_held f o :
  Chain.merge (default Chain.anchor_default o) (Chain.mkAnchor (f_revoked f) (f_version f)) = default Chain.anchor_default o ->
  at_least f o.
Proof.
  intros E. apply merge_le in E as [He Hv]. cbn in *. split.
  - intros e Hf. destruct (He e Hf) as (r & Hr & ?). destruct o as [a|]; cbn in Hr; [|done]. by exists a, r.
  - intros Hf. destruct o as [a|]; cbn in Hv; [|lia]. by exists a.
Qed.

Section keeps.
Context {S C : Type} `{Store S} `{Clock} `{JsonLen} `{AnchorLogOk C} `{Aead} {sha : Sha}.
Implicit Types (v : Vault S C) (c : C).

Lemma anchor_grows g a c : floors_le (log_anchors c) (log_anchors (log_anchor g a c).1).
Proof. rewrite anchor_exact. destruct (log_anchor g a c).2; [apply merge_entry_le|done]. Qed.

(** A healthy chain takes every floor that it lacks. *)
Lemma anchor_each_spec have want c :
  log_healthy c -> floors_le have (log_anchors c) ->
  let '(c', taken) := anchor_each have want c in
  taken = true /\ log_healthy c' /\ floors_le (log_anchors c) (log_anchors c') /\
  forall g f, (g, f) ∈ want -> at_least f (log_anchors c' !! g).
Proof.
  revert c. induction want as [|[g f] want IH]; intros c Hc Hle; cbn [anchor_each].
  { split_and!; try done. intros g f Hin. by apply elem_of_nil in Hin. }
  case_decide as Ed.
  - specialize (IH c Hc Hle). destruct (anchor_each _ _ _) as [c' taken]. destruct IH as (Ht & Hh & Hg & Hin).
    split_and!; try done. intros g' f' [E|Hin']%elem_of_cons; [|by apply Hin]. injection E as -> ->.
    eapply at_least_mono; [exact Hg|]. eapply at_least_mono; [exact Hle|]. by apply at_least_held.
  - pose proof (anchor_healthy g (Chain.merge (default Chain.anchor_default (have !! g))
      (Chain.mkAnchor (f_revoked f) (f_version f))) c Hc) as [Ht Hh].
    pose proof (anchor_exact g (Chain.merge (default Chain.anchor_default (have !! g))
      (Chain.mkAnchor (f_revoked f) (f_version f))) c) as Hx.
    destruct (log_anchor _ _ c) as [c1 b]. cbn [fst snd] in *. subst b.
    assert (floors_le (log_anchors c) (log_anchors c1)) as Hg1 by (rewrite Hx; apply merge_entry_le).
    specialize (IH c1 Hh). destruct (anchor_each _ _ c1) as [c' taken].
    destruct IH as (Ht' & Hh' & Hg & Hin); [by etrans|]. split_and!; try done; [by etrans|].
    intros g' f' [E|Hin']%elem_of_cons; [|by apply Hin]. injection E as -> ->.
    eapply at_least_mono; [exact Hg|]. rewrite Hx. unfold Chain.merge_entry. rewrite lookup_insert_eq.
    set (o := default _ _). set (h := default _ _).
    destruct (at_least_merge f h) as [He Hv]. split.
    + intros e Hf. destruct (He e Hf) as (a & r & E & Hr & Hl). injection E as <-.
      assert (Chain.merge (Chain.merge o (Chain.merge h (Chain.mkAnchor (f_revoked f) (f_version f))))
        (Chain.merge h (Chain.mkAnchor (f_revoked f) (f_version f))) =
        Chain.merge o (Chain.merge h (Chain.mkAnchor (f_revoked f) (f_version f)))) as Hm.
      { destruct o as [oe ov], h as [hh hv]. unfold Chain.merge. cbn. f_equal; [|lia].
        destruct oe, hh, (f_revoked f); cbn; f_equal; lia. }
      apply merge_le in Hm as [Hm _]. destruct (Hm r Hr) as (r' & Hr' & ?). eexists _, r'. split_and!; [done..|lia].
    + intros Hf. destruct (Hv Hf) as (a & E & Hl). injection E as <-. eexists. split; [done|]. cbn in *. lia.
Qed.

(** *** The chain through the vault's operations *)

(** The chain is there, healthy, and anchors [m] at least. *)
Definition kept (m : gmap string Chain.Anchor) v : Prop :=
  exists c, v_chain v = Some c /\ log_healthy c /\ floors_le m (log_anchors c).

Lemma keeps_on_durable {A E} m (f : StoreError -> E) (x : stM (Durable S) StoreError A) :
  preserves (kept m) (on_durable f x : stM (Vault S C) E A).
Proof. intros v Hv. unfold on_durable. by destruct (x (v_durable v)). Qed.
Lemma keeps_stored_floors {E} m : preserves (kept m) (stored_floors : stM (Vault S C) E _).
Proof. intros v Hv. unfold stored_floors. by destruct (get_entity _ _ _). Qed.
Lemma keeps_ids {E} m : preserves (kept m) (ids : stM (Vault S C) E _).
Proof. intros v Hv. unfold ids. by destruct (list_prefix _ _ _). Qed.

(** What is anchored covers the floor it was called for. *)
Lemma anchor_lacking_spec {E} m this v :
  kept m v ->
  let v' := ((anchor_lacking this : stM (Vault S C) E bool) v).1 in
  kept m v' /\
  forall g f, this = Some (g, f) -> exists c, v_chain v' = Some c /\ at_least f (log_anchors c !! g).
Proof.
  intros (c & Ec & Hc & Hm). unfold anchor_lacking, stored_floors.
  unfold mbind, stM_bind, gets, modify, mret, stM_ret. rewrite Ec.
  destruct (get_entity _ _ _) as [d r]. cbn [v_chain set_durable].
  match goal with |- context [anchor_each _ (entries ?w) _] => set (want := w) end.
  pose proof (anchor_each_spec (log_anchors c) (entries want) c Hc (reflexivity _)) as Ha.
  destruct (anchor_each _ _ _) as [c' taken]. destruct Ha as (-> & Hh & Hg & Hin).
  cbn [fst set_chain v_chain]. split.
  { exists c'. split_and!; [done..|]. by etrans. }
  intros g f ->. exists c'. split; [done|].
  specialize (Hin g). cbn in want.
  match eval unfold want in want with <[_ := ?x]> _ => specialize (Hin x) end.
  eapply at_least_le; [|apply Hin, elem_of_entries, lookup_insert_eq]. split; cbn; [|lia].
  intros e ->. destruct (f_revoked _) as [x|]; cbn; eexists; (split; [done|lia]).
Qed.

Lemma keeps_anchor_lacking {E} m this : preserves (kept m) (anchor_lacking this : stM (Vault S C) E bool).
Proof.
  intros v Hv. pose proof (anchor_lacking_spec (E := E) m this v Hv) as [Hk _]. by destruct (anchor_lacking this v).
Qed.

#[local] Hint Resolve keeps_on_durable keeps_stored_floors keeps_ids keeps_anchor_lacking : preserves.
Ltac keeps := solve_preserves ltac:(fail).

Lemma keeps_floors {E} m : preserves (kept m) (floors : stM (Vault S C) E _).
Proof. unfold floors. keeps. Qed.
#[local] Hint Resolve keeps_floors : preserves.
Lemma keeps_raise {E} m shown g f : preserves (kept m) (raise shown g f : stM (Vault S C) E _).
Proof. unfold raise. keeps. Qed.
#[local] Hint Resolve keeps_raise : preserves.
Lemma keeps_stored m g : preserves (kept m) (stored g : stM (Vault S C) _ _).
Proof. unfold stored. keeps. Qed.
#[local] Hint Resolve keeps_stored : preserves.
Lemma keeps_load m g : preserves (kept m) (load g : stM (Vault S C) _ _).
Proof. unfold load. keeps. Qed.
#[local] Hint Resolve keeps_load : preserves.
Lemma keeps_meta m g : preserves (kept m) (meta g : stM (Vault S C) _ _).
Proof. unfold meta. keeps. Qed.
Lemma keeps_version_now m g : preserves (kept m) (version_now g : stM (Vault S C) _ _).
Proof. unfold version_now. keeps. Qed.
#[local] Hint Resolve keeps_version_now : preserves.
Lemma keeps_store_ahead m g rt over a r : preserves (kept m) (store_ahead g rt over a r : stM (Vault S C) _ _).
Proof. unfold store_ahead. keeps. Qed.
Lemma keeps_raise_then_delete m fl k e : preserves (kept m) (raise_then_delete fl k e : stM (Vault S C) _ _).
Proof. unfold raise_then_delete. keeps. Qed.
#[local] Hint Resolve keeps_raise_then_delete : preserves.
Lemma keeps_personal_stored m p : preserves (kept m) (personal_stored p : stM (Vault S C) _ _).
Proof. unfold personal_stored. keeps. Qed.
#[local] Hint Resolve keeps_personal_stored : preserves.
Lemma keeps_personal_made m p r : preserves (kept m) (personal_made p r : stM (Vault S C) _ _).
Proof. unfold personal_made. keeps. Qed.
#[local] Hint Resolve keeps_personal_made : preserves.
Lemma keeps_personal_key m p b r : preserves (kept m) (personal_key p b r : stM (Vault S C) _ _).
Proof.
  unfold personal_key. apply preserves_bind; [|intros ?; keeps].
  intros v Hv. pose proof (keeps_personal_stored m p v Hv) as Hk. by destruct (personal_stored p v).
Qed.
Lemma keeps_forget_personal m p : preserves (kept m) (forget_personal p : stM (Vault S C) _ _).
Proof. unfold forget_personal. keeps. Qed.
Lemma keeps_keep_approval m a rt r : preserves (kept m) (keep_approval a rt r : stM (Vault S C) _ _).
Proof. unfold keep_approval. keeps. Qed.
Lemma keeps_approvals m : preserves (kept m) (approvals : stM (Vault S C) _ _).
Proof. unfold approvals. keeps. Qed.
Lemma keeps_open_approval m n : preserves (kept m) (open_approval n : stM (Vault S C) _ _).
Proof. unfold open_approval. keeps. Qed.
Lemma keeps_forget_approval m n : preserves (kept m) (forget_approval n : stM (Vault S C) _ _).
Proof. unfold forget_approval. keeps. Qed.

(** Raising anchors the floor, whatever the store says to the write. *)
Lemma raise_anchors {E} shown g f want m v :
  kept m v -> (forall b, floor_le want (f b)) ->
  let v' := ((raise shown g f : stM (Vault S C) E unit) v).1 in
  exists c, v_chain v' = Some c /\ log_healthy c /\ floors_le m (log_anchors c) /\ at_least want (log_anchors c !! g).
Proof.
  intros Hv Hw. unfold raise. unfold mbind at 1, stM_bind at 1.
  pose proof (keeps_floors (E := E) m v Hv) as Hk. destruct (floors v) as [v1 [all|e0]] eqn:Ef.
  2: { exfalso. revert Ef. unfold floors, stored_floors, mbind, stM_bind, gets. by destruct (get_entity _ _ _). }
  cbv zeta. set (before := floor_of g all).
  set (after := mkFloor _ (Z.max (f_version (f before)) (f_version before))).
  unfold mbind at 1, stM_bind at 1.
  pose proof (anchor_lacking_spec (E := E) m (Some (g, after)) v1 Hk) as [Hk2 Hc]. cbv zeta in Hk2, Hc.
  destruct (anchor_lacking (Some (g, after)) v1) as [v2 [b|e2]] eqn:Ea; cbn [fst] in *.
  2: { exfalso. revert Ea. unfold anchor_lacking, stored_floors, mbind, stM_bind, gets, mret, stM_ret, modify.
       destruct (v_chain v1); [|done]. destruct (get_entity _ _ _). by destruct (anchor_each _ _ _). }
  destruct (Hc g after eq_refl) as (c & Ec & Hat). assert (at_least want (log_anchors c !! g)) as Hat'.
  { eapply at_least_le; [|exact Hat]. destruct (Hw before) as [He Hve]. subst after. split; cbn; [|lia].
    intros e Hf. destruct (He e Hf) as (e' & -> & ?). destruct (f_revoked before); cbn; eexists; (split; [done|lia]). }
  clear Hc Ea.
  match goal with |- context [v_chain (?body v2).1] => assert (preserves (kept (log_anchors c)) body) as Hp by keeps end.
  destruct Hk2 as (c2 & Ec2 & Hh & Hm). rewrite Ec in Ec2. injection Ec2 as <-.
  destruct (Hp v2) as (c3 & Ec3 & Hh3 & Hm3); [by exists c|].
  exists c3. split_and!; [done..|by etrans|]. by eapply at_least_mono.
Qed.

(** What loads is held to what is anchored. *)
Lemma load_held g f v c gr rt :
  v_chain v = Some c -> at_least f (log_anchors c !! g) -> (load g v).2 = Ok (Some (gr, rt)) ->
  (forall e, f_revoked f = Some e -> e < epoch gr) /\ (0 < f_version f -> f_version f <= rt_version gr).
Proof.
  intros Ec [He Hv] El. unfold load, stored, floors, stored_floors, on_durable in El.
  unfold mbind, stM_bind, mret, stM_ret, gets, throw, lift in El.
  destruct (get_entity Cred (id g) (v_durable v)) as [d [[env|]|e1]]; cbn [map_err ok_or] in El; [|done..].
  destruct (from_value (env_state env) : option Stored) as [s|]; cbn [ok_or] in El; [|done].
  cbn [v_durable set_durable] in El. destruct (get_entity Cred REGISTER d) as [d2 r2]. cbn [v_chain set_durable] in El.
  rewrite Ec in El.
  match type of El with context [floor_of g (raised_by _ ?m)] => set (base := m) in El end.
  assert (forall a, log_anchors c !! g = Some a ->
    floor_of g (raised_by (log_anchors c) base) = raise_to (default floor_default (base !! g)) a) as Hfl.
  { intros a Ha. unfold floor_of. by rewrite (raised_by_lookup _ _ _ _ Ha). }
  destruct (match f_revoked (floor_of g (raised_by (log_anchors c) base)) with Some r => epoch (s_grant s) <=? r | None => false end)
    eqn:E1; [done|].
  destruct (rt_version (s_grant s) <? f_version (floor_of g (raised_by (log_anchors c) base))) eqn:E2; [done|].
  destruct (open _ s); cbn in El; [|done]. injection El as <- <-. split.
  - intros e Hf. destruct (He e Hf) as (x & r & Ha & Hr & Hle). rewrite (Hfl x Ha) in E1. cbn in E1. rewrite Hr in E1.
    destruct (f_revoked (default floor_default (base !! g))); cbn in E1; lia.
  - intros Hf. destruct (Hv Hf) as (x & Ha & Hle). rewrite (Hfl x Ha) in E2. cbn in E2. lia.
Qed.

(** *** Whatever happens after *)

(** The vault's calls. *)
Inductive call : Type :=
  | CLoad (g : string) | CMeta (g : string) | CIds
  | CStore (g : Grant) (rt : string) (over : option Z) (a : option Ahead) (r : Draws)
  | CTombstone (g : string) (e : Z)
  | CPersonalKey (p : string) (create : bool) (r : Draws) | CForgetPersonal (p : string)
  | CKeepApproval (a : Approval) (rt : string) (r : Draws) | CApprovals
  | COpenApproval (n : string) | CForgetApproval (n : string).
Definition run (x : call) v : Vault S C :=
  match x with
  | CLoad g => (load g v).1
  | CMeta g => (meta g v).1
  | CIds => ((ids : stM (Vault S C) unit _) v).1
  | CStore g rt over a r => (store_ahead g rt over a r v).1
  | CTombstone g e => (tombstone g e v).1
  | CPersonalKey p b r => (personal_key p b r v).1
  | CForgetPersonal p => (forget_personal p v).1
  | CKeepApproval a rt r => (keep_approval a rt r v).1
  | CApprovals => (approvals v).1
  | COpenApproval n => (open_approval n v).1
  | CForgetApproval n => (forget_approval n v).1
  end.

(** Calls, the store and the key put back to anything, a start over them, and
    the chain grown by its other writers. *)
Inductive worked : Vault S C -> Vault S C -> Prop :=
  | w_refl v : worked v v
  | w_call x v v' : worked (run x v) v' -> worked v v'
  | w_store d k v v' : worked (mkVault d k (v_chain v)) v' -> worked v v'
  | w_start d k v v' : worked (vault_new d k (v_chain v)) v' -> worked v v'
  | w_chain c c' v v' :
      v_chain v = Some c -> log_healthy c' -> floors_le (log_anchors c) (log_anchors c') ->
      worked (set_chain c' v) v' -> worked v v'.

Lemma keeps_run m x v : kept m v -> kept m (run x v).
Proof.
  destruct x; cbn [run].
  - apply keeps_load.
  - apply keeps_meta.
  - apply keeps_ids.
  - apply keeps_store_ahead.
  - apply keeps_raise_then_delete.
  - apply keeps_personal_key.
  - apply keeps_forget_personal.
  - apply keeps_keep_approval.
  - apply keeps_approvals.
  - apply keeps_open_approval.
  - apply keeps_forget_approval.
Qed.
Lemma worked_kept m v v' : worked v v' -> kept m v -> kept m v'.
Proof.
  induction 1 as [|x v v' _ IH|d k v v' _ IH|d k v v' _ IH|c c' v v' Ec Hh Hle _ IH]; intros Hk.
  - done.
  - by apply IH, keeps_run.
  - by apply IH.
  - apply IH. unfold vault_new. by apply keeps_anchor_lacking.
  - apply IH. destruct Hk as (c0 & Ec0 & _ & Hm). rewrite Ec in Ec0. injection Ec0 as <-.
    exists c'. split_and!; [done..|by etrans].
Qed.

(** Anchored once, a floor holds every later load. *)
Lemma anchored_held g want v v' gr rt :
  (exists c, v_chain v = Some c /\ log_healthy c /\ at_least want (log_anchors c !! g)) ->
  worked v v' -> (load g v').2 = Ok (Some (gr, rt)) ->
  (forall e, f_revoked want = Some e -> e < epoch gr) /\ (0 < f_version want -> f_version want <= rt_version gr).
Proof.
  intros (c & Ec & Hh & Hat) Hw El.
  destruct (worked_kept (log_anchors c) v v' Hw) as (c' & Ec' & _ & Hle); [by exists c|].
  eapply load_held; [exact Ec'| |exact El]. by eapply at_least_mono.
Qed.

Lemma tombstone_anchors g e m v : kept m v ->
  exists c, v_chain (tombstone g e v).1 = Some c /\ log_healthy c /\
    at_least (mkFloor (Some e) 0) (log_anchors c !! g).
Proof.
  intros Hv. unfold tombstone, raise_then_delete, attempt. unfold mbind at 1, stM_bind at 1.
  pose proof (raise_anchors (fun e => e) g (fun f => mkFloor (Some e) (f_version f)) (mkFloor (Some e) 0) m v Hv) as Hr.
  cbv zeta in Hr. destruct Hr as (c & Ec & Hh & _ & Hat).
  { intros b. split; cbn; [|lia]. intros e' E. injection E as ->. exists e'. split; [done|lia]. }
  destruct (raise _ g _ v) as [v1 r1]. cbn [fst] in Ec. exists c. split_and!; [|done..].
  unfold mbind, stM_bind, lift, on_durable. by destruct (delete_entity _ _ _).
Qed.

Lemma store_anchors gr rt over a r m v v' : kept m v ->
  store_ahead gr rt over a r v = (v', Ok tt) ->
  exists c, v_chain v' = Some c /\ log_healthy c /\
    at_least (mkFloor None (rt_version gr)) (log_anchors c !! grant_id_ gr).
Proof.
  intros Hv E. unfold store_ahead in E.
  apply bind_Ok in E as (v1 & [] & E1 & E).
  assert (kept m v1) as Hv1.
  { match type of E1 with ?x v = _ => assert (preserves (kept m) x) as Hp by keeps; specialize (Hp v Hv); by rewrite E1 in Hp end. }
  apply bind_Ok in E as (v2 & k & E2 & E). injection E2 as <- <-.
  apply bind_Ok in E as (v2 & sd & E2 & E). injection E2 as <- _.
  apply bind_Ok in E as (v2 & n & E2 & E).
  assert (kept m v2) as Hv2.
  { match type of E2 with ?x v1 = _ => assert (preserves (kept m) x) as Hp by keeps; specialize (Hp v1 Hv1); by rewrite E2 in Hp end. }
  destruct (raise_anchors NsStore (grant_id_ gr) (fun f => mkFloor (f_revoked f) (rt_version gr))
    (mkFloor None (rt_version gr)) m v2 Hv2) as (c & Ec & Hh & _ & Hat); [by intros b; split; cbn|].
  rewrite E in Ec. by exists c.
Qed.

(** C39: nothing goes back. With a healthy audit chain, once a grant was
    tombstoned at an epoch, whatever the store said to it, no record of that
    epoch or an earlier one loads again; and once a refresh token was stored,
    no record under an older version loads: whatever calls and starts follow,
    whatever the store and the key are put back to (a backup, another's disk),
    while the chain's floors are kept. *)
Theorem nothing_goes_back c v v' g gr rt :
  v_chain v = Some c -> log_healthy c -> (load g v').2 = Ok (Some (gr, rt)) ->
  (forall e, worked (tombstone g e v).1 v' -> e < epoch gr) /\
  (forall gr0 rt0 over a r v1, g = grant_id_ gr0 -> 0 < rt_version gr0 ->
    store_ahead gr0 rt0 over a r v = (v1, Ok tt) -> worked v1 v' -> rt_version gr0 <= rt_version gr).
Proof.
  intros Ec Hh El. assert (kept ∅ v) as Hk by (exists c; split_and!; [done..|]; intros k x Hx; by rewrite lookup_empty in Hx).
  split.
  - intros e Hw. destruct (anchored_held g (mkFloor (Some e) 0) _ _ gr rt (tombstone_anchors g e ∅ v Hk) Hw El) as [He _].
    by apply He.
  - intros gr0 rt0 over a r v1 -> Hpos Es Hw.
    destruct (anchored_held _ _ _ _ gr rt (store_anchors gr0 rt0 over a r ∅ v v1 Hk Es) Hw El) as [_ Hv]. by apply Hv.
Qed.
End keeps.

(** A grant of epoch 1 revoked, its record put back, and the person signed in
    again at epoch 2: the old record is refused, the new one loads. *)
Module Sample.
#[local] Instance clock : Clock := {| wall n := 1700000000000 + Z.of_nat n; mono n := Z.of_nat n |}.
#[local] Instance size : JsonLen := fun _ => 100.
#[local] Instance digest : Sha := text.
#[local] Instance plain_aead : Aead := {|
  gcm_seal k n a t := Some (t ++ replicate 16 0);
  gcm_open k n a t := Some (take (length t - 16) t);
|}.
#[local] Instance map_log : AnchorLog (gmap string Chain.Anchor) := {|
  log_anchors c := c;
  log_anchor g a c := (Chain.merge_entry g a c, true);
|}.
#[local] Instance map_log_ok : AnchorLogOk (gmap string Chain.Anchor).
Proof. by refine {| log_healthy _ := True |}. Defined.

Definition key : list Z := replicate 32 7.
Definition draws : Draws := mkDraws (Some (replicate 12 1)) (Some key) (Some "id").
Definition grant (e n : Z) : Grant :=
  mkGrant "g1" (mkRef Oidc "https://idp" None "ann" None) "oidc:https://idp#ann" "corp" "https://idp" "ann" None "t"
    {["files" := ["read"]]} 0 1800000000000 e n ∅ None ∅ None.
Definition first : Vault MemoryStore (gmap string Chain.Anchor) :=
  mkVault (durable_new memory_new "agentd" "house" policy_default false ∅) (Local key None) (Some ∅).
Definition signed_in : Vault MemoryStore _ := (store (grant 1 1) "token-1" None draws first).1.
Definition revoked : Vault MemoryStore _ := (tombstone "g1" 1 signed_in).1.
(** The store of before the revocation. *)
Definition put_back : Vault MemoryStore _ := mkVault (v_durable signed_in) (Local key None) (v_chain revoked).
Definition again : Vault MemoryStore _ := (store (grant 2 2) "token-2" None draws put_back).1.

Example put_back_refused : (load "g1" put_back).2 = Err Revoked.
Proof. vm_compute. reflexivity. Qed.

(** With no audit chain, a register that does not read is taken for an empty
    one, and [raise] writes that back: the floor of another grant is lost. *)
Definition alone : Vault MemoryStore (gmap string Chain.Anchor) := mkVault (v_durable signed_in) (Local key None) None.
Definition alone_revoked : Vault MemoryStore (gmap string Chain.Anchor) := (tombstone "g1" 1 alone).1.
Definition failing (v : Vault MemoryStore (gmap string Chain.Anchor)) : Vault MemoryStore (gmap string Chain.Anchor) :=
  set_durable (Durable.set_store (set_fail_next (2 * Z.of_nat (retries policy_default)) (d_store (v_durable v))) (v_durable v)) v.
Example register_lost :
  let v := (tombstone "g2" 1 (failing alone_revoked)).1 in
  f_revoked (floor_of "g1" (default ∅ (ok ((floors : stM _ unit _) alone_revoked).2))) = Some 1 /\
  (tombstone "g2" 1 (failing alone_revoked)).2 = Ok tt /\
  default ∅ (ok ((floors : stM _ unit _) v).2) = {["g2" := mkFloor (Some 1) 0]}.
Proof. vm_compute. by split_and!. Qed.

Lemma nothing_goes_back_witness :
  1 < epoch (grant 2 2) /\ rt_version (grant 1 1) <= rt_version (grant 2 2).
Proof.
  assert (worked revoked again) as Hw.
  { apply (w_store (v_durable signed_in) (Local key None)), (w_call (CStore (grant 2 2) "token-2" None None draws)), w_refl. }
  split.
  - refine (proj1 (nothing_goes_back (default ∅ (v_chain signed_in)) signed_in again "g1" (grant 2 2) "token-2" _ I _) 1 Hw);
      vm_compute; reflexivity.
  - refine (proj2 (nothing_goes_back (∅ : gmap string Chain.Anchor) first again "g1" (grant 2 2) "token-2" eq_refl I _)
      (grant 1 1) "token-1" None None draws signed_in eq_refl eq_refl _ (w_call (CTombstone "g1" 1) _ _ Hw));
      vm_compute; reflexivity.
Defined.
End Sample.
End VaultKeeps.
