(* ===== verification/Delegation.v ===== *)
(** * Acting for enrolled people

    [crates/agentd/src/delegation/mod.rs] and [unattended.rs]: who a piece of
    work acts for ([who]), the checks a delegated call passes ([admit_]), what
    a sign-in binds and keeps ([bind], [enrolled], [keep]), what revokes a
    grant ([revoke], [revoke_held], [reload]), and the firings that act with
    nobody there.  The listener's session store is the interface
    [SessionBook]; a refusal is its [Code]. *)

From S2P Require Export Vault.

Module Delegation.
Import Vault.
Local Open Scope Z_scope.

Definition MAX_TTL : Z := 30 * 24 * 60 * 60 * 1000.
Definition UNATTENDED_SID_PREFIX : string := "ua_".
Definition HANDED_ON_SID : string := "ua_handed-on".
Definition BOUND_BY_FIRST : string := "first_binding".
Definition BOUND_BY_PIN : string := "pin".
Definition BACKOFF_MIN_MS : Z := 60000.
Definition BACKOFF_MAX_MS : Z := 15 * 60000.

Inductive Code : Type :=
  | Revoked | PolicyDenied | Config | ResourceFault | StepUp | IdpUnavailable | SignerUnavailable
  | NeedsReenroll | BudgetExhausted | ResourceNotBound | IdpNoIdTokenOnRefresh
  | UnexpectedRefreshToken | ScopeBeyondCeiling | DelegationRejectedByResource | NotEnrolled
  | BindingMismatch | NoDelegation | DelegationNotPermitted | PrincipalNotDelegable
  | SubjectExpired | CibaRequired | CibaDenied | UnattendedSuspended.

Definition code_as_str (c : Code) : string :=
  match c with
  | SubjectExpired => "subject_expired"
  | CibaRequired => "ciba_required"
  | CibaDenied => "ciba_denied"
  | UnattendedSuspended => "unattended_suspended"
  | Revoked => "revoked"
  | PolicyDenied => "policy_denied"
  | Config => "config"
  | ResourceFault => "resource_fault"
  | StepUp => "step_up"
  | IdpUnavailable => "idp_unavailable"
  | SignerUnavailable => "signer_unavailable"
  | NeedsReenroll => "needs_reenroll"
  | BudgetExhausted => "budget_exhausted"
  | ResourceNotBound => "resource_not_bound"
  | IdpNoIdTokenOnRefresh => "idp_no_id_token_on_refresh"
  | UnexpectedRefreshToken => "unexpected_refresh_token"
  | ScopeBeyondCeiling => "scope_beyond_ceiling"
  | DelegationRejectedByResource => "delegation_rejected_by_resource"
  | NotEnrolled => "not_enrolled"
  | BindingMismatch => "binding_mismatch"
  | NoDelegation => "no_delegation"
  | DelegationNotPermitted => "delegation_not_permitted"
  | PrincipalNotDelegable => "principal_not_delegable"
  end.

(** ** What the settings declare *)

Record IdpSubject := mkIdpSubject { is_iss : string; is_sub : string }.
#[export] Instance idp_subject_eq_dec : EqDecision IdpSubject.
Proof. solve_decision. Defined.

#[export] Instance via_eq_dec : EqDecision Via.
Proof. solve_decision. Defined.
Inductive Unattended : Type := UnNever | UnCiba | UnStanding.

Record TemplateMatch := mkTemplateMatch {
  tm_source : option string;
  tm_role : option Role;
  tm_labels : gmap string string;
}.
Record Template := mkTemplate {
  t_name : string;
  t_principals : TemplateMatch;
  t_idp : string;
  t_servers : gmap string (list string);
  t_ttl : option Z;
  t_clients : list string;
  t_unattended : Unattended;
}.
Definition template_ttl (t : Template) : Z :=
  match t_ttl t with Some d => Z.min d MAX_TTL | None => MAX_TTL end.
Definition allows_unattended (t : Template) (v : Via) : bool :=
  match t_unattended t, v with
  | UnNever, _ | UnCiba, Standing => false
  | UnCiba, Ciba | UnStanding, _ => true
  end.

Inductive ScopeMode : Type := PerServer | PerTool.
Inductive ExchangeSubject : Type := XGrant | XInbound.
Inductive ServerKind : Type := IdJag | Exchange (s : ExchangeSubject).
Record Server := mkServer {
  sv_name : string;
  sv_kind : ServerKind;
  sv_idp : string;
  sv_scopes : list string;
  sv_tool_scopes : gmap string (list string);
  sv_scope_mode : ScopeMode;
}.

(** A [BTreeSet] of texts, in order. *)
Definition sorted_set (l : list string) : list string := (entries (list_to_map ((fun s => (s, tt)) <$> l) : gmap string unit)).*1.
Definition has (l : list string) (s : string) : bool := bool_decide (s ∈ l).

(** [Err] names a scope the ceiling does not allow. *)
Definition scope_set (s : Server) (tool : string) (ceiling : list string) : result string (list string) :=
  let need := sorted_set (sv_scopes s ++ default [] (sv_tool_scopes s !! tool)) in
  match List.find (fun x => negb (has ceiling x)) need with
  | Some over => Err over
  | None =>
      Ok match sv_scope_mode s with
         | PerServer => sorted_set (need ++ List.filter (has ceiling) (mjoin (vals (sv_tool_scopes s))))
         | PerTool => need
         end
  end.

Record Person := mkPerson {
  pe_id : string;
  pe_principal : string;
  pe_rule : string;
  pe_typed : PrincipalRef;
  pe_role : Role;
  pe_fingerprint : string;
  pe_iss : string;
  pe_sub : string;
  pe_labels : gmap string string;
}.
Record ActForDecl := mkActForDecl {
  ad_workflow : string;
  ad_digest : string;
  ad_via : Via;
  ad_principal : ActForPrincipal;
}.
Record Firing := mkFiring {
  fi_sid : string;
  fi_run : string;
  fi_workflow : string;
  fi_digest : string;
  fi_via : Via;
}.

(** ** Sessions *)

Record IdpProof := mkIdpProof { pf_idp : string; pf_iss : string; pf_sub : string; pf_at_ms : Z }.
Record InboundInfo := mkInboundInfo {
  in_issuer : string;
  in_client : string;
  in_labels : gmap string string;
  in_expired : bool;
}.
Record SessionInfo := mkSessionInfo {
  se_principal : string;
  se_typed : PrincipalRef;
  se_role : Role;
  se_proof : option IdpProof;
  se_inbound : option InboundInfo;
}.

Class SessionBook (B : Type) := {
  book_session : string -> B -> option SessionInfo;
  book_inbound_token : string -> B -> option (string * Z);
  book_sessions : B -> list (string * SessionInfo);
  book_set_proof : string -> IdpProof -> B -> B;
  book_drop_device_proofs : string -> B -> B;
}.

(** ** Who a piece of work is for *)

Record Acting := mkActing { ac_principal : option string; ac_session : option string }.

Inductive WhoKind : Type :=
  | KInbound (issuer client : string) (expired : bool)
  | KPerson (fingerprint iss sub : string)
  | KOidc
  | KDevice (name : string).
Record Who := mkWho {
  wh_id : string;
  wh_typed : PrincipalRef;
  wh_role : Role;
  wh_labels : gmap string string;
  wh_kind : WhoKind;
  wh_session : option string;
  wh_proof : option IdpProof;
  wh_firing : option Firing;
}.

Definition who_fingerprint (w : Who) (iss sub : string) : string :=
  match wh_kind w with
  | KPerson f _ _ => f
  | KOidc | KInbound _ _ _ => "oidc:" +:+ iss +:+ "#" +:+ sub
  | KDevice _ => "idp:" +:+ iss +:+ "#" +:+ sub
  end.
Definition who_source (w : Who) : string :=
  match wh_kind w with
  | KPerson _ _ _ => if decide (source (wh_typed w) = X509) then "x509" else "operator"
  | KOidc | KInbound _ _ _ => "oidc"
  | KDevice _ => "device"
  end.

(** Whether a template admits someone at an identity provider. *)
Definition admits (t : Template) (w : Who) (idp : string) : bool :=
  bool_decide (t_idp t = idp)
  && bool_decide (tm_source (t_principals t) = Some (who_source w))
  && match tm_role (t_principals t) with None => true | Some r => bool_decide (r = wh_role w) end
  && forallb (fun kv => bool_decide (wh_labels w !! kv.1 = Some kv.2)) (entries (tm_labels (t_principals t)))
  && match wh_kind w with
     | KInbound _ client _ => match t_clients t with [] => true | l => has l client end
     | _ => true
     end.

Definition ceilings_of (t : Template) : gmap string (list string) := t_servers t.
(** Within what the template allows now. *)
Definition narrowed (c : gmap string (list string)) (t : Template) : gmap string (list string) :=
  map_imap (fun server scopes => now ← t_servers t !! server; Some (List.filter (has now) scopes)) c.

Definition backoff (failures : Z) : Z :=
  Z.min (Z.min (BACKOFF_MIN_MS * 2 ^ Z.min (Z.max (failures - 1) 0) 8) u64_max) BACKOFF_MAX_MS.

(** An identity provider, its issuer and the issuers it declares as its own. *)
Record Idp := mkIdp { ip_issuer : string; ip_equivalent : list string }.

(** ** The state *)

Record Delegation (S C B : Type) := mkDelegation {
  dg_providers : gmap string Idp;
  dg_servers : gmap string Server;
  dg_templates : list Template;
  dg_pins : gmap string IdpSubject;
  dg_first_binding : bool;
  dg_persons : list Person;
  dg_equivalents : gmap string string;
  dg_book : option B;
  dg_vault : Vault S C;
  dg_grants : gmap string Grant;
  dg_acts : list ActForDecl;
  dg_firings : gmap string (Firing * ActForPrincipal);
}.
Arguments mkDelegation {S C B}.
Arguments dg_providers {S C B}.
Arguments dg_servers {S C B}.
Arguments dg_templates {S C B}.
Arguments dg_pins {S C B}.
Arguments dg_first_binding {S C B}.
Arguments dg_persons {S C B}.
Arguments dg_equivalents {S C B}.
Arguments dg_book {S C B}.
Arguments dg_vault {S C B}.
Arguments dg_grants {S C B}.
Arguments dg_acts {S C B}.
Arguments dg_firings {S C B}.

(** A call admitted. *)
Record Admitted_ := mkAdmitted { adm_grant : Grant; adm_who : Who; adm_template : Template }.

Section delegation.
Context {S C B : Type} `{Store S} `{Clock} `{JsonLen} `{AnchorLog C} `{Seal.Aead} {sha : Sha} `{SessionBook B}.
Implicit Types (st : Delegation S C B).

Abbreviation delM := (stM (Delegation S C B) Code).

Definition set_vault (v : Vault S C) st : Delegation S C B :=
  mkDelegation (dg_providers st) (dg_servers st) (dg_templates st) (dg_pins st) (dg_first_binding st)
    (dg_persons st) (dg_equivalents st) (dg_book st) v (dg_grants st) (dg_acts st) (dg_firings st).
Definition set_grants (m : gmap string Grant) st : Delegation S C B :=
  mkDelegation (dg_providers st) (dg_servers st) (dg_templates st) (dg_pins st) (dg_first_binding st)
    (dg_persons st) (dg_equivalents st) (dg_book st) (dg_vault st) m (dg_acts st) (dg_firings st).
Definition set_book (b : option B) st : Delegation S C B :=
  mkDelegation (dg_providers st) (dg_servers st) (dg_templates st) (dg_pins st) (dg_first_binding st)
    (dg_persons st) (dg_equivalents st) b (dg_vault st) (dg_grants st) (dg_acts st) (dg_firings st).
Definition set_firings (m : gmap string (Firing * ActForPrincipal)) st : Delegation S C B :=
  mkDelegation (dg_providers st) (dg_servers st) (dg_templates st) (dg_pins st) (dg_first_binding st)
    (dg_persons st) (dg_equivalents st) (dg_book st) (dg_vault st) (dg_grants st) (dg_acts st) m.
Definition set_acts (l : list ActForDecl) st : Delegation S C B :=
  mkDelegation (dg_providers st) (dg_servers st) (dg_templates st) (dg_pins st) (dg_first_binding st)
    (dg_persons st) (dg_equivalents st) (dg_book st) (dg_vault st) (dg_grants st) l (dg_firings st).
Definition set_rules (t : list Template) (pins : gmap string IdpSubject) (first : bool) st : Delegation S C B :=
  mkDelegation (dg_providers st) (dg_servers st) t pins first
    (dg_persons st) (dg_equivalents st) (dg_book st) (dg_vault st) (dg_grants st) (dg_acts st) (dg_firings st).

(** An operation of the vault. *)
Definition on_vault {A E F} (f : E -> F) (m : stM (Vault S C) E A) : stM (Delegation S C B) F A := fun st =>
  let '(v, r) := m (dg_vault st) in (set_vault v st, map_err f r).

(** Its result as a value. *)
Definition try_vault {A E F} (m : stM (Vault S C) E A) : stM (Delegation S C B) F (result E A) := fun st =>
  let '(v, r) := m (dg_vault st) in (set_vault v st, Ok r).

(** [load_grants]: every grant's metadata that loads. *)
Fixpoint load_each (l : list string) (m : gmap string Grant) (v : Vault S C) : Vault S C * gmap string Grant :=
  match l with
  | [] => (v, m)
  | g :: l' =>
      let '(v, r) := meta g v in
      load_each l' (match r with Ok (Some x) => <[g := x]> m | _ => m end) v
  end.
Definition load_grants st : Delegation S C B :=
  let '(v, r) := (ids : stM _ Code _) (dg_vault st) in
  let '(v, m) := load_each (default [] (ok r)) ∅ v in
  set_grants m (set_vault v st).

(** [build], of the parts the settings declare. *)
Definition build (providers : gmap string Idp) (servers : gmap string Server) (templates : list Template)
    (pins : gmap string IdpSubject) (first : bool) (persons : list Person) (v : Vault S C) : Delegation S C B :=
  load_grants (mkDelegation providers servers templates pins first persons
    (list_to_map (rev (vals providers ≫= (fun p => (fun e => (e, ip_issuer p)) <$> ip_equivalent p)))) None v ∅ [] ∅).

Definition is_delegated (server : string) st : bool := bool_decide (is_Some (dg_servers st !! server)).
Definition pin_of (name : string) st : option IdpSubject := dg_pins st !! name.
Definition person (principal : string) st : option Person :=
  List.find (fun p => bool_decide (pe_principal p = principal)) (dg_persons st).
Definition template_for (w : Who) (idp : string) st : option Template :=
  List.find (fun t => admits t w idp) (dg_templates st).

(** *** Firings *)

Definition who_of (p : ActForPrincipal) st : option Who :=
  if decide (af_source p = "operator" \/ af_source p = "x509") then
    let operator := bool_decide (af_source p = "operator") in
    x ← List.find (fun x => bool_decide (af_id p = Some (pe_rule x))
                            && Bool.eqb (bool_decide (source (pe_typed x) = SOperator)) operator) (dg_persons st);
    Some (mkWho (pe_id x) (pe_typed x) (pe_role x) (pe_labels x) (KPerson (pe_fingerprint x) (pe_iss x) (pe_sub x))
            None None None)
  else if decide (af_source p = "oidc") then
    i ← af_issuer p; s ← af_sub p;
    let typed := mkRef Oidc i None s None in
    Some (mkWho (display typed) typed User ∅ KOidc None None None)
  else None.

Definition firing_live (sid : string) st : bool := bool_decide (is_Some (dg_firings st !! sid)).
Definition firing_started (f : Firing) (p : ActForPrincipal) st : Delegation S C B :=
  set_firings (<[fi_sid f := (f, p)]> (dg_firings st)) st.

Definition firing_who (sid : string) st : result Code Who :=
  if decide (sid = HANDED_ON_SID) then Err NoDelegation
  else match dg_firings st !! sid with
  | None => Err Revoked
  | Some (f, p) =>
      match who_of p st with
      | None => Err NoDelegation
      | Some w => Ok (mkWho (wh_id w) (wh_typed w) (wh_role w) (wh_labels w) (wh_kind w) (wh_session w) (wh_proof w) (Some f))
      end
  end.

(** The template allows its [via], and the grant keeps the consent to the
    definition it runs. *)
Definition firing_allowed (f : Firing) (g : Grant) (t : Template) : result Code unit :=
  if negb (allows_unattended t (fi_via f)) then Err DelegationNotPermitted
  else match Vault.unattended g !! fi_workflow f with
  | Some d => if decide (d = fi_digest f) then Ok tt else Err UnattendedSuspended
  | None => Err UnattendedSuspended
  end.

(** *** Who *)

Definition book_of (sid : string) st : option SessionInfo := dg_book st ≫= book_session sid.
Definition session_live (sid : string) st : bool :=
  if starts_with UNATTENDED_SID_PREFIX sid then firing_live sid st else bool_decide (is_Some (book_of sid st)).

(** A session's principal, as it is now. *)
Definition session_who (sid : string) (s : SessionInfo) st : result Code Who :=
  match se_inbound s with
  | Some ib =>
      if decide (se_role s = User) then
        let t := se_typed s in
        let iss := default (issuer t) (dg_equivalents st !! issuer t) in
        Ok (mkWho (se_principal s) (mkRef (source t) iss (tenant t) (stable_id t) None) User (in_labels ib)
              (KInbound (in_issuer ib) (in_client ib) (in_expired ib)) (Some sid) None None)
      else Err PrincipalNotDelegable
  | None =>
      match source (se_typed s) with
      | Oidc => Ok (mkWho (display (se_typed s)) (se_typed s) User ∅ KOidc (Some sid) (se_proof s) None)
      | Device => Ok (mkWho (display (se_typed s)) (se_typed s) (se_role s) ∅ (KDevice (stable_id (se_typed s)))
                        (Some sid) (se_proof s) None)
      | _ => Err NoDelegation
      end
  end.

Definition who (a : Acting) st : result Code Who :=
  match ac_session a with
  | Some sid =>
      if starts_with UNATTENDED_SID_PREFIX sid then firing_who sid st
      else match book_of sid st with
      | None => Err Revoked
      | Some s =>
          if match ac_principal a with Some p => negb (bool_decide (p = se_principal s)) | None => false end
          then Err Revoked else session_who sid s st
      end
  | None =>
      match ac_principal a ≫= (fun p => person p st) with
      | None => Err NoDelegation
      | Some p =>
          Ok (mkWho (pe_id p) (pe_typed p) (pe_role p) (pe_labels p) (KPerson (pe_fingerprint p) (pe_iss p) (pe_sub p))
                None None None)
      end
  end.

(** *** Admission *)

(** Whether a grant is theirs to use as they stand now. *)
Definition held_to (w : Who) (g : Grant) st : result Code unit :=
  match wh_kind w with
  | KDevice name =>
      match wh_proof w with
      | None => Err NotEnrolled
      | Some p =>
          if negb (bool_decide (pf_iss p = idp_iss g)) || negb (bool_decide (pf_sub p = sub g)) then Err NotEnrolled
          else if match pin_of name st with
                  | Some pin => negb (bool_decide (is_iss pin = idp_iss g)) || negb (bool_decide (is_sub pin = sub g))
                  | None => false
                  end then Err NotEnrolled
          else if bool_decide (bound_by g = Some BOUND_BY_FIRST) && negb (dg_first_binding st) then Err NotEnrolled
          else Ok tt
      end
  | k =>
      if negb (bool_decide (Vault.fingerprint g = who_fingerprint w (idp_iss g) (sub g)))
         || match k with
            | KPerson _ iss s => negb (bool_decide (iss = idp_iss g)) || negb (bool_decide (s = sub g))
            | _ => false
            end
      then Err NotEnrolled else Ok tt
  end.

Definition holds (w : Who) (g : string) st : result Code unit :=
  match dg_grants st !! g with
  | Some x => if decide (principal x = wh_typed w) then held_to w x st else Err NotEnrolled
  | None => Err NotEnrolled
  end.

Definition bound (w : Who) (idp : string) st : option Grant :=
  p ← dg_providers st !! idp; dg_grants st !! grant_id (wh_typed w) (ip_issuer p).

(** With no grant stored: the template's ceiling, while the token lives. *)
Definition admit_inbound (w : Who) (s : Server) (now : Z) st : result Code Admitted_ :=
  p ← ok_or Config (dg_providers st !! sv_idp s);
  issuer' ← match wh_kind w with KInbound i _ _ => Ok i | _ => Err NoDelegation end;
  if decide (issuer' = ip_issuer p) then
    exp ← ok_or SubjectExpired (sid ← wh_session w; b ← dg_book st; t ← book_inbound_token sid b; Some t.2);
    t ← ok_or DelegationNotPermitted (template_for w (sv_idp s) st);
    let c := ceilings_of t in
    match c !! sv_name s with
    | None => Err DelegationNotPermitted
    | Some _ =>
        let typed := wh_typed w in
        Ok (mkAdmitted (mkGrant (grant_id typed (ip_issuer p)) typed (who_fingerprint w (ip_issuer p) (stable_id typed))
                          (sv_idp s) (ip_issuer p) (stable_id typed) None (t_name t) c now exp 0 0 ∅ None ∅ None) w t)
    end
  else Err NoDelegation.

Definition with_ceilings (c : gmap string (list string)) (g : Grant) : Grant :=
  mkGrant (grant_id_ g) (principal g) (Vault.fingerprint g) (Vault.idp g) (idp_iss g) (sub g) (email_hash g)
    (Vault.template g) c (created_ms g) (expires_ms g) (epoch g) (rt_version g) (quota g) (bound_by g)
    (Vault.unattended g) (Vault.ciba g).

(** The template a grant was allowed by, while it admits them. *)
Definition template_of (w : Who) (idp : string) (g : Grant) st : option Template :=
  List.find (fun t => bool_decide (t_name t = Vault.template g) && admits t w idp) (dg_templates st).

(** What a grant held is admitted as. *)
Definition admit_held (w : Who) (server : string) (s : Server) (g : Grant) (now : Z) st : result Code Admitted_ :=
  _ ← held_to w g st;
  if expires_ms g <=? now then Err NeedsReenroll
  else
    t ← ok_or DelegationNotPermitted (template_of w (sv_idp s) g st);
    let g := with_ceilings (narrowed (ceilings g) t) g in
    _ ← match wh_firing w with Some f => firing_allowed f g t | None => Ok tt end;
    match ceilings g !! server with
    | None => Err DelegationNotPermitted
    | Some _ => Ok (mkAdmitted g w t)
    end.

Definition inbound_expired (w : Who) : bool := match wh_kind w with KInbound _ _ e => e | _ => false end.
Definition exchanges_inbound (s : Server) : bool := match sv_kind s with Exchange XInbound => true | _ => false end.

Definition admit_who (w : Who) (server : string) (now : Z) : delM Admitted_ :=
  st ← gets (fun st => st);
  s ← lift (ok_or Config (dg_servers st !! server));
  if inbound_expired w then throw (if exchanges_inbound s then SubjectExpired else Revoked)
  else if exchanges_inbound s then lift (admit_inbound w s now st)
  else
    p ← lift (ok_or Config (dg_providers st !! sv_idp s));
    let gid := grant_id (wh_typed w) (ip_issuer p) in
    match dg_grants st !! gid with
    | Some g => lift (admit_held w server s g now st)
    | None =>
        all ← on_vault (fun e => e) floors;
        throw match f_revoked (floor_of gid all) with Some _ => Revoked | None => NotEnrolled end
    end.
Definition admit_ (a : Acting) (server : string) (now : Z) : delM Admitted_ :=
  st ← gets (fun st => st);
  if negb (is_delegated server st) then throw Config
  else w ← lift (who a st); admit_who w server now.
Definition usable (a : Acting) (server : string) (now : Z) st : Delegation S C B * bool :=
  let '(st, r) := admit_ a server now st in (st, is_ok r).

(** The grants someone holds, by provider. *)
Definition held_by (w : Who) st : list (string * Grant) :=
  omap (fun p => (fun g => (p.1, g)) <$> dg_grants st !! grant_id (wh_typed w) (ip_issuer p.2)) (entries (dg_providers st)).
Definition acting_templates (a : Acting) (now : Z) st : option (list Template) :=
  w ← ok (who a st);
  let out := omap (fun ig => template_of w ig.1 ig.2 st)
               (List.filter (fun ig => is_ok (held_to w ig.2 st) && (now <? expires_ms ig.2)) (held_by w st)) in
  match out with [] => None | _ => Some out end.

Definition rebind (principal server : string) st : option string :=
  s ← dg_servers st !! server;
  p ← dg_providers st !! sv_idp s;
  b ← dg_book st;
  fst <$> List.find (fun x =>
    bool_decide (se_principal x.2 = principal)
    && match se_proof x.2, dg_grants st !! grant_id (se_typed x.2) (ip_issuer p) with
       | Some f, Some g => bool_decide (idp_iss g = pf_iss f) && bool_decide (sub g = pf_sub f)
       | _, _ => false
       end) (rev (book_sessions b)).

(** *** Enrolment *)

(** What a verified ID token says. *)
Record Claims := mkClaims { cl_iss : string; cl_sub : string; cl_email : option string }.

Definition eligible (w : Who) (idp : string) st : result Code Template :=
  _ ← ok_or Config (dg_providers st !! idp);
  t ← ok_or DelegationNotPermitted (template_for w idp st);
  match wh_kind w with
  | KDevice name =>
      match pin_of name st, dg_first_binding st, bound w idp st with
      | None, false, None => Err PrincipalNotDelegable
      | _, _, _ => Ok t
      end
  | _ => Ok t
  end.
(** By the identity provider's device grant: a pinned name alone. *)
Definition device_allowed (w : Who) st : result Code unit :=
  match wh_kind w with
  | KDevice name => match pin_of name st with None => Err PrincipalNotDelegable | Some _ => Ok tt end
  | _ => Ok tt
  end.

Definition same_identity (c : Claims) (iss sub : string) : bool :=
  bool_decide (cl_iss c = iss) && bool_decide (cl_sub c = sub).

(** What bound a device name; a sign-in as anyone else keeps nothing. *)
Definition bind (w : Who) (idp : string) (c : Claims) st : result Code (option string) :=
  match wh_kind w with
  | KPerson _ iss sub => if same_identity c iss sub then Ok None else Err BindingMismatch
  | KOidc | KInbound _ _ _ =>
      if same_identity c (issuer (wh_typed w)) (stable_id (wh_typed w)) then Ok None else Err BindingMismatch
  | KDevice name =>
      match pin_of name st with
      | Some pin => if same_identity c (is_iss pin) (is_sub pin) then Ok (Some BOUND_BY_PIN) else Err BindingMismatch
      | None =>
          match bound w idp st with
          | Some g =>
              if same_identity c (idp_iss g) (sub g)
              then Ok (Some (if decide (bound_by g = Some BOUND_BY_PIN) then BOUND_BY_PIN else BOUND_BY_FIRST))
              else Err BindingMismatch
          | None => if dg_first_binding st then Ok (Some BOUND_BY_FIRST) else Err PrincipalNotDelegable
          end
      end
  end.

(** The provider a workflow's person is a subject of, by its name. *)
Definition idp_of (p : ActForPrincipal) st : option string :=
  w ← who_of p st;
  iss ← match wh_kind w with KPerson _ iss _ => Some iss | _ => af_issuer p end;
  fst <$> List.find (fun x => bool_decide (ip_issuer x.2 = iss)) (entries (dg_providers st)).

(** What a sign-in consents to, at the digests of now. *)
Definition consented (w : Who) (idp : string) (p : Idp) (t : Template) st : gmap string string :=
  let gid := grant_id (wh_typed w) (ip_issuer p) in
  list_to_map (rev ((fun a => (ad_workflow a, ad_digest a)) <$> List.filter (fun a =>
    allows_unattended t (ad_via a)
    && bool_decide (idp_of (ad_principal a) st = Some idp)
    && match who_of (ad_principal a) st with
       | Some x => bool_decide (grant_id (wh_typed x) (ip_issuer p) = gid)
       | None => false
       end) (dg_acts st))).

Definition principal_of (t : PrincipalRef) st : string :=
  match List.find (fun p => bool_decide (pe_typed p = t)) (dg_persons st) with
  | Some p => pe_principal p
  | None => display t
  end.

(** Whether a firing may act for its person now. *)
Definition firing_ready (d : ActForDecl) (now : Z) : delM string :=
  st ← gets (fun st => st);
  w ← lift (ok_or NoDelegation (who_of (ad_principal d) st));
  idp ← lift (ok_or Config (idp_of (ad_principal d) st));
  p ← lift (ok_or Config (dg_providers st !! idp));
  let gid := grant_id (wh_typed w) (ip_issuer p) in
  match dg_grants st !! gid with
  | None =>
      all ← on_vault (fun e => e) floors;
      throw match f_revoked (floor_of gid all) with Some _ => Revoked | None => NotEnrolled end
  | Some g =>
      lift (_ ← held_to w g st;
            if expires_ms g <=? now then Err NeedsReenroll
            else
              t ← ok_or DelegationNotPermitted (template_of w idp g st);
              _ ← firing_allowed (mkFiring nil_str nil_str (ad_workflow d) (ad_digest d) (ad_via d)) g t;
              mret (principal_of (wh_typed w) st))
  end.

Definition not_stored (e : NotStored) : Code := match e with NsSigner _ => SignerUnavailable | _ => Config end.

(** A refusal of the vault, as a call says it. *)
Definition load_refused (e : Refused) : Code :=
  match e with
  | Vault.Revoked => Revoked
  | Stale => NeedsReenroll
  | Unreadable _ => Config
  | NoSigner _ => SignerUnavailable
  end.
Definition load (g : string) : delM (Grant * string) :=
  r ← on_vault load_refused (Vault.load g);
  lift (ok_or NotEnrolled r).

Definition remember (g : Grant) : delM unit :=
  modify (fun st => set_grants (<[grant_id_ g := g]> (dg_grants st)) st).

(** The grant there is: one the signer cannot open now is not taken for none. *)
Definition existing (gid : string) : delM (option (Grant * string)) :=
  r ← try_vault (Vault.load gid);
  match r with
  | Ok g => mret g
  | Err (NoSigner _) => throw SignerUnavailable
  | Err _ => mret None
  end.

(** The metadata kept, under the new refresh token's version. *)
Definition renewed (bound_by' : option string) (consent : gmap string string) (g : Grant) : Grant :=
  mkGrant (grant_id_ g) (principal g) (Vault.fingerprint g) (Vault.idp g) (idp_iss g) (sub g) (email_hash g)
    (Vault.template g) (ceilings g) (created_ms g) (expires_ms g) (epoch g) (u64_add (rt_version g) 1) (quota g)
    bound_by' consent (Vault.ciba g).

(** The grant a sign-in makes, one epoch past every one revoked. *)
Definition enrolled_grant (w : Who) (idp : string) (c : Claims) (t : Template) (gid : string) (bound_by' : option string)
    (consent : gmap string string) (now : Z) (floor : Floor) (epoch_floor : Z) : Grant :=
  mkGrant gid (wh_typed w) (who_fingerprint w (cl_iss c) (cl_sub c)) idp (cl_iss c) (cl_sub c)
    ((fun e => sha256_hex (chars e)) <$> cl_email c) (t_name t) (ceilings_of t) now (u64_add now (template_ttl t))
    (u64_add (Z.max (default 0 (f_revoked floor)) epoch_floor) 1) (u64_add (f_version floor) 1) ∅ bound_by' consent None.

(** The grant, and the refresh token it replaced, to be revoked at the
    identity provider. *)
Definition enrolled (w : Who) (idp : string) (p : Idp) (c : Claims) (rt : string) (now : Z) (r : Draws) :
    delM (Grant * option string) :=
  st ← gets (fun st => st);
  bound_by' ← lift (bind w idp c st);
  t ← lift (ok_or DelegationNotPermitted (template_for w idp st));
  let gid := grant_id (wh_typed w) (ip_issuer p) in
  let consent := consented w idp p t st in
  old ← existing gid;
  let same g := bool_decide (Vault.fingerprint g = who_fingerprint w (cl_iss c) (cl_sub c))
                && bool_decide (sub g = cl_sub c) && bool_decide (idp_iss g = cl_iss c) && (now <? expires_ms g)
                && bool_decide (Vault.template g = t_name t) && bool_decide (ceilings g = ceilings_of t) in
  match (old ≫= fun o => if same o.1 then Some o else None) with
  | Some (g, old_rt) =>
      let g' := renewed bound_by' consent g in
      _ ← on_vault not_stored (store g' rt (Some (rt_version g)) r);
      _ ← remember g';
      mret (g', if decide (old_rt = rt) then None else Some old_rt)
  | None =>
      epoch_floor ← match old with
                    | Some (g, _) => _ ← on_vault (fun _ => Config) (tombstone gid (epoch g)); mret (epoch g)
                    | None => mret 0
                    end;
      all ← on_vault (fun e => e) floors;
      let g' := enrolled_grant w idp c t gid bound_by' consent now (floor_of gid all) epoch_floor in
      _ ← on_vault not_stored (store g' rt None r);
      _ ← remember g';
      mret (g', match old with Some (_, o) => if decide (o = rt) then None else Some o | None => None end)
  end.

(** [enrol::keep]: the grant is kept, and the session given its proof. *)
Definition keep (w : Who) (idp : string) (c : Claims) (refresh_token : option string) (now : Z) (r : Draws) :
    delM (Grant * IdpProof) :=
  st ← gets (fun st => st);
  p ← lift (ok_or Config (dg_providers st !! idp));
  rt ← lift (ok_or Config refresh_token);
  g ← enrolled w idp p c rt now r;
  let proof := mkIdpProof idp (cl_iss c) (cl_sub c) now in
  _ ← match wh_session w with
      | Some sid => modify (fun st => set_book (book_set_proof sid proof <$> dg_book st) st)
      | None => mret tt
      end;
  mret (g.1, proof).

(** *** Revoking *)

(** The tombstone, the record and the memory of a grant; whether it was
    tombstoned. *)
Definition revoke_grant (g : Grant) st : Delegation S C B * bool :=
  let '(st, _) := (on_vault (fun e => e) (Vault.load (grant_id_ g)) : stM _ Refused _) st in
  let '(st, r) := (on_vault (fun e => e) (tombstone (grant_id_ g) (epoch g)) : stM _ StoreError _) st in
  (set_grants (delete (grant_id_ g) (dg_grants st)) st, is_ok r).
Fixpoint revoke_all (l : list Grant) st : Delegation S C B * list (string * bool) :=
  match l with
  | [] => (st, [])
  | g :: l' =>
      let '(st, b) := revoke_grant g st in
      let '(st, bs) := revoke_all l' st in (st, (grant_id_ g, b) :: bs)
  end.

(** What a revocation names. *)
Inductive RevokeError : Type := NoSubject | NoGrantNames (target : string).
Definition matching (target : string) (m : gmap string Grant) : result RevokeError (list Grant) :=
  match strip_prefix "idp:" target with
  | Some rest =>
      match split_once "#" rest with
      | None => Err NoSubject
      | Some (i, s) => Ok (List.filter (fun g => bool_decide (Vault.idp g = i) && bool_decide (sub g = s)) (vals m))
      end
  | None => Ok (List.filter (fun g => bool_decide (display (principal g) = target)) (vals m))
  end.
Definition revoke (target : string) : stM (Delegation S C B) RevokeError (list (string * bool)) := fun st =>
  match matching target (dg_grants st) with
  | Err e => (st, Err e)
  | Ok [] => (st, Err (NoGrantNames target))
  | Ok l => let '(st, r) := revoke_all l st in (st, Ok r)
  end.

(** The grants someone may use through the session they ask through. *)
Definition revoke_held (w : Who) : stM (Delegation S C B) RevokeError (list (string * bool)) := fun st =>
  match List.filter (fun ig => is_ok (held_to w ig.2 st)) (held_by w st) with
  | [] => (st, Err (NoGrantNames (wh_id w)))
  | l => let '(st, r) := revoke_all l.*2 st in (st, Ok r)
  end.

(** Their grants revoked, then their personal key destroyed. *)
Definition forget (who' : string) : stM (Delegation S C B) (RevokeError + StoreError) (list (string * bool) * option string) :=
  r ← attempt ((fun st => let '(st, r) := revoke who' st in (st, map_err inl r)) : stM _ (RevokeError + StoreError) _);
  revoked ← match r with
            | Ok l => mret l
            | Err (inl (NoGrantNames _)) => mret []
            | Err e => throw e
            end;
  key ← on_vault inr (forget_personal who');
  mret (revoked, key).

(** *** A reload *)

(** Why a grant is no longer allowed. *)
Inductive Cleared : Type :=
  | TemplateRemoved
  | ServerRemoved (server : string)
  | PinChanged
  | PinRemoved
  | FirstBindingOff.

Definition device_of (g : Grant) : option string :=
  if decide (source (principal g) = Device) then Some (stable_id (principal g)) else None.

Definition cleared_by (templates : list Template) (pins : gmap string IdpSubject) (first_was first : bool) (g : Grant) :
    option Cleared :=
  match match List.find (fun t => bool_decide (t_name t = Vault.template g)) templates with
        | None => Some TemplateRemoved
        | Some t => ServerRemoved <$> List.find (fun s => bool_decide (t_servers t !! s = None)) (entries (ceilings g)).*1
        end with
  | Some why => Some why
  | None =>
      name ← device_of g;
      match pins !! name with
      | Some pin =>
          if bool_decide (is_iss pin = idp_iss g) && bool_decide (is_sub pin = sub g) then None else Some PinChanged
      | None =>
          if decide (bound_by g = Some BOUND_BY_PIN) then Some PinRemoved
          else if bool_decide (bound_by g = Some BOUND_BY_FIRST) && first_was && negb first then Some FirstBindingOff
          else None
      end
  end.

(** The grants to revoke with why, and the names whose bindings clear. *)
Definition reload (templates : list Template) (pins : gmap string IdpSubject) (first : bool) st :
    Delegation S C B * (list (Grant * Cleared) * list string) :=
  let old_pins := dg_pins st in
  let first_was := dg_first_binding st in
  let st := set_rules templates pins first st in
  let out := omap (fun g => (fun w => (g, w)) <$> cleared_by templates pins first_was first g) (vals (dg_grants st)) in
  let changed := (List.filter (fun np => negb (bool_decide (pins !! np.1 = Some np.2))) (entries old_pins)).*1 in
  let cleared := sorted_set (changed ++ omap (device_of ∘ fst) out) in
  (set_book (foldl (fun b n => book_drop_device_proofs n <$> b) (dg_book st) cleared) st, (out, cleared)).
End delegation.
End Delegation.
