(* ===== verification/DelegationProps.v ===== *)
(** * Whom a delegated call acts for

    Theorems on [Delegation]: over a store that only agentd writes, every
    grant held or stored is the one its key names, for the subject the
    identity provider proved; so an admitted call acts under the grant of
    whoever it is for, within what was consented. *)

From S2P Require Export Delegation VaultProps AccessProps.

Module DelegationProps.
Import Vault VaultProps Delegation.
Local Open Scope Z_scope.

(** ** The vault's records through its operations *)

Section records.
Context {S C : Type} `{StoreOk S} `{Clock} `{JsonLen} `{AnchorLog C} `{Seal.Aead} {sha : Sha}.
Implicit Types (v : Vault S C) (d : Durable S).

(** Every grant's record that reads. *)
Variable P : string -> Grant -> Prop.
Definition recs_d d : Prop := forall g env s,
  Restore.stored d Cred (id g) env -> from_value (env_state env) = Some s -> P g (s_grant s).
Definition recs v : Prop := recs_d (v_durable v).

(** Nothing live is new. *)
Definition fewer d d' : Prop :=
  static d d' /\ forall g q x, live (dview d') (d_key d Cred (id g)) q x -> live (dview d) (d_key d Cred (id g)) q x.
Lemma fewer_recs d d' : fewer d d' -> recs_d d -> recs_d d'.
Proof.
  intros [Hs Hl] Hr g env s (q & x & Hx & Hf) Hd. rewrite (d_key_static _ _ _ _ Hs) in Hx.
  eapply Hr; [|done]. exists q, x. by split; [apply Hl|].
Qed.
Lemma fewer_view d d' : static d d' -> dview d' = dview d -> fewer d d'.
Proof. intros Hs Hv. split; [done|]. by rewrite Hv. Qed.

Lemma fewer_get k i d : fewer d (get_entity k i d).1.
Proof. pose proof (get_entity_spec k i d) as Hg. destruct (get_entity k i d) as [d' r]. apply fewer_view; by destruct Hg as (? & ? & _). Qed.
Lemma fewer_list k i d : fewer d (list_prefix k i d).1.
Proof. pose proof (list_prefix_spec k i d) as Hg. destruct (list_prefix k i d) as [d' r]. destruct Hg as ((? & ? & _) & _). by apply fewer_view. Qed.
Lemma fewer_delete i d : fewer d (delete_entity Cred i d).1.
Proof.
  pose proof (delete_spec Cred i d) as Hg. destruct (delete_entity Cred i d) as [d' r]. destruct Hg as (Hs & Hne & He & _).
  split; [done|]. intros g q x Hl. destruct (decide (d_key d Cred (id g) = d_key d Cred i)) as [E|E].
  - rewrite E in *. by apply He.
  - cbn [fst] in *. unfold live in *. by rewrite <- Hne.
Qed.
Lemma fewer_put i x d : (forall g, i <> id g) -> fewer d (put Cred i x None d).1.
Proof.
  intros Hi. pose proof (put_spec Cred i x None d) as Hg. destruct (put Cred i x None d) as [d' r]. destruct Hg as (Hs & Hw & _).
  split; [done|]. intros g q y Hl. cbn [fst] in *. unfold live in *. rewrite <- (maybe_wrote_frame _ _ _ _ _ _ _ Hw); [done|].
  intros E. apply d_key_inj in E. by eapply Hi.
Qed.

(** A grant's record written. *)
Lemma recs_put_grant s d :
  P (grant_id_ (s_grant s)) (s_grant s) -> grant_ok (s_grant s) ->
  recs_d d -> recs_d (put Cred (id (grant_id_ (s_grant s))) (to_value s) None d).1.
Proof.
  intros Hp Hok Hr. pose proof (put_spec Cred (id (grant_id_ (s_grant s))) (to_value s) None d) as Hg.
  destruct (put _ _ _ _ d) as [d' r]. cbn [fst]. destruct Hg as (Hs & Hw & _).
  destruct Hw as [Hw|(q & ts & Hw)]; [by apply (fewer_recs d); [apply fewer_view|]|].
  intros g env s' (q' & x & [Hx Ht] & Hf) Hd. rewrite (d_key_static _ _ _ _ Hs), Hw in Hx.
  destruct (decide (d_key d Cred (id (grant_id_ (s_grant s))) = d_key d Cred (id g))) as [E|E].
  - rewrite <- E, lookup_insert_eq in Hx. apply Some_inj, pair_equal_spec in Hx as [_ <-].
    rewrite (from_to_value (A := Envelope)) in Hf. apply Some_inj in Hf as <-. cbn [env_state] in Hd.
    rewrite stored_round_trip in Hd by done. apply Some_inj in Hd as <-.
    apply d_key_inj, string_app_inj in E. by subst g.
  - rewrite lookup_insert_ne in Hx by done. eapply Hr; [|done]. by exists q', x.
Qed.

Abbreviation vaultM E := (stM (Vault S C) E).

Lemma recs_on_durable {A E} (f : StoreError -> E) (m : stM (Durable S) StoreError A) :
  (forall d, recs_d d -> recs_d (m d).1) -> preserves recs (on_durable f m : vaultM E A).
Proof. intros Hm v Hv. unfold on_durable, recs. specialize (Hm _ Hv). by destruct (m (v_durable v)). Qed.
Lemma recs_get {E} (f : StoreError -> E) k i : preserves recs (on_durable f (get_entity k i) : vaultM E _).
Proof. apply recs_on_durable. intros d. apply fewer_recs, fewer_get. Qed.
Lemma recs_list {E} (f : StoreError -> E) k i : preserves recs (on_durable f (list_prefix k i) : vaultM E _).
Proof. apply recs_on_durable. intros d. apply fewer_recs, fewer_list. Qed.
Lemma recs_delete {E} (f : StoreError -> E) i : preserves recs (on_durable f (delete_entity Cred i) : vaultM E _).
Proof. apply recs_on_durable. intros d. apply fewer_recs, fewer_delete. Qed.
Lemma recs_put_register {E} (f : StoreError -> E) x : preserves recs (on_durable f (put Cred REGISTER x None) : vaultM E _).
Proof. apply recs_on_durable. intros d. by apply fewer_recs, fewer_put. Qed.
#[local] Hint Resolve recs_get recs_list recs_delete recs_put_register : preserves.

Lemma recs_stored_floors {E} : preserves recs (stored_floors : vaultM E _).
Proof.
  intros v Hv. unfold stored_floors, recs. pose proof (fewer_get Cred REGISTER (v_durable v)) as Hf.
  destruct (get_entity _ _ _) as [d r]. by apply (fewer_recs (v_durable v)).
Qed.
#[local] Hint Resolve recs_stored_floors : preserves.
Lemma recs_ids {E} : preserves recs (ids : vaultM E _).
Proof.
  intros v Hv. unfold ids, recs. pose proof (fewer_list Cred GRANT_PREFIX (v_durable v)) as Hf.
  destruct (list_prefix _ _ _) as [d r]. by apply (fewer_recs (v_durable v)).
Qed.
Ltac recs := solve_preserves ltac:(by apply preserves_modify).
Lemma recs_floors {E} : preserves recs (floors : vaultM E _).
Proof. unfold floors. recs. Qed.
Lemma recs_anchor_lacking {E} this : preserves recs (anchor_lacking this : vaultM E _).
Proof. unfold anchor_lacking. recs. Qed.
#[local] Hint Resolve recs_floors recs_anchor_lacking : preserves.
Lemma recs_raise {E} shown g f : preserves recs (raise shown g f : vaultM E _).
Proof. unfold raise. recs. Qed.
#[local] Hint Resolve recs_raise : preserves.
Lemma recs_stored g : preserves recs (Vault.stored g : vaultM _ _).
Proof. unfold Vault.stored. recs. Qed.
#[local] Hint Resolve recs_stored : preserves.
Lemma recs_vault_load g : preserves recs (Vault.load g : vaultM _ _).
Proof. unfold Vault.load. recs. Qed.
#[local] Hint Resolve recs_vault_load : preserves.
Lemma recs_meta g : preserves recs (meta g : vaultM _ _).
Proof. unfold meta. recs. Qed.
Lemma recs_raise_then_delete fl k e : preserves recs (raise_then_delete fl k e : vaultM _ _).
Proof. unfold raise_then_delete. recs. Qed.
#[local] Hint Resolve recs_raise_then_delete : preserves.
Lemma recs_tombstone g e : preserves recs (tombstone g e : vaultM _ _).
Proof. apply recs_raise_then_delete. Qed.
Lemma recs_forget_personal p : preserves recs (forget_personal p : vaultM _ _).
Proof. unfold forget_personal, personal_stored. recs. Qed.
Lemma recs_store g rt over r :
  P (grant_id_ g) g -> grant_ok g -> preserves recs (Vault.store g rt over r : vaultM _ _).
Proof.
  intros Hp Hok. unfold Vault.store, store_ahead, version_now. recs.
  apply recs_on_durable. intros d Hd.
  match goal with |- context [to_value (mkStored g ?x ?y)] => apply (recs_put_grant (mkStored g x y) d) end; done.
Qed.

(** What the vault answers of a key is what its record may be. *)
Lemma stored_is g v s : recs v -> (Vault.stored g v).2 = Ok (Some s) -> P g (s_grant s).
Proof.
  intros Hv E. destruct (Vault.stored g v) as [v' r] eqn:Es. cbn in E. subst r. unfold Vault.stored in Es.
  apply bind_Ok in Es as (v1 & env & E1 & E2). unfold on_durable in E1.
  pose proof (get_stored Cred (id g) (v_durable v)) as Hg.
  destruct (get_entity Cred (id g) (v_durable v)) as [d1 [o|e]]; [|done]. injection E1 as <- <-.
  destruct o as [env|]; [|done]. destruct Hg as [_ Hg].
  apply bind_Ok in E2 as (v2 & s' & E2 & E3). unfold lift, ok_or in E2.
  destruct (from_value (env_state env) : option Stored) as [x|] eqn:Ex; [|done]. injection E2 as <- <-.
  apply bind_Ok in E3 as (v3 & all & _ & E3). cbv zeta in E3.
  repeat case_match; try done; unfold mret, stM_ret in E3; injection E3 as _ <-; by eapply Hv.
Qed.
Lemma load_is g v x rt : recs v -> (Vault.load g v).2 = Ok (Some (x, rt)) -> P g x.
Proof.
  intros Hv E. destruct (Vault.load g v) as [v' r] eqn:El. cbn in E. subst r. unfold Vault.load in El.
  apply bind_Ok in El as (v1 & [s|] & E1 & E2); [|done].
  apply bind_Ok in E2 as (v2 & k & _ & E2). apply bind_Ok in E2 as (v3 & rt' & _ & E2). injection E2 as _ <- _.
  apply (stored_is g v s Hv). by rewrite E1.
Qed.
Lemma meta_is g v x : recs v -> (meta g v).2 = Ok (Some x) -> P g x.
Proof.
  intros Hv E. destruct (meta g v) as [v' r] eqn:Em. cbn in E. subst r. unfold meta in Em.
  apply bind_Ok in Em as (v1 & b & [= <- _] & E2). destruct b.
  - apply bind_Ok in E2 as (v2 & [s|] & E2 & E3); [|done]. injection E3 as _ <-. apply (stored_is g v s Hv). by rewrite E2.
  - apply bind_Ok in E2 as (v2 & [[y rt]|] & E2 & E3); [|done]. injection E3 as _ <-. apply (load_is g v y rt Hv). by rewrite E2.
Qed.
End records.

(** ** Grants and the keys they are held under *)

(** A principal whose fields a length prefix carries. *)
Definition typed_short (p : PrincipalRef) : Prop :=
  short (issuer p) /\ short (default nil_str (tenant p)) /\ short (stable_id p).

Lemma parts_short p iss : typed_short p -> short iss -> Forall short (grant_parts p iss).
Proof. intros (? & ? & ?) ?. repeat constructor; try done; by destruct (source p). Qed.

Section grants.
Context {S C B : Type} `{StoreOk S} `{Clock} `{JsonLen} `{AnchorLog C} `{Seal.Aead} {sha : Sha} `{SessionBook B}.
Implicit Types (st : Delegation S C B) (v : Vault S C).

(** The issuers the identity providers of this life and earlier ones were
    configured with. *)
Variable issuers : list string.

(** The key is the grant's own, of its principal at some provider; an OIDC
    subject's grant is for that very subject. *)
Definition own (k : string) (g : Grant) : Prop :=
  k = grant_id_ g /\ grant_ok g /\ typed_short (principal g) /\
  (exists iss, iss ∈ issuers /\ k = grant_id (principal g) iss) /\
  (source (principal g) = Oidc -> idp_iss g = issuer (principal g) /\ Vault.sub g = stable_id (principal g)).

Definition persons_local (l : list Person) : Prop := forall p, p ∈ l -> source (pe_typed p) <> Oidc.
Definition sound st : Prop :=
  (forall k g, dg_grants st !! k = Some g -> own k g) /\ recs own (dg_vault st) /\
  persons_local (dg_persons st) /\
  (forall n p, dg_providers st !! n = Some p -> ip_issuer p ∈ issuers) /\
  (forall n s, dg_servers st !! n = Some s -> sv_name s = n).

(** Only a session of a verified token is for an OIDC subject. *)
Definition typed_fits (w : Who) : Prop :=
  match wh_kind w with KPerson _ _ _ | KDevice _ => source (wh_typed w) <> Oidc | _ => True end.

Lemma find_elem {A} (f : A -> bool) l x : List.find f l = Some x -> x ∈ l /\ f x = true.
Proof. intros E%find_some. by rewrite list_elem_of_In. Qed.

Lemma who_of_fits p st w : persons_local (dg_persons st) -> who_of p st = Some w -> typed_fits w.
Proof.
  intros Hp E. unfold who_of in E. destruct (decide (_ \/ _)); [|destruct (decide (_ = "oidc")); [|done]].
  - destruct (List.find _ _) as [x|] eqn:Ef; [|done]. apply find_elem in Ef as [Hx _]. injection E as <-.
    by apply Hp.
  - destruct (af_issuer p), (af_sub p); try done. by injection E as <-.
Qed.
Lemma who_fits a st w : persons_local (dg_persons st) -> who a st = Ok w -> typed_fits w.
Proof.
  intros Hp E. unfold who in E. destruct (ac_session a) as [sid|].
  - destruct (starts_with _ _).
    + unfold firing_who in E. case_decide; [done|]. destruct (dg_firings st !! sid) as [[f p]|]; [|done].
      destruct (who_of p st) as [x|] eqn:Ex; [|done]. injection E as <-. apply who_of_fits in Ex; [|done].
      by destruct x.
    + destruct (book_of sid st) as [s|]; [|done]. destruct (match ac_principal a with Some _ => _ | None => _ end); [done|].
      unfold session_who in E. destruct (se_inbound s) as [ib|].
      * case_decide; [|done]. by injection E as <-.
      * destruct (source (se_typed s)) eqn:Es; try done; injection E as <-; unfold typed_fits; cbn; [done|]. by rewrite Es.
  - destruct (ac_principal a ≫= _) as [p|] eqn:Ep; [|done]. injection E as <-.
    destruct (ac_principal a) as [x|]; [|done]. apply find_elem in Ep as [Hx _]. by apply Hp.
Qed.

(** *** Operations keep it *)

Lemma sound_same st st' :
  dg_grants st' = dg_grants st -> dg_vault st' = dg_vault st -> dg_persons st' = dg_persons st ->
  dg_providers st' = dg_providers st -> dg_servers st' = dg_servers st -> sound st -> sound st'.
Proof. unfold sound. by intros -> -> -> -> ->. Qed.
Lemma sound_vault v st : recs own v -> sound st -> sound (set_vault v st).
Proof. by intros Hv (? & _ & ?). Qed.
Lemma sound_on_vault {A E F} (f : E -> F) (m : stM (Vault S C) E A) :
  preserves (recs own) m -> preserves sound (on_vault f m : stM (Delegation S C B) F A).
Proof.
  intros Hm st Hst. unfold on_vault. specialize (Hm (dg_vault st) (proj1 (proj2 Hst))).
  destruct (m (dg_vault st)) as [v r]. by apply sound_vault.
Qed.
Lemma sound_try_vault {A E F} (m : stM (Vault S C) E A) :
  preserves (recs own) m -> preserves sound (try_vault m : stM (Delegation S C B) F (result E A)).
Proof.
  intros Hm st Hst. unfold try_vault. specialize (Hm (dg_vault st) (proj1 (proj2 Hst))).
  destruct (m (dg_vault st)) as [v r]. by apply sound_vault.
Qed.

Lemma sound_load_grants st :
  recs own (dg_vault st) -> persons_local (dg_persons st) ->
  (forall n p, dg_providers st !! n = Some p -> ip_issuer p ∈ issuers) ->
  (forall n s, dg_servers st !! n = Some s -> sv_name s = n) -> sound (load_grants st).
Proof.
  intros Hv Hp Hi Hs. unfold load_grants. pose proof (recs_ids own (E := Code) (dg_vault st) Hv) as Hv1.
  destruct (ids (dg_vault st)) as [v r]. cbn [fst] in Hv1.
  assert (forall l m v, recs own v -> (forall k g, m !! k = Some g -> own k g) ->
    recs own (load_each l m v).1 /\ forall k g, (load_each l m v).2 !! k = Some g -> own k g) as Hl.
  { clear v r Hv1 Hv. intros l. induction l as [|g l IH]; intros m v Hv Hm; cbn [load_each]; [by split|].
    pose proof (recs_meta own g v Hv) as Hv2. pose proof (meta_is own g v) as Hx.
    destruct (meta g v) as [v' r]. cbn [fst snd] in *. apply IH; [done|].
    destruct r as [[x|]|e]; [|done..]. intros k y. destruct (decide (k = g)) as [->|Hne].
    - rewrite lookup_insert_eq. intros E. injection E as <-. by apply Hx.
    - rewrite lookup_insert_ne by done. apply Hm. }
  specialize (Hl (default [] (ok r)) ∅ v Hv1). destruct (load_each _ _ _) as [v' m].
  destruct Hl as [Hv' Hm]; [by intros k g Hk; rewrite lookup_empty in Hk|]. by split_and!.
Qed.

Lemma bound_subject w idp c st b :
  bind w idp c st = Ok b -> typed_fits w -> source (wh_typed w) = Oidc ->
  cl_iss c = issuer (wh_typed w) /\ cl_sub c = stable_id (wh_typed w).
Proof.
  unfold bind, typed_fits. intros E Hf Hs. destruct (wh_kind w); try done;
    unfold same_identity in E; destruct (_ && _) eqn:Eb; try done; by apply andb_true_iff in Eb as [?%bool_decide_eq_true ?%bool_decide_eq_true].
Qed.

Lemma preserves_lift_bind {X E A D} (I : X -> Prop) (r : result E A) (f : A -> stM X E D) :
  (forall a, r = Ok a -> preserves I (f a)) -> preserves I (lift r ≫= f).
Proof. intros Hf s Hs. unfold mbind, stM_bind, lift. destruct r as [a|e]; [by apply Hf|done]. Qed.
Lemma preserves_gets_bind {X E A D} (I : X -> Prop) (g : X -> A) (f : A -> stM X E D) :
  (forall s, I s -> preserves I (f (g s))) -> preserves I (gets g ≫= f).
Proof. intros Hf s Hs. unfold mbind, stM_bind, gets. by apply Hf. Qed.

#[local] Hint Resolve recs_vault_load recs_floors recs_tombstone recs_forget_personal : preserves.
#[local] Hint Resolve sound_on_vault sound_try_vault : preserves.

Lemma existing_is gid :
  hoare sound (existing gid : stM (Delegation S C B) Code _)
    (fun r st => sound st /\ match r with Ok (Some (x, _)) => own gid x | _ => True end).
Proof.
  intros st Hst. unfold existing, try_vault, mbind, stM_bind.
  pose proof (recs_vault_load own gid (dg_vault st) (proj1 (proj2 Hst))) as Hv.
  pose proof (load_is own gid (dg_vault st)) as Hx.
  destruct (Vault.load gid (dg_vault st)) as [v [[[x rt]|]|e]]; cbn [fst snd] in *.
  - split; [by apply sound_vault|]. eapply Hx; [apply Hst|done].
  - split; [by apply sound_vault|done].
  - destruct e; (split; [by apply sound_vault|done]).
Qed.

Lemma own_renewed k b consent g : own k g -> own k (renewed b consent g).
Proof. by intros (? & ? & ? & ? & ?). Qed.
Lemma own_fresh w idp p c t b consent now fl e st :
  bind w idp c st = Ok b -> typed_fits w -> typed_short (wh_typed w) -> ip_issuer p ∈ issuers ->
  own (grant_id (wh_typed w) (ip_issuer p))
    (enrolled_grant w idp c t (grant_id (wh_typed w) (ip_issuer p)) b consent now fl e).
Proof.
  intros Hb Hf Ht Hi. unfold own. cbn. split; [done|]. split; [|split; [done|split; [by exists (ip_issuer p)|]]].
  - split; cbn; [|done]. intros k q Hk. by rewrite lookup_empty in Hk.
  - intros Hs. by eapply bound_subject.
Qed.

Lemma sound_remember g : own (grant_id_ g) g -> preserves sound (Delegation.remember g : stM (Delegation S C B) Code unit).
Proof.
  intros Hg. apply preserves_modify. intros st (Hm & Hst). split; [|done].
  intros k x. cbn. destruct (decide (k = grant_id_ g)) as [->|Hne].
  - rewrite lookup_insert_eq. by intros [= <-].
  - rewrite lookup_insert_ne by done. apply Hm.
Qed.
Lemma sound_kept g rt over r :
  own (grant_id_ g) g ->
  preserves sound (_ ← on_vault not_stored (Vault.store g rt over r); Delegation.remember g : stM (Delegation S C B) Code unit).
Proof.
  intros Hg. apply preserves_bind; [|intros _; by apply sound_remember].
  apply sound_on_vault, recs_store; [done|by apply Hg].
Qed.

Lemma sound_enrolled w idp p c rt now r :
  typed_fits w -> typed_short (wh_typed w) -> ip_issuer p ∈ issuers ->
  preserves sound (enrolled w idp p c rt now r : stM (Delegation S C B) Code _).
Proof.
  intros Hf Ht Hi. unfold enrolled. apply preserves_gets_bind. intros st _.
  apply preserves_lift_bind. intros b Hb. apply preserves_lift_bind. intros t _. cbv zeta.
  eapply hoare_bind; [apply existing_is| |by intros e s [? _]]. intros old.
  destruct (old ≫= _) as [[g old_rt]|] eqn:Eo.
  - intros st1 [Hst1 Hown]. destruct old as [[x rt']|]; [|done]. cbn in Eo.
    match type of Eo with (if ?b then _ else _) = _ => destruct b; [|done] end.
    injection Eo as -> ->. apply (own_renewed _ b (consented w idp p t st)) in Hown as Hr.
    assert (own (grant_id_ (renewed b (consented w idp p t st) g)) (renewed b (consented w idp p t st) g)) as Hg.
    { destruct Hr as [Ek Hr']. rewrite <- Ek. by split. }
    revert st1 Hst1. apply preserves_bind; [apply sound_on_vault, recs_store; [done|by apply Hg]|].
    intros _. apply preserves_bind; [by apply sound_remember|]. intros _. apply preserves_ret.
  - apply (hoare_conseq _ sound _ _ (fun _ => sound)); [|by intros s [? _]|done].
    apply preserves_bind; [destruct old as [[g ?]|]; [apply preserves_bind|]; auto with preserves|].
    intros e. apply preserves_bind; [auto with preserves|]. intros all.
    pose proof (own_fresh w idp p c t b (consented w idp p t st) now (floor_of (grant_id (wh_typed w) (ip_issuer p)) all) e st
      Hb Hf Ht Hi) as Hg.
    apply preserves_bind; [apply sound_on_vault, recs_store; [done|by apply Hg]|].
    intros _. apply preserves_bind; [by apply sound_remember|]. intros _. apply preserves_ret.
Qed.

Lemma sound_keep w idp c rt now r :
  typed_fits w -> typed_short (wh_typed w) -> preserves sound (keep w idp c rt now r : stM (Delegation S C B) Code _).
Proof.
  intros Hf Ht. unfold keep. apply preserves_gets_bind. intros st Hst.
  apply preserves_lift_bind. intros p Hp. apply preserves_lift_bind. intros rt' _.
  apply preserves_bind; [apply sound_enrolled; [done..|]|].
  { unfold ok_or in Hp. destruct (dg_providers st !! idp) as [x|] eqn:E; [|done]. injection Hp as <-. by eapply Hst. }
  intros g. apply preserves_bind; [|intros _; apply preserves_ret].
  destruct (wh_session w); [|apply preserves_ret]. apply preserves_modify. intros s0. by apply sound_same.
Qed.

Lemma sound_revoke_grant g st : sound st -> sound (revoke_grant g st).1.
Proof.
  intros Hst. unfold revoke_grant.
  pose proof (sound_on_vault (F := Refused) (fun e => e) (Vault.load (grant_id_ g)) (recs_vault_load own _) st Hst) as H1'.
  destruct (on_vault _ (Vault.load _) st) as [st1 r1]. cbn [fst] in H1'.
  pose proof (sound_on_vault (F := StoreError) (fun e => e) (tombstone (grant_id_ g) (epoch g))
    (recs_raise_then_delete own _ _ _) st1 H1') as H2'.
  destruct (on_vault _ (tombstone _ _) st1) as [st2 r2]. cbn [fst] in *. destruct H2' as (Hm & Hst2).
  split; [|done]. intros k x Hk. cbn in Hk. apply lookup_delete_Some in Hk as [_ Hk]. by apply Hm.
Qed.
Lemma sound_revoke_all l st : sound st -> sound (revoke_all l st).1.
Proof.
  revert st. induction l as [|g l IH]; intros st Hst; [done|]. cbn [revoke_all].
  pose proof (sound_revoke_grant g st Hst) as Hs. destruct (revoke_grant g st) as [st1 b]. specialize (IH st1 Hs).
  by destruct (revoke_all l st1).
Qed.
Lemma sound_revoke t : preserves sound (revoke t : stM (Delegation S C B) _ _).
Proof.
  intros st Hst. unfold revoke. destruct (matching _ _) as [[|g l]|e]; [done| |done].
  pose proof (sound_revoke_all (g :: l) st Hst). by destruct (revoke_all _ st).
Qed.
Lemma sound_revoke_held w : preserves sound (revoke_held w : stM (Delegation S C B) _ _).
Proof.
  intros st Hst. unfold revoke_held. destruct (List.filter _ _) as [|g l]; [done|].
  pose proof (sound_revoke_all (g :: l).*2 st Hst). by destruct (revoke_all _ st).
Qed.
Lemma sound_forget t : preserves sound (forget t : stM (Delegation S C B) _ _).
Proof.
  unfold forget. apply preserves_bind.
  { apply preserves_attempt. intros st Hst. pose proof (sound_revoke t st Hst). by destruct (revoke t st). }
  intros r. apply preserves_bind; [|intros l; apply preserves_bind; [auto with preserves|intros ?; apply preserves_ret]].
  destruct r as [l|[[]|]]; auto with preserves.
Qed.
Lemma sound_admit a server now : preserves sound (admit_ a server now : stM (Delegation S C B) _ _).
Proof.
  unfold admit_, admit_who. solve_preserves ltac:(fail).
Qed.

(** ** What can have happened *)

(** A start over a store agentd alone wrote, and the operations, of people
    whose fields are of a length that can be. *)
Inductive come_to : Delegation S C B -> Prop :=
  | r_built providers servers templates pins first persons v :
      recs own v -> persons_local persons -> (forall n p, providers !! n = Some p -> ip_issuer p ∈ issuers) ->
      (forall n s, servers !! n = Some s -> sv_name s = n) ->
      come_to (build providers servers templates pins first persons v)
  | r_book b st : come_to st -> come_to (set_book b st)
  | r_acts l st : come_to st -> come_to (set_acts l st)
  | r_firing f p st : come_to st -> come_to (firing_started f p st)
  | r_admit a server now st : come_to st -> come_to (admit_ a server now st).1
  | r_keep a w idp c rt now r st0 st :
      come_to st0 -> dg_persons st0 = dg_persons st -> who a st0 = Ok w -> typed_short (wh_typed w) ->
      come_to st -> come_to (keep w idp c rt now r st).1
  | r_revoke t st : come_to st -> come_to (revoke t st).1
  | r_revoke_held w st : come_to st -> come_to (revoke_held w st).1
  | r_forget t st : come_to st -> come_to (forget t st).1
  | r_reload templates pins first st : come_to st -> come_to (reload templates pins first st).1.

Lemma reached_sound st : come_to st -> sound st.
Proof.
  induction 1 as [providers servers templates pins first persons v Hv Hp Hi Hs|b st _ IH|l st _ IH|f p st _ IH
    |a server now st _ IH|a w idp c rt now r st0 st _ IH0 Ep Hw Ht _ IH|t st _ IH|w st _ IH|t st _ IH|templates pins first st _ IH].
  - by apply sound_load_grants.
  - by apply (sound_same st).
  - by apply (sound_same st).
  - by apply (sound_same st).
  - by apply sound_admit.
  - apply sound_keep; [|done..]. eapply who_fits; [|done]. rewrite Ep. apply IH.
  - by apply sound_revoke.
  - by apply sound_revoke_held.
  - by apply sound_forget.
  - by apply (sound_same st).
Qed.

(** ** What is admitted *)

(** The subject of the grant is who asks, as they stand now. *)
Definition acts_as st (w : Who) (g : Grant) : Prop :=
  match wh_kind w with
  | KPerson _ iss s => idp_iss g = iss /\ Vault.sub g = s
  | KOidc => idp_iss g = issuer (wh_typed w) /\ Vault.sub g = stable_id (wh_typed w)
  | KInbound i _ _ => source (wh_typed w) = Oidc ->
      (idp_iss g = i \/ idp_iss g = issuer (wh_typed w)) /\ Vault.sub g = stable_id (wh_typed w)
  | KDevice name =>
      (exists p, wh_proof w = Some p /\ pf_iss p = idp_iss g /\ pf_sub p = Vault.sub g) /\
      (forall pin, pin_of name st = Some pin -> pin = mkIdpSubject (idp_iss g) (Vault.sub g)) /\
      (bound_by g = Some BOUND_BY_FIRST -> dg_first_binding st = true)
  end.

(** One ceiling within another. *)
Definition within (c c' : gmap string (list string)) : Prop :=
  forall s l, c !! s = Some l -> exists l', c' !! s = Some l' /\ l ⊆ l'.

Lemma narrowed_within c t : within (narrowed c t) c /\ within (narrowed c t) (t_servers t).
Proof.
  unfold within, narrowed. setoid_rewrite map_lookup_imap. split; intros s l E.
  all: destruct (c !! s) as [x|] eqn:Ec; [|done]; cbn in E; destruct (t_servers t !! s) as [n|] eqn:Et; [|done].
  all: cbn in E; injection E as <-; eexists; split; [done|]; intros y Hy; rewrite list_elem_of_In, filter_In in Hy.
  all: destruct Hy as [Hin Hh%bool_decide_eq_true]; first [done|by rewrite list_elem_of_In].
Qed.

(** No grant held is found under the caller's key by a collision of the
    digest: at the issuers there have been, what was digested is the same. *)
Definition no_mistake st (w : Who) : Prop := forall k g iss iss',
  dg_grants st !! k = Some g -> iss ∈ issuers -> iss' ∈ issuers ->
  grant_id (principal g) iss = grant_id (wh_typed w) iss' ->
  grant_preimage (principal g) iss = grant_preimage (wh_typed w) iss'.

(** A refusal aside, [held_to] says who the grant is for. *)
Lemma held_acts_as st w g k :
  held_to w g st = Ok tt -> own k g -> typed_fits w ->
  (match wh_kind w with KOidc => source (wh_typed w) = Oidc | _ => True end) ->
  source (principal g) = source (wh_typed w) -> issuer (principal g) = issuer (wh_typed w) ->
  stable_id (principal g) = stable_id (wh_typed w) -> acts_as st w g.
Proof.
  intros E (_ & _ & _ & _ & Ho) Hf Hk Hs Hi Hd. rewrite Hs, Hi, Hd in Ho.
  unfold held_to, acts_as in *. destruct (wh_kind w) as [i c b|f iss s| |name].
  - intros Hs'. destruct (Ho Hs') as [-> ->]. split; [by right|done].
  - destruct (_ || _) eqn:Eb; [done|]. apply orb_false_iff in Eb as [_ Eb]. by case_bool_decide; case_bool_decide.
  - by apply Ho.
  - destruct (wh_proof w) as [p|]; [|done]. destruct (_ || _) eqn:Ep in E; [done|].
    apply orb_false_iff in Ep as [?%negb_false_iff%bool_decide_eq_true ?%negb_false_iff%bool_decide_eq_true].
    split; [by exists p|]. destruct (pin_of name st) as [pin|].
    + destruct (_ || _) eqn:Ep in E; [done|].
      apply orb_false_iff in Ep as [?%negb_false_iff%bool_decide_eq_true ?%negb_false_iff%bool_decide_eq_true].
      split; [intros x [= <-]; by destruct pin; cbn in *; subst|].
      intros Eb. rewrite bool_decide_eq_true_2 in E by done. by destruct (dg_first_binding st).
    + split; [done|]. intros Eb. rewrite bool_decide_eq_true_2 in E by done. by destruct (dg_first_binding st).
Qed.

Lemma who_shape a st w : who a st = Ok w ->
  match wh_kind w with KOidc => source (wh_typed w) = Oidc | KInbound _ _ _ => wh_firing w = None | _ => True end.
Proof.
  intros E. unfold who in E. destruct (ac_session a) as [sid|].
  - destruct (starts_with _ _).
    + unfold firing_who in E. case_decide; [done|]. destruct (dg_firings st !! sid) as [[f p]|]; [|done].
      destruct (who_of p st) as [x|] eqn:Ex; [|done]. injection E as <-. cbn. unfold who_of in Ex.
      destruct (decide (_ \/ _)); [|destruct (decide (_ = "oidc")); [|done]].
      * destruct (List.find _ _); [|done]. by injection Ex as <-.
      * destruct (af_issuer p), (af_sub p); try done. by injection Ex as <-.
    + destruct (book_of sid st) as [s|]; [|done]. destruct (match ac_principal a with Some _ => _ | None => _ end); [done|].
      unfold session_who in E. destruct (se_inbound s) as [ib|].
      * case_decide; [|done]. by injection E as <-.
      * destruct (source (se_typed s)) eqn:Es; try done; by injection E as <-.
  - destruct (ac_principal a ≫= _) as [p|]; [|done]. by injection E as <-.
Qed.

(** A grant that is held, narrowed to what its template allows now. *)
Lemma admit_held_Ok w server s g now st adm :
  admit_held w server s g now st = Ok adm ->
  let t := adm_template adm in
  adm = mkAdmitted (with_ceilings (narrowed (ceilings g) t) g) w t /\
  held_to w g st = Ok tt /\ now < expires_ms g /\ t ∈ dg_templates st /\ admits t w (sv_idp s) = true /\
  is_Some (ceilings (adm_grant adm) !! server) /\
  (forall f, wh_firing w = Some f ->
    allows_unattended t (fi_via f) = true /\ Vault.unattended g !! fi_workflow f = Some (fi_digest f)).
Proof.
  unfold admit_held. intros E. apply res_bind_Ok in E as ([] & Eh & E).
  destruct (expires_ms g <=? now) eqn:Ee; [done|]. apply res_bind_Ok in E as (t & Et & E).
  unfold template_of, ok_or in Et. destruct (List.find _ _) as [t'|] eqn:Ef; [|done]. injection Et as ->.
  apply find_elem in Ef as [Hin Ha]. apply andb_true_iff in Ha as [_ Ha]. cbv zeta in E.
  apply res_bind_Ok in E as ([] & Ew & E).
  destruct (ceilings (with_ceilings (narrowed (ceilings g) t) g) !! server) eqn:Ec; [|done]. injection E as <-.
  cbv zeta. cbn [adm_template adm_grant]. split_and!; try done; [lia|].
  intros f Hf. rewrite Hf in Ew. unfold firing_allowed in Ew. destruct (allows_unattended t (fi_via f)); [|done].
  cbn [negb] in Ew. cbn in Ew. destruct (Vault.unattended g !! fi_workflow f) as [d|]; [|done]. by case_decide; subst.
Qed.

Lemma admit_inbound_Ok w s now st adm :
  admit_inbound w s now st = Ok adm ->
  let t := adm_template adm in let g := adm_grant adm in
  adm_who adm = w /\ (exists i c b, wh_kind w = KInbound i c b /\ idp_iss g = i) /\
  Vault.sub g = stable_id (wh_typed w) /\ t ∈ dg_templates st /\ admits t w (sv_idp s) = true /\
  ceilings g = t_servers t /\ is_Some (ceilings g !! sv_name s).
Proof.
  unfold admit_inbound. intros E. apply res_bind_Ok in E as (p & _ & E). apply res_bind_Ok in E as (i & Ei & E).
  case_decide as Hi; [|done]. apply res_bind_Ok in E as (x & _ & E). apply res_bind_Ok in E as (t & Et & E).
  unfold template_for, ok_or in Et. destruct (List.find _ _) as [t'|] eqn:Ef; [|done]. injection Et as ->.
  apply find_elem in Ef as [Hin Ha]. cbv zeta in E. destruct (ceilings_of t !! sv_name s) eqn:Ec; [|done].
  injection E as <-. cbv zeta. cbn. destruct (wh_kind w) as [i' c b| | |]; try done. injection Ei as ->.
  split_and!; try done. by exists i, c, b.
Qed.

(** C40: a delegated call acts as whoever it is for, and no further than they
    consented. In every state reached from a start over a store that agentd
    alone wrote, where the digest mistakes no grant held for the caller's, a
    call that is admitted is for the caller as they stand now and a template of
    now admits them; the server is one of the ceiling's, and every ceiling is
    within the template's. The grant it acts under names that caller's own
    subject at the identity provider: the subject a rule pins, the verified
    token's, the one this very session proved, or, for a caller of an inbound
    token typed by OIDC, that token's. To a server that exchanges inbound
    tokens, the caller came with one, and the grant is made for its issuer and
    subject, whatever types the caller; to any other server, the grant is in
    force and every ceiling is within the one stored. A call nobody is there for
    runs the definition consented to, digest for digest. *)
Theorem admitted_acts_as a server now st st' adm :
  Forall short issuers -> come_to st -> admit_ a server now st = (st', Ok adm) ->
  typed_short (wh_typed (adm_who adm)) -> no_mistake st (adm_who adm) ->
  let w := adm_who adm in let g := adm_grant adm in let t := adm_template adm in
  who a st = Ok w /\ acts_as st w g /\
  exists s, dg_servers st !! server = Some s /\ t ∈ dg_templates st /\ admits t w (sv_idp s) = true /\
  is_Some (ceilings g !! server) /\ within (ceilings g) (t_servers t) /\
  (if exchanges_inbound s
   then exists i c b, wh_kind w = KInbound i c b /\ idp_iss g = i /\ Vault.sub g = stable_id (wh_typed w)
   else now < expires_ms g /\
     exists g0, dg_grants st !! grant_id_ g = Some g0 /\ within (ceilings g) (ceilings g0)) /\
  (forall f, wh_firing w = Some f ->
    allows_unattended t (fi_via f) = true /\ Vault.unattended g !! fi_workflow f = Some (fi_digest f)).
Proof.
  intros Hiss Hst%reached_sound E Hshort Hnm. cbv zeta. destruct Hst as (Hown & _ & Hp & Hi & Hn).
  unfold admit_ in E. apply bind_Ok in E as (? & ? & [= <- <-] & E). destruct (negb _); [done|].
  apply bind_Ok in E as (? & w & Ew & E). injection Ew as <- Ew. unfold admit_who in E.
  apply bind_Ok in E as (? & ? & [= <- <-] & E). apply bind_Ok in E as (? & s & Es & E). injection Es as <- Es.
  unfold ok_or in Es. destruct (dg_servers st !! server) as [s'|] eqn:Esv; [|done]. injection Es as ->.
  destruct (inbound_expired w); [done|]. pose proof (who_shape a st w Ew) as Hsh. pose proof (who_fits a st w Hp Ew) as Hfit.
  destruct (exchanges_inbound s) eqn:Ex.
  - injection E as _ E. apply admit_inbound_Ok in E. cbv zeta in E.
    destruct E as (<- & (i & c & b & Ek & Eiss) & Esub & Hin & Ha & Ec & Hs). split; [done|]. split.
    { unfold acts_as. rewrite Ek. intros _. split; [by left|done]. }
    exists s. split_and!; try done; [by rewrite (Hn server s Esv) in Hs|rewrite Ec; by intros ? l ?; exists l|rewrite Ex; by exists i, c, b|].
    rewrite Ek in Hsh. by rewrite Hsh.
  - apply bind_Ok in E as (? & p & Epr & E). injection Epr as <- Epr. cbv zeta in E.
    destruct (dg_grants st !! _) as [g0|] eqn:Eg.
    2: { by apply bind_Ok in E as (? & ? & _ & E). }
    injection E as _ E. apply admit_held_Ok in E. cbv zeta in E. set (t := adm_template adm) in *.
    destruct E as (Eadm & Eh & Hexp & Hin & Ha & Hs & Hf).
    assert (adm_who adm = w /\ adm_grant adm = with_ceilings (narrowed (ceilings g0) t) g0) as [Eww Egg]
      by (by rewrite Eadm).
    rewrite Eww in Hshort, Hnm |- *. rewrite Egg in Hs |- *.
    pose proof (Hown _ _ Eg) as Ho. pose proof Ho as (Eid & _ & Hts & (iss & Hin' & Ekey) & _).
    destruct (narrowed_within (ceilings g0) t) as [Hw1 Hw2].
    split; [done|]. split.
    + unfold ok_or in Epr. destruct (dg_providers st !! sv_idp s) as [p'|] eqn:Ep; [|done]. injection Epr as ->.
      pose proof (Hnm _ g0 iss (ip_issuer p) Eg Hin' (Hi _ _ Ep) (eq_sym Ekey)) as Epre.
      rewrite Forall_forall in Hiss. apply grant_preimage_inj in Epre; [|by apply parts_short; auto|apply parts_short; eauto].
      destruct Epre as (? & ? & _ & ? & _).
      apply (held_acts_as st w g0 _ Eh Ho); [done|by destruct (wh_kind w)|done..].
    + exists s. rewrite Ex. split_and!; try done. exists g0. split; [|done].
      cbn [with_ceilings grant_id_]. by rewrite <- Eid.
Qed.
End grants.

(** Ann signs in at her company's provider; a call of her session to the files
    server is admitted under the grant that keeps. *)
Module Sample.
#[local] Instance clock : Clock := {| wall n := 1700000000000 + Z.of_nat n; mono n := Z.of_nat n |}.
#[local] Instance size : JsonLen := fun _ => 100.
#[local] Instance digest : Sha := text.
#[local] Instance plain_aead : Seal.Aead := {|
  Seal.gcm_seal k n a t := Some (t ++ replicate 16 0);
  Seal.gcm_open k n a t := Some (take (length t - 16) t);
|}.
#[local] Instance map_log : AnchorLog (gmap string Chain.Anchor) := {|
  log_anchors c := c;
  log_anchor g a c := (Chain.merge_entry g a c, true);
|}.
Definition set_proof (f : IdpProof) (s : SessionInfo) : SessionInfo :=
  mkSessionInfo (se_principal s) (se_typed s) (se_role s) (Some f) (se_inbound s).
#[local] Instance book : SessionBook (gmap string SessionInfo) := {|
  book_session sid b := b !! sid;
  book_inbound_token _ _ := None;
  book_sessions := entries;
  book_set_proof sid f b := alter (set_proof f) sid b;
  book_drop_device_proofs _ b := b;
|}.

Abbreviation State := (Delegation MemoryStore (gmap string Chain.Anchor) (gmap string SessionInfo)).
Definition ann : PrincipalRef := mkRef Oidc "https://idp" None "ann" None.
Definition staff : Template :=
  mkTemplate "staff" (mkTemplateMatch (Some "oidc") None ∅) "corp" {["files" := ["read"]]} None [] UnNever.
Definition files : Server := mkServer "files" IdJag "corp" ["read"] ∅ PerServer.
Definition vault : Vault MemoryStore (gmap string Chain.Anchor) :=
  mkVault (durable_new memory_new "agentd" "house" policy_default false ∅) (Local (replicate 32 7) None) None.
Definition started : State := build {["corp" := mkIdp "https://idp" []]} {["files" := files]} [staff] ∅ false [] vault.
Definition listening : State := set_book (Some {["s1" := mkSessionInfo "ann" ann User None None]}) started.
Definition acting : Acting := mkActing None (Some "s1").
Definition ann_now : Who := mkWho (display ann) ann User ∅ KOidc (Some "s1") None None.
Definition signed_in : State :=
  (keep ann_now "corp" (mkClaims "https://idp" "ann" None) (Some "token") 1000
    (mkDraws (Some (replicate 12 1)) None None) listening).1.

Abbreviation idps := ["https://idp"%string].
Lemma vault_own : recs (own idps) vault.
Proof.
  intros g env s (q & x & [Hx _] & _). exfalso. revert Hx. unfold dview, vault. cbn.
  unfold memory_view. cbn. rewrite lookup_omap, lookup_empty. done.
Qed.
Lemma ann_short : typed_short ann.
Proof. by vm_compute. Qed.
Lemma signed_in_reached : come_to idps signed_in.
Proof.
  assert (come_to idps listening) as Hl.
  { apply r_book, r_built; [exact vault_own| | |].
    - intros p Hp. by apply elem_of_nil in Hp.
    - intros n p [<- <-]%lookup_singleton_Some. by left.
    - by intros n s [<- <-]%lookup_singleton_Some. }
  apply (r_keep idps acting) with (st0 := listening); [done|done|vm_compute; reflexivity|exact ann_short|done].
Qed.

Lemma admitted_acts_as_witness :
  match admit_ acting "files" 2000 signed_in with
  | (_, Ok adm) => idp_iss (adm_grant adm) = "https://idp" /\ Vault.sub (adm_grant adm) = "ann"
  | (_, Err _) => False
  end.
Proof.
  assert ((fun adm => (adm_who adm)) <$> ok (admit_ acting "files" 2000 signed_in).2 =
    Some (mkWho (display ann) ann User ∅ KOidc (Some "s1") (Some (mkIdpProof "corp" "https://idp" "ann" 1000)) None)) as Ew
    by (vm_compute; reflexivity).
  destruct (admit_ acting "files" 2000 signed_in) as [st' [adm|e]] eqn:E; cbn in Ew; [|done].
  injection Ew as Ew.
  assert (no_mistake idps signed_in (adm_who adm)) as Hnm.
  { intros k g iss iss' _ _ _ El.
    change (text (grant_preimage (principal g) iss) = text (grant_preimage (wh_typed (adm_who adm)) iss')) in El.
    apply (f_equal chars) in El. by rewrite !chars_text in El. }
  assert (Forall short idps) as Hs by (repeat constructor).
  pose proof (admitted_acts_as idps acting "files" 2000 signed_in st' adm Hs signed_in_reached E) as Ht.
  rewrite Ew in Ht, Hnm. destruct (Ht ann_short Hnm) as (_ & Ha & _). exact Ha.
Defined.
End Sample.
End DelegationProps.
